(** * task-list-and-time: the outline tree, the todo item and tracking resume

    A shallow embedding of the TypeScript sources:
    - [models/todoItem.ts]: the [TodoItem] class (state machine of one item);
    - [popup/Popup.tsx]: the [savedTrackingStateList] selector that rehydrates
      the persisted tracking records, the text of the task list read and
      written by line, the checkbox of a task, and the list of tracked lines
      as [TaskItem] reads and writes it;
    - [models/node.ts]: the [Node] class, its subclass [HeadingNode], the
      module helper [clone] and [nodeToString], over an explicit object store;
    - [hooks/useTaskStorage]: [updateRecords]; the loop of [importGoogle]
      that appends nodes; the predicate of [getItem].

    JavaScript numbers that hold integers (line numbers, millisecond
    timestamps, counters) are modelled as [Z]; object references are
    addresses into a store. *)

From Stdlib Require Import ZArith Lia String List Bool Ascii.
From stdpp Require Import base tactics option list.

Set Warnings "-register-all".
Local Open Scope Z_scope.

(** ** Outcomes of running JavaScript code *)

(** The values [throw] can carry in the modelled code. *)
Inductive JsError :=
| TypeError  (* property access on [undefined] *)
| Thrown.    (* whatever a caller-supplied predicate throws *)

(** What a call produces: a value, a JavaScript exception, or no result within
    the model (the recursion bound was too small, or a reference pointed
    outside the store, which no JavaScript reference does). *)
Inductive outcome (A : Type) :=
| Val (a : A)
| Exn (e : JsError)
| OutOfFuel
| BadRef.
Arguments Val {A} a.
Arguments Exn {A} e.
Arguments OutOfFuel {A}.
Arguments BadRef {A}.

(** ** Time (models/time) *)

(** Modelled from the spec: the class [Time] of [models/time] is imported by
    the sources but is not among them.  Sections 3 and 4.4 of the
    specification give its data and operations: four integer components,
    construction from explicit components, from a millisecond count (integer
    division down to whole minutes, the remainder dropped), and [add] with
    carry (60 seconds, 60 minutes, 24 hours; days unbounded). *)
Record Time := new_Time {
  _seconds : Z;
  _minutes : Z;
  _hours : Z;
  _days : Z
}.

(** [new Time()] *)
Definition Time_zero : Time := new_Time 0 0 0 0.

(** Modelled from the spec: [Time.parseMs], section 4.4 (c). *)
Definition Time_parseMs (ms : Z) : Time :=
  let minutes := ms / 60000 in
  new_Time 0 (minutes mod 60) ((minutes / 60) mod 24) (minutes / 1440).

(** Modelled from the spec: [Time.add], section 4.4.  The receiver is updated
    in place; the model returns its new contents. *)
Definition Time_add (this other : Time) : Time :=
  let s := _seconds this + _seconds other in
  let m := _minutes this + _minutes other + s / 60 in
  let h := _hours this + _hours other + m / 60 in
  let d := _days this + _days other + h / 24 in
  new_Time (s mod 60) (m mod 60) (h mod 24) d.

(** ** TodoItem (models/todoItem.ts) *)

Inductive TodoState := STOP | RUNNING | COMPLETE.

(** The fields of a [TodoItem].  [actualTimes] is declared without an
    initialiser, so it reads [undefined] ([None]) until something assigns
    it. *)
Record TodoItem := mkTodoItem {
  todo_id : Z;
  title : string;
  todoState : TodoState;
  estimatedTimes : Time;
  actualTimes : option Time;
  trackingStartTime : Z
}.

(** [static getId()]: increments the class counter [taskId] and returns it.
    The counter is threaded explicitly. *)
Definition TodoItem_getId (taskId : Z) : Z * Z := (taskId + 1, taskId + 1).

(** [constructor(title, time)] *)
Definition TodoItem_new (title : string) (time : Time) (taskId : Z)
  : TodoItem * Z :=
  let '(i, taskId') := TodoItem_getId taskId in
  ({| todo_id := i;
      title := title;
      todoState := STOP;
      estimatedTimes := time;
      actualTimes := None;
      trackingStartTime := 0 |}, taskId').

(** [trackingStart()]; [now] is the value [Date.now()] returns. *)
Definition TodoItem_trackingStart (now : Z) (this : TodoItem) : TodoItem :=
  {| todo_id := todo_id this;
     title := title this;
     todoState := RUNNING;
     estimatedTimes := estimatedTimes this;
     actualTimes := actualTimes this;
     trackingStartTime := now |}.

(** [trackingEnd()].  [this.actualTimes.add(..)] is a property access on
    [this.actualTimes]: on [undefined] it throws before any field of the
    item has been written. *)
Definition TodoItem_trackingEnd (now : Z) (this : TodoItem)
  : outcome unit * TodoItem :=
  let elapsedTimeMs := now - trackingStartTime this in
  let elapsedTime := Time_parseMs elapsedTimeMs in
  match actualTimes this with
  | None => (Exn TypeError, this)
  | Some actual =>
      (Val tt,
       {| todo_id := todo_id this;
          title := title this;
          todoState := STOP;
          estimatedTimes := estimatedTimes this;
          actualTimes := Some (Time_add actual elapsedTime);
          trackingStartTime := 0 |})
  end.

(** [complete()] *)
Definition TodoItem_complete (this : TodoItem) : TodoItem :=
  {| todo_id := todo_id this;
     title := title this;
     todoState := COMPLETE;
     estimatedTimes := estimatedTimes this;
     actualTimes := actualTimes this;
     trackingStartTime := trackingStartTime this |}.

Section TodoItemParse.
(** The regular-expression engine belongs to the JavaScript runtime.
    [exec] of a pattern on a string is [None] when there is no match (then
    [test] is false) and otherwise the capture groups, [None] for a group
    that took no part in the match. *)
Variable todoRegexp_exec : string -> option (nat -> option string).
Variable timeRegexp_exec : string -> option (nat -> option string).
(** [Time.parseStr], of the absent [models/time]. *)
Variable Time_parseStr : string -> Time.

(** A possibly [undefined] value used where a string is expected. *)
Definition to_js_string (v : option string) : string :=
  match v with Some s => s | None => "undefined"%string end.

(** [private static parseTime(todoStr)].  [Log.w] writes a warning to the
    console and changes nothing the item depends on; the two calls in
    [parseTime] and [parse] are left out. *)
Definition TodoItem_parseTime (todoStr : option string) : Time :=
  match timeRegexp_exec (to_js_string todoStr) with
  | Some m =>
      match m 1%nat with
      | Some m1 =>
          if String.eqb m1 EmptyString then Time_zero else Time_parseStr m1
      | None => Time_zero
      end
  | None => Time_zero
  end.

(** [static parse(todoStr)].  Group 2 of the pattern is [(.+)], which takes
    part in every match. *)
Definition TodoItem_parse (todoStr : string) (taskId : Z) : TodoItem * Z :=
  match todoRegexp_exec todoStr with
  | Some m =>
      let title := to_js_string (m 2%nat) in
      let timeStr := m 3%nat in
      let time := TodoItem_parseTime timeStr in
      TodoItem_new title time taskId
  | None => TodoItem_new EmptyString Time_zero taskId
  end.
End TodoItemParse.

(** ** The tracking records read back from storage (popup/Popup.tsx) *)

(** [TimeObject]: a [Time] as the storage returns it, a plain object. *)
Record TimeObject := mkTimeObject {
  obj_seconds : Z;
  obj_minutes : Z;
  obj_hours : Z;
  obj_days : Z
}.

(** [TrackingState], with the elapsed time still a plain object ... *)
Record StoredTracking := mkStoredTracking {
  stored_line : Z;
  stored_isTracking : bool;
  stored_trackingStartTime : Z;
  stored_elapsedTime : TimeObject
}.

(** ... and with the elapsed time an instance of [Time]. *)
Record TrackingState := mkTrackingState {
  line : Z;
  isTracking : bool;
  tracking_trackingStartTime : Z;
  elapsedTime : Time
}.

(** The body of [trackings.map((tracking) => ...)]; [now] is what
    [Date.now()] returns while this record is processed. *)
Definition rehydrate (now : Z) (tracking : StoredTracking) : TrackingState :=
  let obj := stored_elapsedTime tracking in
  let elapsed :=
    new_Time (obj_seconds obj) (obj_minutes obj) (obj_hours obj) (obj_days obj) in
  let elapsed :=
    if stored_isTracking tracking then
      let elapsedTimeMs := now - stored_trackingStartTime tracking in
      let elapsedTime := Time_parseMs elapsedTimeMs in
      Time_add elapsed elapsedTime
    else elapsed in
  {| line := stored_line tracking;
     isTracking := stored_isTracking tracking;
     tracking_trackingStartTime := stored_trackingStartTime tracking;
     elapsedTime := elapsed |}.

(** The [get] of the selector [savedTrackingStateList].  [trackings] is what
    the storage holds under the key ([None] for nothing stored); [clock i] is
    the reading of [Date.now()] taken for the record at index [i]. *)
Definition savedTrackingStateList (clock : nat -> Z)
    (trackings : option (list StoredTracking)) : list TrackingState :=
  match trackings with
  | None => []
  | Some trackings => imap (fun i tracking => rehydrate (clock i) tracking) trackings
  end.

(** ** The text of the task list, line by line (popup/Popup.tsx) *)

(** The line feed. *)
Definition newline : ascii := "010"%char.

(** [s.split(/\n/)]: the pieces of [s] between its line feeds; there is
    always at least one piece. *)
Fixpoint split_lines (s : string) : list string :=
  match s with
  | EmptyString => [EmptyString]
  | String c s' =>
      if Ascii.eqb c newline then EmptyString :: split_lines s'
      else match split_lines s' with
           | l :: ls => String c l :: ls
           | [] => [String c EmptyString]
           end
  end.

(** [lines.join('\n')] *)
Fixpoint join_lines (lines : list string) : string :=
  match lines with
  | [] => EmptyString
  | l :: ls =>
      match ls with
      | [] => l
      | _ :: _ => (l ++ String newline (join_lines ls))%string
      end
  end.

(** [array[i]] for an integer [i]: [undefined] ([None]) when [i] is negative
    or not below the length. *)
Definition js_get {A} (array : list A) (i : Z) : option A :=
  if i <? 0 then None else array !! Z.to_nat i.

(** [array[i] = x] for an integer [i] below the length: a negative [i] names
    a property of the object, which is no element and which [join] does not
    see. *)
Definition js_set {A} (array : list A) (i : Z) (x : A) : list A :=
  if i <? 0 then array else <[Z.to_nat i:=x]> array.

(** What [Log.e] is given by [getTextByLine] and [setTextByLine]. *)
Definition line_does_not_exist : string :=
  "The specified line does not exist."%string.

(** [getTextByLine(line)] of [TaskListState], for an integer [line], with
    [textValue] the text of the atom: the value returned ([None] for
    [undefined]) and what [Log.e] was given.  [Log.d] writes a line for
    debugging and is left out, here and below. *)
Definition getTextByLine (textValue : string) (line : Z)
  : option string * list string :=
  let lines := split_lines textValue in
  let line := line - 1 in
  if Z.of_nat (length lines) >? line then (js_get lines line, [])
  else (Some EmptyString, [line_does_not_exist]).

(** [setTextByLine(line, text)]: the text handed to [setText], if any, and
    what [Log.e] was given. *)
Definition setTextByLine (textValue : string) (line : Z) (text : string)
  : option string * list string :=
  let lines := split_lines textValue in
  let line := line - 1 in
  if Z.of_nat (length lines) >? line then
    let lines := js_set lines line text in
    let newText := join_lines lines in
    (Some newText, [])
  else (None, [line_does_not_exist]).

(** Whether [s] has a line feed in it. *)
Fixpoint has_newline (s : string) : bool :=
  match s with
  | EmptyString => false
  | String c s' => Ascii.eqb c newline || has_newline s'
  end.

(** Whether [s] starts with [pattern]. *)
Fixpoint starts_with (pattern s : string) : bool :=
  match pattern, s with
  | EmptyString, _ => true
  | String a p, String b s' => Ascii.eqb a b && starts_with p s'
  | String _ _, EmptyString => false
  end.

(** [s] without its first [n] characters. *)
Fixpoint drop_chars (n : nat) (s : string) : string :=
  match n, s with
  | S n, String _ s' => drop_chars n s'
  | _, _ => s
  end.

(** [s.replace(pattern, replacement)] for a string [pattern] and a
    [replacement] without [$]: the first occurrence of [pattern] in [s], if
    there is one, is replaced. *)
Fixpoint replace_first (pattern replacement s : string) : string :=
  if starts_with pattern s then
    (replacement ++ drop_chars (String.length pattern) s)%string
  else
    match s with
    | EmptyString => EmptyString
    | String c s' => String c (replace_first pattern replacement s')
    end.

(** Whether [pattern] occurs in [s]. *)
Fixpoint occurs (pattern s : string) : bool :=
  starts_with pattern s ||
  match s with
  | EmptyString => false
  | String _ s' => occurs pattern s'
  end.

(** The box of a task list item: ["[ ]"] and ["[x]"]. *)
Definition box (mark : ascii) : string :=
  String "["%char (String mark (String "]"%char EmptyString)).

(** [toggleItemCompletion] of [TaskItem], in the [popup/Popup.tsx] that keeps
    the text in [todoListText], with [dataset_line] the integer in
    [e.target.dataset.line]: the text handed to [setTodoListText].
    [lines[line].replace] throws when [lines[line]] is [undefined]. *)
Definition Popup_toggleItemCompletion (todoListText : string) (dataset_line : Z)
    (checked : bool) : outcome string :=
  let line := dataset_line - 1 in
  let lines := split_lines todoListText in
  match js_get lines line with
  | None => Exn TypeError
  | Some l =>
      let lines :=
        if checked
        then js_set lines line (replace_first (box " ") (box "x") l)
        else js_set lines line (replace_first (box "x") (box " ") l) in
      let newText := join_lines lines in
      Val newText
  end.

(** A task list of three lines. *)
Definition example_text : string :=
  ("- [ ] a" ++ String newline ("- [ ] b" ++ String newline "# c"))%string.

(** ** The list of tracked lines (popup/Popup.tsx) *)

(** [trackings.find((n) => n.line === line)] in [TaskItem]: the first record
    of the line [ln], [None] for [undefined]. *)
Definition TaskItem_tracking (trackings : list TrackingState) (ln : Z)
  : option TrackingState :=
  List.find (fun n => line n =? ln) trackings.

(** [isTracking()] of [TaskItem] *)
Definition TaskItem_isTracking (tracking : option TrackingState) : bool :=
  match tracking with
  | None => false
  | Some tracking => isTracking tracking
  end.

(** The handler [TaskItem] registers for [TASK_EVENT.TRACKING_STATE_CHANGE]:
    the list it gives to [setTrackings], if it calls it. *)
Definition onTrackingStateChange (trackings : list TrackingState) (ln : Z)
    (isTracking : bool) : option (list TrackingState) :=
  if negb isTracking then
    let newTrackings := List.filter (fun n => negb (line n =? ln)) trackings in
    Some newTrackings
  else None.


(** ** The object store (models/node.ts) *)

(** A reference to an object: its index in the store. *)
Abbreviation addr := nat (only parsing).

(** [NODE_TYPE] *)
Inductive NodeType := TASK | HEADING | OTHER | ROOT.

(** Modelled from the spec: the class [Task] of [models/task] is imported by
    [models/node.ts] but is not among the sources.  These are the attributes
    section 3 of the specification lists; the two durations are owned by the
    task and held in place. *)
Record Task := mkTask {
  task_id : Z;
  task_title : string;
  completion : bool;
  estimatedTime : Time;
  actualTime : Time;
  task_trackingStartTime : Z;
  indent : Z
}.

(** [data: Task | string]: a reference to a [Task] object, or a string. *)
Inductive NodeData :=
| DataTask (t : addr)
| DataString (s : string).

(** What the class of the object adds: an instance of [Node] has
    [data: Task | string]; an instance of [HeadingNode] has [data: string]
    and [level: number]. *)
Inductive NodeBody :=
| PlainNode (data : NodeData)
| HeadingNode (data : string) (level : Z).

Record Node := mkNode {
  node_type : NodeType;
  node_line : Z;
  node_body : NodeBody;
  node_parent : option addr;      (* [undefined] is [None] *)
  node_children : list addr;
  node_collapsed : option bool;   (* [undefined] until assigned *)
  node_id : string
}.

(** The heap of [Node] objects, the heap of [Task] objects, and what [Log.w]
    has been given so far. *)
Record Store := mkStore {
  nodes : list Node;
  tasks : list Task;
  log : list JsError
}.

(** Code that reads and writes the store and may throw. *)
Definition M (A : Type) : Type := Store -> outcome A * Store.

Definition ret {A} (a : A) : M A := fun s => (Val a, s).

Definition bind {A B} (m : M A) (k : A -> M B) : M B :=
  fun s =>
    match m s with
    | (Val a, s') => k a s'
    | (Exn e, s') => (Exn e, s')
    | (OutOfFuel, s') => (OutOfFuel, s')
    | (BadRef, s') => (BadRef, s')
    end.

Notation "x <- m ;; k" := (bind m (fun x => k))
  (at level 100, m at next level, right associativity).
Notation "m ;;; k" := (bind m (fun _ => k))
  (at level 100, right associativity).

Definition throw {A} (e : JsError) : M A := fun s => (Exn e, s).
Definition out_of_fuel {A} : M A := fun s => (OutOfFuel, s).
Definition bad_ref {A} : M A := fun s => (BadRef, s).

(** [try { body } catch (e) { handler(e) }]: the writes [body] made before it
    threw stay. *)
Definition try_catch {A} (body : M A) (handler : JsError -> M A) : M A :=
  fun s =>
    match body s with
    | (Exn e, s') => handler e s'
    | r => r
    end.

(** [Log.w(e)] *)
Definition Log_w (e : JsError) : M unit :=
  fun s => (Val tt, mkStore (nodes s) (tasks s) (log s ++ [e])).

Definition getNode (a : addr) : M Node :=
  fun s => match nodes s !! a with
           | Some n => (Val n, s)
           | None => (BadRef, s)
           end.

Definition setNode (a : addr) (n : Node) : M unit :=
  fun s => (Val tt, mkStore (<[a:=n]> (nodes s)) (tasks s) (log s)).

(** An assignment to fields of the object at [a]. *)
Definition modNode (a : addr) (f : Node -> Node) : M unit :=
  n <- getNode a ;; setNode a (f n).

(** [new]: the object goes to the next free address. *)
Definition allocNode (n : Node) : M addr :=
  fun s => (Val (length (nodes s)), mkStore (nodes s ++ [n]) (tasks s) (log s)).

Definition set_line (l : Z) (n : Node) : Node :=
  mkNode (node_type n) l (node_body n) (node_parent n) (node_children n)
         (node_collapsed n) (node_id n).
Definition set_body (b : NodeBody) (n : Node) : Node :=
  mkNode (node_type n) (node_line n) b (node_parent n) (node_children n)
         (node_collapsed n) (node_id n).
Definition set_parent (p : option addr) (n : Node) : Node :=
  mkNode (node_type n) (node_line n) (node_body n) p (node_children n)
         (node_collapsed n) (node_id n).
Definition set_children (cs : list addr) (n : Node) : Node :=
  mkNode (node_type n) (node_line n) (node_body n) (node_parent n) cs
         (node_collapsed n) (node_id n).

(** Modelled from the spec: [Task.clone()], of the absent [models/task].
    Section 3: a task is deep-copied whenever its node is cloned; section
    4.1: task payloads are deep-cloned.  A new [Task] object with the same
    attributes. *)
Definition Task_clone (t : addr) : M addr :=
  fun s => match tasks s !! t with
           | Some tk => (Val (length (tasks s)),
                         mkStore (nodes s) (tasks s ++ [tk]) (log s))
           | None => (BadRef, s)
           end.

(** [Array.prototype.map] with a callback that uses the store. *)
Fixpoint mapM {A B} (f : A -> M B) (l : list A) : M (list B) :=
  match l with
  | [] => ret []
  | x :: l => y <- f x ;; ys <- mapM f l ;; ret (y :: ys)
  end.

(** [Array.prototype.filter] with a callback that uses the store. *)
Fixpoint filterM {A} (f : A -> M bool) (l : list A) : M (list A) :=
  match l with
  | [] => ret []
  | x :: l => b <- f x ;; ys <- filterM f l ;; ret (if b then x :: ys else ys)
  end.

(** [Array.prototype.forEach]; the second form passes the index. *)
Fixpoint forEach {A} (f : A -> M unit) (l : list A) : M unit :=
  match l with
  | [] => ret tt
  | x :: l => f x ;;; forEach f l
  end.

Fixpoint forEachFrom {A} (f : A -> nat -> M unit) (index : nat) (l : list A)
  : M unit :=
  match l with
  | [] => ret tt
  | x :: l => f x index ;;; forEachFrom f (S index) l
  end.

(** [Node.prototype.clone] and [HeadingNode.prototype.clone], chosen by the
    class of the receiver.  The constructor's own assignments ([id] a random
    string, [children] empty) are overwritten before the new object can be
    seen, so the object is allocated with its final fields; then, for a
    [Node] whose data is a [Task], [c.data = this.data.clone()]. *)
Definition Node_clone (this : addr) : M addr :=
  n <- getNode this ;;
  match node_body n with
  | PlainNode d =>
      c <- allocNode (mkNode (node_type n) (node_line n) (PlainNode d)
                             (node_parent n) (node_children n)
                             (node_collapsed n) (node_id n)) ;;
      match d with
      | DataTask t =>
          t' <- Task_clone t ;;
          modNode c (set_body (PlainNode (DataTask t'))) ;;;
          ret c
      | DataString _ => ret c
      end
  | HeadingNode d level =>
      allocNode (mkNode (node_type n) (node_line n) (HeadingNode d level)
                        (node_parent n) (node_children n)
                        (node_collapsed n) (node_id n))
  end.

(** The module helper [clone(nodes, parent)].  [fuel] bounds the depth of the
    recursion. *)
Fixpoint clone (fuel : nat) (nodes : list addr) (parent : option addr)
  : M (list addr) :=
  mapM (fun a =>
          match fuel with
          | O => out_of_fuel
          | S fuel =>
              b <- Node_clone a ;;
              modNode b (set_parent parent) ;;;
              nb <- getNode b ;;
              cs <- clone fuel (node_children nb) (Some b) ;;
              modNode b (set_children cs) ;;;
              ret b
          end) nodes.

(** [type Predicate = (n: Node) => boolean]: a function of the node it is
    handed, free to read whatever that reference reaches in the store, and
    free to throw. *)
Definition Predicate := Store -> addr -> outcome bool.

Definition call (predicate : Predicate) (n : addr) : M bool :=
  fun s => (predicate s n, s).

(** The [while] loop of [find].  [fuel] bounds the number of iterations. *)
Fixpoint find_loop (fuel : nat) (predicate : Predicate) (queue : list addr)
  : M (option addr) :=
  match queue with
  | [] => ret None
  | elm :: queue =>
      match fuel with
      | O => out_of_fuel
      | S fuel =>
          found <- call predicate elm ;;
          if found then ret (Some elm)
          else
            n <- getNode elm ;;
            find_loop fuel predicate (queue ++ node_children n)
      end
  end.

(** [Node.prototype.find] *)
Definition Node_find (fuel : nat) (predicate : Predicate) (this : addr)
  : M (option addr) :=
  try_catch (find_loop fuel predicate [this])
            (fun e => Log_w e ;;; ret None).

(** The [while] loop of [filter]: [flatten] collects the nodes. *)
Fixpoint bfs_loop (fuel : nat) (queue : list addr) (flatten : list addr)
  : M (list addr) :=
  match queue with
  | [] => ret flatten
  | elm :: queue =>
      match fuel with
      | O => out_of_fuel
      | S fuel =>
          n <- getNode elm ;;
          bfs_loop fuel (queue ++ node_children n) (flatten ++ [elm])
      end
  end.

(** The callback of [reverse.forEach] in [filter]. *)
Definition prune_step (predicate : Predicate) (n : addr) : M unit :=
  matched <- call predicate n ;;
  nd <- getNode n ;;
  if negb matched && (length (node_children nd) =? 0)%nat then
    match node_parent nd with
    | None => throw TypeError
    | Some parent =>
        pn <- getNode parent ;;
        cs <- filterM (fun c => cn <- getNode c ;;
                                ret (negb (String.eqb (node_id cn) (node_id nd))))
                      (node_children pn) ;;
        modNode parent (set_children cs)
    end
  else ret tt.

(** Modelled from the spec: [flat], of the absent [models/flattenedNode].
    Section 4.2: a depth-first pre-order traversal that records each node's
    nesting depth, the root excluded and its direct children at depth 0.  An
    entry is the pair of the node and its depth. *)
Fixpoint flat_nodes (fuel : nat) (depth : nat) (nodes : list addr)
  : M (list (addr * nat)) :=
  r <- mapM (fun a =>
               match fuel with
               | O => out_of_fuel
               | S fuel =>
                   n <- getNode a ;;
                   sub <- flat_nodes fuel (S depth) (node_children n) ;;
                   ret ((a, depth) :: sub)
               end) nodes ;;
  ret (concat r).

Definition flat (fuel : nat) (root : addr) : M (list (addr * nat)) :=
  n <- getNode root ;;
  flat_nodes fuel 0 (node_children n).

(** [Node.prototype.filter] *)
Definition Node_filter (fuel : nat) (predicate : Predicate) (this : addr)
  : M addr :=
  cl <- clone fuel [this] None ;;
  match cl with
  | [cloned] =>
      try_catch
        (flatten <- bfs_loop fuel [cloned] [] ;;
         let reverse := rev flatten in
         forEach (prune_step predicate) reverse ;;;
         flattenFiltered <- flat fuel cloned ;;
         forEachFrom (fun f index =>
                        modNode (fst f) (set_line (Z.of_nat index + 1)))
                     0 flattenFiltered)
        (fun e => Log_w e) ;;;
      ret cloned
  | _ => bad_ref
  end.

(** [Node.prototype.replace] *)
Definition Node_replace (fuel : nat) (node : addr) (predicate : Predicate)
    (this : addr) : M addr :=
  cl <- clone fuel [this] None ;;
  match cl with
  | [cloned] =>
      target <- Node_find fuel predicate cloned ;;
      match target with
      | None => ret cloned
      | Some target =>
          tn <- getNode target ;;
          match node_parent tn with
          | None => ret cloned
          | Some parent =>
              modNode node (fun n =>
                mkNode (node_type n) (node_line tn) (node_body n) (Some parent)
                       (node_children tn) (node_collapsed n) (node_id tn)) ;;;
              pn <- getNode parent ;;
              cs <- mapM (fun c =>
                            cn <- getNode c ;;
                            nn <- getNode node ;;
                            ret (if String.eqb (node_id cn) (node_id nn)
                                 then node else c))
                         (node_children pn) ;;
              modNode parent (set_children cs) ;;;
              ret cloned
          end
      end
  | _ => bad_ref
  end.

(** [Node.prototype.append].  [push] writes the children array of the clone,
    which the helper [clone] has just built and no other node holds. *)
Definition Node_append (fuel : nat) (node : nat) (this : nat) : M nat :=
  cl <- clone fuel [this] None ;;
  match cl with
  | [cloned] =>
      flatten <- flat fuel this ;;
      modNode node (set_line (Z.of_nat (length flatten) + 1)) ;;;
      modNode node (set_parent (Some cloned)) ;;;
      cn <- getNode cloned ;;
      modNode cloned (set_children (node_children cn ++ [node])) ;;;
      ret cloned
  | _ => bad_ref
  end.

(** [nodes.forEach((n) => (root = root.append(n)))] in [importGoogle] of
    [SyncModal]: the root after the loop. *)
Fixpoint append_all (fuel : nat) (nodes : list nat) (root : nat) : M nat :=
  match nodes with
  | [] => ret root
  | n :: nodes => root <- Node_append fuel n root ;; append_all fuel nodes root
  end.

(** [''.padStart(n, c)] for a character [c]: [n] times [c]. *)
Fixpoint padStart (n : nat) (c : ascii) : string :=
  match n with
  | O => EmptyString
  | S n => String c (padStart n c)
  end.

(** The module function [depthToIndent] *)
Definition depthToIndent (depth : nat) : string := padStart (depth * 2)%nat " "%char.

(** Reading the [Task] object at [t]. *)
Definition getTask (t : nat) : M Task :=
  fun s => match tasks s !! t with
           | Some tk => (Val tk, s)
           | None => (BadRef, s)
           end.

Section NodeToString.
(** [Task.prototype.toString], of the absent [models/task]: a string made
    from the attributes of the task. *)
Variable Task_toString : Task -> string.

(** [Node.prototype.toString] and [HeadingNode.prototype.toString], chosen by
    the class of the receiver.  The length [padStart] is given is the level
    as a length: nothing for a negative level. *)
Definition Node_toString (this : nat) : M string :=
  n <- getNode this ;;
  match node_body n with
  | PlainNode data =>
      match node_type n with
      | ROOT => ret EmptyString
      | _ =>
          match data with
          | DataTask t => tk <- getTask t ;; ret (Task_toString tk)
          | DataString x => ret x
          end
      end
  | HeadingNode data level =>
      ret (padStart (Z.to_nat level) "#"%char ++ String " "%char data)%string
  end.

(** The callback [nodeToString] gives to [flatten.map].  For a node of type
    TASK, [task.clone()] is called on its data: a string has no method
    [clone], and the call throws a [TypeError].  [item.node.clone()] clones
    the task once more; [item.node.data = task] then puts the first copy in
    the new node.  [item] is an entry of the list [flat] has just built. *)
Definition nodeToString_line (item : nat * nat) : M string :=
  n <- getNode (fst item) ;;
  node <-
    match node_type n with
    | TASK =>
        match node_body n with
        | PlainNode (DataTask task) =>
            task <- Task_clone task ;;
            c <- Node_clone (fst item) ;;
            modNode c (set_body (PlainNode (DataTask task))) ;;;
            ret c
        | _ => throw TypeError
        end
    | _ => ret (fst item)
    end ;;
  let indent := depthToIndent (snd item) in
  str <- Node_toString node ;;
  ret (indent ++ str)%string.

(** The module function [nodeToString] *)
Definition nodeToString (fuel : nat) (root : nat) : M string :=
  flatten <- flat fuel root ;;
  lines <- mapM nodeToString_line flatten ;;
  ret (join_lines lines).
End NodeToString.

(** ** The saved records (hooks/useTaskStorage) *)

Section TaskRecords.
(** [Task.prototype.toString], of the absent [models/task]. *)
Variable Task_toString : Task -> string.
(** The enumeration [TaskRecordType], of the absent [hooks/useTaskManager],
    and its value [TaskRecordType.Date]. *)
Variable TaskRecordType : Type.
Variable TaskRecordType_Date : TaskRecordType.

(** An element of a [TaskRecordArray], with the fields [updateRecords]
    reads and writes. *)
Record TaskRecord := mkTaskRecord {
  record_key : string;
  record_type : TaskRecordType;
  record_data : string
}.

(** [updateRecords] of [hooks/useTaskStorage]; [key] is the string
    [key.toKey()] returns.  [found] is set by the callback of [map] when a
    record has the key. *)
Definition updateRecords (fuel : nat) (records : list TaskRecord) (key : string)
    (root : nat) : M (list TaskRecord) :=
  data <- nodeToString Task_toString fuel root ;;
  let found := existsb (fun r => String.eqb (record_key r) key) records in
  let newRecords :=
    map (fun r =>
           if String.eqb (record_key r) key
           then mkTaskRecord (record_key r) (record_type r) data
           else r) records in
  ret (if negb found
       then newRecords ++ [mkTaskRecord key TaskRecordType_Date data]
       else newRecords).
End TaskRecords.

Arguments mkTaskRecord {TaskRecordType} _ _ _.
Arguments record_key {TaskRecordType} _.
Arguments record_type {TaskRecordType} _.
Arguments record_data {TaskRecordType} _.
Arguments updateRecords Task_toString {TaskRecordType} _ _ _ _ _.

(** ** Trees as values *)

(** What a predicate can learn from a node itself: its own fields, with a
    [Task] payload read out of the store.  Left out are [parent] and
    [children], the only fields the pruning pass of [filter] writes. *)
Inductive Content :=
| ContentTask (t : Task)
| ContentString (s : string)
| ContentHeading (s : string) (level : Z).

Record View := mkView {
  view_type : NodeType;
  view_line : Z;
  view_id : string;
  view_content : Content;
  view_collapsed : option bool
}.

Definition view_of (s : Store) (n : Node) : option View :=
  match node_body n with
  | PlainNode (DataTask t) =>
      match tasks s !! t with
      | Some tk => Some (mkView (node_type n) (node_line n) (node_id n)
                                (ContentTask tk) (node_collapsed n))
      | None => None
      end
  | PlainNode (DataString x) =>
      Some (mkView (node_type n) (node_line n) (node_id n)
                   (ContentString x) (node_collapsed n))
  | HeadingNode x level =>
      Some (mkView (node_type n) (node_line n) (node_id n)
                   (ContentHeading x level) (node_collapsed n))
  end.

(** A predicate that looks at the node's own content; [None] when it
    throws. *)
Definition on_view (P : View -> option bool) : Predicate :=
  fun s a =>
    match nodes s !! a with
    | Some n =>
        match view_of s n with
        | Some v => match P v with
                    | Some b => Val b
                    | None => Exn Thrown
                    end
        | None => BadRef
        end
    | None => BadRef
    end.

(** A predicate that never throws. *)
Definition total (P : View -> bool) : View -> option bool :=
  fun v => Some (P v).

(** The task a node refers to, if any. *)
Definition task_of (n : Node) : option addr :=
  match node_body n with
  | PlainNode (DataTask t) => Some t
  | _ => None
  end.

(** A tree laid out in a store: every node with its address, its content and
    its subtrees in the order of [children]. *)
Inductive ntree := NT (a : addr) (v : View) (kids : list ntree).

Definition root (t : ntree) : addr := match t with NT a _ _ => a end.
Definition view (t : ntree) : View := match t with NT _ v _ => v end.
Definition kids_of (t : ntree) : list ntree := match t with NT _ _ kids => kids end.

Fixpoint size (t : ntree) : nat :=
  match t with NT _ _ kids => S (list_sum (map size kids)) end.

Fixpoint height (t : ntree) : nat :=
  match t with NT _ _ kids => S (foldr Nat.max O (map height kids)) end.

(** Depth-first pre-order: a node, then its subtrees from left to right. *)
Fixpoint preorder (t : ntree) : list ntree :=
  match t with NT _ _ kids => t :: flat_map preorder kids end.

Definition addrs (t : ntree) : list addr := map root (preorder t).

(** Level order: the nodes of one level from left to right, then the next
    level, which is their children in the same order; [h] levels in all. *)
Fixpoint levelorder (h : nat) (level : list ntree) : list ntree :=
  match h with
  | O => []
  | S h => level ++ levelorder h (flat_map kids_of level)
  end.

Definition bfs (t : ntree) : list ntree := levelorder (height t) [t].

(** Going through the nodes [l] from the left with [predicate], in the store
    [s]: the first node on which it returns true, unless it throws before
    that. *)
Fixpoint first_match (predicate : Predicate) (s : Store) (l : list addr)
  : outcome (option addr) :=
  match l with
  | [] => Val None
  | a :: l =>
      match predicate s a with
      | Val true => Val (Some a)
      | Val false => first_match predicate s l
      | Exn e => Exn e
      | OutOfFuel => OutOfFuel
      | BadRef => BadRef
      end
  end.

(** Pruning as section 4.1 words it, leaves before ancestors: the subtrees
    are pruned first, and a node is dropped iff it does not satisfy the
    predicate and then has no children left. *)
Fixpoint prune (P : View -> bool) (t : ntree) : option ntree :=
  match t with
  | NT a v kids =>
      let kids' := omap (prune P) kids in
      if negb (P v) && (length kids' =? 0)%nat
      then None
      else Some (NT a v kids')
  end.

(** The node [filter] is called on has no parent to be dropped from. *)
Definition prune_root (P : View -> bool) (t : ntree) : ntree :=
  match t with NT a v kids => NT a v (omap (prune P) kids) end.

(** A tree without its addresses, and without its line numbers. *)
Fixpoint anon (t : ntree) : ntree :=
  match t with NT _ v kids => NT O v (map anon kids) end.

Definition no_line (v : View) : View :=
  mkView (view_type v) 0 (view_id v) (view_content v) (view_collapsed v).

Fixpoint unline (t : ntree) : ntree :=
  match t with NT a v kids => NT a (no_line v) (map unline kids) end.

(** [repr s t]: the store holds the tree [t], that is, the object at the
    address of each node of [t] has that node's content and has the roots of
    its subtrees as [children]. *)
Inductive repr (s : Store) : ntree -> Prop :=
| repr_node a v kids n :
    nodes s !! a = Some n ->
    view_of s n = Some v ->
    node_children n = map root kids ->
    Forall (repr s) kids ->
    repr s (NT a v kids).

(** [linked s p t]: the [parent] of the root of [t] is [p], and below it
    every [parent] is the node that holds the child. *)
Inductive linked (s : Store) : option addr -> ntree -> Prop :=
| linked_node p a v kids n :
    nodes s !! a = Some n ->
    node_parent n = p ->
    Forall (linked s (Some a)) kids ->
    linked s p (NT a v kids).

(** [extends s s']: every object of [s] is in [s'], at its address and
    with the same fields; [s'] may hold more objects.  Nothing was logged. *)
Definition extends (s s' : Store) : Prop :=
  nodes s `prefix_of` nodes s' /\
  tasks s `prefix_of` tasks s' /\
  log s' = log s.

(** Invariant (2) of section 3, as far as the code relies on it: the children
    of one node have different ids. *)
Inductive sibling_ids (t : ntree) : Prop :=
| sibling_ids_node :
    NoDup (map (fun k => view_id (view k)) (kids_of t)) ->
    Forall sibling_ids (kids_of t) ->
    sibling_ids t.

(** The line numbers of the nodes below the root, in depth-first
    pre-order. *)
Definition lines_below (t : ntree) : list Z :=
  map (fun k => view_line (view k)) (flat_map preorder (kids_of t)).

(** ** Definitions used in the statements and proofs below *)

Local Open Scope nat_scope.

Definition cloned (s : Store) (par : option nat) (ts : list ntree)
    (s' : Store) (ts' : list ntree) : Prop :=
  extends s s' /\
  Forall (repr s') ts' /\
  Forall (linked s' par) ts' /\
  map anon ts' = map anon ts /\
  (forall a, a ∈ flat_map addrs ts' -> length (nodes s) <= a < length (nodes s')) /\
  NoDup (flat_map addrs ts') /\
  (forall a n tk, a ∈ flat_map addrs ts' -> nodes s' !! a = Some n ->
                  task_of n = Some tk -> length (tasks s) <= tk).

Definition fsize (ts : list ntree) : nat := list_sum (map size ts).

Definition node_at (s : Store) (a : nat) (v : View) (par : option nat)
    (cs : list nat) : Prop :=
  exists n, nodes s !! a = Some n /\ view_of s n = Some v /\
            node_parent n = par /\ node_children n = cs.

Definition has_id (s : Store) (t : ntree) : Prop :=
  exists n, nodes s !! root t = Some n /\ node_id n = view_id (view t).

Definition final_at (P : View -> bool) (s : Store) (par : nat) (k : ntree) : Prop :=
  node_at s (root k) (view k) (Some par) (map root (omap (prune P) (kids_of k))).

Definition set_pruned (P : View -> bool) (u : ntree) (n : Node) : Node :=
  set_children (map root (omap (prune P) (kids_of u))) n.

Definition pruned_at (P : View -> bool) (s s' : Store) (us : list ntree) : Prop :=
  tasks s' = tasks s /\ log s' = log s /\
  length (nodes s') = length (nodes s) /\
  (forall a, a ∉ map root us -> nodes s' !! a = nodes s !! a) /\
  Forall (fun u => exists n, nodes s !! root u = Some n /\
                             nodes s' !! root u = Some (set_pruned P u n)) us.

(* whether the node filter is called on stays clear of the [TypeError] *)
Definition root_kept (P : View -> bool) (t : ntree) : bool :=
  P (view t) || negb (length (omap (prune P) (kids_of t)) =? 0).

Definition flat_entry (fuel depth : nat) (a : nat) : M (list (nat * nat)) :=
  match fuel with
  | O => out_of_fuel
  | S fuel =>
      n <- getNode a ;;
      sub <- flat_nodes fuel (S depth) (node_children n) ;;
      ret ((a, depth) :: sub)
  end.

Definition renumber_step (f : nat * nat) (index : nat) : M unit :=
  modNode (fst f) (set_line (Z.of_nat index + 1)).

(** line numbers *)
Definition with_line (z : Z) (v : View) : View :=
  mkView (view_type v) z (view_id v) (view_content v) (view_collapsed v).

Fixpoint reline (f : nat -> Z) (t : ntree) : ntree :=
  match t with NT a v kids => NT a (with_line (f a) v) (map (reline f) kids) end.

Fixpoint index_of (a : nat) (l : list nat) : nat :=
  match l with
  | [] => O
  | x :: l => if decide (x = a) then O else S (index_of a l)
  end.

Definition new_line (l : list nat) (a : nat) : Z := (Z.of_nat (index_of a l) + 1)%Z.

Definition filter_try (fuel : nat) (predicate : Predicate) (cloned : nat) : M unit :=
  flatten <- bfs_loop fuel [cloned] [] ;;
  forEach (prune_step predicate) (rev flatten) ;;;
  flattenFiltered <- flat fuel cloned ;;
  forEachFrom renumber_step 0 flattenFiltered.

(** [s'] is [s] but for [children] fields *)
Definition children_only (s s' : Store) : Prop :=
  tasks s' = tasks s /\ log s' = log s /\
  length (nodes s') = length (nodes s) /\
  forall a n, nodes s !! a = Some n ->
              exists cs, nodes s' !! a = Some (set_children cs n).

(** The facts about a tree in the store that every step keeps. *)
Definition steady (t : ntree) (s : Store) : Prop :=
  forall u, u ∈ preorder t ->
    exists n, nodes s !! root u = Some n /\ view_of s n = Some (view u) /\
              forall p, node_parent n = Some p -> p ∈ addrs t.

Definition as_total (Q : View -> option bool) : View -> bool :=
  fun v => match Q v with Some b => b | None => false end.

(** The tree without the node at address [a] (and what hangs below it). *)
Fixpoint remove (a : nat) (t : ntree) : ntree :=
  match t with
  | NT b v kids =>
      NT b v (List.filter (fun k => negb (root k =? a)) (map (remove a) kids))
  end.

(** A predicate as JavaScript has it: called on a node of the store, it
    returns a boolean or throws. *)
Definition returns_or_throws (predicate : Predicate) : Prop :=
  forall s a n v, nodes s !! a = Some n -> view_of s n = Some v ->
    (exists b, predicate s a = Val b) \/ (exists e, predicate s a = Exn e).

(** A predicate that never throws. *)
Definition returns_boolean (predicate : Predicate) : Prop :=
  forall s a n v, nodes s !! a = Some n -> view_of s n = Some v ->
    exists b, predicate s a = Val b.

(** A tree in the store with its parent links, its nodes pairwise distinct
    objects and ids unique among siblings. *)
Definition wf (s : Store) (t : ntree) : Prop :=
  repr s t /\ linked s None t /\ NoDup (addrs t) /\ sibling_ids t.

(** What [replace] writes into [node]. *)
Definition replacement (nn tn : Node) (parent : nat) : Node :=
  mkNode (node_type nn) (node_line tn) (node_body nn) (Some parent)
         (node_children tn) (node_collapsed nn) (node_id tn).

(** A small outline: a root with a heading, which has two tasks, and a
    note; one more task node outside the tree. *)
Definition example_task (i : Z) (name : string) (done : bool) : Task :=
  mkTask i name done (new_Time 0 30 0 0) (new_Time 0 0 0 0) 0 0.

Definition example_store : Store :=
  mkStore
    [ mkNode ROOT 0 (PlainNode (DataString EmptyString)) None [1; 4] None "r"%string;
      mkNode HEADING 1 (HeadingNode "Today"%string 1) (Some 0) [2; 3] None "h"%string;
      mkNode TASK 2 (PlainNode (DataTask 0)) (Some 1) [] None "t1"%string;
      mkNode TASK 3 (PlainNode (DataTask 1)) (Some 1) [] None "t2"%string;
      mkNode OTHER 4 (PlainNode (DataString "note"%string)) (Some 0) [] None "n"%string;
      mkNode TASK 7 (PlainNode (DataTask 1)) None [] None "x"%string ]
    [ example_task 1 "write report"%string true; example_task 2 "call Bob"%string false ]
    [].

Definition example_tree : ntree :=
  NT 0 (mkView ROOT 0 "r"%string (ContentString EmptyString) None)
    [ NT 1 (mkView HEADING 1 "h"%string (ContentHeading "Today"%string 1) None)
        [ NT 2 (mkView TASK 2 "t1"%string
                  (ContentTask (example_task 1 "write report"%string true)) None) [];
          NT 3 (mkView TASK 3 "t2"%string
                  (ContentTask (example_task 2 "call Bob"%string false)) None) [] ];
      NT 4 (mkView OTHER 4 "n"%string (ContentString "note"%string) None) [] ].

(** [Node.prototype.isComplete], from the content of the node: false for a
    node whose type is not TASK; for a node of type TASK what [isComplete]
    of its [Task] gives, read as the completion flag of section 3.  On a
    node of type TASK that holds a string, [this.data.isComplete] is not a
    function and the call throws: [None]. *)
Definition Node_isComplete (v : View) : option bool :=
  match view_type v with
  | TASK =>
      match view_content v with
      | ContentTask tk => Some (completion tk)
      | _ => None
      end
  | _ => Some false
  end.

(** [(n) => n.isComplete()] where it returns, and false where it throws: a
    total predicate, which is the predicate of the code on every tree whose
    nodes of type TASK hold a [Task], as those of the example. *)
Definition is_complete (v : View) : bool := as_total Node_isComplete v.

(** A predicate that throws on the node with id [i] and holds on the node
    with id [j]. *)
Definition throws_on (i j : string) (v : View) : option bool :=
  if String.eqb (view_id v) i then None else Some (String.eqb (view_id v) j).

Definition lonely_root : Store :=
  mkStore [ mkNode ROOT 0 (PlainNode (DataString EmptyString)) None [] None "r"%string ] [] [].

(** [(n) => n.id === id] for a string [id], the predicate [getItem] of
    [useItemAdapter] gives to [find]. *)
Definition id_is (id : string) : Predicate :=
  fun s n =>
    match nodes s !! n with
    | Some nd => Val (String.eqb (node_id nd) id)
    | None => BadRef
    end.

(** A predicate that does not read the line number of the node. *)
Definition ignores_line (P : View -> bool) : Prop :=
  forall z v, P (with_line z v) = P v.

(** Childless nodes with the contents [vs] and the lines [line], [line + 1],
    ..., without their addresses. *)
Fixpoint appended (line : nat) (vs : list View) : list ntree :=
  match vs with
  | [] => []
  | v :: vs => NT 0 (with_line (Z.of_nat line) v) [] :: appended (S line) vs
  end.

(** [a] is a node without children, with the content [v]. *)
Definition leaf_at (s : Store) (a : nat) (v : View) : Prop :=
  exists nn, nodes s !! a = Some nn /\ view_of s nn = Some v /\ node_children nn = [].

(** What [toString] gives for a node with the content [v]. *)
Definition View_toString (Task_toString : Task -> string) (v : View) : string :=
  match view_content v with
  | ContentHeading x level =>
      (padStart (Z.to_nat level) "#"%char ++ String " "%char x)%string
  | ContentTask tk =>
      match view_type v with ROOT => EmptyString | _ => Task_toString tk end
  | ContentString x =>
      match view_type v with ROOT => EmptyString | _ => x end
  end.

(** The line of a node at a depth: two spaces for each level, then the
    node. *)
Definition outline_line (Task_toString : Task -> string) (e : ntree * nat)
  : string :=
  (depthToIndent (snd e) ++ View_toString Task_toString (view (fst e)))%string.

(** The nodes of a tree in depth-first pre-order, each with its depth. *)
Fixpoint with_depth (depth : nat) (t : ntree) : list (ntree * nat) :=
  match t with NT _ _ kids => (t, depth) :: flat_map (with_depth (S depth)) kids end.

(** A node of type TASK holds a [Task]. *)
Definition task_has_data (v : View) : bool :=
  match view_type v with
  | TASK => match view_content v with ContentTask _ => true | _ => false end
  | _ => true
  end.

(** Every node of type TASK below the root holds a [Task]. *)
Definition tasks_have_data (t : ntree) : bool :=
  forallb (fun u => task_has_data (view u)) (flat_map preorder (kids_of t)).

(** No line of the outline has a line feed in it. *)
Definition one_line_each (Task_toString : Task -> string) (t : ntree) : bool :=
  forallb (fun e => negb (has_newline (outline_line Task_toString e)))
          (flat_map (with_depth 0) (kids_of t)).

(** A root with one node of type TASK that holds a string. *)
Definition mistyped_store : Store :=
  mkStore
    [ mkNode ROOT 0 (PlainNode (DataString EmptyString)) None [1] None "r"%string;
      mkNode TASK 1 (PlainNode (DataString "- [ ] a"%string)) (Some 0) [] None "a"%string ]
    [] [].

(** The tree it holds. *)
Definition mistyped_tree : ntree :=
  NT 0 (mkView ROOT 0 "r"%string (ContentString EmptyString) None)
    [ NT 1 (mkView TASK 1 "a"%string (ContentString "- [ ] a"%string) None) [] ].

(** Records of one day, with the type of a record a string. *)
Definition example_records : list (TaskRecord string) :=
  [ mkTaskRecord "2022-01-01"%string "Date"%string "- [x] a"%string ].

(** ** The pruning loop of [filter], on trees *)

(** Whether the node at the address [a] has no children in the tree [t];
    false when the tree has no node at [a]. *)
Fixpoint leaf_in (a : nat) (t : ntree) : bool :=
  match t with
  | NT b _ kids => if b =? a then length kids =? 0 else existsb (leaf_in a) kids
  end.

(** One step of the pruning loop of [filter], on the tree: the node at [a],
    on which the predicate has returned [keep a], is taken out of the
    children of its parent when the predicate returned false and the node
    has no children at this moment.  The root has no parent and stays. *)
Definition prune_one (keep : nat -> bool) (a : nat) (t : ntree) : ntree :=
  if negb (keep a) && leaf_in a t then remove a t else t.

(** The pruning loop on the tree, over the nodes [l] in this order. *)
Fixpoint prune_pass (keep : nat -> bool) (l : list nat) (t : ntree) : ntree :=
  match l with
  | [] => t
  | a :: l => prune_pass keep l (prune_one keep a t)
  end.

(** The tree without the nodes on which the predicate returned false and of
    which no child is kept; [None] when the root of [t] is such a node. *)
Fixpoint prune_by (keep : nat -> bool) (t : ntree) : option ntree :=
  match t with
  | NT a v kids =>
      let kids' := omap (prune_by keep) kids in
      if negb (keep a) && (length kids' =? 0) then None else Some (NT a v kids')
  end.

(** The same below the root, which stays. *)
Definition prune_root_by (keep : nat -> bool) (t : ntree) : ntree :=
  match t with NT a v kids => NT a v (omap (prune_by keep) kids) end.

(** The verdicts [keep] on the nodes [done], and true on the others. *)
Definition so_far (keep : nat -> bool) (done : list nat) : nat -> bool :=
  fun c => keep c || negb (bool_decide (c ∈ done)).

(** [(n) => n.children.length > 0], a predicate that reads what the pruning
    loop of [filter] writes. *)
Definition has_children : Predicate :=
  fun s a =>
    match nodes s !! a with
    | Some n => Val (negb (length (node_children n) =? 0))
    | None => BadRef
    end.

(** [(n) => n.line === l] *)
Definition line_is (l : Z) (v : View) : bool := (view_line v =? l)%Z.

(** The example store with a second node outside the tree, a note. *)
Definition import_store : Store :=
  mkStore
    (nodes example_store ++
     [ mkNode OTHER 9 (PlainNode (DataString "memo"%string)) None [] None "y"%string ])
    (tasks example_store)
    [].

(** [(n) => n.parent !== undefined && n.parent.children[0] !== n], a
    predicate that reads the children of the parent. *)
Definition not_first_child : Predicate :=
  fun s a =>
    match nodes s !! a with
    | Some n =>
        match node_parent n with
        | None => Val false
        | Some p =>
            match nodes s !! p with
            | Some pn => Val (negb (bool_decide (head (node_children pn) = Some a)))
            | None => BadRef
            end
        end
    | None => BadRef
    end.

(* ================================================================== *)
(** * Properties *)

(** ** The outline tree *)

(** *** Trees and stores *)

(** Induction on a tree with the hypothesis for every child. *)
Lemma ntree_ind' (P : ntree -> Prop) :
  (forall a v kids, Forall P kids -> P (NT a v kids)) -> forall t, P t.
Proof.
  intros H. fix IH 1. intros [a v kids]. apply H.
  induction kids as [|k kids IHk]; constructor; [apply IH | exact IHk].
Qed.

Lemma extends_refl s : extends s s.
Proof. repeat split; reflexivity. Qed.

Lemma extends_trans s1 s2 s3 : extends s1 s2 -> extends s2 s3 -> extends s1 s3.
Proof.
  intros (H1 & H2 & H3) (H4 & H5 & H6). repeat split.
  - etrans; eauto.
  - etrans; eauto.
  - congruence.
Qed.

Lemma extends_node s s' a n :
  extends s s' -> nodes s !! a = Some n -> nodes s' !! a = Some n.
Proof. intros (H & _) Hn. eapply prefix_lookup_Some; eauto. Qed.

Lemma extends_length s s' : extends s s' -> length (nodes s) <= length (nodes s').
Proof. intros (H & _). by apply prefix_length. Qed.

Lemma view_of_mono s s' n v :
  tasks s `prefix_of` tasks s' -> view_of s n = Some v -> view_of s' n = Some v.
Proof.
  intros Hp. unfold view_of. destruct (node_body n) as [[t|x]|x l]; auto.
  destruct (tasks s !! t) eqn:E; [|discriminate].
  intros Hv. by rewrite (prefix_lookup_Some _ _ _ _ E Hp).
Qed.

Lemma addrs_unfold a v kids : addrs (NT a v kids) = a :: flat_map addrs kids.
Proof.
  unfold addrs. simpl. f_equal.
  induction kids as [|k kids IH]; simpl; [done|].
  by rewrite map_app, IH.
Qed.

(** A tree laid out in [s] is laid out in every store that agrees with [s]
    on its nodes. *)
Lemma repr_agree s s' t :
  repr s t ->
  (forall a, a ∈ addrs t -> nodes s' !! a = nodes s !! a) ->
  tasks s `prefix_of` tasks s' ->
  repr s' t.
Proof.
  induction t as [a v kids IH] using ntree_ind'. intros Hr Hag Hp.
  inversion Hr as [a' v' kids' n Hn Hv Hc Hk]; subst.
  econstructor.
  - rewrite Hag; [exact Hn|]. rewrite addrs_unfold. left.
  - eapply view_of_mono; eauto.
  - done.
  - rewrite Forall_forall in *. intros k Hin. apply IH; auto.
    intros b Hb. apply Hag. rewrite addrs_unfold. right.
    apply list_elem_of_In, in_flat_map. exists k. split; by apply list_elem_of_In.
Qed.

Lemma linked_agree s s' p t :
  linked s p t ->
  (forall a, a ∈ addrs t -> nodes s' !! a = nodes s !! a) ->
  linked s' p t.
Proof.
  revert p. induction t as [a v kids IH] using ntree_ind'. intros p Hr Hag.
  inversion Hr as [p' a' v' kids' n Hn Hp Hk]; subst.
  econstructor.
  - rewrite Hag; [exact Hn|]. rewrite addrs_unfold. left.
  - done.
  - rewrite Forall_forall in *. intros k Hin. apply IH; auto.
    intros b Hb. apply Hag. rewrite addrs_unfold. right.
    apply list_elem_of_In, in_flat_map. exists k. split; by apply list_elem_of_In.
Qed.

(** *** Steps of the store monad *)

Lemma bind_val {A B} (m : M A) (k : A -> M B) s a s' :
  m s = (Val a, s') -> bind m k s = k a s'.
Proof. intros H. unfold bind. by rewrite H. Qed.

Lemma getNode_val s a n : nodes s !! a = Some n -> getNode a s = (Val n, s).
Proof. intros H. unfold getNode. by rewrite H. Qed.

Lemma modNode_val s a n f :
  nodes s !! a = Some n ->
  modNode a f s = (Val tt, mkStore (<[a:=f n]> (nodes s)) (tasks s) (log s)).
Proof. intros H. unfold modNode. by rewrite (bind_val _ _ _ _ _ (getNode_val _ _ _ H)). Qed.

Lemma insert_snoc {A} (l : list A) (x y : A) : <[length l:=y]> (l ++ [x]) = l ++ [y].
Proof.
  rewrite insert_app_r_alt by lia. by rewrite Nat.sub_diag.
Qed.

Lemma lookup_snoc {A} (l : list A) (x : A) : (l ++ [x]) !! length l = Some x.
Proof. rewrite lookup_app_r by lia. by rewrite Nat.sub_diag. Qed.

(** *** Cloning *)

(** [Node.clone] allocates one node with the content, the children and the
    parent of the receiver; a task payload is allocated anew. *)
Lemma Node_clone_spec s a n v :
  nodes s !! a = Some n ->
  view_of s n = Some v ->
  exists c tks,
    Node_clone a s = (Val (length (nodes s)),
                      mkStore (nodes s ++ [c]) (tasks s ++ tks) (log s)) /\
    view_of (mkStore (nodes s ++ [c]) (tasks s ++ tks) (log s)) c = Some v /\
    node_children c = node_children n /\
    node_parent c = node_parent n /\
    (forall tk, task_of c = Some tk -> length (tasks s) <= tk).
Proof.
  intros Hn Hv. unfold Node_clone.
  rewrite (bind_val _ _ _ _ _ (getNode_val _ _ _ Hn)).
  unfold view_of in Hv.
  destruct (node_body n) as [[t|x]|x l] eqn:Hb.
  - destruct (tasks s !! t) as [tk|] eqn:Ht; [|discriminate].
    eexists _, [tk]. split.
    + unfold allocNode, bind, Task_clone. simpl. rewrite Ht.
      unfold modNode, bind, getNode. simpl. rewrite lookup_snoc. simpl.
      unfold setNode, ret. simpl. rewrite insert_snoc. reflexivity.
    + unfold view_of, task_of. simpl. rewrite lookup_snoc. repeat split; auto.
      intros tk' [= <-]. lia.
  - eexists _, []. split.
    + unfold allocNode, bind, ret. simpl. rewrite app_nil_r. reflexivity.
    + unfold view_of, task_of. simpl. repeat split; auto. discriminate.
  - eexists _, []. split.
    + unfold allocNode. rewrite app_nil_r. reflexivity.
    + unfold view_of, task_of. simpl. repeat split; auto. discriminate.
Qed.

Lemma height_kids a v kids f :
  height (NT a v kids) <= S f -> Forall (fun k => height k <= f) kids.
Proof.
  simpl. intros H. apply le_S_n in H.
  induction kids as [|k kids IH]; constructor; simpl in H; [lia|apply IH; lia].
Qed.

Lemma clone_nil fuel par s : clone fuel [] par s = (Val [], s).
Proof. destruct fuel; reflexivity. Qed.

Lemma clone_cons_S f a l par :
  clone (S f) (a :: l) par =
  (y <- (b <- Node_clone a ;;
         modNode b (set_parent par) ;;;
         nb <- getNode b ;;
         cs <- clone f (node_children nb) (Some b) ;;
         modNode b (set_children cs) ;;;
         ret b) ;;
   ys <- clone (S f) l par ;;
   ret (y :: ys)).
Proof. reflexivity. Qed.

Lemma extends_insert s s' b x :
  extends s s' -> length (nodes s) <= b ->
  extends s (mkStore (<[b:=x]> (nodes s')) (tasks s') (log s')).
Proof.
  intros ([k Hk] & H2 & H3) Hb. repeat split; simpl; auto.
  rewrite Hk. rewrite insert_app_r_alt by lia. by eexists.
Qed.

Lemma elem_of_flat_map_addrs a ts :
  a ∈ flat_map addrs ts <-> exists t, t ∈ ts /\ a ∈ addrs t.
Proof.
  rewrite list_elem_of_In, in_flat_map. split; intros (t & H1 & H2); exists t;
    split; by apply list_elem_of_In.
Qed.

Lemma repr_extends s s' t : extends s s' -> repr s t -> repr s' t.
Proof.
  intros He. induction t as [a v kids IH] using ntree_ind'. intros Hr.
  inversion Hr as [? ? ? n Hn Hv Hc Hk]; subst.
  econstructor; eauto using extends_node.
  - eapply view_of_mono; [apply He|done].
  - rewrite Forall_forall in *. auto.
Qed.

Lemma linked_extends s s' p t : extends s s' -> linked s p t -> linked s' p t.
Proof.
  intros He. revert p. induction t as [a v kids IH] using ntree_ind'. intros p Hr.
  inversion Hr as [? ? ? ? n Hn Hp Hk]; subst.
  econstructor; eauto using extends_node.
  rewrite Forall_forall in *. auto.
Qed.

Lemma view_of_set_children s cs n : view_of s (set_children cs n) = view_of s n.
Proof. reflexivity. Qed.
Lemma view_of_set_parent s p n : view_of s (set_parent p n) = view_of s n.
Proof. reflexivity. Qed.

Lemma flat_map_cons {A B} (f : A -> list B) x l :
  flat_map f (x :: l) = f x ++ flat_map f l.
Proof. reflexivity. Qed.

Lemma cloned_nil s par : cloned s par [] s [].
Proof.
  unfold cloned. split_and!.
  - apply extends_refl.
  - constructor.
  - constructor.
  - reflexivity.
  - intros a Ha. inversion Ha.
  - constructor.
  - intros a n tk Ha. inversion Ha.
Qed.

(** The helper [clone] on the roots of a forest laid out in the store
    returns the roots of a copy of the forest, made of new nodes and new
    tasks and linked below [par]; the old objects are as they were. *)
Lemma clone_spec fuel : forall ts par s,
  Forall (repr s) ts ->
  Forall (fun t => height t <= fuel) ts ->
  exists ts' s',
    clone fuel (map root ts) par s = (Val (map root ts'), s') /\
    cloned s par ts s' ts'.
Proof.
  induction fuel as [|f IHf].
  { intros [|t ts] par s _ Hh.
    - exists [], s. split; [apply clone_nil|apply cloned_nil].
    - inversion Hh as [|? ? Ht _]; subst. destruct t; simpl in Ht. lia. }
  intros ts. induction ts as [|t ts IHts]; intros par s Hr Hh.
  { exists [], s. split; [apply clone_nil|apply cloned_nil]. }
  inversion Hr as [|? ? Hrt Hrts]; subst.
  inversion Hh as [|? ? Hht Hhts]; subst.
  destruct t as [a v kids].
  inversion Hrt as [? ? ? n Hn Hv Hc Hk]; subst.
  destruct (Node_clone_spec _ _ _ _ Hn Hv) as (c & tks & Hcl & Hvc & Hcc & Hcp & Hct).
  set (b := length (nodes s)) in *.
  set (s1 := mkStore (nodes s ++ [c]) (tasks s ++ tks) (log s)) in *.
  set (c2 := set_parent par c).
  set (s2 := mkStore (nodes s ++ [c2]) (tasks s ++ tks) (log s)).
  assert (Hm1 : modNode b (set_parent par) s1 = (Val tt, s2)).
  { erewrite modNode_val by (simpl; apply lookup_snoc).
    simpl. unfold b. by rewrite insert_snoc. }
  assert (He2 : extends s s2) by (repeat split; simpl; try by eexists).
  assert (Hb2 : nodes s2 !! b = Some c2) by apply lookup_snoc.
  assert (Hk2 : Forall (repr s2) kids).
  { eapply Forall_impl; [exact Hk|]. intros k. by apply repr_extends. }
  destruct (IHf kids (Some b) s2 Hk2 (height_kids _ _ _ _ Hht))
    as (kids' & s3 & Hck & He3 & Hr3 & Hl3 & Ha3 & Hrg3 & Hnd3 & Ht3).
  assert (Hlen2 : length (nodes s2) = S b).
  { simpl. rewrite length_app. simpl. unfold b. lia. }
  assert (Hb3 : nodes s3 !! b = Some c2) by (eapply extends_node; eauto).
  set (c4 := set_children (map root kids') c2).
  set (s4 := mkStore (<[b:=c4]> (nodes s3)) (tasks s3) (log s3)).
  assert (Hm4 : modNode b (set_children (map root kids')) s3 = (Val tt, s4))
    by (by apply modNode_val).
  assert (He4 : extends s s4).
  { apply extends_insert; [|unfold b; lia]. eapply extends_trans; eauto. }
  assert (Hlen4 : length (nodes s4) = length (nodes s3))
    by (simpl; apply length_insert).
  assert (Hag4 : forall x, x ∈ flat_map addrs kids' -> nodes s4 !! x = nodes s3 !! x).
  { intros x Hx. simpl. apply list_lookup_insert_ne. apply Hrg3 in Hx. lia. }
  assert (Hb4 : nodes s4 !! b = Some c4).
  { simpl. apply list_lookup_insert_eq. apply lookup_lt_Some in Hb3. lia. }
  assert (Hr4 : repr s4 (NT b v kids')).
  { econstructor; [exact Hb4| |reflexivity|].
    - unfold c4, c2. rewrite view_of_set_children, view_of_set_parent.
      eapply view_of_mono; [|exact Hvc]. simpl. apply He3.
    - rewrite Forall_forall in *. intros k Hin.
      eapply repr_agree; [by apply Hr3| |reflexivity].
      intros x Hx. apply Hag4. apply elem_of_flat_map_addrs. eauto. }
  assert (Hl4 : linked s4 par (NT b v kids')).
  { econstructor; [exact Hb4|reflexivity|].
    rewrite Forall_forall in *. intros k Hin.
    eapply linked_agree; [by apply Hl3|].
    intros x Hx. apply Hag4. apply elem_of_flat_map_addrs. eauto. }
  assert (Hrts4 : Forall (repr s4) ts).
  { eapply Forall_impl; [exact Hrts|]. intros k. by apply repr_extends. }
  destruct (IHts par s4 Hrts4 Hhts)
    as (ts' & s5 & Hcts & He5 & Hr5 & Hl5 & Ha5 & Hrg5 & Hnd5 & Ht5).
  exists (NT b v kids' :: ts'), s5. split.
  { change (map root (NT a v kids :: ts)) with (a :: map root ts).
    rewrite clone_cons_S.
    unfold bind at 1. unfold bind at 1. rewrite Hcl.
    unfold bind at 1. fold b. rewrite Hm1.
    unfold bind at 1. rewrite (getNode_val _ _ _ Hb2).
    unfold bind at 1.
    replace (node_children c2) with (map root kids)
      by (unfold c2; simpl; congruence).
    rewrite Hck. unfold bind at 1. rewrite Hm4. unfold ret at 1.
    unfold bind at 1. rewrite Hcts. reflexivity. }
  assert (Hle5 := extends_length _ _ He5).
  assert (Hle3 := extends_length _ _ He3).
  assert (Hrgt : forall x, x ∈ addrs (NT b v kids') -> b <= x < length (nodes s4)).
  { intros x. rewrite addrs_unfold. intros [->|Hx]%elem_of_cons.
    - apply lookup_lt_Some in Hb4. lia.
    - apply Hrg3 in Hx. lia. }
  unfold cloned. split_and!.
  - eapply extends_trans; eauto.
  - constructor; [by eapply repr_extends|done].
  - constructor; [by eapply linked_extends|done].
  - simpl. f_equal; [|done]. f_equal. exact Ha3.
  - intros x H. rewrite flat_map_cons in H. apply elem_of_app in H as [H|H].
    + apply Hrgt in H. unfold b in H. lia.
    + apply Hrg5 in H. apply extends_length in He4. lia.
  - rewrite flat_map_cons. apply NoDup_app. split; [|split].
    + rewrite addrs_unfold. apply NoDup_cons. split; [|done].
      intros Hx. apply Hrg3 in Hx. lia.
    + intros x Hx Hx'. apply Hrgt in Hx. apply Hrg5 in Hx'. lia.
    + done.
  - intros x nx tk Hx Hnx Htk. rewrite flat_map_cons in Hx.
    apply elem_of_app in Hx as [Hx|Hx].
    + assert (Hx4 : nodes s4 !! x = Some nx).
      { destruct (nodes s4 !! x) as [nx'|] eqn:E.
        - by rewrite (extends_node _ _ _ _ He5 E) in Hnx.
        - apply lookup_ge_None in E. apply Hrgt in Hx. lia. }
      rewrite addrs_unfold in Hx. apply elem_of_cons in Hx as [->|Hx].
      * rewrite Hb4 in Hx4. injection Hx4 as <-. apply Hct. exact Htk.
      * rewrite (Hag4 _ Hx) in Hx4.
        specialize (Ht3 _ _ _ Hx Hx4 Htk). simpl in Ht3.
        rewrite length_app in Ht3. lia.
    + specialize (Ht5 _ _ _ Hx Hnx Htk).
      destruct He4 as (_ & Hp & _). apply prefix_length in Hp. lia.
Qed.

Lemma repr_inv s t :
  repr s t ->
  exists n, nodes s !! root t = Some n /\ view_of s n = Some (view t) /\
            node_children n = map root (kids_of t) /\ Forall (repr s) (kids_of t).
Proof. intros H. inversion H; subst. simpl. eauto. Qed.

Lemma linked_inv s p t :
  linked s p t ->
  exists n, nodes s !! root t = Some n /\ node_parent n = p /\
            Forall (linked s (Some (root t))) (kids_of t).
Proof. intros H. inversion H; subst. simpl. eauto. Qed.

Lemma fsize_cons t ts : fsize (t :: ts) = size t + fsize ts.
Proof. reflexivity. Qed.

Lemma fsize_app ts ts' : fsize (ts ++ ts') = fsize ts + fsize ts'.
Proof. unfold fsize. rewrite map_app, list_sum_app. done. Qed.

Lemma size_unfold a v kids : size (NT a v kids) = S (fsize kids).
Proof. reflexivity. Qed.

Lemma fsize_kids X : fsize X = length X + fsize (flat_map kids_of X).
Proof.
  induction X as [|[a v kids] X IH]; [done|].
  rewrite fsize_cons, size_unfold, flat_map_cons, fsize_app. simpl. lia.
Qed.

Lemma repr_kids s X : Forall (repr s) X -> Forall (repr s) (flat_map kids_of X).
Proof.
  induction 1 as [|t X Ht _ IH]; [constructor|].
  rewrite flat_map_cons. apply Forall_app. split; [|done].
  by inversion Ht.
Qed.

Lemma height_kids_forest h X :
  Forall (fun t => height t <= S h) X ->
  Forall (fun t => height t <= h) (flat_map kids_of X).
Proof.
  induction 1 as [|t X Ht _ IH]; [constructor|].
  rewrite flat_map_cons. apply Forall_app. split; [|done].
  destruct t as [a v kids]. by apply (height_kids a v).
Qed.

Lemma height_pos t : 1 <= height t.
Proof. destruct t. simpl. lia. Qed.

(** *** Breadth-first traversal *)

(** With the level [X] at the head of the queue, the loop moves [X] to the
    output and puts the next level at the end of the queue. *)
Lemma bfs_loop_level s : forall X qY fuel acc,
  Forall (repr s) X ->
  bfs_loop (length X + fuel) (map root X ++ qY) acc s =
  bfs_loop fuel (qY ++ map root (flat_map kids_of X)) (acc ++ map root X) s.
Proof.
  induction X as [|[a v ks] X IH]; intros qY fuel acc Hr.
  { simpl. by rewrite !app_nil_r. }
  inversion Hr as [|? ? Ht HX]; subst.
  inversion Ht as [? ? ? n Hn Hv Hc Hk]; subst.
  simpl. rewrite (bind_val _ _ _ _ _ (getNode_val _ _ _ Hn)).
  rewrite Hc, <- app_assoc. rewrite IH; [|assumption].
  rewrite map_app. f_equal.
  - by rewrite <- app_assoc.
  - by rewrite <- app_assoc.
Qed.

(** The loop of [filter] lists the nodes in level order. *)
Lemma bfs_loop_spec s : forall h X fuel acc,
  Forall (repr s) X ->
  Forall (fun t => height t <= h) X ->
  fsize X <= fuel ->
  bfs_loop fuel (map root X) acc s = (Val (acc ++ map root (levelorder h X)), s).
Proof.
  induction h as [|h IH]; intros X fuel acc Hr Hh Hf.
  { destruct X as [|t X].
    - simpl. rewrite app_nil_r. by destruct fuel.
    - inversion Hh; subst. pose proof (height_pos t). lia. }
  rewrite fsize_kids in Hf.
  replace fuel with (length X + (fuel - length X)) by lia.
  rewrite <- (app_nil_r (map root X)) at 1.
  rewrite bfs_loop_level; [|assumption]. simpl.
  rewrite IH; [|by apply repr_kids|by apply height_kids_forest|lia].
  by rewrite map_app, app_assoc.
Qed.

(** [first_match] on a list in two parts. *)
Lemma first_match_app predicate s l1 l2 :
  first_match predicate s (l1 ++ l2) =
  match first_match predicate s l1 with
  | Val None => first_match predicate s l2
  | r => r
  end.
Proof.
  induction l1 as [|a l1 IH]; [done|]. simpl.
  destruct (predicate s a) as [[|]| | |]; auto.
Qed.

Lemma first_match_Some predicate s l a :
  first_match predicate s l = Val (Some a) -> a ∈ l.
Proof.
  induction l as [|x l IH]; [discriminate|]. simpl.
  destruct (predicate s x) as [[|]| | |]; try discriminate.
  - intros [= ->]. left.
  - intros H. right. auto.
Qed.

Lemma call_on_view s a n v P :
  nodes s !! a = Some n -> view_of s n = Some v ->
  call (on_view P) a s =
  (match P v with Some b => Val b | None => Exn Thrown end, s).
Proof. intros Hn Hv. unfold call, on_view. by rewrite Hn, Hv. Qed.

Lemma find_loop_level predicate s : forall X qY fuel,
  Forall (repr s) X ->
  find_loop (length X + fuel) predicate (map root X ++ qY) s =
  match first_match predicate s (map root X) with
  | Val None => find_loop fuel predicate (qY ++ map root (flat_map kids_of X)) s
  | r => (r, s)
  end.
Proof.
  induction X as [|[a v ks] X IH]; intros qY fuel Hr.
  { simpl. by rewrite !app_nil_r. }
  inversion Hr as [|? ? Ht HX]; subst.
  inversion Ht as [? ? ? n Hn Hv Hc Hk]; subst.
  simpl. unfold bind at 1. unfold call.
  destruct (predicate s a) as [[|]| | |]; try reflexivity.
  rewrite (bind_val _ _ _ _ _ (getNode_val _ _ _ Hn)).
  rewrite Hc, <- app_assoc. rewrite IH; [|assumption].
  rewrite map_app. by rewrite <- app_assoc.
Qed.

(** The loop of [find] stops at the first node, in level order, on which the
    predicate returns true or throws. *)
Lemma find_loop_spec predicate s : forall h X fuel,
  Forall (repr s) X ->
  Forall (fun t => height t <= h) X ->
  fsize X <= fuel ->
  find_loop fuel predicate (map root X) s =
  (first_match predicate s (map root (levelorder h X)), s).
Proof.
  induction h as [|h IH]; intros X fuel Hr Hh Hf.
  { destruct X as [|t X]; [by destruct fuel|].
    inversion Hh; subst. pose proof (height_pos t). lia. }
  rewrite fsize_kids in Hf.
  replace fuel with (length X + (fuel - length X)) by lia.
  rewrite <- (app_nil_r (map root X)) at 1.
  rewrite find_loop_level; [|assumption]. simpl.
  rewrite map_app, first_match_app.
  destruct (first_match predicate s (map root X)) as [[a|]| | |]; try reflexivity.
  apply IH; [by apply repr_kids|by apply height_kids_forest|lia].
Qed.

(** *** Pruning with a predicate on the content of a node *)

Lemma view_of_id s n v : view_of s n = Some v -> view_id v = node_id n.
Proof.
  unfold view_of. destruct (node_body n) as [[t|x]|x l].
  - destruct (tasks s !! t); [|discriminate]. by intros [= <-].
  - by intros [= <-].
  - by intros [= <-].
Qed.

Lemma node_at_has_id s k par cs : node_at s (root k) (view k) par cs -> has_id s k.
Proof.
  intros (n & Hn & Hv & _). exists n. split; [done|]. symmetry. by eapply view_of_id.
Qed.

Lemma prune_None P a v ks :
  prune P (NT a v ks) = None <-> P v = false /\ omap (prune P) ks = [].
Proof.
  simpl. destruct (P v); simpl.
  - split; [discriminate|]. intros [? _]; discriminate.
  - destruct (omap (prune P) ks); simpl; split; try done. intros [_ ?]; discriminate.
Qed.

Lemma prune_Some P a v ks t' :
  prune P (NT a v ks) = Some t' ->
  t' = NT a v (omap (prune P) ks) /\ (P v = true \/ omap (prune P) ks <> []).
Proof.
  simpl. destruct (P v); simpl.
  - intros [= <-]. auto.
  - destruct (omap (prune P) ks) eqn:E; simpl; [discriminate|].
    intros [= <-]. split; [done|]. right. done.
Qed.

Lemma omap_snoc {A B} (f : A -> option B) l x :
  omap f (l ++ [x]) = omap f l ++ match f x with Some y => [y] | None => [] end.
Proof.
  rewrite omap_app. simpl. destruct (f x); done.
Qed.

Lemma filterM_ids s i L :
  Forall (has_id s) L ->
  filterM (fun c => cn <- getNode c ;; ret (negb (String.eqb (node_id cn) i)))
          (map root L) s =
  (Val (map root (List.filter (fun t => negb (String.eqb (view_id (view t)) i)) L)), s).
Proof.
  induction 1 as [|t L (n & Hn & Hid) _ IH]; [done|].
  simpl. unfold bind at 1. rewrite (bind_val _ _ _ _ _ (getNode_val _ _ _ Hn)).
  unfold ret at 1. unfold bind at 1. rewrite IH. unfold ret. rewrite Hid.
  by destruct (negb _).
Qed.

Lemma filter_remove_id (f : ntree -> string) l1 k l2 :
  NoDup (map f (l1 ++ k :: l2)) ->
  List.filter (fun t => negb (String.eqb (f t) (f k))) (l1 ++ k :: l2) = l1 ++ l2.
Proof.
  intros Hnd. rewrite List.filter_app. simpl. rewrite String.eqb_refl. simpl.
  rewrite map_app in Hnd. simpl in Hnd.
  apply NoDup_app in Hnd as (Hn1 & Hd & Hn2). apply NoDup_cons in Hn2 as [Hk Hn2].
  assert (Hall : forall l, f k ∉ map f l ->
            List.filter (fun t => negb (String.eqb (f t) (f k))) l = l).
  { clear. induction l as [|t l IH]; intros Hni; [done|]. simpl in *.
    apply not_elem_of_cons in Hni as [Hne Hni].
    destruct (String.eqb_spec (f t) (f k)) as [E|E]; [congruence|].
    simpl. f_equal. by apply IH. }
  rewrite !Hall; auto.
  intros Hin. eapply Hd; [exact Hin|]. left.
Qed.

Lemma prune_step_keep P s a v par cs :
  node_at s a v par cs -> (P v = true \/ cs <> []) ->
  prune_step (on_view (total P)) a s = (Val tt, s).
Proof.
  intros (n & Hn & Hv & Hp & Hc) Hor. unfold prune_step.
  unfold bind at 1. rewrite (call_on_view _ _ _ _ _ Hn Hv). unfold total.
  rewrite (bind_val _ _ _ _ _ (getNode_val _ _ _ Hn)).
  destruct Hor as [->|Hne]; [done|].
  rewrite Hc. destruct cs; [done|]. simpl. by rewrite andb_false_r.
Qed.

Lemma prune_step_drop P s a v p pn L :
  node_at s a v (Some p) [] -> P v = false ->
  nodes s !! p = Some pn ->
  node_children pn = map root L ->
  Forall (has_id s) L ->
  prune_step (on_view (total P)) a s =
  (Val tt,
   mkStore (<[p:=set_children
                   (map root (List.filter
                      (fun t => negb (String.eqb (view_id (view t)) (view_id v))) L))
                   pn]> (nodes s)) (tasks s) (log s)).
Proof.
  intros (n & Hn & Hv & Hp & Hc) HP Hpn Hcs HL. unfold prune_step.
  unfold bind at 1. rewrite (call_on_view _ _ _ _ _ Hn Hv). unfold total.
  rewrite (bind_val _ _ _ _ _ (getNode_val _ _ _ Hn)).
  rewrite HP, Hc, Hp. simpl.
  rewrite (bind_val _ _ _ _ _ (getNode_val _ _ _ Hpn)).
  rewrite Hcs. unfold bind at 1.
  rewrite <- (view_of_id _ _ _ Hv). rewrite (filterM_ids _ _ _ HL).
  by apply modNode_val.
Qed.

Lemma forEach_app {A} (f : A -> M unit) l1 l2 s :
  forEach f (l1 ++ l2) s = (forEach f l1 ;;; forEach f l2) s.
Proof.
  revert s. induction l1 as [|x l1 IH]; intros s; simpl.
  - reflexivity.
  - unfold bind. destruct (f x s) as [[[]| | |] s1]; auto.
Qed.

Lemma set_children_id n : set_children (node_children n) n = n.
Proof. by destruct n. Qed.

Lemma set_children_twice cs cs' n :
  set_children cs (set_children cs' n) = set_children cs n.
Proof. by destruct n. Qed.

Lemma store_eta s : mkStore (nodes s) (tasks s) (log s) = s.
Proof. by destruct s. Qed.

Lemma node_at_insert_ne s x nx a v par cs :
  a <> x ->
  node_at s a v par cs ->
  node_at (mkStore (<[x:=nx]> (nodes s)) (tasks s) (log s)) a v par cs.
Proof.
  intros Hne (n & Hn & Hv & Hp & Hc). exists n. simpl.
  rewrite list_lookup_insert_ne by done. done.
Qed.

Lemma has_id_insert_ne s x nx t :
  root t <> x ->
  has_id s t ->
  has_id (mkStore (<[x:=nx]> (nodes s)) (tasks s) (log s)) t.
Proof.
  intros Hne (n & Hn & Hid). exists n. simpl.
  rewrite list_lookup_insert_ne by done. done.
Qed.

(** The pruning steps for the children [ks] of [x], from the last one to the
    first, when everything below them has its final form: [x] keeps the
    children that [prune] keeps. *)
Lemma prune_siblings P x : forall ks tl s nx,
  nodes s !! x = Some nx ->
  node_children nx = map root ks ++ map root tl ->
  Forall (final_at P s x) ks ->
  Forall (has_id s) tl ->
  NoDup (map (fun k => view_id (view k)) (ks ++ tl)) ->
  x ∉ map root (ks ++ tl) ->
  forEach (prune_step (on_view (total P))) (rev (map root ks)) s =
  (Val tt,
   mkStore (<[x:=set_children (map root (omap (prune P) ks) ++ map root tl) nx]>
              (nodes s)) (tasks s) (log s)).
Proof.
  induction ks as [|k ks IH] using rev_ind; intros tl s nx Hx Hcs Hks Htl Hnd Hni.
  { simpl in *. rewrite <- Hcs, set_children_id.
    rewrite list_insert_id by done. by rewrite store_eta. }
  rewrite map_app, rev_app_distr. simpl.
  apply Forall_app in Hks as [Hks Hk].
  inversion Hk as [|? ? Hk' _]; subst.
  rewrite omap_snoc.
  destruct k as [a v kk]. 
  destruct (prune P (NT a v kk)) as [k'|] eqn:Hpr.
  - apply prune_Some in Hpr as [-> Hor].
    unfold bind at 1. erewrite prune_step_keep; [|exact Hk'|].
    2:{ destruct Hor as [?|Hne]; [by left|right]. simpl.
        destruct (omap (prune P) kk); [done|]. discriminate. }
    rewrite (IH (NT a v kk :: tl) s nx); auto.
    + rewrite (map_app _ (omap (prune P) ks)), <- app_assoc. reflexivity.
    + rewrite Hcs, map_app. rewrite <- app_assoc. reflexivity.
    + constructor; [|done]. eapply node_at_has_id. exact Hk'.
    + by rewrite <- app_assoc in Hnd.
    + by rewrite <- app_assoc in Hni.
  - apply prune_None in Hpr as [HP Hom].
    assert (HL : Forall (has_id s) (ks ++ NT a v kk :: tl)).
    { apply Forall_app. split.
      - eapply Forall_impl; [exact Hks|]. intros k0 Hk0. eapply node_at_has_id. exact Hk0.
      - constructor; [|done]. eapply node_at_has_id. exact Hk'. }
    rewrite <- app_assoc in Hnd, Hni. simpl in Hnd, Hni.
    unfold bind at 1. erewrite prune_step_drop; [| |exact HP|exact Hx| |exact HL].
    2:{ unfold final_at in Hk'. simpl in Hk'. rewrite Hom in Hk'. exact Hk'. }
    2:{ rewrite Hcs, !map_app. rewrite <- app_assoc. reflexivity. }
    pose proof (filter_remove_id (fun k => view_id (view k)) ks (NT a v kk) tl Hnd)
      as E. simpl in E. rewrite E. clear E.
    set (nx1 := set_children (map root (ks ++ tl)) nx).
    set (s1 := mkStore (<[x:=nx1]> (nodes s)) (tasks s) (log s)).
    assert (Hni' : x ∉ map root (ks ++ tl)).
    { rewrite map_app in *. simpl in Hni. intros Hin. apply Hni.
      apply elem_of_app in Hin as [?|?]; apply elem_of_app; [left|right]; [done|].
      by right. }
    rewrite (IH tl s1 nx1).
    + unfold s1, nx1. simpl. rewrite list_insert_insert_eq, set_children_twice.
      rewrite app_nil_r. reflexivity.
    + simpl. apply list_lookup_insert_eq. by eapply lookup_lt_Some.
    + unfold nx1. simpl. by rewrite map_app.
    + rewrite Forall_forall in *. intros k0 Hin. apply node_at_insert_ne; [|by apply Hks].
      intros E. apply Hni'. rewrite <- E, map_app. apply elem_of_app. left.
      by apply list_elem_of_fmap_2.
    + rewrite Forall_forall in *. intros k0 Hin. apply has_id_insert_ne; [|by apply Htl].
      intros E. apply Hni'. rewrite <- E, map_app. apply elem_of_app. right.
      by apply list_elem_of_fmap_2.
    + rewrite map_app in *. simpl in Hnd.
      apply NoDup_app in Hnd as (H1 & H2 & H3). apply NoDup_cons in H3 as [H3 H4].
      apply NoDup_app. split; [done|]. split; [|done].
      intros y Hy Hy'. eapply H2; [exact Hy|]. by right.
    + done.
Qed.

Lemma pruned_at_nil P s : pruned_at P s s [].
Proof. unfold pruned_at. split_and!; auto. Qed.

Lemma flat_map_snoc {A B} (f : A -> list B) l x :
  flat_map f (l ++ [x]) = flat_map f l ++ f x.
Proof. rewrite flat_map_app. simpl. by rewrite app_nil_r. Qed.

(** The same for all children of a level [X]. *)
Lemma prune_level P : forall X s,
  Forall (fun x => exists nx, nodes s !! root x = Some nx /\
                              node_children nx = map root (kids_of x)) X ->
  Forall (fun x => Forall (final_at P s (root x)) (kids_of x)) X ->
  Forall (fun x => NoDup (map (fun k => view_id (view k)) (kids_of x))) X ->
  NoDup (map root X ++ map root (flat_map kids_of X)) ->
  exists s',
    forEach (prune_step (on_view (total P)))
            (rev (map root (flat_map kids_of X))) s = (Val tt, s') /\
    pruned_at P s s' X.
Proof.
  induction X as [|x X IH] using rev_ind; intros s Hn Hf Hid Hnd.
  { exists s. split; [reflexivity|apply pruned_at_nil]. }
  apply Forall_app in Hn as [Hn Hnx]. apply Forall_app in Hf as [Hf Hfx].
  apply Forall_app in Hid as [Hid Hidx].
  inversion Hnx as [|? ? (nx & Hx & Hcx) _]; subst.
  inversion Hfx as [|? ? Hfx' _]; subst.
  inversion Hidx as [|? ? Hidx' _]; subst.
  rewrite flat_map_snoc, !map_app in Hnd. simpl in Hnd.
  apply NoDup_app in Hnd as (Hnd1 & Hdisj & Hnd2).
  apply NoDup_app in Hnd1 as (HndX & Hxx & _).
  apply NoDup_app in Hnd2 as (HndK & HKk & Hndk).
  assert (Hx_notX : root x ∉ map root X).
  { intros Hin. eapply Hxx; [exact Hin|left]. }
  assert (Hx_notk : root x ∉ map root (kids_of x)).
  { intros Hin. eapply (Hdisj (root x)).
    - apply elem_of_app. right. left.
    - apply elem_of_app. by right. }
  assert (Hx_notK : root x ∉ map root (flat_map kids_of X)).
  { intros Hin. eapply (Hdisj (root x)).
    - apply elem_of_app. right. left.
    - apply elem_of_app. by left. }
  rewrite flat_map_snoc, map_app, rev_app_distr.
  set (nx1 := set_children (map root (omap (prune P) (kids_of x)) ++ map root []) nx).
  set (s1 := mkStore (<[root x:=nx1]> (nodes s)) (tasks s) (log s)).
  assert (H1 : forEach (prune_step (on_view (total P)))
                 (rev (map root (kids_of x))) s = (Val tt, s1)).
  { apply prune_siblings; auto.
    - simpl. by rewrite app_nil_r.
    - by rewrite app_nil_r.
    - by rewrite app_nil_r. }
  destruct (IH s1) as (s2 & H2 & Hp2 & Hl2 & Hlen2 & Hout2 & Hin2).
  { rewrite Forall_forall in *. intros x0 Hx0.
    destruct (Hn x0 Hx0) as (n0 & Hn0 & Hc0). exists n0. split; [|done].
    simpl. rewrite list_lookup_insert_ne; [done|].
    intros E. apply Hx_notX. rewrite E. by apply list_elem_of_fmap_2. }
  { rewrite Forall_forall in *. intros x0 Hx0.
    specialize (Hf x0 Hx0). rewrite Forall_forall in *. intros k Hk.
    apply node_at_insert_ne; [|by apply Hf].
    intros E. apply Hx_notK. rewrite <- E. apply list_elem_of_fmap_2.
    apply list_elem_of_In, in_flat_map. exists x0. split; by apply list_elem_of_In. }
  { done. }
  { apply NoDup_app. split; [done|]. split; [|done].
    intros a Ha Ha'. eapply Hdisj; apply elem_of_app; left; eauto. }
  exists s2. split.
  { rewrite forEach_app. unfold bind. rewrite H1. exact H2. }
  unfold pruned_at. split_and!.
  - by rewrite Hp2.
  - by rewrite Hl2.
  - rewrite Hlen2. simpl. apply length_insert.
  - intros a Ha. rewrite map_app in Ha. apply not_elem_of_app in Ha as [Ha1 Ha2].
    rewrite Hout2 by done. simpl. apply list_lookup_insert_ne.
    intros E. apply Ha2. subst a. simpl. left.
  - apply Forall_app. split.
    + rewrite Forall_forall in *. intros u Hu.
      destruct (Hin2 u Hu) as (n & Hn1 & Hn2). exists n. split; [|done].
      rewrite <- Hn1. simpl. symmetry. apply list_lookup_insert_ne.
      intros E. apply Hx_notX. rewrite E. by apply list_elem_of_fmap_2.
    + constructor; [|constructor]. exists nx. split; [done|].
      rewrite Hout2 by done. simpl.
      rewrite list_lookup_insert_eq by (by eapply lookup_lt_Some).
      unfold nx1, set_pruned. simpl. by rewrite app_nil_r.
Qed.

Lemma preorder_unfold t : preorder t = t :: flat_map preorder (kids_of t).
Proof. by destruct t. Qed.

Lemma flat_map_addrs X : flat_map addrs X = map root (flat_map preorder X).
Proof.
  induction X as [|x X IH]; [done|].
  rewrite !flat_map_cons, map_app, IH. done.
Qed.

Lemma preorder_forest_perm X :
  flat_map preorder X ≡ₚ X ++ flat_map preorder (flat_map kids_of X).
Proof.
  induction X as [|x X IH]; [done|].
  rewrite !flat_map_cons, preorder_unfold, flat_map_app. simpl.
  constructor. rewrite IH. apply Permutation_app_swap_app.
Qed.

Lemma elem_of_preorder_forest u X :
  u ∈ flat_map preorder X <-> u ∈ X \/ u ∈ flat_map preorder (flat_map kids_of X).
Proof. rewrite preorder_forest_perm. apply elem_of_app. Qed.

Lemma roots_sublist X : map root X `sublist_of` flat_map addrs X.
Proof.
  induction X as [|x X IH]; [constructor|].
  rewrite flat_map_cons. destruct x as [a v ks]. rewrite addrs_unfold. simpl.
  constructor. by apply sublist_inserts_l.
Qed.

Lemma root_in_preorder t : t ∈ preorder t.
Proof. rewrite preorder_unfold. left. Qed.

Lemma elem_of_forest_preorder k K : k ∈ K -> k ∈ flat_map preorder K.
Proof.
  intros Hk. apply list_elem_of_In, in_flat_map. exists k.
  split; apply list_elem_of_In; [done|apply root_in_preorder].
Qed.

Lemma view_of_tasks_eq s s' n : tasks s' = tasks s -> view_of s' n = view_of s n.
Proof. intros E. unfold view_of. by rewrite E. Qed.

Lemma linked_kids s X :
  Forall (fun x => Forall (linked s (Some (root x))) (kids_of x)) X ->
  Forall (fun x => Forall (linked s (Some (root x))) (kids_of x))
         (flat_map kids_of X).
Proof.
  induction 1 as [|x X Hx _ IH]; [constructor|].
  rewrite flat_map_cons. apply Forall_app. split; [|done].
  eapply Forall_impl; [exact Hx|]. intros k Hk. by inversion Hk; subst.
Qed.

Lemma sibling_ids_kids X :
  Forall sibling_ids X -> Forall sibling_ids (flat_map kids_of X).
Proof.
  induction 1 as [|x X Hx _ IH]; [constructor|].
  rewrite flat_map_cons. apply Forall_app. split; [|done]. by inversion Hx.
Qed.

Lemma leaves_preorder X :
  Forall (fun x => kids_of x = []) X -> flat_map preorder X = X.
Proof.
  induction 1 as [|x X Hx _ IH]; [done|].
  rewrite flat_map_cons, preorder_unfold, Hx, IH. done.
Qed.

Lemma height_1_leaf x : height x <= 1 -> kids_of x = [].
Proof.
  destruct x as [a v [|k ks]]; [done|]. simpl. pose proof (height_pos k). lia.
Qed.

(** The pruning steps for everything below the forest [X], in reverse level
    order, leave every node of [X] with the children [prune] keeps. *)
Lemma prune_below P : forall h X s,
  Forall (repr s) X ->
  Forall (fun x => Forall (linked s (Some (root x))) (kids_of x)) X ->
  Forall sibling_ids X ->
  NoDup (flat_map addrs X) ->
  Forall (fun t => height t <= S h) X ->
  exists s',
    forEach (prune_step (on_view (total P)))
            (rev (map root (levelorder h (flat_map kids_of X)))) s = (Val tt, s') /\
    pruned_at P s s' (flat_map preorder X).
Proof.
  induction h as [|h IH]; intros X s Hr Hl Hids Hnd Hh.
  { exists s. split; [reflexivity|].
    assert (Hleaf : Forall (fun x => kids_of x = []) X).
    { eapply Forall_impl; [exact Hh|]. intros x. apply height_1_leaf. }
    rewrite (leaves_preorder _ Hleaf).
    unfold pruned_at. split_and!; auto.
    rewrite Forall_forall in *. intros u Hu.
    specialize (Hr u Hu). inversion Hr as [? ? ? n Hn Hv Hc Hk]; subst.
    exists n. split; [done|]. simpl. rewrite Hn. f_equal.
    pose proof (Hleaf _ Hu) as E. simpl in E. subst kids.
    unfold set_pruned. simpl. simpl in Hc. rewrite <- Hc.
    by rewrite set_children_id. }
  set (K := flat_map kids_of X).
  assert (HndP : NoDup (map root X ++ flat_map addrs K)).
  { rewrite flat_map_addrs in Hnd. rewrite preorder_forest_perm, map_app in Hnd.
    by rewrite flat_map_addrs. }
  apply NoDup_app in HndP as (HndX & Hdisj & HndK).
  destruct (IH K s) as (s1 & H1 & Hp1 & Hl1 & Hlen1 & Hout1 & Hin1).
  { by apply repr_kids. }
  { by apply linked_kids. }
  { by apply sibling_ids_kids. }
  { done. }
  { by apply height_kids_forest. }
  rewrite flat_map_addrs in Hdisj.
  assert (HX1 : forall x, x ∈ X -> nodes s1 !! root x = nodes s !! root x).
  { intros x Hx. apply Hout1. apply Hdisj. by apply list_elem_of_fmap_2. }
  destruct (prune_level P X s1) as (s2 & H2 & Hp2 & Hl2 & Hlen2 & Hout2 & Hin2).
  { rewrite Forall_forall in *. intros x Hx. specialize (Hr x Hx).
    inversion Hr as [? ? ? n Hn Hv Hc Hk]; subst.
    exists n. split; [|done]. rewrite (HX1 _ Hx). done. }
  { rewrite Forall_forall in *. intros x Hx.
    specialize (Hr x Hx). specialize (Hl x Hx).
    inversion Hr as [a v ks n Hn Hv Hc Hk]; subst. simpl in *.
    rewrite Forall_forall in *. intros k Hk'.
    assert (HkK : k ∈ flat_map preorder K).
    { apply elem_of_forest_preorder. apply list_elem_of_In, in_flat_map.
      exists (NT a v ks). split; by apply list_elem_of_In. }
    destruct (Hin1 k HkK) as (nk & Hnk & Hnk1).
    specialize (Hk k Hk'). specialize (Hl k Hk').
    inversion Hk as [? ? ? nk' Hnk' Hvk Hck _]; subst.
    inversion Hl as [? ? ? ? nk'' Hnk'' Hpk _]; subst. simpl in *.
    assert (nk' = nk) by congruence. assert (nk'' = nk) by congruence. subst.
    exists (set_pruned P (NT a0 v0 kids) nk). split; [done|].
    split; [|done]. unfold set_pruned. rewrite view_of_set_children.
    by rewrite (view_of_tasks_eq _ _ _ Hp1). }
  { rewrite Forall_forall in *. intros x Hx. specialize (Hids x Hx). by inversion Hids. }
  { apply NoDup_app. split; [done|]. split.
    - intros a Ha Ha'. apply (Hdisj a Ha).
      eapply elem_of_sublist; [exact Ha'|].
      rewrite <- flat_map_addrs. apply roots_sublist.
    - eapply sublist_NoDup; [|apply roots_sublist]. done. }
  exists s2. split.
  { simpl. fold K. rewrite map_app, rev_app_distr, forEach_app.
    unfold bind. rewrite H1. exact H2. }
  unfold pruned_at. split_and!.
  - congruence.
  - congruence.
  - congruence.
  - intros a Ha.
    assert ((a ∉ map root X) /\ (a ∉ map root (flat_map preorder K))) as [Ha1 Ha2].
    { split; intros Hin; apply Ha.
      - apply list_elem_of_fmap in Hin as (u & -> & Hu). apply list_elem_of_fmap_2.
        apply elem_of_preorder_forest. by left.
      - apply list_elem_of_fmap in Hin as (u & -> & Hu). apply list_elem_of_fmap_2.
        apply elem_of_preorder_forest. by right. }
    rewrite Hout2 by done. by apply Hout1.
  - rewrite Forall_forall in *. intros u [Hu|Hu]%elem_of_preorder_forest.
    + destruct (Hin2 u Hu) as (n & Hn1 & Hn2). exists n. split; [|done].
      by rewrite <- (HX1 _ Hu).
    + destruct (Hin1 u Hu) as (n & Hn1 & Hn2). exists n. split; [done|].
      rewrite <- Hn2. apply Hout2. intros Hin. apply (Hdisj _ Hin).
      by apply list_elem_of_fmap_2.
Qed.

Lemma prune_step_throw P s a v :
  node_at s a v None [] -> P v = false ->
  prune_step (on_view (total P)) a s = (Exn TypeError, s).
Proof.
  intros (n & Hn & Hv & Hp & Hc) HP. unfold prune_step.
  unfold bind at 1. rewrite (call_on_view _ _ _ _ _ Hn Hv). unfold total.
  rewrite (bind_val _ _ _ _ _ (getNode_val _ _ _ Hn)).
  rewrite HP, Hc, Hp. reflexivity.
Qed.

Lemma prune_root_unfold P t :
  prune_root P t = NT (root t) (view t) (omap (prune P) (kids_of t)).
Proof. by destruct t. Qed.

Lemma prune_Some_eq P t t' : prune P t = Some t' -> t' = prune_root P t.
Proof. destruct t as [a v ks]. intros H. by apply prune_Some in H as [-> _]. Qed.

Lemma bfs_unfold t :
  exists h, bfs t = t :: levelorder h (flat_map kids_of [t]) /\ height t = S h.
Proof.
  destruct t as [a v ks]. unfold bfs. simpl. eexists. split; reflexivity.
Qed.

(** The whole pruning loop: every node ends with the children [prune] keeps;
    the last step, on the root, throws when the root does not match and has
    no child left. *)
Lemma prune_tree P t s :
  repr s t -> linked s None t -> sibling_ids t -> NoDup (addrs t) ->
  exists s',
    forEach (prune_step (on_view (total P))) (rev (map root (bfs t))) s =
      (if root_kept P t then Val tt else Exn TypeError, s') /\
    pruned_at P s s' (preorder t).
Proof.
  intros Hr Hl Hids Hnd.
  destruct (bfs_unfold t) as (h & -> & Hh).
  destruct (prune_below P h [t] s) as (s1 & H1 & Hp1).
  { by constructor. }
  { constructor; [|constructor]. by inversion Hl; subst. }
  { by constructor. }
  { simpl. by rewrite app_nil_r. }
  { constructor; [lia|constructor]. }
  simpl in Hp1. rewrite app_nil_r in Hp1.
  exists s1. split; [|done].
  set (L := levelorder h (flat_map kids_of [t])) in *.
  change (rev (map root (t :: L))) with (rev (map root L) ++ [root t]).
  rewrite forEach_app. unfold bind at 1. rewrite H1. simpl.
  destruct Hp1 as (Ht1 & Hl1 & Hlen1 & Hout1 & Hin1).
  rewrite Forall_forall in Hin1.
  destruct (Hin1 t (root_in_preorder t)) as (n & Hn & Hn1).
  inversion Hr as [? ? ? n' Hn' Hv Hc Hk]; subst.
  inversion Hl as [? ? ? ? n'' Hn'' Hpar _]; subst. simpl in *.
  assert (n' = n) by congruence. assert (n'' = n) by congruence. subst.
  assert (Hat : node_at s1 a v None (map root (omap (prune P) kids))).
  { eexists. split; [exact Hn1|]. split; [|done].
    unfold set_pruned. rewrite view_of_set_children.
    by rewrite (view_of_tasks_eq _ _ _ Ht1). }
  unfold root_kept. simpl. unfold bind.
  destruct (P v) eqn:HP; simpl.
  - erewrite prune_step_keep; [done|exact Hat|by left].
  - destruct (omap (prune P) kids) as [|k' ks'] eqn:E; simpl.
    + by erewrite prune_step_throw.
    + erewrite prune_step_keep; [done|exact Hat|by right].
Qed.

Lemma repr_pruned P s s' : forall u,
  repr s u ->
  tasks s' = tasks s ->
  (forall w, w ∈ preorder u ->
     exists n, nodes s !! root w = Some n /\
               nodes s' !! root w = Some (set_pruned P w n)) ->
  repr s' (prune_root P u).
Proof.
  induction u as [a v kids IH] using ntree_ind'. intros Hr Ht Hin.
  inversion Hr as [? ? ? n Hn Hv Hc Hk]; subst.
  destruct (Hin _ (root_in_preorder _)) as (n' & Hn' & Hn1). simpl in *.
  assert (n' = n) by congruence. subst.
  econstructor; [exact Hn1| |reflexivity|].
  { unfold set_pruned. rewrite view_of_set_children.
    by rewrite (view_of_tasks_eq _ _ _ Ht). }
  rewrite Forall_forall in *. intros k' Hk'.
  apply list_elem_of_omap in Hk' as (k & Hkin & Hpr).
  rewrite (prune_Some_eq _ _ _ Hpr). apply IH; auto.
  intros w Hw. apply Hin. right.
  apply list_elem_of_In, in_flat_map. exists k. split; by apply list_elem_of_In.
Qed.

Lemma linked_pruned P s s' : forall u p,
  linked s p u ->
  (forall w, w ∈ preorder u ->
     exists n, nodes s !! root w = Some n /\
               nodes s' !! root w = Some (set_pruned P w n)) ->
  linked s' p (prune_root P u).
Proof.
  induction u as [a v kids IH] using ntree_ind'. intros p Hr Hin.
  inversion Hr as [? ? ? ? n Hn Hp Hk]; subst.
  destruct (Hin _ (root_in_preorder _)) as (n' & Hn' & Hn1). simpl in *.
  assert (n' = n) by congruence. subst.
  econstructor; [exact Hn1|reflexivity|].
  rewrite Forall_forall in *. intros k' Hk'.
  apply list_elem_of_omap in Hk' as (k & Hkin & Hpr).
  rewrite (prune_Some_eq _ _ _ Hpr). apply IH; auto.
  intros w Hw. apply Hin. right.
  apply list_elem_of_In, in_flat_map. exists k. split; by apply list_elem_of_In.
Qed.

Lemma addrs_pruned_sublist P : forall u, addrs (prune_root P u) `sublist_of` addrs u.
Proof.
  induction u as [a v kids IH] using ntree_ind'. simpl.
  rewrite !addrs_unfold. constructor.
  induction kids as [|k kids IHk]; [constructor|].
  inversion IH as [|? ? Hk Hks]; subst. simpl.
  destruct (prune P k) as [k'|] eqn:E.
  - rewrite flat_map_cons. apply sublist_app; [|by apply IHk].
    by rewrite (prune_Some_eq _ _ _ E).
  - apply sublist_inserts_l. by apply IHk.
Qed.

(** *** Flattening and new line numbers *)

Lemma flat_nodes_eq fuel depth l :
  flat_nodes fuel depth l = (r <- mapM (flat_entry fuel depth) l ;; ret (concat r)).
Proof. destruct fuel; reflexivity. Qed.

Lemma flat_mapM_spec s : forall fuel ts depth,
  Forall (repr s) ts ->
  Forall (fun t => height t <= fuel) ts ->
  exists ls,
    mapM (flat_entry fuel depth) (map root ts) s = (Val ls, s) /\
    map fst (concat ls) = map root (flat_map preorder ts).
Proof.
  induction fuel as [|f IHf].
  { intros [|t ts] depth _ Hh.
    - exists []. split; reflexivity.
    - inversion Hh; subst. pose proof (height_pos t). lia. }
  induction ts as [|t ts IHts]; intros depth Hr Hh.
  { exists []. split; reflexivity. }
  inversion Hr as [|? ? Hrt Hrts]; subst.
  inversion Hh as [|? ? Hht Hhts]; subst.
  destruct t as [a v kids].
  inversion Hrt as [? ? ? n Hn Hv Hc Hk]; subst.
  destruct (IHf kids (S depth) Hk (height_kids _ _ _ _ Hht)) as (lk & Hlk & Hfk).
  destruct (IHts depth Hrts Hhts) as (ls & Hls & Hfs).
  exists (((a, depth) :: concat lk) :: ls). split.
  - simpl. unfold bind at 1. unfold bind at 1. rewrite (getNode_val _ _ _ Hn).
    unfold bind at 1. rewrite flat_nodes_eq, Hc. unfold bind at 1. rewrite Hlk.
    unfold ret at 1. unfold ret at 1. unfold bind at 1. rewrite Hls. reflexivity.
  - rewrite flat_map_cons. simpl. rewrite !map_app. simpl in Hfs. by rewrite Hfk, Hfs.
Qed.

(** [flat] lists the nodes below the root in depth-first pre-order. *)
Lemma flat_spec s fuel t :
  repr s t -> height t <= S fuel ->
  exists l, flat fuel (root t) s = (Val l, s) /\
            map fst l = map root (flat_map preorder (kids_of t)).
Proof.
  intros Hr Hh. destruct t as [a v kids].
  inversion Hr as [? ? ? n Hn Hv Hc Hk]; subst.
  destruct (flat_mapM_spec s fuel kids 0 Hk (height_kids _ _ _ _ Hh)) as (ls & Hls & Hf).
  exists (concat ls). split; [|done].
  unfold flat. simpl. rewrite (bind_val _ _ _ _ _ (getNode_val _ _ _ Hn)).
  rewrite flat_nodes_eq, Hc. unfold bind. rewrite Hls. reflexivity.
Qed.

(** The renumbering loop gives the node at index [i] the line [j + i + 1]
    and writes nothing else. *)
Lemma renumber_spec : forall (l : list (nat * nat)) j s,
  NoDup (map fst l) ->
  (forall a, a ∈ map fst l -> is_Some (nodes s !! a)) ->
  exists s',
    forEachFrom renumber_step j l s = (Val tt, s') /\
    tasks s' = tasks s /\ log s' = log s /\
    length (nodes s') = length (nodes s) /\
    (forall a, a ∉ map fst l -> nodes s' !! a = nodes s !! a) /\
    (forall i a, map fst l !! i = Some a ->
       exists n, nodes s !! a = Some n /\
                 nodes s' !! a = Some (set_line (Z.of_nat (j + i) + 1) n)).
Proof.
  induction l as [|[a d] l IH]; intros j s Hnd Hin.
  { exists s. split_and!; auto. intros i a Hi. discriminate. }
  simpl in Hnd. apply NoDup_cons in Hnd as [Ha Hnd].
  destruct (Hin a) as [n Hn]; [left|].
  set (s1 := mkStore (<[a:=set_line (Z.of_nat j + 1) n]> (nodes s)) (tasks s) (log s)).
  destruct (IH (S j) s1 Hnd) as (s' & Hrun & Ht & Hl & Hlen & Hout & Hidx).
  { intros b Hb. simpl.
    destruct (decide (b = a)) as [->|Hne]; [done|].
    rewrite list_lookup_insert_ne by done. apply Hin. by right. }
  exists s'. split_and!.
  - simpl. unfold bind. unfold renumber_step at 1. simpl.
    rewrite (modNode_val _ _ _ _ Hn). exact Hrun.
  - done.
  - done.
  - rewrite Hlen. simpl. apply length_insert.
  - intros b Hb. simpl in Hb. apply not_elem_of_cons in Hb as [Hne Hb].
    rewrite Hout by done. simpl. by apply list_lookup_insert_ne.
  - intros i b Hi. destruct i as [|i]; simpl in Hi.
    + injection Hi as <-. exists n. split; [done|].
      rewrite Hout by done. simpl. rewrite Nat.add_0_r.
      apply list_lookup_insert_eq. by eapply lookup_lt_Some.
    + destruct (Hidx i b Hi) as (nb & Hnb & Hnb'). exists nb.
      assert (b <> a).
      { intros ->. apply Ha. apply list_elem_of_lookup. eauto. }
      split.
      * simpl in Hnb. by rewrite list_lookup_insert_ne in Hnb.
      * rewrite Hnb'. do 3 f_equal. lia.
Qed.

(** *** Trees without their addresses; size and height *)

Lemma view_anon t : view (anon t) = view t.
Proof. by destruct t. Qed.

Lemma kids_anon t : kids_of (anon t) = map anon (kids_of t).
Proof. by destruct t. Qed.

Lemma height_anon : forall t, height (anon t) = height t.
Proof.
  induction t as [a v kids IH] using ntree_ind'. simpl. f_equal.
  induction IH as [|k kids Hk _ IHk]; [done|]. simpl. by rewrite Hk, IHk.
Qed.

Lemma size_anon : forall t, size (anon t) = size t.
Proof.
  induction t as [a v kids IH] using ntree_ind'. simpl. f_equal.
  induction IH as [|k kids Hk _ IHk]; [done|]. simpl. by rewrite Hk, IHk.
Qed.

Lemma prune_unfold P a v kids :
  prune P (NT a v kids) =
  if negb (P v) && (length (omap (prune P) kids) =? 0)
  then None else Some (NT a v (omap (prune P) kids)).
Proof. reflexivity. Qed.

Lemma anon_unfold a v kids : anon (NT a v kids) = NT 0 v (map anon kids).
Proof. reflexivity. Qed.

Lemma omap_cons {A B} (f : A -> option B) x l :
  omap f (x :: l) = match f x with Some y => y :: omap f l | None => omap f l end.
Proof. reflexivity. Qed.

Lemma prune_anon P : forall t, prune P (anon t) = anon <$> prune P t.
Proof.
  induction t as [a v kids IH] using ntree_ind'.
  assert (E : omap (prune P) (map anon kids) = map anon (omap (prune P) kids)).
  { induction IH as [|k kids Hk _ IHk]; [done|].
    rewrite map_cons, !omap_cons, Hk, IHk.
    destruct (prune P k); reflexivity. }
  rewrite anon_unfold, (prune_unfold P 0 v (map anon kids)), (prune_unfold P a v kids).
  rewrite E, length_map.
  by destruct (negb (P v) && (length (omap (prune P) kids) =? 0)).
Qed.

Lemma omap_prune_anon P kids :
  omap (prune P) (map anon kids) = map anon (omap (prune P) kids).
Proof.
  induction kids as [|k kids IH]; [done|].
  rewrite map_cons, !omap_cons, prune_anon, IH.
  destruct (prune P k); reflexivity.
Qed.

Lemma prune_root_anon P t : prune_root P (anon t) = anon (prune_root P t).
Proof. destruct t as [a v kids]. simpl. by rewrite omap_prune_anon. Qed.

Lemma root_kept_anon P t : root_kept P (anon t) = root_kept P t.
Proof.
  unfold root_kept. rewrite view_anon, kids_anon, omap_prune_anon, length_map. done.
Qed.

Lemma sibling_ids_anon : forall t, sibling_ids (anon t) -> sibling_ids t.
Proof.
  induction t as [a v kids IH] using ntree_ind'. intros H.
  inversion H as [Hnd Hk]. simpl in *. constructor; simpl.
  - rewrite map_map in Hnd. erewrite map_ext; [exact Hnd|].
    intros k. simpl. by rewrite view_anon.
  - rewrite Forall_forall in *. intros k Hin. apply IH; [done|].
    apply Hk. by apply list_elem_of_fmap_2.
Qed.

Lemma anon_sibling_ids : forall t, sibling_ids t -> sibling_ids (anon t).
Proof.
  induction t as [a v kids IH] using ntree_ind'. intros H.
  inversion H as [Hnd Hk]. simpl in *. constructor; simpl.
  - rewrite map_map. erewrite map_ext; [exact Hnd|].
    intros k. simpl. by rewrite view_anon.
  - rewrite Forall_forall in *. intros k' Hin.
    apply list_elem_of_fmap in Hin as (k & -> & Hin). apply IH; auto.
Qed.

Lemma height_le_size : forall t, height t <= size t.
Proof.
  induction t as [a v kids IH] using ntree_ind'. simpl. apply le_n_S.
  induction IH as [|k kids Hk _ IHk]; [done|]. simpl. lia.
Qed.

Lemma height_pruned P : forall t, height (prune_root P t) <= height t.
Proof.
  induction t as [a v kids IH] using ntree_ind'.
  rewrite prune_root_unfold. simpl. apply le_n_S.
  induction IH as [|k kids Hk _ IHk]; [done|].
  rewrite omap_cons. destruct (prune P k) as [k'|] eqn:E.
  - rewrite (prune_Some_eq _ _ _ E). rewrite !map_cons. simpl foldr.
    simpl in IHk. lia.
  - rewrite map_cons. simpl foldr. simpl in IHk. lia.
Qed.

Lemma index_of_lookup l : forall i a, NoDup l -> l !! i = Some a -> index_of a l = i.
Proof.
  induction l as [|x l IH]; intros i a Hnd Hi; [discriminate|].
  apply NoDup_cons in Hnd as [Hx Hnd]. simpl.
  destruct i as [|i]; simpl in Hi.
  - injection Hi as ->. by rewrite decide_True.
  - rewrite decide_False.
    + f_equal. by apply IH.
    + intros ->. apply Hx. apply list_elem_of_lookup. eauto.
Qed.

Lemma map_new_line l :
  NoDup l -> map (new_line l) l = map Z.of_nat (seq 1 (length l)).
Proof.
  intros Hnd. apply list_eq. intros i.
  rewrite !list_lookup_fmap.
  destruct (l !! i) as [a|] eqn:E; simpl.
  - rewrite lookup_seq_lt by (by eapply lookup_lt_Some). simpl.
    unfold new_line. rewrite (index_of_lookup _ _ _ Hnd E). f_equal. lia.
  - rewrite lookup_seq_ge by (by apply lookup_ge_None). done.
Qed.

Lemma root_reline f t : root (reline f t) = root t.
Proof. by destruct t. Qed.

Lemma map_root_reline f ts : map root (map (reline f) ts) = map root ts.
Proof. rewrite map_map. apply map_ext. apply root_reline. Qed.

Lemma unline_reline f : forall t, unline (reline f t) = unline t.
Proof.
  induction t as [a v kids IH] using ntree_ind'. simpl. f_equal.
  rewrite map_map. apply Forall_fmap_ext_1. exact IH.
Qed.

Lemma preorder_reline f : forall t, preorder (reline f t) = map (reline f) (preorder t).
Proof.
  induction t as [a v kids IH] using ntree_ind'. simpl. f_equal.
  induction IH as [|k kids Hk _ IHk]; [done|]. simpl.
  by rewrite map_app, Hk, IHk.
Qed.

Lemma lines_reline f ts :
  map (fun k => view_line (view k)) (flat_map preorder (map (reline f) ts)) =
  map f (map root (flat_map preorder ts)).
Proof.
  induction ts as [|t ts IH]; [done|].
  simpl. rewrite !map_app, IH. f_equal.
  rewrite preorder_reline, !map_map. apply map_ext. by intros [a v kids].
Qed.

Lemma view_of_set_line s z n v :
  view_of s n = Some v -> view_of s (set_line z n) = Some (with_line z v).
Proof.
  unfold view_of. simpl. destruct (node_body n) as [[t|x]|x l].
  - destruct (tasks s !! t); [|discriminate]. by intros [= <-].
  - by intros [= <-].
  - by intros [= <-].
Qed.

Lemma repr_reline f s s' : forall u,
  repr s u ->
  tasks s' = tasks s ->
  (forall w, w ∈ preorder u ->
     exists n, nodes s !! root w = Some n /\
               nodes s' !! root w = Some (set_line (f (root w)) n)) ->
  repr s' (reline f u).
Proof.
  induction u as [a v kids IH] using ntree_ind'. intros Hr Ht Hin.
  inversion Hr as [? ? ? n Hn Hv Hc Hk]; subst.
  destruct (Hin _ (root_in_preorder _)) as (n' & Hn' & Hn1). simpl in *.
  assert (n' = n) by congruence. subst.
  econstructor; [exact Hn1| | |].
  - apply view_of_set_line. by rewrite (view_of_tasks_eq _ _ _ Ht).
  - simpl. by rewrite map_root_reline.
  - rewrite Forall_forall in *. intros k' Hk'.
    apply list_elem_of_fmap in Hk' as (k & -> & Hkin). apply IH; auto.
    intros w Hw. apply Hin. right.
    apply list_elem_of_In, in_flat_map. exists k. split; by apply list_elem_of_In.
Qed.

Lemma linked_reline f s s' : forall u p,
  linked s p u ->
  (forall w, w ∈ preorder u ->
     exists n, nodes s !! root w = Some n /\
               nodes s' !! root w = Some (set_line (f (root w)) n)) ->
  linked s' p (reline f u).
Proof.
  induction u as [a v kids IH] using ntree_ind'. intros p Hr Hin.
  inversion Hr as [? ? ? ? n Hn Hp Hk]; subst.
  destruct (Hin _ (root_in_preorder _)) as (n' & Hn' & Hn1). simpl in *.
  assert (n' = n) by congruence. subst.
  econstructor; [exact Hn1|reflexivity|].
  rewrite Forall_forall in *. intros k' Hk'.
  apply list_elem_of_fmap in Hk' as (k & -> & Hkin). apply IH; auto.
  intros w Hw. apply Hin. right.
  apply list_elem_of_In, in_flat_map. exists k. split; by apply list_elem_of_In.
Qed.

Lemma prefix_of_lookup {A} (l1 l2 : list A) :
  (forall i x, l1 !! i = Some x -> l2 !! i = Some x) -> l1 `prefix_of` l2.
Proof.
  intros H. exists (drop (length l1) l2).
  rewrite <- (take_drop (length l1) l2) at 1. f_equal.
  apply list_eq. intros i. destruct (l1 !! i) as [x|] eqn:E.
  - rewrite lookup_take_lt by (by eapply lookup_lt_Some). by apply H.
  - apply lookup_ge_None in E. apply lookup_ge_None. rewrite length_take. lia.
Qed.

Lemma repr_nodes s : forall u w, repr s u -> w ∈ preorder u -> is_Some (nodes s !! root w).
Proof.
  induction u as [a v kids IH] using ntree_ind'. intros w Hr Hw.
  inversion Hr as [? ? ? n Hn Hv Hc Hk]; subst.
  simpl in Hw. apply elem_of_cons in Hw as [->|Hw]; [by eexists|].
  apply list_elem_of_In, in_flat_map in Hw as (k & Hk1 & Hk2).
  apply list_elem_of_In in Hk1, Hk2.
  rewrite Forall_forall in *. eapply (IH k); eauto.
Qed.

(** *** [filter] with a predicate on the content of a node *)

Lemma Node_filter_eq fuel predicate this :
  Node_filter fuel predicate this =
  (cl <- clone fuel [this] None ;;
   match cl with
   | [cloned] =>
       try_catch (filter_try fuel predicate cloned) (fun e => Log_w e) ;;;
       ret cloned
   | _ => bad_ref
   end).
Proof. reflexivity. Qed.

Lemma clone_one fuel s t :
  repr s t -> height t <= fuel ->
  exists t1 s1,
    clone fuel [root t] None s = (Val [root t1], s1) /\
    extends s s1 /\ repr s1 t1 /\ linked s1 None t1 /\ anon t1 = anon t /\
    (forall a, a ∈ addrs t1 -> length (nodes s) <= a < length (nodes s1)) /\
    NoDup (addrs t1) /\
    (forall a n tk, a ∈ addrs t1 -> nodes s1 !! a = Some n ->
                    task_of n = Some tk -> length (tasks s) <= tk).
Proof.
  intros Hr Hh.
  destruct (clone_spec fuel [t] None s) as (ts1 & s1 & Hcl & He & Hr1 & Hl1 & Ha & Hrg & Hnd & Htk).
  { by constructor. } { by constructor. }
  destruct ts1 as [|t1 [|t2 ts]]; try discriminate.
  simpl in Ha. injection Ha as Ha.
  inversion Hr1; subst. inversion Hl1; subst.
  simpl in Hrg, Hnd, Htk. rewrite app_nil_r in Hrg, Hnd, Htk.
  exists t1, s1. split_and!; auto.
Qed.

(** The renumbering part of [filter], on any tree in the store. *)
Lemma renumber_tail fuel s t :
  repr s t -> linked s None t -> NoDup (addrs t) -> height t <= S fuel ->
  exists s' t',
    (flattenFiltered <- flat fuel (root t) ;;
     forEachFrom renumber_step 0 flattenFiltered) s = (Val tt, s') /\
    tasks s' = tasks s /\ log s' = log s /\
    length (nodes s') = length (nodes s) /\
    (forall a, a ∉ addrs t -> nodes s' !! a = nodes s !! a) /\
    root t' = root t /\
    repr s' t' /\ linked s' None t' /\ NoDup (addrs t') /\
    (forall a, a ∈ addrs t' -> a ∈ addrs t) /\
    unline t' = unline t /\
    lines_below t' = map Z.of_nat (seq 1 (length (lines_below t'))).
Proof.
  intros Hr2 Hlk2 Hnd2 Hh.
  destruct (flat_spec s fuel t Hr2 Hh) as (l & Hflat & Hfst).
  set (K2 := kids_of t) in *.
  assert (Haddrs2 : addrs t = root t :: map fst l).
  { destruct t as [a v K]. rewrite addrs_unfold. simpl.
    by rewrite flat_map_addrs, Hfst. }
  rewrite Haddrs2 in Hnd2. apply NoDup_cons in Hnd2 as [Hroot Hndl].
  destruct (renumber_spec l 0 s Hndl) as (s3 & Hrn & Ht3 & Hl3 & Hlen3 & Hout3 & Hidx3).
  { intros a Ha. rewrite Hfst in Ha.
    apply list_elem_of_fmap in Ha as (w & -> & Hw).
    eapply repr_nodes; [exact Hr2|]. rewrite preorder_unfold. by right. }
  unfold bind at 1. rewrite Hflat. rewrite Hrn.
  set (f := new_line (map fst l)).
  assert (Hset : forall k w, k ∈ K2 -> w ∈ preorder k ->
             exists n, nodes s !! root w = Some n /\
                       nodes s3 !! root w = Some (set_line (f (root w)) n)).
  { intros k w Hk Hw.
    assert (Hwl : root w ∈ map fst l).
    { rewrite Hfst. apply list_elem_of_fmap_2.
      apply list_elem_of_In, in_flat_map. exists k. split; by apply list_elem_of_In. }
    apply list_elem_of_lookup in Hwl as (i & Hi).
    destruct (Hidx3 i _ Hi) as (n & Hn & Hn'). exists n. split; [done|].
    rewrite Hn'. unfold f, new_line.
    rewrite (index_of_lookup _ _ _ Hndl Hi). done. }
  destruct (repr_inv _ _ Hr2) as (n & Hn & Hv & Hc & Hk).
  destruct (linked_inv _ _ _ Hlk2) as (n' & Hn' & Hpar & Hlk).
  fold K2 in Hc, Hk, Hlk.
  assert (n' = n) by congruence. subst n'.
  assert (Hroot3 : nodes s3 !! root t = Some n).
  { rewrite Hout3 by done. done. }
  exists s3, (NT (root t) (view t) (map (reline f) K2)).
  split_and!.
  - reflexivity.
  - done.
  - done.
  - done.
  - intros a Ha. rewrite Hout3; [done|].
    intros Hin. apply Ha. rewrite Haddrs2. by right.
  - reflexivity.
  - econstructor; [exact Hroot3| | |].
    + by rewrite (view_of_tasks_eq _ _ _ Ht3).
    + by rewrite map_root_reline.
    + rewrite Forall_forall in *. intros k' Hk'.
      apply list_elem_of_fmap in Hk' as (k & -> & Hkin).
      apply (repr_reline f s s3); [by apply Hk|done|].
      intros w Hw. by apply (Hset k).
  - econstructor; [exact Hroot3|done|].
    rewrite Forall_forall in *. intros k' Hk'.
    apply list_elem_of_fmap in Hk' as (k & -> & Hkin).
    apply (linked_reline f s s3); [by apply Hlk|].
    intros w Hw. by apply (Hset k).
  - rewrite addrs_unfold, flat_map_addrs.
    assert (E : map root (flat_map preorder (map (reline f) K2)) = map fst l).
    { rewrite Hfst. clear. induction K2 as [|k K2 IH]; [done|].
      simpl. rewrite !map_app, IH. f_equal.
      rewrite preorder_reline, map_map. apply map_ext. apply root_reline. }
    rewrite E. by apply NoDup_cons.
  - intros a Ha. rewrite Haddrs2.
    rewrite addrs_unfold, flat_map_addrs in Ha.
    apply elem_of_cons in Ha as [->|Ha]; [left|right].
    rewrite Hfst.
    revert Ha. clear. induction K2 as [|k K2 IH]; [done|].
    simpl. rewrite !map_app, !elem_of_app. intros [Ha|Ha]; [left|right; auto].
    rewrite preorder_reline, map_map in Ha.
    erewrite map_ext in Ha; [exact Ha|]. intros w. apply root_reline.
  - destruct t as [a v K]. simpl. f_equal.
    rewrite map_map. apply map_ext. apply unline_reline.
  - unfold lines_below. simpl kids_of. rewrite lines_reline, <- Hfst.
    rewrite (length_map f). by apply map_new_line.
Qed.

(** The pruning and renumbering part of [filter], on a tree with its links. *)
Lemma filter_try_spec fuel P s t :
  repr s t -> linked s None t -> sibling_ids t -> NoDup (addrs t) ->
  size t <= fuel ->
  exists s' t',
    filter_try fuel (on_view (total P)) (root t) s =
      (if root_kept P t then Val tt else Exn TypeError, s') /\
    tasks s' = tasks s /\ log s' = log s /\
    length (nodes s') = length (nodes s) /\
    (forall a, a ∉ addrs t -> nodes s' !! a = nodes s !! a) /\
    root t' = root t /\
    repr s' t' /\ linked s' None t' /\ NoDup (addrs t') /\
    (forall a, a ∈ addrs t' -> a ∈ addrs t) /\
    unline t' = unline (prune_root P t) /\
    lines_below t' = map Z.of_nat (seq 1 (length (lines_below t'))).
Proof.
  intros Hr Hl Hids Hnd Hsz.
  pose proof (height_le_size t) as Hhs.
  assert (Hbfs : bfs_loop fuel [root t] [] s = (Val (map root (bfs t)), s)).
  { apply (bfs_loop_spec s (height t) [t] fuel []).
    - by constructor.
    - by constructor.
    - unfold fsize. simpl. lia. }
  destruct (prune_tree P t s Hr Hl Hids Hnd) as (s2 & Hpr & Hpa).
  pose proof Hpa as (Ht2 & Hl2 & Hlen2 & Hout2 & Hin2).
  rewrite Forall_forall in Hin2.
  assert (Hr2 : repr s2 (prune_root P t)) by (by apply (repr_pruned P s s2)).
  assert (Hlk2 : linked s2 None (prune_root P t)) by (by apply (linked_pruned P s s2)).
  assert (Hnd2 : NoDup (addrs (prune_root P t))).
  { eapply sublist_NoDup; [|apply addrs_pruned_sublist]. done. }
  assert (Hsub2 : forall a, a ∈ addrs (prune_root P t) -> a ∈ addrs t).
  { intros a Ha. eapply elem_of_sublist; [exact Ha|apply addrs_pruned_sublist]. }
  unfold filter_try. unfold bind at 1. rewrite Hbfs.
  unfold bind at 1. rewrite Hpr.
  destruct (root_kept P t) eqn:Hkept.
  - (* the pass is complete: renumber *)
    destruct (renumber_tail fuel s2 (prune_root P t) Hr2 Hlk2 Hnd2)
      as (s3 & t3 & Hrn & Ht3 & Hl3 & Hlen3 & Hout3 & Hroot3 & Hr3 & Hlk3 & Hnd3 &
          Hsub3 & Hun3 & Hlines).
    { pose proof (height_pruned P t). lia. }
    assert (Hrt : root (prune_root P t) = root t) by (by destruct t).
    rewrite Hrt in Hrn, Hroot3. rewrite Hrn.
    exists s3, t3. split_and!; auto; try congruence.
    intros a Ha. rewrite Hout3.
    + apply Hout2. intros Hin. by apply Ha.
    + intros Hin. by apply Ha, Hsub2.
  - (* the root is neither matched nor has a child left *)
    assert (HK : omap (prune P) (kids_of t) = []).
    { unfold root_kept in Hkept. apply orb_false_elim in Hkept as [_ Hk].
      destruct (omap (prune P) (kids_of t)); [done|discriminate]. }
    exists s2, (prune_root P t). split_and!.
    + reflexivity.
    + done.
    + done.
    + done.
    + intros a Ha. apply Hout2. intros Hin. by apply Ha.
    + by destruct t.
    + done.
    + done.
    + done.
    + done.
    + done.
    + rewrite prune_root_unfold, HK. reflexivity.
Qed.

Lemma anon_unline : forall t, anon (unline t) = unline (anon t).
Proof.
  induction t as [a v kids IH] using ntree_ind'. simpl. f_equal.
  rewrite !map_map. apply Forall_fmap_ext_1. exact IH.
Qed.

Lemma repr_log s t l : repr s t -> repr (mkStore (nodes s) (tasks s) l) t.
Proof. intros H. eapply repr_agree; [exact H|done|done]. Qed.

Lemma linked_log s p t l : linked s p t -> linked (mkStore (nodes s) (tasks s) l) p t.
Proof. intros H. eapply linked_agree; [exact H|done]. Qed.

Lemma Node_filter_spec fuel P s t :
  repr s t -> sibling_ids t -> size t <= fuel ->
  exists s' t',
    Node_filter fuel (on_view (total P)) (root t) s = (Val (root t'), s') /\
    nodes s `prefix_of` nodes s' /\ tasks s `prefix_of` tasks s' /\
    log s' = log s ++ (if root_kept P t then [] else [TypeError]) /\
    repr s' t' /\ linked s' None t' /\ NoDup (addrs t') /\
    (forall a, a ∈ addrs t' -> length (nodes s) <= a) /\
    anon (unline t') = anon (unline (prune_root P t)) /\
    lines_below t' = map Z.of_nat (seq 1 (length (lines_below t'))).
Proof.
  intros Hr Hids Hsz.
  pose proof (height_le_size t) as Hhs.
  destruct (clone_one fuel s t Hr) as (t1 & s1 & Hcl & He & Hr1 & Hl1 & Ha & Hrg & Hnd & _);
    [lia|].
  assert (Hids1 : sibling_ids t1).
  { apply sibling_ids_anon. rewrite Ha. by apply anon_sibling_ids. }
  assert (Hsz1 : size t1 <= fuel).
  { rewrite <- size_anon, Ha, size_anon. done. }
  assert (Hk1 : root_kept P t1 = root_kept P t).
  { rewrite <- root_kept_anon, Ha, root_kept_anon. done. }
  destruct (filter_try_spec fuel P s1 t1 Hr1 Hl1 Hids1 Hnd Hsz1)
    as (s2 & t' & Htry & Ht2 & Hl2 & Hlen2 & Hout2 & Hroot & Hr2 & Hlk2 & Hnd2 &
        Hsub & Hun & Hlines).
  rewrite Hk1 in Htry.
  assert (Hpre : nodes s `prefix_of` nodes s2).
  { apply prefix_of_lookup. intros i x Hi.
    rewrite Hout2.
    - eapply extends_node; eauto.
    - intros Hin. apply Hrg in Hin. apply lookup_lt_Some in Hi. lia. }
  assert (Hanon : anon (unline t') = anon (unline (prune_root P t))).
  { rewrite Hun. rewrite !anon_unline. f_equal.
    rewrite <- !prune_root_anon. by rewrite Ha. }
  rewrite Node_filter_eq. unfold bind at 1. rewrite Hcl.
  unfold bind at 1. unfold try_catch. rewrite Htry.
  destruct (root_kept P t).
  - exists s2, t'. split_and!; auto.
    + by rewrite Hroot.
    + rewrite Ht2. apply He.
    + rewrite app_nil_r, Hl2. apply He.
    + intros a Hin. apply Hsub, Hrg in Hin. lia.
  - eexists _, t'. split_and!.
    + unfold Log_w, ret. by rewrite Hroot.
    + done.
    + simpl. rewrite Ht2. apply He.
    + simpl. rewrite Hl2. f_equal. apply He.
    + by apply repr_log.
    + by apply linked_log.
    + done.
    + intros a Hin. apply Hsub, Hrg in Hin. lia.
    + done.
    + done.
Qed.

(** *** What every pruning step keeps, for any predicate *)

Lemma children_only_refl s : children_only s s.
Proof.
  unfold children_only. split_and!; auto.
  intros a n Hn. exists (node_children n). by rewrite set_children_id.
Qed.

Lemma children_only_trans s1 s2 s3 :
  children_only s1 s2 -> children_only s2 s3 -> children_only s1 s3.
Proof.
  intros (H1 & H2 & H3 & H4) (H1' & H2' & H3' & H4').
  unfold children_only. split_and!; try congruence.
  intros a n Hn. destruct (H4 a n Hn) as (cs & Hcs).
  destruct (H4' _ _ Hcs) as (cs' & Hcs'). exists cs'.
  by rewrite set_children_twice in Hcs'.
Qed.

Lemma filterM_store {A} (f : A -> M bool) l :
  (forall c s r s', f c s = (r, s') -> s' = s) ->
  forall s r s', filterM f l s = (r, s') -> s' = s.
Proof.
  intros Hf. induction l as [|x l IH]; intros s r s' H.
  { by injection H as _ <-. }
  simpl in H. unfold bind in H.
  destruct (f x s) as [r1 s1] eqn:E1. apply Hf in E1 as ->.
  destruct r1; try (by injection H as _ <-).
  destruct (filterM f l s) as [r2 s2] eqn:E2. apply IH in E2 as ->.
  destruct r2; by injection H as _ <-.
Qed.

Lemma prune_step_cases predicate a s r s' :
  prune_step predicate a s = (r, s') ->
  s' = s \/
  exists nd p pn cs,
    nodes s !! a = Some nd /\ node_parent nd = Some p /\
    nodes s !! p = Some pn /\
    s' = mkStore (<[p:=set_children cs pn]> (nodes s)) (tasks s) (log s).
Proof.
  unfold prune_step, bind, call. intros H.
  destruct (predicate s a) as [matched| | |]; try (left; by injection H as _ <-).
  unfold getNode in H at 1.
  destruct (nodes s !! a) as [nd|] eqn:Ha; [|left; by injection H as _ <-].
  destruct (negb matched && (length (node_children nd) =? 0));
    [|left; by injection H as _ <-].
  destruct (node_parent nd) as [p|] eqn:Hp; [|left; by injection H as _ <-].
  unfold getNode in H at 1.
  destruct (nodes s !! p) as [pn|] eqn:Hpn; [|left; by injection H as _ <-].
  match type of H with
  | context [filterM ?f ?l s] => destruct (filterM f l s) as [r1 s1] eqn:E
  end.
  apply filterM_store in E as ->.
  2:{ intros c s0 r0 s0'. unfold bind, getNode, ret.
      destruct (nodes s0 !! c); intros [= _ <-]; done. }
  destruct r1 as [cs| | |]; try (left; by injection H as _ <-).
  rewrite (modNode_val _ _ _ _ Hpn) in H. injection H as _ <-.
  right. by exists nd, p, pn, cs.
Qed.

Lemma elem_of_preorder_kid u k kids a v :
  k ∈ kids -> u ∈ preorder k -> u ∈ preorder (NT a v kids).
Proof.
  intros Hk Hu. simpl. right. apply list_elem_of_In, in_flat_map.
  exists k. split; by apply list_elem_of_In.
Qed.

Lemma elem_of_preorder_inv u a v kids :
  u ∈ preorder (NT a v kids) -> u = NT a v kids \/ exists k, k ∈ kids /\ u ∈ preorder k.
Proof.
  simpl. intros [->|H]%elem_of_cons; [by left|right].
  apply list_elem_of_In, in_flat_map in H as (k & H1 & H2).
  exists k. split; by apply list_elem_of_In.
Qed.

Lemma root_in_addrs t : root t ∈ addrs t.
Proof. destruct t. rewrite addrs_unfold. left. Qed.

Lemma addrs_preorder u t : u ∈ preorder t -> root u ∈ addrs t.
Proof. intros H. unfold addrs. by apply list_elem_of_fmap_2. Qed.

Lemma preorder_trans u w t : u ∈ preorder w -> w ∈ preorder t -> u ∈ preorder t.
Proof.
  revert w u. induction t as [a v kids IH] using ntree_ind'. intros w u Hu Hw.
  apply elem_of_preorder_inv in Hw as [->|(k & Hk & Hw)]; [done|].
  rewrite Forall_forall in IH. eapply elem_of_preorder_kid; [exact Hk|].
  by eapply IH.
Qed.

Lemma repr_linked_steady s t :
  repr s t -> linked s None t -> steady t s.
Proof.
  intros Hr Hl.
  assert (G : forall p, linked s p t -> forall u, u ∈ preorder t ->
            exists n, nodes s !! root u = Some n /\ view_of s n = Some (view u) /\
                      forall q, node_parent n = Some q -> Some q = p \/ q ∈ addrs t).
  { clear Hl. revert Hr. induction t as [a v kids IH] using ntree_ind'.
    intros Hr p Hl u Hu.
    inversion Hr as [? ? ? n Hn Hv Hc Hk]; subst.
    inversion Hl as [? ? ? ? n' Hn' Hp Hlk]; subst.
    assert (n' = n) by congruence. subst n'.
    apply elem_of_preorder_inv in Hu as [->|(k & Hk1 & Hu)].
    - exists n. split; [done|]. split; [done|]. intros q Hq. left. by rewrite <- Hq.
    - rewrite Forall_forall in IH, Hk, Hlk.
      destruct (IH k Hk1 (Hk k Hk1) (Some a) (Hlk k Hk1) u Hu) as (nu & Hnu & Hvu & Hpu).
      exists nu. split; [done|]. split; [done|]. intros q Hq. right.
      destruct (Hpu q Hq) as [[= ->]|Hin].
      + rewrite addrs_unfold. left.
      + rewrite addrs_unfold. right. apply elem_of_flat_map_addrs. eauto. }
  intros u Hu. destruct (G None Hl u Hu) as (n & Hn & Hv & Hp).
  exists n. split; [done|]. split; [done|]. intros p Hpp. by destruct (Hp p Hpp).
Qed.

Lemma prune_step_steady predicate t a s r s' :
  steady t s -> a ∈ addrs t ->
  prune_step predicate a s = (r, s') ->
  steady t s' /\ children_only s s' /\
  (forall b, b ∉ addrs t -> nodes s' !! b = nodes s !! b).
Proof.
  intros Hst Ha H.
  apply prune_step_cases in H as [->|(nd & p & pn & cs & Hnd & Hp & Hpn & ->)].
  { split_and!; auto using children_only_refl. }
  assert (Hpt : p ∈ addrs t).
  { apply list_elem_of_fmap in Ha as (u & -> & Hu).
    destruct (Hst u Hu) as (n & Hn & _ & Hpar).
    assert (n = nd) by congruence. subst. by apply Hpar. }
  split_and!.
  - intros u Hu. destruct (Hst u Hu) as (n & Hn & Hv & Hpar). simpl.
    destruct (decide (root u = p)) as [E|E].
    + rewrite E in *. assert (n = pn) by congruence. subst n.
      exists (set_children cs pn). split_and!; auto.
      apply list_lookup_insert_eq. by eapply lookup_lt_Some.
    + exists n. split_and!; auto. by rewrite list_lookup_insert_ne.
  - unfold children_only. simpl. split_and!; auto using length_insert.
    intros b n Hn. destruct (decide (b = p)) as [->|E].
    + assert (n = pn) by congruence. subst. exists cs.
      apply list_lookup_insert_eq. by eapply lookup_lt_Some.
    + exists (node_children n). rewrite set_children_id.
      by rewrite list_lookup_insert_ne.
  - intros b Hb. simpl. apply list_lookup_insert_ne. intros ->. done.
Qed.

Lemma forEach_steady predicate t : forall l s r s',
  steady t s -> (forall a, a ∈ l -> a ∈ addrs t) ->
  forEach (prune_step predicate) l s = (r, s') ->
  steady t s' /\ children_only s s' /\
  (forall b, b ∉ addrs t -> nodes s' !! b = nodes s !! b).
Proof.
  induction l as [|a l IH]; intros s r s' Hst Hl H.
  { injection H as _ <-. split_and!; auto using children_only_refl. }
  simpl in H. unfold bind in H.
  destruct (prune_step predicate a s) as [r1 s1] eqn:E1.
  destruct (prune_step_steady _ _ _ _ _ _ Hst (Hl a ltac:(left)) E1) as (Hst1 & Hco1 & Hfr1).
  destruct r1; try (injection H as _ <-; by split_and!).
  destruct (IH s1 r s' Hst1) as (Hst2 & Hco2 & Hfr2); [|done|].
  { intros b Hb. apply Hl. by right. }
  split_and!; auto.
  - eapply children_only_trans; eauto.
  - intros b Hb. rewrite Hfr2, Hfr1; auto.
Qed.

Lemma prune_step_agree Q P t u s :
  steady t s -> u ∈ preorder t -> Q (view u) = Some (P (view u)) ->
  prune_step (on_view Q) (root u) s = prune_step (on_view (total P)) (root u) s.
Proof.
  intros Hst Hu HQ. destruct (Hst u Hu) as (n & Hn & Hv & _).
  unfold prune_step, bind.
  rewrite !(call_on_view _ _ _ _ _ Hn Hv). unfold total. by rewrite HQ.
Qed.

Lemma prune_step_predicate_throws Q t u s :
  steady t s -> u ∈ preorder t -> Q (view u) = None ->
  prune_step (on_view Q) (root u) s = (Exn Thrown, s).
Proof.
  intros Hst Hu HQ. destruct (Hst u Hu) as (n & Hn & Hv & _).
  unfold prune_step, bind.
  rewrite !(call_on_view _ _ _ _ _ Hn Hv). by rewrite HQ.
Qed.

Lemma forEach_agree Q P t : forall (l : list ntree) s,
  steady t s ->
  (forall u, u ∈ l -> u ∈ preorder t /\ Q (view u) = Some (P (view u))) ->
  forEach (prune_step (on_view Q)) (map root l) s =
  forEach (prune_step (on_view (total P))) (map root l) s.
Proof.
  induction l as [|u l IH]; intros s Hst Hl; [done|].
  destruct (Hl u ltac:(left)) as [Hu HQ].
  simpl. unfold bind. rewrite (prune_step_agree Q P t u s Hst Hu HQ).
  destruct (prune_step (on_view (total P)) (root u) s) as [r1 s1] eqn:E1.
  destruct (prune_step_steady _ _ _ _ _ _ Hst (addrs_preorder _ _ Hu) E1) as (Hst1 & _).
  destruct r1; auto. apply IH; auto. intros w Hw. apply Hl. by right.
Qed.

Lemma elem_of_rev {A} (x : A) l : x ∈ rev l <-> x ∈ l.
Proof. rewrite !list_elem_of_In. symmetry. apply in_rev. Qed.

Lemma elem_of_rev_1 {A} (x : A) l : x ∈ rev l -> x ∈ l.
Proof. apply elem_of_rev. Qed.

Lemma levelorder_preorder : forall h X u,
  u ∈ levelorder h X -> u ∈ flat_map preorder X.
Proof.
  induction h as [|h IH]; intros X u Hu; [inversion Hu|].
  simpl in Hu. apply elem_of_app in Hu as [Hu|Hu];
    apply elem_of_preorder_forest; [by left|right; by apply IH].
Qed.

Lemma bfs_preorder t u : u ∈ bfs t -> u ∈ preorder t.
Proof.
  intros Hu. apply levelorder_preorder in Hu. simpl in Hu.
  by rewrite app_nil_r in Hu.
Qed.

Lemma levelorder_perm : forall h X,
  Forall (fun t => height t <= h) X ->
  levelorder h X ≡ₚ flat_map preorder X.
Proof.
  induction h as [|h IH]; intros X Hh.
  { destruct X as [|t X]; [done|].
    inversion Hh; subst. pose proof (height_pos t). lia. }
  simpl. rewrite IH by (by apply height_kids_forest).
  symmetry. apply preorder_forest_perm.
Qed.

(** Breadth-first order visits every node of the tree, once. *)
Lemma bfs_perm t : bfs t ≡ₚ preorder t.
Proof.
  unfold bfs. rewrite levelorder_perm by (by constructor).
  simpl. by rewrite app_nil_r.
Qed.

Lemma levelorder_anon : forall h X,
  levelorder h (map anon X) = map anon (levelorder h X).
Proof.
  induction h as [|h IH]; intros X; [done|].
  simpl. rewrite map_app. f_equal. rewrite <- IH. f_equal.
  induction X as [|x X IHX]; [done|]. simpl. by rewrite map_app, IHX, kids_anon.
Qed.

Lemma bfs_anon t : bfs (anon t) = map anon (bfs t).
Proof. unfold bfs. rewrite height_anon. apply (levelorder_anon _ [t]). Qed.

Lemma bfs_views t1 t : anon t1 = anon t -> map view (bfs t1) = map view (bfs t).
Proof.
  intros E.
  assert (G : forall t, map view (bfs t) = map view (bfs (anon t))).
  { intros t0. rewrite bfs_anon, map_map. apply map_ext. intros u. by rewrite view_anon. }
  by rewrite (G t1), (G t), E.
Qed.

Lemma prune_below_tree P t s :
  repr s t -> linked s None t -> sibling_ids t -> NoDup (addrs t) ->
  exists L s',
    bfs t = t :: L /\
    forEach (prune_step (on_view (total P))) (rev (map root L)) s = (Val tt, s').
Proof.
  intros Hr Hl Hids Hnd.
  destruct (bfs_unfold t) as (h & -> & Hh).
  destruct (prune_below P h [t] s) as (s1 & H1 & Hp1).
  { by constructor. }
  { constructor; [|constructor]. by destruct (linked_inv _ _ _ Hl) as (? & ? & ? & ?). }
  { by constructor. }
  { simpl. by rewrite app_nil_r. }
  { constructor; [lia|constructor]. }
  eauto.
Qed.

Lemma forEach_app_val {A} (f : A -> M unit) l1 l2 s s' :
  forEach f (l1 ++ l2) s = (Val tt, s') ->
  exists s1, forEach f l1 s = (Val tt, s1) /\ forEach f l2 s1 = (Val tt, s').
Proof.
  rewrite forEach_app. unfold bind.
  destruct (forEach f l1 s) as [[[]| | |] s1]; try discriminate. eauto.
Qed.

(** *** Predicates that throw *)

Lemma first_throw (Q : View -> option bool) (l : list ntree) :
  (forall u, u ∈ l -> Q (view u) <> None) \/
  exists l1 u l2, l = l1 ++ u :: l2 /\
                  (forall w, w ∈ l1 -> Q (view w) <> None) /\ Q (view u) = None.
Proof.
  induction l as [|x l IH].
  { left. intros u Hu. inversion Hu. }
  destruct (Q (view x)) as [b|] eqn:E.
  - destruct IH as [IH|(l1 & u & l2 & -> & H1 & H2)].
    + left. intros u [->|Hu]%elem_of_cons; [by rewrite E|by apply IH].
    + right. exists (x :: l1), u, l2. split_and!; auto.
      intros w [->|Hw]%elem_of_cons; [by rewrite E|by apply H1].
  - right. exists [], x, l. split_and!; auto. intros w Hw. inversion Hw.
Qed.

Lemma snoc_split {A} (l : list A) x l1 u l2 :
  l ++ [x] = l1 ++ u :: l2 -> exists l3, l = l1 ++ l3.
Proof.
  revert l1. induction l as [|y l IH]; intros l1 H.
  - destruct l1 as [|z l1]; [by exists []|].
    simpl in H. injection H as _ H. by destruct l1.
  - destruct l1 as [|z l1]; [by eexists|].
    simpl in H. injection H as -> H. destruct (IH _ H) as (l3 & ->). by exists l3.
Qed.

Lemma as_total_agree Q v : Q v <> None -> Q v = Some (as_total Q v).
Proof. unfold as_total. by destruct (Q v). Qed.

Lemma filter_try_throws fuel Q s t :
  repr s t -> linked s None t -> sibling_ids t -> NoDup (addrs t) ->
  size t <= fuel ->
  (exists u, u ∈ bfs t /\ Q (view u) = None) ->
  exists s',
    filter_try fuel (on_view Q) (root t) s = (Exn Thrown, s') /\
    children_only s s' /\
    (forall b, b ∉ addrs t -> nodes s' !! b = nodes s !! b).
Proof.
  intros Hr Hl Hids Hnd Hsz (u0 & Hu0 & HQ0).
  assert (Hbfs : bfs_loop fuel [root t] [] s = (Val (map root (bfs t)), s)).
  { apply (bfs_loop_spec s (height t) [t] fuel []).
    - by constructor.
    - by constructor.
    - unfold fsize. simpl. lia. }
  destruct (prune_below_tree (as_total Q) t s Hr Hl Hids Hnd) as (L & s2 & HL & Hrun).
  pose proof (repr_linked_steady _ _ Hr Hl) as Hst.
  destruct (first_throw Q (rev (bfs t))) as [Hall|(l1 & u & l2 & Hsplit & H1 & HQ)].
  { exfalso. apply (Hall u0); [|done]. by apply elem_of_rev. }
  assert (Hin : forall w, w ∈ l1 ++ u :: l2 -> w ∈ preorder t).
  { intros w Hw. rewrite <- Hsplit in Hw. apply elem_of_rev_1 in Hw. by apply bfs_preorder. }
  rewrite HL in Hsplit. simpl in Hsplit.
  destruct (snoc_split _ _ _ _ _ Hsplit) as (l3 & Hl3).
  rewrite <- map_rev, Hl3, map_app in Hrun.
  apply forEach_app_val in Hrun as (s11 & Hrun1 & _).
  assert (Hrun1Q : forEach (prune_step (on_view Q)) (map root l1) s = (Val tt, s11)).
  { rewrite (forEach_agree Q (as_total Q) t); [done|done|].
    intros w Hw. split.
    - apply Hin. apply elem_of_app. by left.
    - apply as_total_agree. by apply H1. }
  assert (Hl1 : forall a, a ∈ map root l1 -> a ∈ addrs t).
  { intros a Ha. apply list_elem_of_fmap in Ha as (w & -> & Hw).
    apply addrs_preorder, Hin. apply elem_of_app. by left. }
  destruct (forEach_steady _ t _ _ _ _ Hst Hl1 Hrun1Q) as (Hst1 & Hco1 & Hfr1).
  exists s11. split; [|done].
  unfold filter_try. unfold bind at 1. rewrite Hbfs.
  rewrite <- map_rev. rewrite HL. simpl rev. rewrite Hsplit.
  unfold bind at 1. rewrite map_app, forEach_app. unfold bind at 1.
  rewrite Hrun1Q. simpl. unfold bind at 1.
  rewrite (prune_step_predicate_throws Q t u s11); [done|done| |done].
  apply Hin. apply elem_of_app. right. left.
Qed.

Lemma filter_try_unfold fuel predicate c s fl :
  bfs_loop fuel [c] [] s = (Val fl, s) ->
  filter_try fuel predicate c s =
  (forEach (prune_step predicate) (rev fl) ;;;
   flattenFiltered <- flat fuel c ;;
   forEachFrom renumber_step 0 flattenFiltered) s.
Proof. intros H. unfold filter_try. unfold bind at 1. by rewrite H. Qed.

Lemma filter_try_defined fuel Q P s t :
  repr s t -> linked s None t -> size t <= fuel ->
  (forall u, u ∈ bfs t -> Q (view u) = Some (P (view u))) ->
  filter_try fuel (on_view Q) (root t) s =
  filter_try fuel (on_view (total P)) (root t) s.
Proof.
  intros Hr Hl Hsz HQ.
  pose proof (height_le_size t) as Hhs.
  assert (Hbfs : bfs_loop fuel [root t] [] s = (Val (map root (bfs t)), s)).
  { apply (bfs_loop_spec s (height t) [t] fuel []).
    - by constructor.
    - by constructor.
    - unfold fsize. simpl. lia. }
  rewrite !(filter_try_unfold _ _ _ _ _ Hbfs).
  rewrite <- map_rev. unfold bind.
  rewrite (forEach_agree Q P t); [reflexivity| |].
  + by apply repr_linked_steady.
  + intros u Hu. apply elem_of_rev_1 in Hu. split; [by apply bfs_preorder|by apply HQ].
Qed.

Lemma bfs_views_elem t1 t u1 :
  anon t1 = anon t -> u1 ∈ bfs t1 -> exists u, u ∈ bfs t /\ view u = view u1.
Proof.
  intros E Hu1.
  assert (H : view u1 ∈ map view (bfs t1)) by (by apply list_elem_of_fmap_2).
  rewrite (bfs_views _ _ E) in H.
  apply list_elem_of_fmap in H as (u & Hv & Hu). eauto.
Qed.

Lemma Node_filter_defined fuel Q P s t :
  repr s t -> size t <= fuel ->
  (forall u, u ∈ bfs t -> Q (view u) = Some (P (view u))) ->
  Node_filter fuel (on_view Q) (root t) s =
  Node_filter fuel (on_view (total P)) (root t) s.
Proof.
  intros Hr Hsz HQ.
  pose proof (height_le_size t) as Hhs.
  destruct (clone_one fuel s t Hr) as (t1 & s1 & Hcl & He & Hr1 & Hl1 & Ha & Hrg & Hnd & _);
    [lia|].
  rewrite !Node_filter_eq. unfold bind at 1 3. rewrite Hcl.
  unfold bind, try_catch.
  rewrite (filter_try_defined fuel Q P s1 t1); auto.
  - rewrite <- size_anon, Ha, size_anon. done.
  - intros u1 Hu1. destruct (bfs_views_elem _ _ _ Ha Hu1) as (u & Hu & <-). by apply HQ.
Qed.

Lemma Node_filter_throws fuel Q s t :
  repr s t -> sibling_ids t -> size t <= fuel ->
  (exists u, u ∈ bfs t /\ Q (view u) = None) ->
  exists t1 s1 s',
    clone fuel [root t] None s = (Val [root t1], s1) /\
    Node_filter fuel (on_view Q) (root t) s = (Val (root t1), s') /\
    log s' = log s ++ [Thrown] /\
    nodes s `prefix_of` nodes s' /\ tasks s `prefix_of` tasks s' /\
    length (nodes s') = length (nodes s1) /\
    (forall a n, nodes s1 !! a = Some n ->
                 exists cs, nodes s' !! a = Some (set_children cs n)).
Proof.
  intros Hr Hids Hsz (u & Hu & HQ).
  pose proof (height_le_size t) as Hhs.
  destruct (clone_one fuel s t Hr) as (t1 & s1 & Hcl & He & Hr1 & Hl1 & Ha & Hrg & Hnd & _);
    [lia|].
  assert (Hids1 : sibling_ids t1).
  { apply sibling_ids_anon. rewrite Ha. by apply anon_sibling_ids. }
  assert (Hsz1 : size t1 <= fuel).
  { rewrite <- size_anon, Ha, size_anon. done. }
  assert (Hthrow1 : exists u1, u1 ∈ bfs t1 /\ Q (view u1) = None).
  { destruct (bfs_views_elem t t1 u (eq_sym Ha) Hu) as (u1 & Hu1 & Hv).
    exists u1. split; [done|]. by rewrite Hv. }
  destruct (filter_try_throws fuel Q s1 t1 Hr1 Hl1 Hids1 Hnd Hsz1 Hthrow1)
    as (s2 & Htry & (Ht2 & Hl2 & Hlen2 & Hch2) & Hout2).
  exists t1, s1, (mkStore (nodes s2) (tasks s2) (log s2 ++ [Thrown])).
  split_and!.
  - done.
  - rewrite Node_filter_eq. unfold bind at 1. rewrite Hcl.
    unfold bind at 1. unfold try_catch. rewrite Htry. reflexivity.
  - simpl. rewrite Hl2. f_equal. apply He.
  - simpl. apply prefix_of_lookup. intros i x Hi.
    rewrite Hout2.
    + eapply extends_node; eauto.
    + intros Hin. apply Hrg in Hin. apply lookup_lt_Some in Hi. lia.
  - simpl. rewrite Ht2. apply He.
  - done.
  - done.
Qed.

(** *** [find] and [replace] *)

(** [find] returns the first match in breadth-first order; an exception of
    the predicate is logged and gives null. *)
Lemma Node_find_spec fuel predicate s t :
  repr s t -> size t <= fuel ->
  Node_find fuel predicate (root t) s =
  match first_match predicate s (map root (bfs t)) with
  | Exn e => (Val None, mkStore (nodes s) (tasks s) (log s ++ [e]))
  | r => (r, s)
  end.
Proof.
  intros Hr Hsz. pose proof (height_le_size t). unfold Node_find, try_catch.
  change [root t] with (map root [t]).
  rewrite (find_loop_spec predicate s (height t) [t] fuel).
  - fold (bfs t). by destruct (first_match predicate s (map root (bfs t))).
  - by constructor.
  - by constructor.
  - unfold fsize. simpl. lia.
Qed.

Lemma repr_sub s : forall t w, repr s t -> w ∈ preorder t -> repr s w.
Proof.
  induction t as [a v kids IH] using ntree_ind'. intros w Hr Hw.
  apply elem_of_preorder_inv in Hw as [->|(k & Hk & Hw)]; [done|].
  inversion Hr as [? ? ? n Hn Hv Hc Hks]; subst.
  rewrite Forall_forall in *. eapply (IH k); eauto.
Qed.

Lemma linked_sub s : forall t p w, linked s p t -> w ∈ preorder t -> exists q, linked s q w.
Proof.
  induction t as [a v kids IH] using ntree_ind'. intros p w Hl Hw.
  apply elem_of_preorder_inv in Hw as [->|(k & Hk & Hw)]; [eauto|].
  inversion Hl as [? ? ? ? n Hn Hp Hks]; subst.
  rewrite Forall_forall in *. eapply (IH k); eauto.
Qed.

Lemma sibling_ids_sub : forall t w, sibling_ids t -> w ∈ preorder t -> sibling_ids w.
Proof.
  induction t as [a v kids IH] using ntree_ind'. intros w Hs Hw.
  apply elem_of_preorder_inv in Hw as [->|(k & Hk & Hw)]; [done|].
  inversion Hs as [Hnd Hks]. simpl in *.
  rewrite Forall_forall in *. eapply (IH k); eauto.
Qed.

Lemma preorder_parent : forall t u,
  u ∈ preorder t ->
  u = t \/ exists w i, w ∈ preorder t /\ kids_of w !! i = Some u.
Proof.
  induction t as [a v kids IH] using ntree_ind'. intros u Hu.
  apply elem_of_preorder_inv in Hu as [->|(k & Hk & Hu)]; [by left|right].
  rewrite Forall_forall in IH.
  destruct (IH k Hk u Hu) as [->|(w & i & Hw & Hi)].
  - apply list_elem_of_lookup in Hk as (i & Hi).
    exists (NT a v kids), i. split; [apply root_in_preorder|done].
  - exists w, i. split; [|done]. by eapply elem_of_preorder_kid.
Qed.

Lemma mapM_pure {A B} (f : A -> M B) (g : A -> B) l s :
  (forall c, c ∈ l -> f c s = (Val (g c), s)) ->
  mapM f l s = (Val (map g l), s).
Proof.
  induction l as [|x l IH]; intros H; [done|].
  simpl. unfold bind at 1. rewrite (H x) by left.
  unfold bind at 1. rewrite IH; [|intros c Hc; apply H; by right].
  reflexivity.
Qed.

Lemma replace_by_id (f : ntree -> string) (g : ntree -> nat) node :
  forall l i u,
  NoDup (map f l) -> l !! i = Some u ->
  map (fun k => if String.eqb (f k) (f u) then node else g k) l =
  <[i:=node]> (map g l).
Proof.
  induction l as [|k l IH]; intros i u Hnd Hi; [discriminate|].
  simpl in Hnd. apply NoDup_cons in Hnd as [Hk Hnd].
  destruct i as [|i]; simpl in Hi.
  - injection Hi as ->. simpl. rewrite String.eqb_refl. f_equal.
    apply map_ext_in. intros k Hin.
    destruct (String.eqb_spec (f k) (f u)) as [E|E]; [|done].
    exfalso. apply Hk. rewrite <- E. apply list_elem_of_fmap_2. by apply list_elem_of_In.
  - simpl. destruct (String.eqb_spec (f k) (f u)) as [E|E].
    + exfalso. apply Hk. rewrite E. apply list_elem_of_fmap_2.
      apply list_elem_of_lookup. eauto.
    + f_equal. by eapply IH.
Qed.

(** *** Pruning with any predicate, one leaf at a time *)

Lemma root_remove a t : root (remove a t) = root t.
Proof. by destruct t. Qed.

Lemma view_remove a t : view (remove a t) = view t.
Proof. by destruct t. Qed.

Lemma remove_unfold a b v kids :
  remove a (NT b v kids) =
  NT b v (List.filter (fun k => negb (root k =? a)) (map (remove a) kids)).
Proof. reflexivity. Qed.

Lemma remove_absent a : forall t, a ∉ addrs t -> remove a t = t.
Proof.
  induction t as [b v kids IH] using ntree_ind'. intros Ha.
  rewrite addrs_unfold in Ha. apply not_elem_of_cons in Ha as [Hne Ha].
  rewrite remove_unfold. f_equal.
  induction IH as [|k kids Hk _ IHk]; [done|].
  rewrite flat_map_cons in Ha. apply not_elem_of_app in Ha as [Ha1 Ha2].
  simpl. rewrite (Hk Ha1).
  assert (root k <> a) by (intros <-; apply Ha1, root_in_addrs).
  destruct (Nat.eqb_spec (root k) a); [done|]. simpl. f_equal. by apply IHk.
Qed.

Lemma remove_forest_absent a ks :
  a ∉ flat_map addrs ks ->
  List.filter (fun k => negb (root k =? a)) (map (remove a) ks) = ks.
Proof.
  induction ks as [|k ks IH]; intros Ha; [done|].
  rewrite flat_map_cons in Ha. apply not_elem_of_app in Ha as [Ha1 Ha2].
  simpl. rewrite (remove_absent a k Ha1).
  assert (root k <> a) by (intros <-; apply Ha1, root_in_addrs).
  destruct (Nat.eqb_spec (root k) a); [done|]. simpl. f_equal. by apply IH.
Qed.

Lemma addrs_remove_sublist a : forall t, addrs (remove a t) `sublist_of` addrs t.
Proof.
  induction t as [b v kids IH] using ntree_ind'.
  rewrite remove_unfold, !addrs_unfold. constructor.
  induction IH as [|k kids Hk _ IHk]; [constructor|].
  cbn [map List.filter]. rewrite root_remove. destruct (negb (root k =? a)).
  - rewrite !flat_map_cons. by apply sublist_app.
  - rewrite flat_map_cons. by apply sublist_inserts_l.
Qed.

Lemma size_remove a : forall t, size (remove a t) <= size t.
Proof.
  induction t as [b v kids IH] using ntree_ind'.
  rewrite remove_unfold, !size_unfold. apply le_n_S.
  induction IH as [|k kids Hk _ IHk]; [done|].
  cbn [map List.filter]. rewrite root_remove. rewrite (fsize_cons k kids).
  destruct (negb (root k =? a)).
  - rewrite fsize_cons. lia.
  - lia.
Qed.

Lemma sibling_ids_remove a : forall t, sibling_ids t -> sibling_ids (remove a t).
Proof.
  induction t as [b v kids IH] using ntree_ind'. intros [Hnd Hk]. simpl in Hnd, Hk.
  rewrite remove_unfold. constructor; simpl.
  - eapply sublist_NoDup; [exact Hnd|].
    clear. induction kids as [|k kids IHk]; [constructor|].
    simpl. rewrite root_remove. destruct (negb (root k =? a)).
    + simpl. rewrite view_remove. by constructor.
    + by constructor.
  - clear Hnd. induction IH as [|k kids Hk1 _ IHk]; [constructor|].
    inversion Hk; subst. simpl. destruct (negb _); [constructor|]; auto.
Qed.

Lemma preorder_root_inj t x y :
  NoDup (addrs t) -> x ∈ preorder t -> y ∈ preorder t -> root x = root y -> x = y.
Proof.
  intros Hnd Hx Hy E.
  apply list_elem_of_lookup in Hx as (i & Hi). apply list_elem_of_lookup in Hy as (j & Hj).
  assert (i = j).
  { eapply NoDup_lookup; [exact Hnd| |].
    - unfold addrs. rewrite list_lookup_fmap, Hi. reflexivity.
    - unfold addrs. rewrite list_lookup_fmap, Hj. simpl. by rewrite E. }
  subst. congruence.
Qed.

Lemma leaf_preorder u : kids_of u = [] -> preorder u = [u].
Proof. intros E. by rewrite preorder_unfold, E. Qed.

Lemma leaf_addrs u : kids_of u = [] -> addrs u = [root u].
Proof. intros E. unfold addrs. by rewrite leaf_preorder. Qed.

(** Taking a leaf out of the children list of its parent leaves the rest of
    the tree in place, without that leaf. *)
Lemma remove_leaf_spec s w l1 u l2 pn :
  kids_of w = l1 ++ u :: l2 -> kids_of u = [] ->
  nodes s !! root w = Some pn ->
  forall t q,
    repr s t -> linked s q t -> NoDup (addrs t) -> w ∈ preorder t ->
    let s' := mkStore (<[root w:=set_children (map root (l1 ++ l2)) pn]> (nodes s))
                      (tasks s) (log s) in
    repr s' (remove (root u) t) /\ linked s' q (remove (root u) t) /\
    (forall b, b ∈ addrs t -> b <> root u -> b ∈ addrs (remove (root u) t)).
Proof.
  intros Hkw Hku Hpn.
  induction t as [b v kids IH] using ntree_ind'. intros q Hr Hl Hnd Hw s'.
  pose proof Hnd as Hnd0.
  rewrite addrs_unfold in Hnd. apply NoDup_cons in Hnd as [Hb Hnd].
  destruct (repr_inv _ _ Hr) as (n & Hn & Hv & Hc & Hks).
  destruct (linked_inv _ _ _ Hl) as (n' & Hn' & Hp & Hlk).
  simpl in Hn, Hv, Hc, Hks, Hn', Hlk.
  assert (n' = n) by congruence. subst n'.
  apply elem_of_preorder_inv in Hw as [->|(k & Hk & Hw)].
  - (* the leaf is a child of this node *)
    simpl in Hkw, Hpn. subst kids. assert (pn = n) by congruence. subst pn.
    rewrite flat_map_app, flat_map_cons, (leaf_addrs u Hku) in Hnd, Hb.
    apply NoDup_app in Hnd as (Hnd1 & Hd1 & Hnd2).
    apply NoDup_app in Hnd2 as (_ & Hd2 & Hnd2).
    assert (Ha1 : root u ∉ flat_map addrs l1).
    { intros Hin. apply (Hd1 _ Hin). apply elem_of_app. left. left. }
    assert (Ha2 : root u ∉ flat_map addrs l2).
    { intros Hin. apply (Hd2 (root u)); [left|done]. }
    assert (E : remove (root u) (NT b v (l1 ++ u :: l2)) = NT b v (l1 ++ l2)).
    { rewrite remove_unfold. f_equal.
      rewrite map_app, List.filter_app. cbn [map List.filter].
      rewrite root_remove, Nat.eqb_refl. cbn [negb].
      by rewrite !remove_forest_absent. }
    rewrite E.
    assert (Hag : forall k, k ∈ l1 ++ l2 -> forall c, c ∈ addrs k ->
                    nodes s' !! c = nodes s !! c).
    { intros k Hk c Hcin. simpl. apply list_lookup_insert_ne. intros <-.
      apply Hb. apply elem_of_app in Hk as [Hk|Hk]; apply elem_of_app.
      - left. apply elem_of_flat_map_addrs. eauto.
      - right. apply elem_of_app. right. apply elem_of_flat_map_addrs. eauto. }
    assert (Hsub : forall k, k ∈ l1 ++ l2 -> k ∈ l1 ++ u :: l2).
    { intros k Hk. apply elem_of_app in Hk as [Hk|Hk]; apply elem_of_app; [by left|].
      right. by right. }
    assert (Hn1 : nodes s' !! b = Some (set_children (map root (l1 ++ l2)) n)).
    { simpl. apply list_lookup_insert_eq. by eapply lookup_lt_Some. }
    rewrite Forall_forall in Hks, Hlk.
    split_and!.
    + econstructor; [exact Hn1| |reflexivity|].
      * rewrite view_of_set_children. exact Hv.
      * apply Forall_forall. intros k Hk.
        eapply repr_agree; [apply Hks; by apply Hsub|by apply Hag|done].
    + econstructor; [exact Hn1|exact Hp|].
      apply Forall_forall. intros k Hk.
      eapply linked_agree; [apply Hlk; by apply Hsub|by apply Hag].
    + intros c Hcin Hne. rewrite addrs_unfold in *.
      apply elem_of_cons in Hcin as [->|Hcin]; [left|right].
      rewrite flat_map_app in *. rewrite flat_map_cons, (leaf_addrs u Hku) in Hcin.
      apply elem_of_app in Hcin as [?|Hcin]; apply elem_of_app; [by left|].
      apply elem_of_app in Hcin as [Hcin|?]; [|by right].
      apply list_elem_of_singleton in Hcin. done.
  - (* the leaf is further down, below the child [k] *)
    assert (Hu : u ∈ preorder k).
    { eapply preorder_trans; [|exact Hw]. rewrite preorder_unfold, Hkw. right.
      apply elem_of_forest_preorder. apply elem_of_app. right. left. }
    pose proof Hk as Hk0.
    apply list_elem_of_split in Hk as (k1 & k2 & ->).
    rewrite flat_map_app, flat_map_cons in Hnd, Hb.
    pose proof Hnd as Hnd'.
    apply NoDup_app in Hnd as (Hnd1 & Hd1 & Hnd2).
    apply NoDup_app in Hnd2 as (Hndk & Hd2 & Hnd2).
    assert (Hak : forall c, c ∈ addrs k ->
              (c ∉ flat_map addrs k1) /\ (c ∉ flat_map addrs k2)).
    { intros c Hcin. split.
      - intros Hin. apply (Hd1 _ Hin). apply elem_of_app. by left.
      - intros Hin. by apply (Hd2 c). }
    destruct (Hak (root u) (addrs_preorder _ _ Hu)) as [Ha1 Ha2].
    destruct (Hak (root w) (addrs_preorder _ _ Hw)) as [Hw1 Hw2].
    assert (Hrk : root k <> root u).
    { intros E. assert (k = u).
      { apply (preorder_root_inj k); auto using root_in_preorder. }
      subst k. rewrite (leaf_preorder u Hku) in Hw.
      apply list_elem_of_singleton in Hw. subst w. rewrite Hku in Hkw.
      by destruct l1. }
    assert (Hbw : b <> root w).
    { intros ->. apply Hb. apply elem_of_app. right. apply elem_of_app. left.
      by apply addrs_preorder. }
    assert (E : remove (root u) (NT b v (k1 ++ k :: k2)) =
                NT b v (k1 ++ remove (root u) k :: k2)).
    { rewrite remove_unfold. f_equal.
      rewrite map_app, List.filter_app. cbn [map List.filter].
      rewrite root_remove. destruct (Nat.eqb_spec (root k) (root u)); [done|].
      cbn [negb]. by rewrite !remove_forest_absent. }
    rewrite E.
    rewrite Forall_forall in IH, Hks, Hlk.
    destruct (IH k Hk0 (Some b) (Hks k Hk0) (Hlk k Hk0) Hndk Hw) as (IH1 & IH2 & IH3).
    assert (Hag : forall k', k' ∈ k1 ++ k2 -> forall c, c ∈ addrs k' ->
                    nodes s' !! c = nodes s !! c).
    { intros k' Hk' c Hcin. simpl. apply list_lookup_insert_ne. intros <-.
      apply elem_of_app in Hk' as [Hk'|Hk'].
      - apply Hw1. apply elem_of_flat_map_addrs. eauto.
      - apply Hw2. apply elem_of_flat_map_addrs. eauto. }
    assert (Hn1 : nodes s' !! b = Some n).
    { simpl. rewrite list_lookup_insert_ne by done. done. }
    assert (Hin1 : forall k', k' ∈ k1 -> k' ∈ k1 ++ k :: k2).
    { intros k' Hk'. apply elem_of_app. by left. }
    assert (Hin2 : forall k', k' ∈ k2 -> k' ∈ k1 ++ k :: k2).
    { intros k' Hk'. apply elem_of_app. right. by right. }
    split_and!.
    + econstructor; [exact Hn1|exact Hv| |].
      * rewrite Hc, !map_app. simpl. by rewrite root_remove.
      * apply Forall_app. split; [|constructor]; [|exact IH1|].
        -- apply Forall_forall. intros k' Hk'.
           eapply repr_agree; [by apply Hks, Hin1| |done].
           apply Hag. apply elem_of_app. by left.
        -- apply Forall_forall. intros k' Hk'.
           eapply repr_agree; [by apply Hks, Hin2| |done].
           apply Hag. apply elem_of_app. by right.
    + econstructor; [exact Hn1|exact Hp|].
      apply Forall_app. split; [|constructor]; [|exact IH2|].
      * apply Forall_forall. intros k' Hk'.
        eapply linked_agree; [by apply Hlk, Hin1|].
        apply Hag. apply elem_of_app. by left.
      * apply Forall_forall. intros k' Hk'.
        eapply linked_agree; [by apply Hlk, Hin2|].
        apply Hag. apply elem_of_app. by right.
    + intros c Hcin Hne. rewrite addrs_unfold in *.
      apply elem_of_cons in Hcin as [->|Hcin]; [left|right].
      rewrite flat_map_app in *. rewrite flat_map_cons in *.
      apply elem_of_app in Hcin as [?|Hcin]; apply elem_of_app; [by left|right].
      apply elem_of_app in Hcin as [Hcin|?]; apply elem_of_app; [left|by right].
      by apply IH3.
Qed.

Lemma prune_step_exn predicate s a e :
  predicate s a = Exn e -> prune_step predicate a s = (Exn e, s).
Proof. intros H. unfold prune_step, bind, call. by rewrite H. Qed.

Lemma prune_step_val predicate s a b n :
  predicate s a = Val b -> nodes s !! a = Some n ->
  prune_step predicate a s =
  (if negb b && (length (node_children n) =? 0) then
     match node_parent n with
     | None => throw TypeError
     | Some parent =>
         pn <- getNode parent ;;
         cs <- filterM (fun c => cn <- getNode c ;;
                                 ret (negb (String.eqb (node_id cn) (node_id n))))
                       (node_children pn) ;;
         modNode parent (set_children cs)
     end
   else ret tt) s.
Proof.
  intros H Hn. unfold prune_step. unfold bind at 1. unfold call. rewrite H.
  by rewrite (bind_val _ _ _ _ _ (getNode_val _ _ _ Hn)).
Qed.

Lemma repr_has_id s k : repr s k -> has_id s k.
Proof.
  intros Hr. destruct (repr_inv _ _ Hr) as (n & Hn & Hv & _).
  exists n. split; [done|]. symmetry. by eapply view_of_id.
Qed.

(** One pruning step on a node of a well-formed tree, when the predicate
    returns: nothing changes, or the root is a non-matching leaf and the step
    throws, or a non-matching leaf is taken out. *)
Lemma prune_step_wf predicate s t u b :
  wf s t -> u ∈ preorder t -> predicate s (root u) = Val b ->
  prune_step predicate (root u) s = (Val tt, s) \/
  (prune_step predicate (root u) s = (Exn TypeError, s) /\ kids_of t = []) \/
  (exists s',
     prune_step predicate (root u) s = (Val tt, s') /\
     wf s' (remove (root u) t) /\
     tasks s' = tasks s /\ log s' = log s /\
     length (nodes s') = length (nodes s) /\
     (forall c, c ∉ addrs t -> nodes s' !! c = nodes s !! c) /\
     (forall c, c ∈ addrs t -> c <> root u -> c ∈ addrs (remove (root u) t))).
Proof.
  intros (Hr & Hl & Hnd & Hids) Hu Hb.
  destruct (repr_inv _ _ (repr_sub _ _ _ Hr Hu)) as (n & Hn & Hv & Hc & _).
  rewrite (prune_step_val _ _ _ _ _ Hb Hn).
  destruct b; [by left|]. cbn [negb andb].
  destruct (kids_of u) as [|k0 ks0] eqn:Hku; [|left; by rewrite Hc].
  rewrite Hc. cbn [map length Nat.eqb].
  destruct (preorder_parent _ _ Hu) as [->|(w & i & Hw & Hi)].
  { right. left. destruct (linked_inv _ _ _ Hl) as (n' & Hn' & Hp & _).
    assert (n' = n) by congruence. subst n'. rewrite Hp. done. }
  right. right.
  assert (Hukid : u ∈ kids_of w) by (apply list_elem_of_lookup; eauto).
  destruct (linked_sub _ _ _ _ Hl Hw) as (q & Hlw).
  destruct (linked_inv _ _ _ Hlw) as (pn & Hpn & _ & Hlk).
  destruct (repr_inv _ _ (repr_sub _ _ _ Hr Hw)) as (pn' & Hpn' & _ & Hcpn & Hrk).
  assert (pn' = pn) by congruence. subst pn'.
  rewrite Forall_forall in Hlk, Hrk.
  destruct (linked_inv _ _ _ (Hlk u Hukid)) as (n' & Hn' & Hp & _).
  assert (n' = n) by congruence. subst n'. rewrite Hp.
  pose proof Hukid as Hsplit. apply list_elem_of_split in Hsplit as (l1 & l2 & Hkw).
  destruct (sibling_ids_sub _ _ Hids Hw) as [Hndw _]. rewrite Hkw in Hndw.
  rewrite (bind_val _ _ _ _ _ (getNode_val _ _ _ Hpn)).
  unfold bind at 1. rewrite Hcpn.
  rewrite (filterM_ids s (node_id n) (kids_of w)).
  2:{ apply Forall_forall. intros k Hk. apply repr_has_id. by apply Hrk. }
  rewrite <- (view_of_id _ _ _ Hv), Hkw.
  pose proof (filter_remove_id (fun k => view_id (view k)) l1 u l2 Hndw) as E.
  simpl in E. rewrite E. clear E.
  rewrite (modNode_val _ _ _ _ Hpn).
  destruct (remove_leaf_spec s w l1 u l2 pn Hkw Hku Hpn t None Hr Hl Hnd Hw)
    as (Hr' & Hl' & Hin').
  eexists. split; [reflexivity|]. split_and!; auto.
  - split_and!; auto.
    + eapply sublist_NoDup; [exact Hnd|apply addrs_remove_sublist].
    + by apply sibling_ids_remove.
  - simpl. apply length_insert.
  - intros c Hcin. simpl. apply list_lookup_insert_ne. intros <-.
    apply Hcin. by apply addrs_preorder.
Qed.

(** Pruning steps on distinct nodes of a well-formed tree leave a well-formed
    tree with the same root, until a step throws. *)
Lemma forEach_prune_wf predicate : forall l s t,
  returns_or_throws predicate ->
  wf s t -> NoDup l -> (forall a, a ∈ l -> a ∈ addrs t) ->
  exists r s' t',
    forEach (prune_step predicate) l s = (r, s') /\
    wf s' t' /\ root t' = root t /\ size t' <= size t /\
    (forall c, c ∈ addrs t' -> c ∈ addrs t) /\
    tasks s' = tasks s /\ log s' = log s /\
    length (nodes s') = length (nodes s) /\
    (forall c, c ∉ addrs t -> nodes s' !! c = nodes s !! c) /\
    (r = Val tt \/
     (r = Exn TypeError /\ kids_of t' = []) \/
     (exists e a s0 n v,
        r = Exn e /\ nodes s0 !! a = Some n /\ view_of s0 n = Some v /\
        predicate s0 a = Exn e)).
Proof.
  induction l as [|a l IH]; intros s t Hpred Hwf Hnd Hl.
  { exists (Val tt), s, t. split_and!; auto. }
  apply NoDup_cons in Hnd as [Ha Hnd].
  assert (Hat : a ∈ addrs t) by (apply Hl; left).
  apply list_elem_of_fmap in Hat as (u & -> & Hu).
  pose proof Hwf as (Hr & _).
  destruct (repr_inv _ _ (repr_sub _ _ _ Hr Hu)) as (n & Hn & Hv & _).
  cbn [forEach]. unfold bind at 1.
  destruct (Hpred s (root u) n (view u) Hn Hv) as [[b Hb]|[e He]].
  - destruct (prune_step_wf predicate s t u b Hwf Hu Hb)
      as [E|[[E Hk]|(s1 & E & Hwf1 & Ht1 & Hl1 & Hlen1 & Hout1 & Hin1)]]; rewrite E.
    + apply IH; auto. intros c Hc. apply Hl. by right.
    + exists (Exn TypeError), s, t. split_and!; auto.
    + destruct (IH s1 (remove (root u) t) Hpred Hwf1 Hnd)
        as (r & s2 & t2 & Hrun & Hwf2 & Hroot & Hsz & Hsub & Ht2 & Hl2 & Hlen2 & Hout2 & Hres).
      { intros c Hc. apply Hin1; [apply Hl; by right|]. intros ->. done. }
      assert (Hsub1 : forall c, c ∈ addrs (remove (root u) t) -> c ∈ addrs t).
      { intros c Hc. eapply elem_of_sublist; [exact Hc|apply addrs_remove_sublist]. }
      exists r, s2, t2. split_and!; auto; try congruence.
      * by rewrite Hroot, root_remove.
      * pose proof (size_remove (root u) t). lia.
      * intros c Hc. rewrite Hout2, Hout1; auto.
  - rewrite (prune_step_exn _ _ _ _ He).
    exists (Exn e), s, t. split_and!; auto.
    right. right. by exists e, (root u), s, n, (view u).
Qed.

Lemma rev_bfs_NoDup t : NoDup (addrs t) -> NoDup (rev (map root (bfs t))).
Proof.
  intros Hnd. rewrite <- Permutation_rev. unfold addrs in Hnd.
  by rewrite (bfs_perm t).
Qed.

(** The body of the [try] block of [filter], for any predicate. *)
Lemma filter_try_general fuel predicate s t :
  returns_or_throws predicate -> wf s t -> size t <= fuel ->
  exists r s' t',
    filter_try fuel predicate (root t) s = (r, s') /\
    tasks s' = tasks s /\ log s' = log s /\
    length (nodes s') = length (nodes s) /\
    (forall a, a ∉ addrs t -> nodes s' !! a = nodes s !! a) /\
    root t' = root t /\ repr s' t' /\ linked s' None t' /\
    (forall a, a ∈ addrs t' -> a ∈ addrs t) /\
    ((r = Val tt /\
      lines_below t' = map Z.of_nat (seq 1 (length (lines_below t')))) \/
     (r = Exn TypeError /\ kids_of t' = []) \/
     (exists e a s0 n v,
        r = Exn e /\ nodes s0 !! a = Some n /\ view_of s0 n = Some v /\
        predicate s0 a = Exn e)).
Proof.
  intros Hpred Hwf Hsz. pose proof Hwf as (Hr & Hl & Hnd & Hids).
  pose proof (height_le_size t) as Hhs.
  assert (Hbfs : bfs_loop fuel [root t] [] s = (Val (map root (bfs t)), s)).
  { apply (bfs_loop_spec s (height t) [t] fuel []).
    - by constructor.
    - by constructor.
    - unfold fsize. simpl. lia. }
  destruct (forEach_prune_wf predicate (rev (map root (bfs t))) s t Hpred Hwf)
    as (r & s2 & t2 & Hrun & Hwf2 & Hroot2 & Hsz2 & Hsub2 & Ht2 & Hl2 & Hlen2 & Hout2 & Hres).
  { by apply rev_bfs_NoDup. }
  { intros a Ha. apply elem_of_rev_1 in Ha.
    apply list_elem_of_fmap in Ha as (u & -> & Hu).
    apply addrs_preorder. by apply bfs_preorder. }
  destruct Hwf2 as (Hr2 & Hlk2 & Hnd2 & Hids2).
  unfold filter_try. unfold bind at 1. rewrite Hbfs.
  unfold bind at 1. rewrite Hrun.
  destruct Hres as [->|[[-> Hk]|(e & a & s0 & n & v & -> & Hn & Hv & He)]].
  - destruct (renumber_tail fuel s2 t2 Hr2 Hlk2 Hnd2)
      as (s3 & t3 & Hrn & Ht3 & Hl3 & Hlen3 & Hout3 & Hroot3 & Hr3 & Hlk3 & Hnd3 &
          Hsub3 & _ & Hlines).
    { pose proof (height_le_size t2). lia. }
    rewrite <- Hroot2. rewrite Hrn.
    exists (Val tt), s3, t3. split_and!; auto; try congruence.
    intros a Ha. rewrite Hout3, Hout2; auto.
  - exists (Exn TypeError), s2, t2. split_and!; auto.
  - exists (Exn e), s2, t2. split_and!; auto.
    right. right. by exists e, a, s0, n, v.
Qed.

(** [filter] with any predicate that returns or throws: the call returns the
    root of a clone, the receiver is as it was, and either the lines of the
    result are 1, 2, 3, ..., or one error was logged. *)
Lemma Node_filter_general fuel predicate s t :
  returns_or_throws predicate ->
  repr s t -> sibling_ids t -> size t <= fuel ->
  exists s' t',
    Node_filter fuel predicate (root t) s = (Val (root t'), s') /\
    nodes s `prefix_of` nodes s' /\ tasks s `prefix_of` tasks s' /\
    repr s' t' /\ linked s' None t' /\
    (forall a, a ∈ addrs t' -> length (nodes s) <= a) /\
    ((log s' = log s /\
      lines_below t' = map Z.of_nat (seq 1 (length (lines_below t')))) \/
     (log s' = log s ++ [TypeError] /\ kids_of t' = []) \/
     (exists e a s0 n v,
        log s' = log s ++ [e] /\ nodes s0 !! a = Some n /\
        view_of s0 n = Some v /\ predicate s0 a = Exn e)).
Proof.
  intros Hpred Hr Hids Hsz.
  pose proof (height_le_size t) as Hhs.
  destruct (clone_one fuel s t Hr) as (t1 & s1 & Hcl & He & Hr1 & Hl1 & Ha & Hrg & Hnd & _);
    [lia|].
  assert (Hids1 : sibling_ids t1).
  { apply sibling_ids_anon. rewrite Ha. by apply anon_sibling_ids. }
  assert (Hsz1 : size t1 <= fuel).
  { rewrite <- size_anon, Ha, size_anon. done. }
  destruct (filter_try_general fuel predicate s1 t1 Hpred)
    as (r & s2 & t' & Htry & Ht2 & Hl2 & Hlen2 & Hout2 & Hroot & Hr2 & Hlk2 & Hsub & Hres);
    [by split_and!|done|].
  assert (Hpre : nodes s `prefix_of` nodes s2).
  { apply prefix_of_lookup. intros i x Hi.
    rewrite Hout2.
    - eapply extends_node; eauto.
    - intros Hin. apply Hrg in Hin. apply lookup_lt_Some in Hi. lia. }
  destruct He as (_ & Hpt & Hlog1).
  rewrite Node_filter_eq. unfold bind at 1. rewrite Hcl.
  unfold bind at 1. unfold try_catch. rewrite Htry.
  destruct Hres as [[-> Hlines]|[[-> Hk]|(e & a & s0 & n & v & -> & Hn & Hv & Hex)]].
  - exists s2, t'. split_and!; auto.
    + by rewrite Hroot.
    + by rewrite Ht2.
    + intros b Hin. apply Hsub, Hrg in Hin. lia.
    + left. split; [congruence|done].
  - eexists _, t'. split_and!.
    + unfold Log_w, ret. by rewrite Hroot.
    + done.
    + simpl. by rewrite Ht2.
    + by apply repr_log.
    + by apply linked_log.
    + intros b Hin. apply Hsub, Hrg in Hin. lia.
    + right. left. simpl. split; [congruence|done].
  - eexists _, t'. split_and!.
    + unfold Log_w, ret. by rewrite Hroot.
    + done.
    + simpl. by rewrite Ht2.
    + by apply repr_log.
    + by apply linked_log.
    + intros b Hin. apply Hsub, Hrg in Hin. lia.
    + right. right. exists e, a, s0, n, v. simpl. split_and!; auto. congruence.
Qed.

Lemma returns_boolean_or_throws predicate :
  returns_boolean predicate -> returns_or_throws predicate.
Proof. intros H s a n v Hn Hv. left. by eapply H. Qed.

Lemma on_view_total_returns_boolean P : returns_boolean (on_view (total P)).
Proof.
  intros s a n v Hn Hv. exists (P v). unfold on_view, total. by rewrite Hn, Hv.
Qed.

Lemma on_view_returns_or_throws Q : returns_or_throws (on_view Q).
Proof.
  intros s a n v Hn Hv. unfold on_view. rewrite Hn, Hv.
  destruct (Q v) as [b|]; [left|right]; eauto.
Qed.

Lemma Node_replace_eq fuel node predicate this :
  Node_replace fuel node predicate this =
  (cl <- clone fuel [this] None ;;
   match cl with
   | [cloned] =>
       target <- Node_find fuel predicate cloned ;;
       match target with
       | None => ret cloned
       | Some target =>
           tn <- getNode target ;;
           match node_parent tn with
           | None => ret cloned
           | Some parent =>
               modNode node (fun n => replacement n tn parent) ;;;
               pn <- getNode parent ;;
               cs <- mapM (fun c =>
                             cn <- getNode c ;;
                             nn <- getNode node ;;
                             ret (if String.eqb (node_id cn) (node_id nn)
                                  then node else c))
                          (node_children pn) ;;
               modNode parent (set_children cs) ;;;
               ret cloned
           end
       end
   | _ => bad_ref
   end).
Proof. reflexivity. Qed.

(** C6: [replace] works on a clone of the receiver and looks for the first
    node of the clone, in breadth-first order, on which the predicate returns
    true.  When there is none, when the predicate throws before returning
    true (the error is logged by [find]) or when the node found is the root
    of the clone, the clone is returned as [clone] built it.  Otherwise the
    node found, [u], is child number [i] of a node [w] of the clone, and in
    the returned store the replacement has the id, the line and the children
    of [u], its parent is [w], and the children of [w] are what they were
    with the replacement at position [i]; no other node, no task and no log
    entry differs from the clone.  The tree is well formed: ids are unique
    among siblings. *)
Theorem replace_keeps_id_line_children_and_order fuel predicate s t node nn :
  repr s t -> sibling_ids t -> size t <= fuel ->
  nodes s !! node = Some nn ->
  exists t1 s1,
    clone fuel [root t] None s = (Val [root t1], s1) /\
    extends s s1 /\ repr s1 t1 /\ linked s1 None t1 /\ anon t1 = anon t /\
    match first_match predicate s1 (map root (bfs t1)) with
    | Val None =>
        Node_replace fuel node predicate (root t) s = (Val (root t1), s1)
    | Exn e =>
        Node_replace fuel node predicate (root t) s =
        (Val (root t1), mkStore (nodes s1) (tasks s1) (log s1 ++ [e]))
    | Val (Some target) =>
        (target = root t1 /\
         Node_replace fuel node predicate (root t) s = (Val (root t1), s1)) \/
        (exists u w i tn pn s',
            root u = target /\
            w ∈ preorder t1 /\ kids_of w !! i = Some u /\
            nodes s1 !! root u = Some tn /\
            view_of s1 tn = Some (view u) /\
            node_children tn = map root (kids_of u) /\
            nodes s1 !! root w = Some pn /\
            node_children pn = map root (kids_of w) /\
            Node_replace fuel node predicate (root t) s = (Val (root t1), s') /\
            nodes s' !! node = Some (replacement nn tn (root w)) /\
            nodes s' !! root w =
              Some (set_children (<[i:=node]> (node_children pn)) pn) /\
            (forall a, a <> node -> a <> root w -> nodes s' !! a = nodes s1 !! a) /\
            tasks s' = tasks s1 /\ log s' = log s1)
    | OutOfFuel =>
        Node_replace fuel node predicate (root t) s = (OutOfFuel, s1)
    | BadRef =>
        Node_replace fuel node predicate (root t) s = (BadRef, s1)
    end.
Proof.
  intros Hr Hids Hsz Hnode.
  pose proof (height_le_size t) as Hhs.
  destruct (clone_one fuel s t Hr) as (t1 & s1 & Hcl & He & Hr1 & Hl1 & Ha & Hrg & Hnd & _);
    [lia|].
  assert (Hids1 : sibling_ids t1).
  { apply sibling_ids_anon. rewrite Ha. by apply anon_sibling_ids. }
  assert (Hsz1 : size t1 <= fuel).
  { rewrite <- size_anon, Ha, size_anon. done. }
  exists t1, s1. split_and!; auto.
  assert (Hev : exists r, Node_replace fuel node predicate (root t) s = r /\
                          r = Node_replace fuel node predicate (root t) s) by eauto.
  destruct Hev as (r & Hev & Er). rewrite Hev.
  rewrite Node_replace_eq in Er. unfold bind at 1 in Er. rewrite Hcl in Er.
  unfold bind at 1 in Er. rewrite (Node_find_spec fuel predicate s1 t1 Hr1 Hsz1) in Er.
  clear Hev.
  destruct (first_match predicate s1 (map root (bfs t1))) as [[target|]|e| |] eqn:Hscan;
    try exact Er.
  apply first_match_Some, list_elem_of_fmap in Hscan as (u & -> & Hu).
  apply bfs_preorder in Hu.
  destruct (repr_inv _ _ (repr_sub _ _ _ Hr1 Hu)) as (tn & Htn & Hvtn & Hctn & _).
  rewrite (bind_val _ _ _ _ _ (getNode_val _ _ _ Htn)) in Er.
  destruct (preorder_parent _ _ Hu) as [->|(w & i & Hw & Hi)].
  { left. split; [done|].
    destruct (linked_inv _ _ _ Hl1) as (n' & Hn' & Hp' & _).
    assert (n' = tn) by congruence. subst n'. by rewrite Hp' in Er. }
  right.
  destruct (linked_sub _ _ _ _ Hl1 Hw) as (q & Hlw).
  destruct (linked_inv _ _ _ Hlw) as (pn & Hpn & _ & Hlk).
  destruct (repr_inv _ _ (repr_sub _ _ _ Hr1 Hw)) as (pn' & Hpn' & Hvpn & Hcpn & Hrk).
  assert (pn' = pn) by congruence. subst pn'.
  assert (Hukid : u ∈ kids_of w) by (apply list_elem_of_lookup; eauto).
  rewrite Forall_forall in Hlk, Hrk.
  destruct (linked_inv _ _ _ (Hlk u Hukid)) as (tn' & Htn' & Hptn & _).
  assert (tn' = tn) by congruence. subst tn'.
  assert (Hnode1 : nodes s1 !! node = Some nn) by (eapply extends_node; eauto).
  assert (Hnode_old : node < length (nodes s)) by (by eapply lookup_lt_Some).
  assert (Hw_new : length (nodes s) <= root w).
  { apply Hrg. by apply addrs_preorder. }
  set (nn' := replacement nn tn (root w)).
  set (s2 := mkStore (<[node:=nn']> (nodes s1)) (tasks s1) (log s1)).
  assert (Hpn2 : nodes s2 !! root w = Some pn).
  { simpl. rewrite list_lookup_insert_ne by lia. done. }
  assert (Hnode2 : nodes s2 !! node = Some nn').
  { simpl. apply list_lookup_insert_eq. by eapply lookup_lt_Some. }
  set (cs := <[i:=node]> (node_children pn)).
  set (s3 := mkStore (<[root w:=set_children cs pn]> (nodes s2)) (tasks s2) (log s2)).
  exists u, w, i, tn, pn, s3. split_and!; auto.
  - rewrite Er, Hptn.
    unfold bind at 1. rewrite (modNode_val _ _ _ _ Hnode1). fold nn' s2.
    rewrite (bind_val _ _ _ _ _ (getNode_val _ _ _ Hpn2)).
    unfold bind at 1.
    rewrite (mapM_pure _ (fun c => if String.eqb
                (match nodes s2 !! c with Some cn => node_id cn | None => EmptyString end)
                (node_id nn') then node else c)).
    2:{ intros c Hc. rewrite Hcpn in Hc.
        apply list_elem_of_fmap in Hc as (k & -> & Hk).
        destruct (repr_inv _ _ (Hrk k Hk)) as (kn & Hkn & _).
        assert (Hkn2 : nodes s2 !! root k = Some kn).
        { simpl. rewrite list_lookup_insert_ne; [done|].
          assert (length (nodes s) <= root k); [|lia].
          apply Hrg. apply addrs_preorder.
          eapply preorder_trans; [|exact Hw].
          destruct w. eapply elem_of_preorder_kid; [exact Hk|apply root_in_preorder]. }
        rewrite (bind_val _ _ _ _ _ (getNode_val _ _ _ Hkn2)).
        rewrite (bind_val _ _ _ _ _ (getNode_val _ _ _ Hnode2)).
        by rewrite Hkn2. }
    assert (Ecs : map (fun c => if String.eqb
                (match nodes s2 !! c with Some cn => node_id cn | None => EmptyString end)
                (node_id nn') then node else c) (node_children pn) = cs).
    { unfold cs. rewrite Hcpn.
      destruct (sibling_ids_sub _ _ Hids1 Hw) as [Hndw _].
      rewrite <- (replace_by_id (fun k => view_id (view k)) root node _ _ _ Hndw Hi).
      rewrite map_map. apply map_ext_in. intros k Hk. apply list_elem_of_In in Hk.
      destruct (repr_inv _ _ (Hrk k Hk)) as (kn & Hkn & Hvk & _).
      assert (Hkn2 : nodes s2 !! root k = Some kn).
      { simpl. rewrite list_lookup_insert_ne; [done|].
        assert (length (nodes s) <= root k); [|lia].
        apply Hrg. apply addrs_preorder.
        eapply preorder_trans; [|exact Hw].
        destruct w. eapply elem_of_preorder_kid; [exact Hk|apply root_in_preorder]. }
      rewrite Hkn2. simpl.
      by rewrite <- (view_of_id _ _ _ Hvk), <- (view_of_id _ _ _ Hvtn). }
    rewrite Ecs. rewrite (bind_val _ _ _ _ _ (modNode_val _ _ _ _ Hpn2)).
    reflexivity.
  - simpl. rewrite list_lookup_insert_ne by lia.
    apply list_lookup_insert_eq. by eapply lookup_lt_Some.
  - simpl. apply list_lookup_insert_eq. rewrite length_insert. by eapply lookup_lt_Some.
  - intros a Ha1 Ha2. simpl. by rewrite !list_lookup_insert_ne.
Qed.

Lemma example_repr : repr example_store example_tree.
Proof. repeat (econstructor; try reflexivity). Qed.

Lemma example_sibling_ids : sibling_ids example_tree.
Proof.
  repeat (constructor; simpl);
    try (intros H; repeat (apply elem_of_cons in H as [H|H]; [discriminate|]);
         inversion H).
Qed.

(** On the example [isComplete] throws on no node, and [is_complete] is
    what it returns. *)
Lemma example_isComplete u :
  u ∈ preorder example_tree ->
  Node_isComplete (view u) = Some (is_complete (view u)).
Proof.
  intros H. simpl in H.
  repeat (apply elem_of_cons in H as [->|H]; [reflexivity|]).
  inversion H.
Qed.

Lemma prune_kept_nodes P : forall u u',
  prune P u = Some u' ->
  forall w, w ∈ preorder u' -> P (view w) = true \/ kids_of w <> [].
Proof.
  induction u as [a v kids IH] using ntree_ind'. intros u' Hpr w Hw.
  apply prune_Some in Hpr as [-> Hor].
  apply elem_of_preorder_inv in Hw as [->|(k' & Hk' & Hw)]; [exact Hor|].
  apply list_elem_of_omap in Hk' as (k & Hk & Hpk).
  rewrite Forall_forall in IH. by eapply (IH k).
Qed.

(** *** The pruning loop, step by step, for any predicate *)

Lemma length_preorder : forall t, length (preorder t) = size t.
Proof.
  induction t as [a v kids IH] using ntree_ind'.
  rewrite preorder_unfold, size_unfold. simpl. f_equal.
  induction IH as [|k kids Hk _ IHk]; [done|].
  rewrite flat_map_cons, length_app, fsize_cons. lia.
Qed.

Lemma size_kid k t : k ∈ kids_of t -> size k < size t.
Proof.
  destruct t as [a v ks]. rewrite size_unfold. cbn [kids_of]. intros Hk.
  apply list_elem_of_split in Hk as (l1 & l2 & ->).
  rewrite fsize_app, fsize_cons. lia.
Qed.

Lemma prune_by_unfold keep a v kids :
  prune_by keep (NT a v kids) =
  if negb (keep a) && (length (omap (prune_by keep) kids) =? 0)
  then None else Some (NT a v (omap (prune_by keep) kids)).
Proof. reflexivity. Qed.

Lemma prune_root_by_unfold keep a v kids :
  prune_root_by keep (NT a v kids) = NT a v (omap (prune_by keep) kids).
Proof. reflexivity. Qed.

Lemma leaf_in_unfold a b v kids :
  leaf_in a (NT b v kids) =
  if b =? a then length kids =? 0 else existsb (leaf_in a) kids.
Proof. reflexivity. Qed.

Lemma prune_by_Some keep a v kids t' :
  prune_by keep (NT a v kids) = Some t' ->
  t' = NT a v (omap (prune_by keep) kids) /\
  (keep a = true \/ omap (prune_by keep) kids <> []).
Proof.
  rewrite prune_by_unfold.
  destruct (keep a); simpl.
  - intros [= <-]. auto.
  - destruct (omap (prune_by keep) kids) eqn:E; simpl; [discriminate|].
    intros [= <-]. split; [done|]. right. done.
Qed.

Lemma prune_by_root keep t t' : prune_by keep t = Some t' -> root t' = root t.
Proof. destruct t. intros H. by apply prune_by_Some in H as [-> _]. Qed.

Lemma prune_by_kept keep a v kids :
  keep a = true ->
  prune_by keep (NT a v kids) = Some (NT a v (omap (prune_by keep) kids)).
Proof. intros H. rewrite prune_by_unfold, H. reflexivity. Qed.

Lemma omap_prune_by_ext K K' (kids : list ntree) :
  Forall (fun k => prune_by K k = prune_by K' k) kids ->
  omap (prune_by K) kids = omap (prune_by K') kids.
Proof.
  induction 1 as [|k kids Hk _ IH]; [done|].
  rewrite !omap_cons, Hk, IH. done.
Qed.

Lemma prune_by_ext K K' : forall t,
  (forall c, c ∈ addrs t -> K c = K' c) -> prune_by K t = prune_by K' t.
Proof.
  induction t as [a v kids IH] using ntree_ind'. intros H.
  rewrite !prune_by_unfold. rewrite (H a) by (rewrite addrs_unfold; left).
  assert (E : omap (prune_by K) kids = omap (prune_by K') kids).
  { apply omap_prune_by_ext. rewrite Forall_forall in *. intros k Hk.
    apply IH; [done|]. intros c Hc. apply H. rewrite addrs_unfold. right.
    apply elem_of_flat_map_addrs. eauto. }
  by rewrite E.
Qed.

Lemma prune_root_by_ext K K' t :
  (forall c, c ∈ addrs t -> K c = K' c) -> prune_root_by K t = prune_root_by K' t.
Proof.
  destruct t as [a v kids]. intros H. rewrite !prune_root_by_unfold. f_equal.
  apply omap_prune_by_ext. apply Forall_forall. intros k Hk.
  apply prune_by_ext. intros c Hc. apply H. rewrite addrs_unfold. right.
  apply elem_of_flat_map_addrs. eauto.
Qed.

Lemma prune_by_all : forall t K,
  (forall c, c ∈ addrs t -> K c = true) -> prune_by K t = Some t.
Proof.
  induction t as [a v kids IH] using ntree_ind'. intros K H.
  rewrite prune_by_kept by (apply H; rewrite addrs_unfold; left).
  do 2 f_equal.
  induction IH as [|k kids Hk _ IHk]; [done|].
  rewrite omap_cons, Hk.
  - rewrite IHk; [done|]. intros c Hc. apply H. rewrite addrs_unfold in *.
    apply elem_of_cons in Hc as [->|Hc]; [left|right].
    rewrite flat_map_cons. apply elem_of_app. by right.
  - intros c Hc. apply H. rewrite addrs_unfold. right.
    rewrite flat_map_cons. apply elem_of_app. by left.
Qed.

Lemma prune_root_by_all t K :
  (forall c, c ∈ addrs t -> K c = true) -> prune_root_by K t = t.
Proof.
  intros H. destruct t as [a v kids].
  pose proof (prune_by_all (NT a v kids) K H) as E.
  rewrite prune_by_kept in E by (apply H; rewrite addrs_unfold; left).
  injection E as E. rewrite prune_root_by_unfold. by rewrite E.
Qed.

Lemma addrs_prune_by K : forall t t',
  prune_by K t = Some t' -> forall c, c ∈ addrs t' -> c ∈ addrs t.
Proof.
  induction t as [a v kids IH] using ntree_ind'. intros t' H c Hc.
  apply prune_by_Some in H as [-> _]. rewrite addrs_unfold in *.
  apply elem_of_cons in Hc as [->|Hc]; [left|right].
  apply elem_of_flat_map_addrs in Hc as (k' & Hk' & Hc).
  apply list_elem_of_omap in Hk' as (k & Hk & Hpk).
  apply elem_of_flat_map_addrs. exists k. split; [done|].
  rewrite Forall_forall in IH. by eapply IH.
Qed.

Lemma addrs_omap_prune_by K (kids : list ntree) c :
  c ∈ flat_map addrs (omap (prune_by K) kids) -> c ∈ flat_map addrs kids.
Proof.
  intros Hc. apply elem_of_flat_map_addrs in Hc as (k' & Hk' & Hc).
  apply list_elem_of_omap in Hk' as (k & Hk & Hpk).
  apply elem_of_flat_map_addrs. exists k. split; [done|].
  by eapply addrs_prune_by.
Qed.

Lemma leaf_in_absent a : forall t, a ∉ addrs t -> leaf_in a t = false.
Proof.
  induction t as [b v kids IH] using ntree_ind'. intros Ha.
  rewrite addrs_unfold in Ha. apply not_elem_of_cons in Ha as [Hne Ha].
  rewrite leaf_in_unfold. destruct (Nat.eqb_spec b a); [congruence|].
  induction IH as [|k kids Hk _ IHk]; [done|].
  rewrite flat_map_cons in Ha. apply not_elem_of_app in Ha as [Ha1 Ha2].
  simpl. rewrite (Hk Ha1). simpl. by apply IHk.
Qed.

Lemma existsb_leaf_in_absent a (ks : list ntree) :
  a ∉ flat_map addrs ks -> existsb (leaf_in a) ks = false.
Proof.
  induction ks as [|k ks IH]; [done|]. intros Ha.
  rewrite flat_map_cons in Ha. apply not_elem_of_app in Ha as [Ha1 Ha2].
  simpl. rewrite (leaf_in_absent a k Ha1). simpl. by apply IH.
Qed.

(** The node at [a] in a tree of pairwise distinct nodes. *)
Lemma leaf_in_spec a : forall t u,
  NoDup (addrs t) -> u ∈ preorder t -> root u = a ->
  leaf_in a t = (length (kids_of u) =? 0).
Proof.
  induction t as [b v kids IH] using ntree_ind'. intros u Hnd Hu Hroot.
  rewrite addrs_unfold in Hnd. apply NoDup_cons in Hnd as [Hb Hnd].
  rewrite leaf_in_unfold.
  apply elem_of_preorder_inv in Hu as [->|(k & Hk & Hu)].
  { simpl in Hroot. subst. by rewrite Nat.eqb_refl. }
  assert (Hak : a ∈ addrs k) by (subst a; by apply addrs_preorder).
  destruct (Nat.eqb_spec b a) as [->|Hne].
  { exfalso. apply Hb. apply elem_of_flat_map_addrs. eauto. }
  apply list_elem_of_split in Hk as (k1 & k2 & ->).
  rewrite flat_map_app, flat_map_cons in Hnd.
  apply NoDup_app in Hnd as (_ & Hd1 & Hnd).
  apply NoDup_app in Hnd as (Hndk & Hd2 & _).
  rewrite Forall_forall in IH.
  rewrite existsb_app. cbn [existsb].
  rewrite (existsb_leaf_in_absent a k1), (existsb_leaf_in_absent a k2).
  - rewrite orb_false_r. simpl. apply IH; auto.
    apply elem_of_app. right. left.
  - by apply Hd2.
  - intros Hin. apply (Hd1 _ Hin). apply elem_of_app. by left.
Qed.

(** Settling the verdict on one node, with the verdicts on the nodes above it
    still open. *)
Lemma prune_by_step K a keep_a : forall u,
  NoDup (addrs u) -> a ∈ addrs u ->
  (forall w, w ∈ preorder u -> a ∈ addrs w -> K (root w) = true) ->
  exists u0,
    prune_by K u = Some u0 /\
    prune_by (fun c => if c =? a then keep_a else K c) u =
    if negb keep_a && leaf_in a u0
    then (if root u =? a then None else Some (remove a u0))
    else Some u0.
Proof.
  set (K1 := fun c => if c =? a then keep_a else K c).
  assert (Hext : forall k, a ∉ addrs k -> prune_by K1 k = prune_by K k).
  { intros k Hk. apply prune_by_ext. intros c Hc. unfold K1.
    destruct (Nat.eqb_spec c a); [congruence|done]. }
  assert (Hext' : forall ks : list ntree, a ∉ flat_map addrs ks ->
            omap (prune_by K1) ks = omap (prune_by K) ks).
  { intros ks Hks. apply omap_prune_by_ext. apply Forall_forall. intros k Hk.
    apply Hext. intros Hin. apply Hks. apply elem_of_flat_map_addrs. eauto. }
  induction u as [b v kids IH] using ntree_ind'. intros Hnd Ha Hanc.
  pose proof Hnd as Hnd0.
  rewrite addrs_unfold in Hnd. apply NoDup_cons in Hnd as [Hb Hnd].
  assert (Kb : K b = true).
  { apply (Hanc (NT b v kids)); [apply root_in_preorder|done]. }
  rewrite (prune_by_kept K) by done.
  eexists. split; [reflexivity|].
  rewrite addrs_unfold in Ha. apply elem_of_cons in Ha as [->|Ha].
  - (* the node is this one *)
    rewrite prune_by_unfold. unfold K1 at 1. rewrite Nat.eqb_refl.
    rewrite (Hext' kids Hb). rewrite leaf_in_unfold. simpl root.
    rewrite Nat.eqb_refl. by destruct (negb keep_a && _).
  - (* the node is below the child [k] *)
    assert (Hne : b <> a) by (intros ->; done).
    apply elem_of_flat_map_addrs in Ha as (k & Hk & Ha).
    pose proof Hk as Hk0.
    apply list_elem_of_split in Hk as (k1 & k2 & ->).
    rewrite flat_map_app, flat_map_cons in Hnd.
    apply NoDup_app in Hnd as (_ & Hd1 & Hnd).
    apply NoDup_app in Hnd as (Hndk & Hd2 & _).
    assert (Ha1 : a ∉ flat_map addrs k1).
    { intros Hin. apply (Hd1 _ Hin). apply elem_of_app. by left. }
    assert (Ha2 : a ∉ flat_map addrs k2) by (by apply Hd2).
    rewrite Forall_forall in IH.
    assert (Hanck : forall w, w ∈ preorder k -> a ∈ addrs w -> K (root w) = true).
    { intros w Hw Haw. apply Hanc; [|done].
      eapply elem_of_preorder_kid; [exact Hk0|exact Hw]. }
    destruct (IH k Hk0 Hndk Ha Hanck) as (k0 & Hk0K & Hk0K1).
    assert (Hroot0 : root k0 = root k) by (by eapply prune_by_root).
    assert (Hb1 : a ∉ flat_map addrs (omap (prune_by K) k1)).
    { intros Hin. by apply Ha1, (addrs_omap_prune_by K). }
    assert (Hb2 : a ∉ flat_map addrs (omap (prune_by K) k2)).
    { intros Hin. by apply Ha2, (addrs_omap_prune_by K). }
    assert (EK : omap (prune_by K) (k1 ++ k :: k2) =
                 omap (prune_by K) k1 ++ k0 :: omap (prune_by K) k2).
    { rewrite omap_app, omap_cons, Hk0K. done. }
    rewrite EK. rewrite leaf_in_unfold.
    destruct (Nat.eqb_spec b a) as [|_]; [done|].
    rewrite existsb_app. cbn [existsb].
    rewrite (existsb_leaf_in_absent a _ Hb1), (existsb_leaf_in_absent a _ Hb2).
    rewrite orb_false_r. cbn [orb]. simpl root.
    destruct (Nat.eqb_spec b a) as [|_]; [done|].
    assert (K1b : K1 b = true).
    { unfold K1. destruct (Nat.eqb_spec b a); [done|exact Kb]. }
    rewrite (prune_by_kept K1) by done.
    rewrite omap_app, omap_cons, (Hext' k1 Ha1), (Hext' k2 Ha2), Hk0K1.
    destruct (negb keep_a && leaf_in a k0) eqn:Ed.
    + f_equal. rewrite remove_unfold. f_equal.
      rewrite map_app, List.filter_app. cbn [map List.filter].
      rewrite !remove_forest_absent by done.
      rewrite root_remove, Hroot0.
      destruct (Nat.eqb_spec (root k) a); simpl; done.
    + done.
Qed.

Lemma prune_root_by_kept K t :
  K (root t) = true -> prune_by K t = Some (prune_root_by K t).
Proof. destruct t as [a v kids]. intros H. by apply prune_by_kept. Qed.

(** One step of the loop settles the verdict on one node. *)
Lemma prune_one_by K keep a t :
  NoDup (addrs t) -> a ∈ addrs t ->
  (forall w, w ∈ preorder t -> a ∈ addrs w -> K (root w) = true) ->
  prune_one keep a (prune_root_by K t) =
  prune_root_by (fun c => if c =? a then keep a else K c) t.
Proof.
  intros Hnd Ha Hanc. unfold prune_one.
  assert (Kr : K (root t) = true).
  { apply (Hanc t); [apply root_in_preorder|done]. }
  destruct (Nat.eqb_spec (root t) a) as [E|E].
  - (* the root: nothing to take it from *)
    destruct t as [b v kids]. simpl in E. subst b.
    rewrite addrs_unfold in Hnd. apply NoDup_cons in Hnd as [Hb _].
    assert (Hb' : a ∉ flat_map addrs (omap (prune_by K) kids)).
    { intros Hin. by apply Hb, (addrs_omap_prune_by K). }
    rewrite !prune_root_by_unfold.
    assert (E : omap (prune_by (fun c => if c =? a then keep a else K c)) kids =
                omap (prune_by K) kids).
    { apply omap_prune_by_ext. apply Forall_forall. intros k Hk.
      apply prune_by_ext. intros c Hc.
      destruct (Nat.eqb_spec c a) as [->|]; [|done].
      exfalso. apply Hb. apply elem_of_flat_map_addrs. eauto. }
    rewrite E.
    assert (R : remove a (NT a v (omap (prune_by K) kids)) =
                NT a v (omap (prune_by K) kids)).
    { rewrite remove_unfold. f_equal. by apply remove_forest_absent. }
    rewrite R. by destruct (negb (keep a) && _).
  - destruct (prune_by_step K a (keep a) t Hnd Ha Hanc) as (u0 & HK & HK1).
    rewrite (prune_root_by_kept K t Kr) in HK. injection HK as <-.
    assert (K1r : (fun c => if c =? a then keep a else K c) (root t) = true).
    { simpl. destruct (Nat.eqb_spec (root t) a); [done|exact Kr]. }
    rewrite (prune_root_by_kept _ t K1r) in HK1.
    destruct (Nat.eqb_spec (root t) a); [done|].
    destruct (negb (keep a) && _); by injection HK1 as ->.
Qed.

Lemma so_far_nil keep c : so_far keep [] c = true.
Proof.
  unfold so_far. rewrite bool_decide_eq_false_2 by (intros H; inversion H).
  by rewrite orb_true_r.
Qed.

Lemma so_far_snoc keep done a c :
  a ∉ done ->
  so_far keep (done ++ [a]) c = if c =? a then keep a else so_far keep done c.
Proof.
  intros Ha. unfold so_far. destruct (Nat.eqb_spec c a) as [->|Hne].
  - rewrite bool_decide_eq_true_2 by (apply elem_of_app; right; left).
    by rewrite orb_false_r.
  - f_equal. f_equal. apply bool_decide_ext. rewrite elem_of_app.
    split; [|by left]. intros [?|Hin]; [done|].
    apply list_elem_of_singleton in Hin. done.
Qed.

Lemma so_far_all keep done c : c ∈ done -> so_far keep done c = keep c.
Proof.
  intros H. unfold so_far. rewrite bool_decide_eq_true_2 by done.
  by rewrite orb_false_r.
Qed.

(** The loop over nodes that come after their descendants settles the
    verdicts one by one. *)
Lemma prune_pass_by keep t :
  NoDup (addrs t) ->
  forall l done,
    NoDup l ->
    (forall a, a ∈ l -> a ∈ addrs t /\ a ∉ done) ->
    (forall l1 a l2, l = l1 ++ a :: l2 ->
       forall w, w ∈ preorder t -> root w = a ->
         forall c, c ∈ addrs w -> c <> a -> c ∈ done \/ c ∈ l1) ->
    (forall w, w ∈ preorder t -> root w ∈ done ->
       forall c, c ∈ addrs w -> c ∈ done) ->
    prune_pass keep l (prune_root_by (so_far keep done) t) =
    prune_root_by (so_far keep (done ++ l)) t.
Proof.
  intros Hnd. induction l as [|a l IH]; intros done Hl Hin Hfirst Hclosed.
  { by rewrite app_nil_r. }
  apply NoDup_cons in Hl as [Hal Hl].
  destruct (Hin a) as [Hat Had]; [left|].
  cbn [prune_pass].
  rewrite (prune_one_by (so_far keep done) keep a t Hnd Hat).
  2:{ intros w Hw Haw. unfold so_far.
      rewrite bool_decide_eq_false_2; [by rewrite orb_true_r|].
      intros Hd. apply Had. by eapply Hclosed. }
  rewrite (prune_root_by_ext _ (so_far keep (done ++ [a])) t).
  2:{ intros c _. by rewrite so_far_snoc. }
  rewrite (IH (done ++ [a])); [by rewrite <- app_assoc| done | | |].
  - intros a' Ha'. destruct (Hin a') as [? ?]; [by right|]. split; [done|].
    intros [?|Hx]%elem_of_app; [done|]. apply list_elem_of_singleton in Hx.
    subst. done.
  - intros l1 a' l2 -> w Hw Hroot c Hc Hne.
    destruct (Hfirst (a :: l1) a' l2 eq_refl w Hw Hroot c Hc Hne) as [?|Hx].
    + left. apply elem_of_app. by left.
    + apply elem_of_cons in Hx as [->|?]; [|by right].
      left. apply elem_of_app. right. left.
  - intros w Hw Hroot c Hc.
    apply elem_of_app in Hroot as [Hroot|Hroot].
    + apply elem_of_app. left. by eapply Hclosed.
    + apply list_elem_of_singleton in Hroot.
      destruct (decide (c = a)) as [->|Hne]; [apply elem_of_app; right; left|].
      destruct (Hfirst [] a l eq_refl w Hw Hroot c Hc Hne) as [?|Hx].
      * apply elem_of_app. by left.
      * inversion Hx.
Qed.

(** In level order the nodes below a node come after it. *)
Lemma levelorder_below : forall h X,
  Forall (fun t => height t <= h) X ->
  forall A w B, levelorder h X = A ++ w :: B ->
    forall d, d ∈ flat_map preorder (kids_of w) -> d ∈ B.
Proof.
  induction h as [|h IH]; intros X Hh A w B E d Hd.
  { simpl in E. by destruct A. }
  cbn [levelorder] in E.
  pose proof (height_kids_forest h X Hh) as Hh'.
  apply app_eq_app in E as (l & [[E1 E2]|[E1 E2]]).
  - destruct l as [|w' l].
    + simpl in E2. symmetry in E2.
      by apply (IH _ Hh' [] w B E2).
    + simpl in E2. injection E2 as <- ->.
      apply elem_of_app. right.
      rewrite (levelorder_perm h _ Hh').
      apply list_elem_of_In, in_flat_map. apply list_elem_of_In, in_flat_map in Hd.
      destruct Hd as (k & Hk & Hd). exists k. split; [|done].
      apply in_flat_map. exists w. split; [|done].
      subst X. apply in_or_app. right. by left.
  - by apply (IH _ Hh' l w B E2).
Qed.

Lemma below_root t c :
  c ∈ addrs t -> c <> root t ->
  exists d, d ∈ flat_map preorder (kids_of t) /\ root d = c.
Proof.
  destruct t as [a v kids]. rewrite addrs_unfold. simpl.
  intros [->|Hc]%elem_of_cons Hne; [done|].
  unfold addrs in Hc. apply elem_of_flat_map_addrs in Hc as (k & Hk & Hc).
  apply list_elem_of_fmap in Hc as (d & -> & Hd). exists d. split; [|done].
  apply list_elem_of_In, in_flat_map. exists k. split; by apply list_elem_of_In.
Qed.

(** In the order of the pruning loop a node comes after the nodes below
    it. *)
Lemma bfs_children_first t :
  NoDup (addrs t) ->
  forall l1 a l2, rev (map root (bfs t)) = l1 ++ a :: l2 ->
    forall w, w ∈ preorder t -> root w = a ->
      forall c, c ∈ addrs w -> c <> a -> c ∈ l1.
Proof.
  intros Hnd l1 a l2 E w Hw Hroot c Hc Hne.
  apply (f_equal (@rev nat)) in E. rewrite rev_involutive, rev_app_distr in E.
  cbn [rev] in E. rewrite <- app_assoc in E. cbn [app] in E.
  apply fmap_app_inv in E as (A & B' & EA & EB & Ebfs).
  symmetry in EB. apply fmap_cons_inv in EB as (w' & B & Hw' & EB & ->).
  assert (w' = w).
  { apply (preorder_root_inj t); auto; [|congruence].
    apply bfs_preorder. rewrite Ebfs. apply elem_of_app. right. left. }
  subst w'.
  destruct (below_root w c Hc) as (d & Hd & <-); [congruence|].
  assert (HdB : d ∈ B).
  { eapply (levelorder_below (height t) [t]); [|exact Ebfs|exact Hd].
    by constructor. }
  apply elem_of_rev_1. rewrite EB. by apply list_elem_of_fmap_2.
Qed.

Lemma bfs_addrs t c : c ∈ addrs t <-> c ∈ rev (map root (bfs t)).
Proof.
  assert (P : rev (map root (bfs t)) ≡ₚ addrs t).
  { rewrite <- Permutation_rev. unfold addrs. by rewrite (bfs_perm t). }
  by rewrite P.
Qed.

(** The loop over a first part of the nodes, in the order of [filter]. *)
Lemma prune_pass_so_far keep t l0 rest :
  NoDup (addrs t) -> rev (map root (bfs t)) = l0 ++ rest ->
  prune_pass keep l0 t = prune_root_by (so_far keep l0) t.
Proof.
  intros Hnd E.
  assert (HndL : NoDup (l0 ++ rest)).
  { rewrite <- E, <- Permutation_rev. unfold addrs in Hnd. by rewrite (bfs_perm t). }
  apply NoDup_app in HndL as (Hnd0 & _ & _).
  rewrite <- (prune_root_by_all t (so_far keep [])) at 1
    by (intros c _; apply so_far_nil).
  rewrite (prune_pass_by keep t Hnd l0 []); auto.
  - intros a Ha. split; [|intros H; inversion H].
    apply bfs_addrs. rewrite E. apply elem_of_app. by left.
  - intros l1 a l2 -> w Hw Hroot c Hc Hne. right.
    rewrite <- app_assoc in E. cbn [app] in E.
    by eapply (bfs_children_first t Hnd l1 a (l2 ++ rest)).
  - intros w _ H. inversion H.
Qed.

(** The whole loop: a node below the root is taken out exactly when the
    predicate returned false on it and none of its children is kept. *)
Lemma prune_pass_bfs keep t :
  NoDup (addrs t) ->
  prune_pass keep (rev (map root (bfs t))) t = prune_root_by keep t.
Proof.
  intros Hnd.
  rewrite (prune_pass_so_far keep t _ [] Hnd) by (by rewrite app_nil_r).
  apply prune_root_by_ext. intros c Hc. apply so_far_all. by apply bfs_addrs.
Qed.

(** The loop looks at the verdicts on the nodes it goes through only. *)
Lemma prune_pass_ext keep keep' : forall l t,
  (forall c, c ∈ l -> keep c = keep' c) ->
  prune_pass keep l t = prune_pass keep' l t.
Proof.
  induction l as [|a l IH]; intros t H; [done|].
  cbn [prune_pass]. unfold prune_one. rewrite (H a) by left.
  apply IH. intros c Hc. apply H. by right.
Qed.

Lemma prune_pass_snoc keep l a t :
  prune_pass keep (l ++ [a]) t = prune_one keep a (prune_pass keep l t).
Proof. revert t. induction l as [|b l IH]; intros t; [done|]. simpl. apply IH. Qed.

Lemma remove_root t : NoDup (addrs t) -> remove (root t) t = t.
Proof.
  destruct t as [a v kids]. rewrite addrs_unfold. intros [Ha _]%NoDup_cons.
  rewrite remove_unfold. simpl. f_equal. by apply remove_forest_absent.
Qed.

(** What is kept below the root: nodes on which the predicate returned true,
    and nodes with a child that is kept. *)
Lemma prune_by_kept_nodes K : forall u u',
  prune_by K u = Some u' ->
  forall w, w ∈ preorder u' -> K (root w) = true \/ kids_of w <> [].
Proof.
  induction u as [a v kids IH] using ntree_ind'. intros u' Hpr w Hw.
  apply prune_by_Some in Hpr as [-> Hor].
  apply elem_of_preorder_inv in Hw as [->|(k' & Hk' & Hw)]; [exact Hor|].
  apply list_elem_of_omap in Hk' as (k & Hk & Hpk).
  rewrite Forall_forall in IH. by eapply (IH k).
Qed.

Lemma prune_root_by_kept_nodes K t w :
  w ∈ preorder (prune_root_by K t) -> root w <> root t ->
  K (root w) = true \/ kids_of w <> [].
Proof.
  destruct t as [a v kids]. rewrite prune_root_by_unfold. intros Hw Hne.
  apply elem_of_preorder_inv in Hw as [->|(k' & Hk' & Hw)]; [done|].
  apply list_elem_of_omap in Hk' as (k & Hk & Hpk).
  by eapply prune_by_kept_nodes.
Qed.

(** A node is dropped only with everything below it. *)
Lemma prune_by_keeps_above K : forall t t',
  NoDup (addrs t) -> prune_by K t = Some t' ->
  forall u d, u ∈ preorder t -> d ∈ preorder u ->
    root d ∈ addrs t' -> root u ∈ addrs t'.
Proof.
  induction t as [a v kids IH] using ntree_ind'. intros t' Hnd Hpr u d Hu Hd Hin.
  apply prune_by_Some in Hpr as [-> _].
  rewrite addrs_unfold in Hnd. apply NoDup_cons in Hnd as [Ha Hnd].
  apply elem_of_preorder_inv in Hu as [->|(k & Hk & Hu)].
  { rewrite addrs_unfold. left. }
  assert (Hdk : root d ∈ addrs k).
  { apply addrs_preorder. by eapply preorder_trans. }
  rewrite addrs_unfold in Hin. apply elem_of_cons in Hin as [E|Hin].
  { exfalso. apply Ha. rewrite <- E. apply elem_of_flat_map_addrs. eauto. }
  apply elem_of_flat_map_addrs in Hin as (k' & Hk' & Hin).
  apply list_elem_of_omap in Hk' as (k2 & Hk2 & Hpk2).
  assert (k2 = k).
  { pose proof (addrs_prune_by K k2 k' Hpk2 _ Hin) as Hd2.
    apply list_elem_of_split in Hk as (l1 & l2 & ->).
    rewrite flat_map_app, flat_map_cons in Hnd.
    apply NoDup_app in Hnd as (_ & Hd1 & Hnd).
    apply NoDup_app in Hnd as (_ & Hd3 & _).
    apply elem_of_app in Hk2 as [Hk2|Hk2].
    - exfalso. apply (Hd1 (root d)).
      + apply elem_of_flat_map_addrs. eauto.
      + apply elem_of_app. by left.
    - apply elem_of_cons in Hk2 as [->|Hk2]; [done|].
      exfalso. apply (Hd3 (root d)); [done|].
      apply elem_of_flat_map_addrs. eauto. }
  subst k2. rewrite addrs_unfold. right.
  apply elem_of_flat_map_addrs. exists k'. split.
  { apply list_elem_of_omap. eauto. }
  rewrite Forall_forall in IH. eapply (IH k); eauto.
  apply list_elem_of_split in Hk as (l1 & l2 & ->).
  rewrite flat_map_app, flat_map_cons in Hnd.
  apply NoDup_app in Hnd as (_ & _ & Hnd).
  by apply NoDup_app in Hnd as (? & _ & _).
Qed.

Lemma prune_root_by_keeps_above K t u d :
  NoDup (addrs t) -> u ∈ preorder t -> d ∈ preorder u ->
  root d ∈ addrs (prune_root_by K t) -> root u ∈ addrs (prune_root_by K t).
Proof.
  intros Hnd Hu Hd Hin.
  set (K' := fun c => if c =? root t then true else K c).
  assert (E : prune_root_by K t = prune_root_by K' t).
  { destruct t as [a v kids]. rewrite !prune_root_by_unfold. f_equal.
    apply omap_prune_by_ext. apply Forall_forall. intros k Hk.
    apply prune_by_ext. intros c Hc. unfold K'. simpl.
    destruct (Nat.eqb_spec c a) as [->|]; [|done].
    rewrite addrs_unfold in Hnd. apply NoDup_cons in Hnd as [Ha _].
    exfalso. apply Ha. apply elem_of_flat_map_addrs. eauto. }
  rewrite E in *.
  assert (Hp : prune_by K' t = Some (prune_root_by K' t)).
  { apply prune_root_by_kept. unfold K'. by rewrite Nat.eqb_refl. }
  by eapply (prune_by_keeps_above K' t _ Hnd Hp u d).
Qed.

(** A tree is kept when the predicate returned true on one of its nodes. *)
Lemma prune_by_None_iff K : forall u,
  prune_by K u = None <-> forall d, d ∈ preorder u -> K (root d) = false.
Proof.
  induction u as [a v kids IH] using ntree_ind'.
  rewrite prune_by_unfold. rewrite Forall_forall in IH. split.
  - intros H d Hd.
    destruct (K a) eqn:Ka; simpl in H; [discriminate|].
    destruct (omap (prune_by K) kids) as [|k' ks'] eqn:E; [|discriminate].
    apply elem_of_preorder_inv in Hd as [->|(k & Hk & Hd)]; [done|].
    apply (IH k Hk); [|done].
    destruct (prune_by K k) as [k0|] eqn:Ek; [|done].
    assert (Hin : k0 ∈ omap (prune_by K) kids) by (apply list_elem_of_omap; eauto).
    rewrite E in Hin. inversion Hin.
  - intros H. pose proof (H (NT a v kids) (root_in_preorder _)) as Ka.
    simpl in Ka. rewrite Ka. simpl.
    assert (E : omap (prune_by K) kids = []).
    { destruct (omap (prune_by K) kids) as [|k' ks'] eqn:E0; [done|]. exfalso.
      assert (Hk' : k' ∈ omap (prune_by K) kids) by (rewrite E0; left).
      apply list_elem_of_omap in Hk' as (k & Hk & Hpk).
      assert (Hn : prune_by K k = None).
      { apply (IH k Hk). intros d Hd. apply H.
        eapply elem_of_preorder_kid; eauto. }
      congruence. }
    by rewrite E.
Qed.

Lemma prune_by_Some_node K : forall u u',
  prune_by K u = Some u' -> exists d, d ∈ preorder u /\ K (root d) = true.
Proof.
  induction u as [a v kids IH] using ntree_ind'. intros u' H.
  apply prune_by_Some in H as [_ [Ka|Hne]].
  { exists (NT a v kids). split; [apply root_in_preorder|done]. }
  destruct (omap (prune_by K) kids) as [|k' ks'] eqn:E; [done|].
  assert (Hk' : k' ∈ omap (prune_by K) kids) by (rewrite E; left).
  apply list_elem_of_omap in Hk' as (k & Hk & Hpk).
  rewrite Forall_forall in IH. destruct (IH k Hk k' Hpk) as (d & Hd & Kd).
  exists d. split; [|done]. eapply elem_of_preorder_kid; eauto.
Qed.

Lemma disjoint_kids (l1 : list ntree) k l2 c :
  NoDup (flat_map addrs (l1 ++ k :: l2)) -> c ∈ addrs k ->
  forall k2, k2 ∈ l1 ++ k :: l2 -> c ∈ addrs k2 -> k2 = k.
Proof.
  intros Hnd Hc k2 Hk2 Hc2.
  rewrite flat_map_app, flat_map_cons in Hnd.
  apply NoDup_app in Hnd as (_ & Hd1 & Hnd).
  apply NoDup_app in Hnd as (_ & Hd3 & _).
  apply elem_of_app in Hk2 as [Hk2|Hk2].
  - exfalso. apply (Hd1 c).
    + apply elem_of_flat_map_addrs. eauto.
    + apply elem_of_app. by left.
  - apply elem_of_cons in Hk2 as [->|Hk2]; [done|].
    exfalso. apply (Hd3 c); [done|]. apply elem_of_flat_map_addrs. eauto.
Qed.

(** The nodes of the pruned tree are the nodes below which, or on which, the
    predicate returned true. *)
Lemma prune_by_in K : forall t,
  NoDup (addrs t) -> forall u, u ∈ preorder t ->
  match prune_by K t with
  | Some t' => root u ∈ addrs t' <-> prune_by K u <> None
  | None => prune_by K u = None
  end.
Proof.
  induction t as [a v kids IH] using ntree_ind'. intros Hnd u Hu.
  pose proof Hnd as Hnd0.
  rewrite addrs_unfold in Hnd. apply NoDup_cons in Hnd as [Ha Hnd].
  apply elem_of_preorder_inv in Hu as [->|(k & Hk & Hu)].
  { destruct (prune_by K (NT a v kids)) as [t'|] eqn:E; [|done].
    split; [done|]. intros _. apply prune_by_root in E. rewrite <- E.
    apply root_in_addrs. }
  assert (Huk : root u ∈ addrs k) by (by apply addrs_preorder).
  pose proof Hk as Hk0. apply list_elem_of_split in Hk as (l1 & l2 & Ekids).
  rewrite Ekids in Hnd.
  assert (Hndk : NoDup (addrs k)).
  { rewrite flat_map_app, flat_map_cons in Hnd.
    apply NoDup_app in Hnd as (_ & _ & Hnd). by apply NoDup_app in Hnd as (? & _ & _). }
  rewrite Forall_forall in IH. pose proof (IH k Hk0 Hndk u Hu) as IHk.
  destruct (prune_by K (NT a v kids)) as [t'|] eqn:E.
  - apply prune_by_Some in E as [-> _]. rewrite addrs_unfold. split.
    + intros [Hx|Hin]%elem_of_cons.
      { exfalso. apply Ha. rewrite <- Hx. apply elem_of_flat_map_addrs. eauto. }
      apply elem_of_flat_map_addrs in Hin as (k' & Hk' & Hin).
      apply list_elem_of_omap in Hk' as (k2 & Hk2 & Hpk2).
      assert (k2 = k).
      { rewrite Ekids in Hk2.
        eapply (disjoint_kids l1 k l2 (root u) Hnd Huk k2 Hk2).
        by eapply addrs_prune_by. }
      subst k2. rewrite Hpk2 in IHk. by apply IHk.
    + intros Hne. right. destruct (prune_by K k) as [k'|] eqn:Ek; [|done].
      apply elem_of_flat_map_addrs. exists k'. split; [|by apply IHk].
      apply list_elem_of_omap. eauto.
  - destruct (prune_by K k) as [k'|] eqn:Ek; [|done]. exfalso.
    rewrite prune_by_unfold in E.
    assert (Hin : k' ∈ omap (prune_by K) kids) by (apply list_elem_of_omap; eauto).
    destruct (omap (prune_by K) kids); [inversion Hin|].
    simpl in E. by rewrite andb_false_r in E.
Qed.

Lemma prune_root_by_in K t u :
  NoDup (addrs t) -> u ∈ preorder t -> root u <> root t ->
  (root u ∈ addrs (prune_root_by K t) <->
   exists d, d ∈ preorder u /\ K (root d) = true).
Proof.
  intros Hnd Hu Hne.
  set (K' := fun c => if c =? root t then true else K c).
  assert (Hext : forall c, c ∈ addrs u -> K' c = K c).
  { intros c Hc. unfold K'. destruct (Nat.eqb_spec c (root t)) as [->|]; [|done].
    exfalso. (* the root is not below itself *)
    apply list_elem_of_fmap in Hc as (d & Ed & Hd).
    assert (d = t).
    { apply (preorder_root_inj t); auto using root_in_preorder.
      by eapply preorder_trans. }
    subst d.
    destruct t as [a v kids]. apply elem_of_preorder_inv in Hu as [->|(k & Hk & Hu)]; [done|].
    rewrite addrs_unfold in Hnd. apply NoDup_cons in Hnd as [Ha _]. apply Ha.
    apply elem_of_flat_map_addrs. exists k. split; [done|].
    change a with (root (NT a v kids)). apply addrs_preorder.
    by eapply preorder_trans. }
  assert (E : prune_root_by K t = prune_root_by K' t).
  { destruct t as [a v kids]. rewrite !prune_root_by_unfold. f_equal.
    apply omap_prune_by_ext. apply Forall_forall. intros k Hk.
    apply prune_by_ext. intros c Hc. unfold K'. simpl.
    destruct (Nat.eqb_spec c a) as [->|]; [|done].
    rewrite addrs_unfold in Hnd. apply NoDup_cons in Hnd as [Ha _].
    exfalso. apply Ha. apply elem_of_flat_map_addrs. eauto. }
  rewrite E.
  pose proof (prune_by_in K' t Hnd u Hu) as H.
  rewrite (prune_root_by_kept K' t) in H by (unfold K'; by rewrite Nat.eqb_refl).
  rewrite H, (prune_by_ext K' K u Hext).
  split.
  - intros Hnn. destruct (prune_by K u) as [u'|] eqn:Eu; [|done].
    by eapply prune_by_Some_node.
  - intros (d & Hd & Kd) Hn.
    pose proof (proj1 (prune_by_None_iff K u) Hn d Hd). congruence.
Qed.

Lemma size_sub : forall t w, w ∈ preorder t -> size w <= size t.
Proof.
  induction t as [a v kids IH] using ntree_ind'. intros w Hw.
  apply elem_of_preorder_inv in Hw as [->|(k & Hk & Hw)]; [done|].
  rewrite Forall_forall in IH. pose proof (IH k Hk w Hw).
  pose proof (size_kid k (NT a v kids) Hk). lia.
Qed.

Lemma kid_not_root t w u :
  NoDup (addrs t) -> w ∈ preorder t -> u ∈ kids_of w -> root u <> root t.
Proof.
  intros Hnd Hw Hu E.
  assert (Hut : u ∈ preorder t).
  { eapply preorder_trans; [|exact Hw]. destruct w as [b v ks].
    eapply elem_of_preorder_kid; [exact Hu|apply root_in_preorder]. }
  assert (u = t) by (apply (preorder_root_inj t); auto using root_in_preorder).
  subst u. pose proof (size_kid _ _ Hu). pose proof (size_sub _ _ Hw). lia.
Qed.

Lemma children_only_insert s a pn cs :
  nodes s !! a = Some pn ->
  children_only s (mkStore (<[a:=set_children cs pn]> (nodes s)) (tasks s) (log s)).
Proof.
  intros Hpn. split_and!; auto.
  - simpl. apply length_insert.
  - intros b n Hb. simpl. destruct (decide (b = a)) as [->|Hne].
    + exists cs. rewrite list_lookup_insert_eq by (by eapply lookup_lt_Some).
      congruence.
    + exists (node_children n). rewrite list_lookup_insert_ne by done.
      by rewrite set_children_id.
Qed.

(** One step of the pruning loop on a node of a well-formed tree, when the
    predicate returns [b]: the step is [prune_one] on the tree. *)
Lemma prune_step_trace predicate s t u b :
  wf s t -> u ∈ preorder t -> predicate s (root u) = Val b ->
  (negb b && leaf_in (root u) t = false /\
   prune_step predicate (root u) s = (Val tt, s)) \/
  (negb b && leaf_in (root u) t = true /\ root u = root t /\ kids_of t = [] /\
   prune_step predicate (root u) s = (Exn TypeError, s)) \/
  (negb b && leaf_in (root u) t = true /\ root u <> root t /\
   exists s',
     prune_step predicate (root u) s = (Val tt, s') /\
     wf s' (remove (root u) t) /\
     children_only s s' /\
     (forall c, c ∉ addrs t -> nodes s' !! c = nodes s !! c) /\
     (forall c, c ∈ addrs t -> c <> root u -> c ∈ addrs (remove (root u) t))).
Proof.
  intros (Hr & Hl & Hnd & Hids) Hu Hb.
  destruct (repr_inv _ _ (repr_sub _ _ _ Hr Hu)) as (n & Hn & Hv & Hc & _).
  rewrite (prune_step_val _ _ _ _ _ Hb Hn).
  rewrite (leaf_in_spec (root u) t u Hnd Hu eq_refl).
  rewrite Hc, length_map.
  destruct (negb b && (length (kids_of u) =? 0)) eqn:Ed; [|by left].
  right. apply andb_prop in Ed as [_ Hleaf]. apply Nat.eqb_eq in Hleaf.
  assert (Hku : kids_of u = []) by (by destruct (kids_of u)).
  destruct (preorder_parent _ _ Hu) as [->|(w & i & Hw & Hi)].
  { left. split_and!; auto.
    destruct (linked_inv _ _ _ Hl) as (n' & Hn' & Hp & _).
    assert (n' = n) by congruence. subst n'. by rewrite Hp. }
  right.
  assert (Hukid : u ∈ kids_of w) by (apply list_elem_of_lookup; eauto).
  split; [done|]. split; [by eapply kid_not_root|].
  destruct (linked_sub _ _ _ _ Hl Hw) as (q & Hlw).
  destruct (linked_inv _ _ _ Hlw) as (pn & Hpn & _ & Hlk).
  destruct (repr_inv _ _ (repr_sub _ _ _ Hr Hw)) as (pn' & Hpn' & _ & Hcpn & Hrk).
  assert (pn' = pn) by congruence. subst pn'.
  rewrite Forall_forall in Hlk, Hrk.
  destruct (linked_inv _ _ _ (Hlk u Hukid)) as (n' & Hn' & Hp & _).
  assert (n' = n) by congruence. subst n'. rewrite Hp.
  pose proof Hukid as Hsplit. apply list_elem_of_split in Hsplit as (l1 & l2 & Hkw).
  destruct (sibling_ids_sub _ _ Hids Hw) as [Hndw _]. rewrite Hkw in Hndw.
  rewrite (bind_val _ _ _ _ _ (getNode_val _ _ _ Hpn)).
  unfold bind at 1. rewrite Hcpn.
  rewrite (filterM_ids s (node_id n) (kids_of w)).
  2:{ apply Forall_forall. intros k Hk. apply repr_has_id. by apply Hrk. }
  rewrite <- (view_of_id _ _ _ Hv), Hkw.
  pose proof (filter_remove_id (fun k => view_id (view k)) l1 u l2 Hndw) as E.
  simpl in E. rewrite E. clear E.
  rewrite (modNode_val _ _ _ _ Hpn).
  destruct (remove_leaf_spec s w l1 u l2 pn Hkw Hku Hpn t None Hr Hl Hnd Hw)
    as (Hr' & Hl' & Hin').
  eexists. split; [reflexivity|]. split_and!; auto.
  - split_and!; auto.
    + eapply sublist_NoDup; [exact Hnd|apply addrs_remove_sublist].
    + by apply sibling_ids_remove.
  - by apply children_only_insert.
  - intros c Hcin. simpl. apply list_lookup_insert_ne. intros <-.
    apply Hcin. by apply addrs_preorder.
Qed.

Lemma children_only_outside s s' s'' (t t' : ntree) :
  (forall c, c ∉ addrs t -> nodes s' !! c = nodes s !! c) ->
  (forall c, c ∉ addrs t' -> nodes s'' !! c = nodes s' !! c) ->
  (forall c, c ∈ addrs t' -> c ∈ addrs t) ->
  forall c, c ∉ addrs t -> nodes s'' !! c = nodes s !! c.
Proof. intros H1 H2 Hsub c Hc. rewrite H2, H1; auto. Qed.

(** The pruning loop of [filter] on distinct nodes of a well-formed tree,
    for a predicate that returns or throws: it goes through a first part
    [l0] of the nodes, on which the predicate returns the verdicts [keep],
    and it is [prune_pass] on the tree; it ends with the nodes, or at the
    root when the root is to be taken out, or at the first node on which the
    predicate throws. *)
Lemma forEach_prune_trace predicate : forall l s t,
  returns_or_throws predicate ->
  wf s t -> NoDup l -> (forall a, a ∈ l -> a ∈ addrs t) ->
  exists keep l0 rest r s',
    l = l0 ++ rest /\
    forEach (prune_step predicate) l s = (r, s') /\
    wf s' (prune_pass keep l0 t) /\
    children_only s s' /\
    (forall c, c ∉ addrs t -> nodes s' !! c = nodes s !! c) /\
    (forall c, c ∈ addrs (prune_pass keep l0 t) -> c ∈ addrs t) /\
    (forall l1 a l2, l0 = l1 ++ a :: l2 ->
       exists s_a,
         forEach (prune_step predicate) l1 s = (Val tt, s_a) /\
         wf s_a (prune_pass keep l1 t) /\ children_only s s_a /\
         (forall c, c ∉ addrs t -> nodes s_a !! c = nodes s !! c) /\
         predicate s_a a = Val (keep a)) /\
    ((r = Val tt /\ rest = [] /\
      forall l1 l2, l0 = l1 ++ root t :: l2 ->
        keep (root t) = true \/ kids_of (prune_pass keep l1 t) <> []) \/
     (r = Exn TypeError /\
      (exists l1, l0 = l1 ++ [root t]) /\ keep (root t) = false /\
      kids_of (prune_pass keep l0 t) = []) \/
     (exists a l3 e,
        r = Exn e /\ rest = a :: l3 /\ a ∈ addrs (prune_pass keep l0 t) /\
        forEach (prune_step predicate) l0 s = (Val tt, s') /\
        predicate s' a = Exn e)).
Proof.
  induction l as [|a l IH]; intros s t Hpred Hwf Hnd Hl.
  { exists (fun _ => true), [], [], (Val tt), s. split_and!; auto.
    - apply children_only_refl.
    - intros l1 a l2 E. by destruct l1. }
  apply NoDup_cons in Hnd as [Ha Hnd].
  assert (Hat : a ∈ addrs t) by (apply Hl; left).
  apply list_elem_of_fmap in Hat as (u & -> & Hu).
  pose proof Hwf as (Hr & _ & Hndt & _).
  destruct (repr_inv _ _ (repr_sub _ _ _ Hr Hu)) as (n & Hn & Hv & _).
  cbn [forEach]. unfold bind at 1.
  destruct (Hpred s (root u) n (view u) Hn Hv) as [[b Hb]|[e He]].
  2:{ (* the predicate throws on this node *)
      rewrite (prune_step_exn _ _ _ _ He).
      exists (fun _ => true), [], (root u :: l), (Exn e), s. split_and!; auto.
      - apply children_only_refl.
      - intros l1 a l2 E. by destruct l1.
      - right. right. exists (root u), l, e. split_and!; auto.
        by apply addrs_preorder. }
  destruct (prune_step_trace predicate s t u b Hwf Hu Hb)
    as [[Hd E]|[(Hd & Hroot & Hk & E)|(Hd & Hroot & s1 & E & Hwf1 & Hco1 & Hout1 & Hin1)]];
    rewrite E.
  - (* the node stays *)
    destruct (IH s t Hpred Hwf Hnd)
      as (keep & l0 & rest & r & s' & -> & Hrun & Hwf' & Hco & Hout & Hsub & Hlink & Hres).
    { intros c Hc. apply Hl. by right. }
    set (keep' := fun c => if c =? root u then b else keep c).
    assert (Hext : forall l1 x, (forall c, c ∈ l1 -> c ∈ l0 ++ rest) ->
              prune_pass keep' l1 x = prune_pass keep l1 x).
    { intros l1 x Hl1. apply prune_pass_ext. intros c Hc. unfold keep'.
      destruct (Nat.eqb_spec c (root u)) as [->|]; [|done].
      exfalso. apply Ha. by apply Hl1. }
    assert (Hone : prune_one keep' (root u) t = t).
    { unfold prune_one, keep'. by rewrite Nat.eqb_refl, Hd. }
    assert (Hpass : prune_pass keep' (root u :: l0) t = prune_pass keep l0 t).
    { cbn [prune_pass]. rewrite Hone. apply Hext.
      intros c Hc. apply elem_of_app. by left. }
    exists keep', (root u :: l0), rest, r, s'. rewrite Hpass. split_and!; auto.
    + intros l1 a l2 El. destruct l1 as [|x l1].
      * injection El as <- <-. exists s. split_and!; auto.
        -- apply children_only_refl.
        -- unfold keep'. by rewrite Nat.eqb_refl.
      * injection El as <- ->.
        destruct (Hlink l1 a l2 eq_refl) as (s_a & Hra & Hwa & Hca & Hoa & Hpa).
        exists s_a. cbn [prune_pass]. rewrite Hone.
        rewrite Hext by (intros c Hc; rewrite <- app_assoc; apply elem_of_app; by left).
        split_and!; auto.
        { cbn [forEach]. unfold bind at 1. by rewrite E. }
        unfold keep'.
        destruct (Nat.eqb_spec a (root u)) as [->|]; [|done].
        exfalso. apply Ha. apply elem_of_app. left. apply elem_of_app. right. left.
    + destruct Hres as [(-> & -> & Hrf)|[(-> & (l1 & ->) & Hkr & Hkk)|
                        (a3 & l3 & e3 & ? & ? & ? & Hrun3 & ?)]];
        [left|right; left|
         right; right; exists a3, l3, e3; split_and!; auto;
         cbn [forEach]; unfold bind at 1; by rewrite E].
      * split_and!; auto. intros l1 l2 El. destruct l1 as [|x l1].
        -- injection El as Eu <-. unfold keep'. rewrite <- Eu, Nat.eqb_refl.
           destruct b; [by left|right]. simpl in Hd.
           rewrite Eu in Hd. destruct t as [c v ks]. rewrite leaf_in_unfold in Hd.
           simpl in Hd. rewrite Nat.eqb_refl in Hd. by destruct ks.
        -- injection El as <- ->.
           cbn [prune_pass]. rewrite Hone.
           rewrite Hext by (intros c Hc; apply elem_of_app; left;
                            apply elem_of_app; by left).
           destruct (Hrf l1 l2 eq_refl) as [Hk|Hk]; [left|by right].
           unfold keep'. destruct (Nat.eqb_spec (root t) (root u)) as [E'|]; [|done].
           exfalso. apply Ha. rewrite <- E'. apply elem_of_app. left.
           apply elem_of_app. right. left.
      * split_and!; auto.
        -- exists (root u :: l1). done.
        -- unfold keep'. destruct (Nat.eqb_spec (root t) (root u)) as [E'|]; [|done].
           exfalso. apply Ha. rewrite <- E'. apply elem_of_app. left.
           apply elem_of_app. right. left.
  - (* the node is the root, to be taken out: its parent is undefined *)
    set (keep' := fun c => if c =? root u then b else true).
    assert (Hb' : b = false) by (by destruct b).
    assert (Hone : prune_one keep' (root u) t = t).
    { unfold prune_one, keep'. rewrite Nat.eqb_refl, Hd, Hroot.
      by apply remove_root. }
    exists keep', [root u], l, (Exn TypeError), s.
    cbn [prune_pass]. rewrite Hone. split_and!; auto.
    + apply children_only_refl.
    + intros l1 a l2 El. destruct l1 as [|x l1].
      * injection El as <- <-. exists s. split_and!; auto.
        -- apply children_only_refl.
        -- unfold keep'. by rewrite Nat.eqb_refl.
      * injection El as _ El. by destruct l1.
    + right. left. split_and!; auto.
      * exists []. by rewrite Hroot.
      * unfold keep'. rewrite <- Hroot, Nat.eqb_refl. done.
  - (* the node is taken out *)
    assert (Hsub1 : forall c, c ∈ addrs (remove (root u) t) -> c ∈ addrs t).
    { intros c Hc. eapply elem_of_sublist; [exact Hc|apply addrs_remove_sublist]. }
    destruct (IH s1 (remove (root u) t) Hpred Hwf1 Hnd)
      as (keep & l0 & rest & r & s' & -> & Hrun & Hwf' & Hco & Hout & Hsub & Hlink & Hres).
    { intros c Hc. apply Hin1; [apply Hl; by right|]. intros ->. done. }
    set (keep' := fun c => if c =? root u then b else keep c).
    assert (Hext : forall l1 x, (forall c, c ∈ l1 -> c ∈ l0 ++ rest) ->
              prune_pass keep' l1 x = prune_pass keep l1 x).
    { intros l1 x Hl1. apply prune_pass_ext. intros c Hc. unfold keep'.
      destruct (Nat.eqb_spec c (root u)) as [->|]; [|done].
      exfalso. apply Ha. by apply Hl1. }
    assert (Hone : prune_one keep' (root u) t = remove (root u) t).
    { unfold prune_one, keep'. by rewrite Nat.eqb_refl, Hd. }
    assert (Hpass : prune_pass keep' (root u :: l0) t =
                    prune_pass keep l0 (remove (root u) t)).
    { cbn [prune_pass]. rewrite Hone. apply Hext.
      intros c Hc. apply elem_of_app. by left. }
    assert (Hroot1 : root (remove (root u) t) = root t) by apply root_remove.
    exists keep', (root u :: l0), rest, r, s'. rewrite Hpass. split_and!; auto.
    + by eapply children_only_trans.
    + intros c Hc. rewrite Hout, Hout1; auto.
    + intros l1 a l2 El. destruct l1 as [|x l1].
      * injection El as <- <-. exists s. split_and!; auto.
        -- apply children_only_refl.
        -- unfold keep'. by rewrite Nat.eqb_refl.
      * injection El as <- ->.
        destruct (Hlink l1 a l2 eq_refl) as (s_a & Hra & Hwa & Hca & Hoa & Hpa).
        exists s_a. cbn [prune_pass]. rewrite Hone.
        rewrite Hext by (intros c Hc; rewrite <- app_assoc; apply elem_of_app; by left).
        split_and!; auto.
        -- cbn [forEach]. unfold bind at 1. by rewrite E.
        -- by eapply children_only_trans.
        -- intros c Hc. rewrite Hoa, Hout1; auto.
        -- unfold keep'.
           destruct (Nat.eqb_spec a (root u)) as [->|]; [|done].
           exfalso. apply Ha. apply elem_of_app. left. apply elem_of_app. right. left.
    + destruct Hres as [(-> & -> & Hrf)|[(-> & (l1 & ->) & Hkr & Hkk)|
                        (a3 & l3 & e3 & ? & ? & ? & Hrun3 & ?)]];
        [left|right; left|
         right; right; exists a3, l3, e3; split_and!; auto;
         cbn [forEach]; unfold bind at 1; by rewrite E].
      * split_and!; auto. intros l1 l2 El. destruct l1 as [|x l1].
        -- injection El as Eu <-. congruence.
        -- injection El as <- ->.
           cbn [prune_pass]. rewrite Hone.
           rewrite Hext by (intros c Hc; apply elem_of_app; left;
                            apply elem_of_app; by left).
           rewrite Hroot1 in Hrf.
           destruct (Hrf l1 l2 eq_refl) as [Hk|Hk]; [left|by right].
           unfold keep'. destruct (Nat.eqb_spec (root t) (root u)) as [E'|]; [|done].
           congruence.
      * rewrite Hroot1 in *. split_and!; auto.
        -- exists (root u :: l1). done.
        -- unfold keep'. destruct (Nat.eqb_spec (root t) (root u)) as [E'|]; [|done].
           congruence.
Qed.

Lemma root_prune_pass keep : forall l t, root (prune_pass keep l t) = root t.
Proof.
  induction l as [|a l IH]; intros t; [done|].
  cbn [prune_pass]. rewrite IH. unfold prune_one.
  destruct (negb (keep a) && _); [apply root_remove|done].
Qed.

Lemma bfs_root_last t :
  exists X, rev (map root (bfs t)) = X ++ [root t].
Proof.
  destruct (bfs_unfold t) as (h & E & _). rewrite E. simpl. eauto.
Qed.

Lemma snoc_last_NoDup {A} (X : list A) r l1 l3 :
  NoDup (X ++ [r]) -> X ++ [r] = l1 ++ r :: l3 -> l3 = [].
Proof.
  intros Hnd E. destruct l3 as [|y l3] using rev_ind; [done|]. exfalso. clear IHl3.
  change (l1 ++ r :: l3 ++ [y]) with (l1 ++ (r :: l3) ++ [y]) in E.
  rewrite app_assoc in E. apply app_inj_tail in E as [-> <-].
  apply NoDup_app in Hnd as (_ & Hd & _). apply (Hd r).
  - apply elem_of_app. right. left.
  - left.
Qed.

Lemma preorder_unline : forall t, preorder (unline t) = map unline (preorder t).
Proof.
  induction t as [a v kids IH] using ntree_ind'. simpl. f_equal.
  induction IH as [|k kids Hk _ IHk]; [done|]. simpl.
  by rewrite map_app, Hk, IHk.
Qed.

Lemma root_unline t : root (unline t) = root t.
Proof. by destruct t. Qed.

Lemma addrs_unline t : addrs (unline t) = addrs t.
Proof.
  unfold addrs. rewrite preorder_unline, map_map. apply map_ext. apply root_unline.
Qed.

Lemma kids_unline t : kids_of (unline t) = map unline (kids_of t).
Proof. by destruct t. Qed.

(** Trees that differ in line numbers only have the same nodes, with the
    same number of children. *)
Lemma unline_nodes t t' w :
  unline t' = unline t -> w ∈ preorder t' ->
  exists w0, w0 ∈ preorder t /\ root w0 = root w /\
             (kids_of w0 = [] <-> kids_of w = []).
Proof.
  intros E Hw.
  assert (Hin : unline w ∈ preorder (unline t)).
  { rewrite <- E, preorder_unline. by apply list_elem_of_fmap_2. }
  rewrite preorder_unline in Hin. apply list_elem_of_fmap in Hin as (w0 & E0 & Hw0).
  exists w0. split; [done|]. split.
  - by rewrite <- (root_unline w0), <- E0, root_unline.
  - pose proof (kids_unline w0) as K0. pose proof (kids_unline w) as K.
    rewrite <- E0, K in K0. split; intros H; rewrite H in K0.
    + destruct (kids_of w); [done|discriminate].
    + destruct (kids_of w0); [done|discriminate].
Qed.

(** [filter] with any predicate that returns or throws.  The loop goes
    through a first part [l0] of the nodes of the clone, in the reverse of
    the breadth-first order; on each of them the predicate is called in the
    store of that moment, where the tree is the clone after the steps before,
    and returns the verdict [keep]; the loop is [prune_pass] on the tree.
    When no node is left and the root can stay, the lines are written anew.
    When the root is to be taken out, reading the children of its missing
    parent throws; when the predicate throws on the next node, the loop ends
    there; both times the error is logged and the tree is returned as the
    loop left it. *)
Lemma Node_filter_trace fuel predicate s t :
  returns_or_throws predicate ->
  repr s t -> sibling_ids t -> size t <= fuel ->
  exists t1 s1 keep l0 rest s' t',
    clone fuel [root t] None s = (Val [root t1], s1) /\
    wf s1 t1 /\ anon t1 = anon t /\
    (forall a, a ∈ addrs t1 -> length (nodes s) <= a < length (nodes s1)) /\
    rev (map root (bfs t1)) = l0 ++ rest /\
    (forall l1 a l2, l0 = l1 ++ a :: l2 ->
       exists s_a,
         forEach (prune_step predicate) l1 s1 = (Val tt, s_a) /\
         wf s_a (prune_pass keep l1 t1) /\ children_only s1 s_a /\
         predicate s_a a = Val (keep a)) /\
    Node_filter fuel predicate (root t) s = (Val (root t'), s') /\
    root t' = root t1 /\ repr s' t' /\ linked s' None t' /\
    (forall a, a ∈ addrs t' -> a ∈ addrs t1) /\
    nodes s `prefix_of` nodes s' /\ tasks s `prefix_of` tasks s' /\
    ((rest = [] /\ log s' = log s /\
      unline t' = unline (prune_pass keep l0 t1) /\
      (keep (root t1) = true \/ kids_of t' <> []) /\
      lines_below t' = map Z.of_nat (seq 1 (length (lines_below t')))) \/
     (rest = [] /\ log s' = log s ++ [TypeError] /\
      t' = prune_pass keep l0 t1 /\ keep (root t1) = false /\ kids_of t' = []) \/
     (exists a l3 e s2,
        rest = a :: l3 /\ log s' = log s ++ [e] /\
        t' = prune_pass keep l0 t1 /\ a ∈ addrs t' /\
        forEach (prune_step predicate) l0 s1 = (Val tt, s2) /\
        repr s2 t' /\ children_only s1 s2 /\
        s' = mkStore (nodes s2) (tasks s2) (log s2 ++ [e]) /\
        predicate s2 a = Exn e)).
Proof.
  intros Hpred Hr Hids Hsz.
  pose proof (height_le_size t) as Hhs.
  destruct (clone_one fuel s t Hr) as (t1 & s1 & Hcl & He & Hr1 & Hl1 & Ha & Hrg & Hnd & _);
    [lia|].
  assert (Hids1 : sibling_ids t1).
  { apply sibling_ids_anon. rewrite Ha. by apply anon_sibling_ids. }
  assert (Hsz1 : size t1 <= fuel).
  { rewrite <- size_anon, Ha, size_anon. done. }
  assert (Hwf1 : wf s1 t1) by (by split_and!).
  pose proof (height_le_size t1) as Hhs1.
  assert (Hbfs : bfs_loop fuel [root t1] [] s1 = (Val (map root (bfs t1)), s1)).
  { apply (bfs_loop_spec s1 (height t1) [t1] fuel []).
    - by constructor.
    - by constructor.
    - unfold fsize. simpl. lia. }
  destruct (forEach_prune_trace predicate (rev (map root (bfs t1))) s1 t1 Hpred Hwf1)
    as (keep & l0 & rest & r & s2 & EL & Hrun & Hwf2 & Hco2 & Hout2 & Hsub2 & Hlink & Hres).
  { by apply rev_bfs_NoDup. }
  { intros a Hin. by apply bfs_addrs. }
  set (t2 := prune_pass keep l0 t1) in *.
  destruct Hwf2 as (Hr2 & Hlk2 & Hnd2 & Hids2).
  destruct Hco2 as (Ht2 & Hlog2 & Hlen2 & Hch2).
  assert (Hroot2 : root t2 = root t1) by apply root_prune_pass.
  assert (Hpre : nodes s `prefix_of` nodes s2).
  { apply prefix_of_lookup. intros i x Hi.
    rewrite Hout2.
    - eapply extends_node; eauto.
    - intros Hin. apply Hrg in Hin. apply lookup_lt_Some in Hi. lia. }
  destruct He as (_ & Hpt & Hlog1).
  assert (Hsz2 : size t2 <= size t1).
  { rewrite <- !length_preorder.
    assert (Hsl : addrs t2 ⊆+ addrs t1).
    { apply NoDup_submseteq; [done|]. intros c Hc. by apply Hsub2. }
    apply submseteq_length in Hsl. unfold addrs in Hsl. by rewrite !length_map in Hsl. }
  exists t1, s1, keep, l0, rest.
  rewrite Node_filter_eq. unfold bind at 1. rewrite Hcl.
  unfold bind at 1. unfold try_catch.
  rewrite (filter_try_unfold fuel predicate (root t1) s1 _ Hbfs).
  unfold bind at 1. rewrite Hrun.
  assert (Hlink' : forall l1 a l2, l0 = l1 ++ a :: l2 ->
            exists s_a, forEach (prune_step predicate) l1 s1 = (Val tt, s_a) /\
                        wf s_a (prune_pass keep l1 t1) /\ children_only s1 s_a /\
                        predicate s_a a = Val (keep a)).
  { intros l1 a l2 E. destruct (Hlink l1 a l2 E) as (s_a & ? & ? & ? & _ & ?). eauto. }
  destruct Hres as [(-> & -> & Hrf)|[(-> & (l1 & El0) & Hkr & Hkk)|(a & l3 & e & -> & -> & Hat & Hrun0 & Hex)]].
  - (* the loop has gone through all nodes *)
    destruct (renumber_tail fuel s2 t2 Hr2 Hlk2 Hnd2)
      as (s3 & t3 & Hrn & Ht3 & Hl3 & Hlen3 & Hout3 & Hroot3 & Hr3 & Hlk3 & Hnd3 &
          Hsub3 & Hun3 & Hlines).
    { pose proof (height_le_size t2). lia. }
    rewrite <- Hroot2. rewrite Hrn.
    exists s3, t3. split_and!; auto; try congruence.
    + unfold ret. by rewrite Hroot3.
    + apply prefix_of_lookup. intros i x Hi. rewrite Hout3.
      * by eapply prefix_lookup_Some.
      * intros Hin. apply Hsub2, Hrg in Hin. apply lookup_lt_Some in Hi. lia.
    + left. split_and!; auto; [congruence|]. rewrite Hroot2.
      destruct (bfs_root_last t1) as (X & EX).
      rewrite app_nil_r in EL. rewrite EX in EL.
      destruct (Hrf X [] (eq_sym EL)) as [?|Hk]; [by left|right].
      destruct (Hlink X (root t1) [] (eq_sym EL)) as (s_a & _ & (_ & _ & HndX & _) & _).
      assert (Ek : kids_of t2 = kids_of (prune_pass keep X t1)).
      { unfold t2. rewrite <- EL, prune_pass_snoc. unfold prune_one.
        destruct (negb (keep (root t1)) && _); [|done].
        rewrite <- (root_prune_pass keep X t1) at 1. by rewrite remove_root. }
      intros E3. apply Hk. rewrite <- Ek.
      pose proof (kids_unline t3) as K3. rewrite Hun3, kids_unline, E3 in K3.
      by destruct (kids_of t2).
  - (* the root is to be taken out *)
    assert (rest = []).
    { destruct (bfs_root_last t1) as (X & EX).
      pose proof (rev_bfs_NoDup t1 Hnd) as HndL. rewrite EX in HndL.
      rewrite EX, El0, <- app_assoc in EL. cbn [app] in EL.
      destruct rest as [|y rest]; [done|].
      apply (f_equal (@length nat)) in EL as Hlen.
      pose proof (snoc_last_NoDup X (root t1) l1 (y :: rest) HndL EL). done. }
    subst rest.
    exists (mkStore (nodes s2) (tasks s2) (log s2 ++ [TypeError])), t2.
    split_and!; auto.
    + unfold Log_w, ret. by rewrite Hroot2.
    + by apply repr_log.
    + by apply linked_log.
    + simpl. by rewrite Ht2.
    + right. left. simpl. split_and!; auto. congruence.
  - (* the predicate throws *)
    exists (mkStore (nodes s2) (tasks s2) (log s2 ++ [e])), t2.
    split_and!; auto.
    + unfold Log_w, ret. by rewrite Hroot2.
    + by apply repr_log.
    + by apply linked_log.
    + simpl. by rewrite Ht2.
    + right. right. exists a, l3, e, s2. simpl. split_and!; auto.
      * congruence.
      * by split_and!.
Qed.

Lemma repr_prefix s s' t :
  repr s t -> nodes s `prefix_of` nodes s' -> tasks s `prefix_of` tasks s' ->
  repr s' t.
Proof.
  intros Hr Hn Ht. eapply repr_agree; [exact Hr| |exact Ht].
  intros a Ha. apply list_elem_of_fmap in Ha as (u & -> & Hu).
  destruct (repr_nodes _ _ _ Hr Hu) as [x Hx]. rewrite Hx.
  by eapply prefix_lookup_Some.
Qed.

(** Taking nodes out leaves the other nodes with their content and their
    lines. *)
Lemma remove_views a : forall t w,
  w ∈ preorder (remove a t) ->
  exists w1, w1 ∈ preorder t /\ root w1 = root w /\ view w1 = view w.
Proof.
  induction t as [b v kids IH] using ntree_ind'. intros w Hw.
  rewrite remove_unfold in Hw.
  apply elem_of_preorder_inv in Hw as [->|(k' & Hk' & Hw)].
  { exists (NT b v kids). split; [apply root_in_preorder|done]. }
  apply list_elem_of_In, filter_In in Hk' as [Hk' _].
  apply list_elem_of_In, list_elem_of_fmap in Hk' as (k & -> & Hk).
  rewrite Forall_forall in IH. destruct (IH k Hk w Hw) as (w1 & Hw1 & ? & ?).
  exists w1. split; [|done]. eapply elem_of_preorder_kid; eauto.
Qed.

Lemma prune_pass_views keep : forall l t w,
  w ∈ preorder (prune_pass keep l t) ->
  exists w1, w1 ∈ preorder t /\ root w1 = root w /\ view w1 = view w.
Proof.
  induction l as [|a l IH]; intros t w Hw; [by exists w|].
  cbn [prune_pass] in Hw. destruct (IH _ w Hw) as (w1 & Hw1 & E1 & E2).
  unfold prune_one in Hw1. destruct (negb (keep a) && _).
  - destruct (remove_views a t w1 Hw1) as (w2 & Hw2 & E3 & E4).
    exists w2. split; [done|]. split; congruence.
  - by exists w1.
Qed.

(** The nodes the loop has not come to are in the tree: the loop takes out
    a node after the nodes below it. *)
Lemma prune_pass_rest keep t l0 rest c :
  NoDup (addrs t) -> rev (map root (bfs t)) = l0 ++ rest -> c ∈ rest ->
  c ∈ addrs (prune_pass keep l0 t).
Proof.
  intros Hnd EL Hc.
  rewrite (prune_pass_so_far keep t l0 rest Hnd EL).
  assert (Hin : c ∈ addrs t).
  { apply bfs_addrs. rewrite EL. apply elem_of_app. by right. }
  assert (Hout : c ∉ l0).
  { pose proof (rev_bfs_NoDup t Hnd) as Hd. rewrite EL in Hd.
    apply NoDup_app in Hd as (_ & Hd & _). intros H0. by apply (Hd c). }
  apply list_elem_of_fmap in Hin as (u & -> & Hu).
  destruct (decide (root u = root t)) as [E|Hne].
  - rewrite E. destruct t as [a v kids]. rewrite prune_root_by_unfold.
    rewrite addrs_unfold. by left.
  - apply (prune_root_by_in _ t u Hnd Hu Hne).
    exists u. split; [apply root_in_preorder|].
    unfold so_far. rewrite bool_decide_eq_false_2 by done. apply orb_true_r.
Qed.

(** A predicate on the content of a node gives on a node of the clone what
    it gives on its content, whatever the loop has done to the children
    lists. *)
Lemma on_view_children_only Q s1 s_a t1 u :
  repr s1 t1 -> u ∈ preorder t1 -> children_only s1 s_a ->
  on_view Q s_a (root u) =
  match Q (view u) with Some b => Val b | None => Exn Thrown end.
Proof.
  intros Hr Hu (Ht & _ & _ & Hch).
  destruct (repr_inv _ _ (repr_sub _ _ _ Hr Hu)) as (n & Hn & Hv & _).
  destruct (Hch _ _ Hn) as (cs & Hn').
  unfold on_view. rewrite Hn', view_of_set_children.
  by rewrite (view_of_tasks_eq s1 s_a n Ht), Hv.
Qed.

(** [filter] with a predicate on the content of a node that throws on some
    node: where the loop stops and what it leaves. *)
Lemma Node_filter_stops fuel Q s t :
  repr s t -> sibling_ids t -> size t <= fuel ->
  (exists u, u ∈ bfs t /\ Q (view u) = None) ->
  exists t1 s1 s' keep l0 a l3 u_a s2,
    clone fuel [root t] None s = (Val [root t1], s1) /\
    Node_filter fuel (on_view Q) (root t) s = (Val (root t1), s') /\
    log s' = log s ++ [Thrown] /\
    nodes s `prefix_of` nodes s' /\ tasks s `prefix_of` tasks s' /\
    length (nodes s') = length (nodes s1) /\
    (forall c n, nodes s1 !! c = Some n ->
                 exists cs, nodes s' !! c = Some (set_children cs n)) /\
    repr s1 t1 /\ anon t1 = anon t /\
    rev (map root (bfs t1)) = l0 ++ a :: l3 /\
    (forall u, u ∈ preorder t1 -> root u ∈ l0 -> Q (view u) = Some (keep (root u))) /\
    u_a ∈ preorder t1 /\ root u_a = a /\ Q (view u_a) = None /\
    forEach (prune_step (on_view Q)) l0 s1 = (Val tt, s2) /\
    s' = mkStore (nodes s2) (tasks s2) (log s2 ++ [Thrown]) /\
    repr s' (prune_pass keep l0 t1) /\
    (forall c, c ∈ a :: l3 -> c ∈ addrs (prune_pass keep l0 t1)) /\
    (forall w, w ∈ preorder (prune_pass keep l0 t1) ->
       exists w1, w1 ∈ preorder t1 /\ root w1 = root w /\ view w1 = view w).
Proof.
  intros Hr Hids Hsz (u & Hu & HQ).
  destruct (Node_filter_trace fuel (on_view Q) s t (on_view_returns_or_throws Q)
              Hr Hids Hsz)
    as (t1 & s1 & keep & l0 & rest & s' & t' & Hcl & Hwf1 & Ha & Hrg & EL & Hlink &
        Hrun & Hroot & Hr' & Hl' & Hsub & Hpn & Hpt & Hres).
  destruct Hwf1 as (Hr1 & _ & Hnd1 & _).
  assert (Hverdict : forall w, w ∈ preorder t1 -> root w ∈ l0 ->
            Q (view w) = Some (keep (root w))).
  { intros w Hw Hin. apply list_elem_of_split in Hin as (l1 & l2 & E).
    destruct (Hlink l1 (root w) l2 E) as (s_a & _ & _ & Hco & Hp).
    rewrite (on_view_children_only Q s1 s_a t1 w Hr1 Hw Hco) in Hp.
    destruct (Q (view w)); [by injection Hp as ->|discriminate]. }
  destruct (bfs_views_elem t t1 u (eq_sym Ha) Hu) as (u1 & Hu1 & Hv1).
  apply bfs_preorder in Hu1.
  assert (Hall : rest = [] -> False).
  { intros ->. rewrite app_nil_r in EL.
    assert (Hin : root u1 ∈ l0).
    { rewrite <- EL. apply bfs_addrs. by apply addrs_preorder. }
    pose proof (Hverdict u1 Hu1 Hin) as E. rewrite Hv1, HQ in E. discriminate. }
  destruct Hres as [(-> & _)|[(-> & _)|
      (a & l3 & e & s2 & -> & Hlog & -> & Hat & Hrun0 & Hr2 & Hco & -> & Hex)]];
    try (by destruct Hall).
  assert (Hat1 : a ∈ addrs t1) by (by apply Hsub).
  apply list_elem_of_fmap in Hat1 as (u_a & -> & Hua).
  rewrite (on_view_children_only Q s1 s2 t1 u_a Hr1 Hua Hco) in Hex.
  destruct (Q (view u_a)) eqn:HQa; [discriminate|]. injection Hex as <-.
  destruct Hco as (Ht2 & Hl2 & Hlen2 & Hch2).
  exists t1, s1, (mkStore (nodes s2) (tasks s2) (log s2 ++ [Thrown])),
         keep, l0, (root u_a), l3, u_a, s2.
  split_and!; auto.
  - by rewrite <- Hroot.
  - intros c Hc. by eapply prune_pass_rest.
  - apply prune_pass_views.
Qed.

(** C1, counterexample: filtering a tree that is a single root with a
    predicate that holds nowhere returns the clone of that root: a retained
    node that does not satisfy the predicate and has no descendant.  The
    [TypeError] of its missing parent was caught and logged. *)
Lemma filter_keeps_unmatched_childless_root :
  exists s' n v,
    Node_filter 1 (on_view (total (fun _ => false))) 0 lonely_root = (Val 1, s') /\
    nodes s' !! 1 = Some n /\ view_of s' n = Some v /\
    (fun _ : View => false) v = false /\
    node_children n = [] /\ log s' = [TypeError].
Proof. do 3 eexists. vm_compute. repeat split. Qed.

(** C1, amended: for a well-formed tree (ids unique among siblings) and any
    predicate that returns a boolean, whatever it reads of the store,
    [filter] works on a clone [t1] made of new nodes and leaves the receiver
    as it was.  It calls the predicate once on each node of the clone, in
    the reverse of the breadth-first order, in the store [s_a] the loop has
    made by then, in which the tree is the clone after the steps before;
    [keep] is what the predicate returned.  A step takes the node out of the
    children of its parent exactly when the predicate returned false and the
    node has no children at that moment ([prune_pass]); in the end a node
    below the root is in the tree exactly when the predicate returned true
    on it or on a node below it ([prune_root_by]).  So a node with a kept
    node below it is kept, and every kept node below the root has a kept
    child or is one on which the predicate returned true when it was called:
    the lines are written anew after the loop, and a predicate that reads
    them may give another answer on the result.  The root is kept in every
    case; when the predicate returned false on it and no child is left,
    reading the children of its missing parent throws a [TypeError], which
    is caught and logged. *)
Theorem filter_prunes_dead_leaves fuel predicate s t :
  repr s t -> sibling_ids t -> size t <= fuel ->
  returns_boolean predicate ->
  exists t1 s1 keep s' t',
    clone fuel [root t] None s = (Val [root t1], s1) /\
    repr s1 t1 /\ linked s1 None t1 /\ anon t1 = anon t /\
    (forall a, a ∈ addrs t1 -> length (nodes s) <= a) /\
    (forall l1 a l2, rev (map root (bfs t1)) = l1 ++ a :: l2 ->
       exists s_a,
         forEach (prune_step predicate) l1 s1 = (Val tt, s_a) /\
         repr s_a (prune_pass keep l1 t1) /\
         linked s_a None (prune_pass keep l1 t1) /\
         children_only s1 s_a /\
         predicate s_a a = Val (keep a)) /\
    prune_pass keep (rev (map root (bfs t1))) t1 = prune_root_by keep t1 /\
    Node_filter fuel predicate (root t) s = (Val (root t'), s') /\
    root t' = root t1 /\ repr s' t' /\ linked s' None t' /\
    unline t' = unline (prune_root_by keep t1) /\
    log s' = log s ++
             (if keep (root t1) || negb (length (kids_of t') =? 0)
              then [] else [TypeError]) /\
    (forall u, u ∈ preorder t1 -> root u <> root t1 ->
       (root u ∈ addrs t' <-> exists d, d ∈ preorder u /\ keep (root d) = true)) /\
    (forall u d, u ∈ preorder t1 -> d ∈ preorder u ->
       root d ∈ addrs t' -> root u ∈ addrs t') /\
    (forall w, w ∈ preorder t' -> root w <> root t' ->
       keep (root w) = true \/ kids_of w <> []) /\
    nodes s `prefix_of` nodes s' /\ tasks s `prefix_of` tasks s' /\
    repr s' t.
Proof.
  intros Hr Hids Hsz Hpred.
  destruct (Node_filter_trace fuel predicate s t
              (returns_boolean_or_throws _ Hpred) Hr Hids Hsz)
    as (t1 & s1 & keep & l0 & rest & s' & t' & Hcl & Hwf1 & Ha & Hrg & EL & Hlink &
        Hrun & Hroot & Hr' & Hl' & Hsub & Hpn & Hpt & Hres).
  destruct Hwf1 as (Hr1 & Hl1 & Hnd1 & Hids1).
  assert (Hall : rest = [] /\
            unline t' = unline (prune_pass keep l0 t1) /\
            log s' = log s ++
              (if keep (root t1) || negb (length (kids_of t') =? 0)
               then [] else [TypeError])).
  { destruct Hres as [(-> & Hlog & Hun & Hk & _)|[(-> & Hlog & -> & Hkr & Hkk)|
                      (a & l3 & e & s2 & _ & _ & _ & Hat & _ & Hr2 & _ & _ & Hex)]].
    - split_and!; auto. rewrite Hlog.
      destruct Hk as [->|Hk]; [by rewrite app_nil_r|].
      destruct (kids_of t'); [done|]. simpl. by rewrite orb_true_r, app_nil_r.
    - split_and!; auto. by rewrite Hlog, Hkr, Hkk.
    - exfalso. apply list_elem_of_fmap in Hat as (w & -> & Hw).
      destruct (repr_inv _ _ (repr_sub _ _ _ Hr2 Hw)) as (n & Hn & Hv & _).
      destruct (Hpred s2 (root w) n (view w) Hn Hv) as [b Hb]. congruence. }
  destruct Hall as (-> & Hun & Hlog). rewrite app_nil_r in EL. subst l0.
  rewrite (prune_pass_bfs keep t1 Hnd1) in Hun.
  assert (Haddrs : addrs t' = addrs (prune_root_by keep t1)).
  { by rewrite <- (addrs_unline t'), Hun, addrs_unline. }
  exists t1, s1, keep, s', t'. split_and!; auto.
  - intros a Hin. apply Hrg in Hin. lia.
  - intros l1 a l2 E. destruct (Hlink l1 a l2 E) as (s_a & ? & (? & ? & _) & ? & ?).
    exists s_a. by split_and!.
  - by apply prune_pass_bfs.
  - intros u Hu Hne. rewrite Haddrs. by apply prune_root_by_in.
  - intros u d Hu Hd. rewrite Haddrs. by apply prune_root_by_keeps_above.
  - intros w Hw Hne.
    destruct (unline_nodes _ _ w Hun Hw) as (w0 & Hw0 & Hroot0 & Hk0).
    destruct (prune_root_by_kept_nodes keep t1 w0 Hw0) as [Hk|Hk].
    + rewrite Hroot0. congruence.
    + left. by rewrite <- Hroot0.
    + right. intros E. by apply Hk, Hk0.
  - by eapply repr_prefix.
Qed.

Lemma has_children_returns_boolean : returns_boolean has_children.
Proof. intros s a n v Hn _. unfold has_children. rewrite Hn. eauto. Qed.

Lemma filter_prunes_dead_leaves_witness :
  repr example_store example_tree /\ sibling_ids example_tree /\
  size example_tree <= 5 /\
  returns_boolean has_children /\
  exists t1 s1 keep s' t',
    clone 5 [root example_tree] None example_store = (Val [root t1], s1) /\
    repr s1 t1 /\ linked s1 None t1 /\ anon t1 = anon example_tree /\
    (forall a, a ∈ addrs t1 -> length (nodes example_store) <= a) /\
    (forall l1 a l2, rev (map root (bfs t1)) = l1 ++ a :: l2 ->
       exists s_a,
         forEach (prune_step has_children) l1 s1 = (Val tt, s_a) /\
         repr s_a (prune_pass keep l1 t1) /\
         linked s_a None (prune_pass keep l1 t1) /\
         children_only s1 s_a /\
         has_children s_a a = Val (keep a)) /\
    prune_pass keep (rev (map root (bfs t1))) t1 = prune_root_by keep t1 /\
    Node_filter 5 has_children (root example_tree) example_store =
      (Val (root t'), s') /\
    root t' = root t1 /\ repr s' t' /\ linked s' None t' /\
    unline t' = unline (prune_root_by keep t1) /\
    log s' = log example_store ++
             (if keep (root t1) || negb (length (kids_of t') =? 0)
              then [] else [TypeError]) /\
    (forall u, u ∈ preorder t1 -> root u <> root t1 ->
       (root u ∈ addrs t' <-> exists d, d ∈ preorder u /\ keep (root d) = true)) /\
    (forall u d, u ∈ preorder t1 -> d ∈ preorder u ->
       root d ∈ addrs t' -> root u ∈ addrs t') /\
    (forall w, w ∈ preorder t' -> root w <> root t' ->
       keep (root w) = true \/ kids_of w <> []) /\
    nodes example_store `prefix_of` nodes s' /\
    tasks example_store `prefix_of` tasks s' /\
    repr s' example_tree.
Proof.
  split; [exact example_repr|]. split; [exact example_sibling_ids|].
  split; [vm_compute; lia|].
  split; [exact has_children_returns_boolean|].
  apply (filter_prunes_dead_leaves 5 has_children example_store example_tree).
  - exact example_repr.
  - exact example_sibling_ids.
  - vm_compute; lia.
  - exact has_children_returns_boolean.
Defined.

(** With [(n) => n.children.length > 0] every node of the example goes: the
    tasks and the note have no children, and the heading has none left when
    its turn comes.  The root has none left either, and stays. *)
Lemma filter_sees_the_children_of_the_moment :
  exists s' r,
    Node_filter 5 has_children 0 example_store = (Val 6, s') /\
    nodes s' !! 6 = Some r /\ node_children r = [] /\ log s' = [TypeError].
Proof. do 2 eexists. vm_compute. repeat split. Qed.

(** [(n) => n.line === 3] holds on the task t2 when [filter] calls it, so t2
    is kept; the lines are written after that, t2 gets the line 2, and on
    the tree returned the predicate does not hold on it. *)
Lemma filter_writes_the_lines_after_the_verdicts :
  exists s' r h t2 v2,
    Node_filter 5 (on_view (total (line_is 3))) 0 example_store = (Val 6, s') /\
    nodes s' !! 6 = Some r /\ node_children r = [7] /\
    nodes s' !! 7 = Some h /\ node_children h = [9] /\
    nodes s' !! 9 = Some t2 /\ node_children t2 = [] /\
    view_of s' t2 = Some v2 /\
    view_line v2 = 2%Z /\ line_is 3 v2 = false.
Proof. do 5 eexists. vm_compute. repeat split. Qed.

(** C3, counterexample: the predicate holds on the task t2 and throws on
    the note.  The pruning drops the task t1 and then reaches the note; the
    error is caught after the loops, so the lines are not written again and
    the result has the lines 1, 3, 4. *)
Lemma filter_leaves_gap_after_throw :
  exists s' t',
    Node_filter 5 (on_view (throws_on "n"%string "t2"%string))
      (root example_tree) example_store = (Val (root t'), s') /\
    repr s' t' /\
    lines_below t' = [1; 3; 4]%Z /\
    lines_below t' <> map Z.of_nat (seq 1 (length (lines_below t'))).
Proof.
  eexists.
  exists (NT 6 (mkView ROOT 0 "r"%string (ContentString EmptyString) None)
            [ NT 7 (mkView HEADING 1 "h"%string (ContentHeading "Today"%string 1) None)
                [ NT 9 (mkView TASK 3 "t2"%string
                          (ContentTask (example_task 2 "call Bob"%string false)) None) [] ];
              NT 10 (mkView OTHER 4 "n"%string (ContentString "note"%string) None) [] ]).
  split; [vm_compute; reflexivity|].
  split; [repeat (econstructor; try reflexivity)|].
  split; [reflexivity|discriminate].
Qed.

(** C3, amended: for a well-formed tree and a predicate that never throws,
    whatever it reads of the store, the lines of the tree [filter] returns,
    read in depth-first pre-order with the root left out, are 1, 2, 3, ... *)
Theorem filter_renumbers_lines fuel predicate s t :
  repr s t -> sibling_ids t -> size t <= fuel ->
  returns_boolean predicate ->
  exists s' t',
    Node_filter fuel predicate (root t) s = (Val (root t'), s') /\
    repr s' t' /\
    lines_below t' = map Z.of_nat (seq 1 (length (lines_below t'))).
Proof.
  intros Hr Hids Hsz Hpred.
  destruct (Node_filter_general fuel predicate s t
              (returns_boolean_or_throws _ Hpred) Hr Hids Hsz)
    as (s' & t' & Hrun & _ & _ & Hr' & _ & _ & Hres).
  exists s', t'. split_and!; auto.
  destruct Hres as [[_ H]|[[_ Hk]|(e & a & s0 & n & v & _ & Hn & Hv & Hex)]].
  - done.
  - unfold lines_below. by rewrite Hk.
  - destruct (Hpred s0 a n v Hn Hv) as [b Hb]. congruence.
Qed.

Lemma filter_renumbers_lines_witness :
  repr example_store example_tree /\ sibling_ids example_tree /\
  size example_tree <= 5 /\
  returns_boolean (on_view (total is_complete)) /\
  exists s' t',
    Node_filter 5 (on_view (total is_complete)) (root example_tree) example_store =
      (Val (root t'), s') /\
    repr s' t' /\
    lines_below t' = map Z.of_nat (seq 1 (length (lines_below t'))).
Proof.
  split; [exact example_repr|]. split; [exact example_sibling_ids|].
  split; [vm_compute; lia|].
  split; [exact (on_view_total_returns_boolean is_complete)|].
  apply (filter_renumbers_lines 5 (on_view (total is_complete))
           example_store example_tree).
  - exact example_repr.
  - exact example_sibling_ids.
  - vm_compute; lia.
  - exact (on_view_total_returns_boolean is_complete).
Defined.

(** C2, counterexample: the method [Node.clone] copies one node.  The
    copy of the root of the example has the children of the root themselves,
    nodes of the original store, and the copy of a child has the original
    root as its parent. *)
Lemma Node_clone_shares_children_and_parent :
  exists s' c s'' c',
    Node_clone 0 example_store = (Val 6, s') /\
    nodes s' !! 6 = Some c /\
    node_children c = [1; 4] /\
    Forall (fun child => child < length (nodes example_store)) (node_children c) /\
    Node_clone 4 example_store = (Val 6, s'') /\
    nodes s'' !! 6 = Some c' /\
    node_parent c' = Some 0 /\
    0 < length (nodes example_store).
Proof.
  do 4 eexists. vm_compute. split_and!; try reflexivity.
  - repeat constructor.
  - lia.
Qed.

(** C2, amended: the module helper [clone], used by [filter] and
    [replace], is deep.  It returns a tree of new nodes, one for each node of
    the original and pairwise distinct, with the same content and shape; each
    task payload of the copy is a new task; the parent of the root is null
    and the parent of every other node is the node of the copy that lists it
    as a child; the original nodes and tasks are unchanged, and writing to a
    node or to a task of the copy leaves every original node and task as it
    was. *)
Theorem clone_helper_is_deep fuel s t :
  repr s t -> height t <= fuel ->
  exists t1 s1,
    clone fuel [root t] None s = (Val [root t1], s1) /\
    repr s1 t1 /\ anon t1 = anon t /\
    linked s1 None t1 /\
    NoDup (addrs t1) /\
    (forall a, a ∈ addrs t1 -> length (nodes s) <= a < length (nodes s1)) /\
    (forall a n tk, a ∈ addrs t1 -> nodes s1 !! a = Some n ->
                    task_of n = Some tk -> length (tasks s) <= tk) /\
    extends s s1 /\
    (forall a n' b, a ∈ addrs t1 -> b < length (nodes s) ->
                    <[a:=n']> (nodes s1) !! b = nodes s !! b) /\
    (forall tk (task' : Task) b, length (tasks s) <= tk -> b < length (tasks s) ->
                    <[tk:=task']> (tasks s1) !! b = tasks s !! b).
Proof.
  intros Hr Hh.
  destruct (clone_one fuel s t Hr Hh)
    as (t1 & s1 & Hcl & He & Hr1 & Hl1 & Ha & Hrg & Hnd & Htk).
  exists t1, s1. split_and!; auto.
  - intros a n' b Hin Hb. apply Hrg in Hin.
    rewrite list_lookup_insert_ne by lia.
    destruct He as (Hp & _). destruct (lookup_lt_is_Some_2 _ _ Hb) as [x Hx].
    rewrite Hx. eapply prefix_lookup_Some; eauto.
  - intros tk task' b Htk' Hb.
    rewrite list_lookup_insert_ne by lia.
    destruct He as (_ & Hp & _). destruct (lookup_lt_is_Some_2 _ _ Hb) as [x Hx].
    rewrite Hx. eapply prefix_lookup_Some; eauto.
Qed.

Lemma replace_keeps_id_line_children_and_order_witness :
  repr example_store example_tree /\ sibling_ids example_tree /\
  size example_tree <= 5 /\
  nodes example_store !! 5 =
    Some (mkNode TASK 7 (PlainNode (DataTask 1)) None [] None "x"%string) /\
  exists t1 s1,
    clone 5 [root example_tree] None example_store = (Val [root t1], s1) /\
    extends example_store s1 /\ repr s1 t1 /\ linked s1 None t1 /\
    anon t1 = anon example_tree /\
    match first_match (on_view (throws_on "zz"%string "t2"%string)) s1
            (map root (bfs t1)) with
    | Val None =>
        Node_replace 5 5 (on_view (throws_on "zz"%string "t2"%string))
          (root example_tree) example_store = (Val (root t1), s1)
    | Exn e =>
        Node_replace 5 5 (on_view (throws_on "zz"%string "t2"%string))
          (root example_tree) example_store =
        (Val (root t1), mkStore (nodes s1) (tasks s1) (log s1 ++ [e]))
    | Val (Some target) =>
        (target = root t1 /\
         Node_replace 5 5 (on_view (throws_on "zz"%string "t2"%string))
           (root example_tree) example_store = (Val (root t1), s1)) \/
        (exists u w i tn pn s',
            root u = target /\
            w ∈ preorder t1 /\ kids_of w !! i = Some u /\
            nodes s1 !! root u = Some tn /\
            view_of s1 tn = Some (view u) /\
            node_children tn = map root (kids_of u) /\
            nodes s1 !! root w = Some pn /\
            node_children pn = map root (kids_of w) /\
            Node_replace 5 5 (on_view (throws_on "zz"%string "t2"%string))
              (root example_tree) example_store = (Val (root t1), s') /\
            nodes s' !! 5 =
              Some (replacement
                      (mkNode TASK 7 (PlainNode (DataTask 1)) None [] None "x"%string)
                      tn (root w)) /\
            nodes s' !! root w =
              Some (set_children (<[i:=5]> (node_children pn)) pn) /\
            (forall a, a <> 5 -> a <> root w -> nodes s' !! a = nodes s1 !! a) /\
            tasks s' = tasks s1 /\ log s' = log s1)
    | OutOfFuel =>
        Node_replace 5 5 (on_view (throws_on "zz"%string "t2"%string))
          (root example_tree) example_store = (OutOfFuel, s1)
    | BadRef =>
        Node_replace 5 5 (on_view (throws_on "zz"%string "t2"%string))
          (root example_tree) example_store = (BadRef, s1)
    end.
Proof.
  split; [exact example_repr|]. split; [exact example_sibling_ids|].
  split; [vm_compute; lia|]. split; [reflexivity|].
  apply (replace_keeps_id_line_children_and_order
           5 (on_view (throws_on "zz"%string "t2"%string)) example_store example_tree 5).
  - exact example_repr.
  - exact example_sibling_ids.
  - vm_compute; lia.
  - reflexivity.
Defined.

(** C7, counterexample: the predicate throws on the heading, the second
    node in breadth-first order, and accepts the note, the third; [find]
    logs the error and returns null without calling the predicate on the
    note.  In [filter] the predicate throws on the task t2, the first node
    the pruning looks at: the error is logged and the pruning ends there, so
    the task t1, a childless node on which the predicate returns false, is
    still a child of the heading in the result. *)
Lemma find_gives_up_on_first_throw :
  exists s',
    Node_find 5 (on_view (throws_on "h"%string "n"%string)) 0 example_store =
      (Val None, s') /\
    log s' = [Thrown] /\
    (exists n v, nodes example_store !! 4 = Some n /\
                 view_of example_store n = Some v /\
                 throws_on "h"%string "n"%string v = Some true) /\
    exists s'' r h t1 v1,
      Node_filter 5 (on_view (throws_on "t2"%string "h"%string)) 0 example_store =
        (Val 6, s'') /\
      log s'' = [Thrown] /\
      nodes s'' !! 6 = Some r /\ node_children r = [7; 10] /\
      nodes s'' !! 7 = Some h /\ node_children h = [8; 9] /\
      nodes s'' !! 8 = Some t1 /\ node_children t1 = [] /\
      view_of s'' t1 = Some v1 /\
      throws_on "t2"%string "h"%string v1 = Some false.
Proof.
  eexists. split; [vm_compute; reflexivity|]. split; [reflexivity|].
  split; [do 2 eexists; vm_compute; repeat split|].
  do 5 eexists. vm_compute. repeat split.
Qed.

(** C7, amended: [find] goes through the nodes in breadth-first order and
    returns the first one on which the predicate returns true, and null when
    there is none; when the predicate throws before that, the error is
    logged, the search ends and [find] returns null, whatever the nodes not
    yet visited.  [filter] with any predicate that returns or throws always
    returns a node, the root of the clone, with the receiver as it was and
    at most one error logged: no exception reaches the caller.  Its loop goes
    through a first part [l0] of the nodes of the clone, on which the
    predicate returned the verdicts [keep], each in the store the loop had
    made by then.  When the predicate throws on the next node, in the store
    [s2] the steps on [l0] have made, the loop ends there: the error is
    logged, the nodes after it are not looked at and are in the tree, and
    the tree returned is the clone as the steps on [l0] left it, every node
    with the content and the line it has in the clone.  For a predicate [Q]
    on the content of a node: when [Q] throws on no node of the tree,
    [filter] is [filter] with the total predicate; when [Q] throws on some
    node, the loop stops at the first node [a], in the reverse of the
    breadth-first order, on which [Q] throws, [filter] logs that one error
    and returns the root of the clone, and the clone is as the steps on the
    nodes before [a] left it, with the verdicts [Q] gives on them: its nodes
    differ from what [clone] built in their children lists at most, [a] and
    the nodes after it are in the tree, and no line is written. *)
Theorem find_is_bfs_and_predicate_errors_end_the_traversal fuel predicate Q s t :
  repr s t -> sibling_ids t -> size t <= fuel ->
  Node_find fuel predicate (root t) s =
    match first_match predicate s (map root (bfs t)) with
    | Exn e => (Val None, mkStore (nodes s) (tasks s) (log s ++ [e]))
    | r => (r, s)
    end /\
  (returns_or_throws predicate ->
   exists t1 s1 keep l0 rest s' t',
     clone fuel [root t] None s = (Val [root t1], s1) /\
     repr s1 t1 /\ anon t1 = anon t /\
     rev (map root (bfs t1)) = l0 ++ rest /\
     (forall l1 a l2, l0 = l1 ++ a :: l2 ->
        exists s_a,
          forEach (prune_step predicate) l1 s1 = (Val tt, s_a) /\
          repr s_a (prune_pass keep l1 t1) /\ children_only s1 s_a /\
          predicate s_a a = Val (keep a)) /\
     Node_filter fuel predicate (root t) s = (Val (root t'), s') /\
     root t' = root t1 /\ repr s' t' /\
     (forall a, a ∈ addrs t' -> length (nodes s) <= a) /\
     nodes s `prefix_of` nodes s' /\ tasks s `prefix_of` tasks s' /\
     (log s' = log s \/ exists e, log s' = log s ++ [e]) /\
     match rest with
     | [] =>
         (log s' = log s \/ log s' = log s ++ [TypeError]) /\
         unline t' = unline (prune_pass keep l0 t1)
     | a :: _ =>
         exists e s2,
           forEach (prune_step predicate) l0 s1 = (Val tt, s2) /\
           predicate s2 a = Exn e /\
           repr s2 t' /\ children_only s1 s2 /\
           s' = mkStore (nodes s2) (tasks s2) (log s2 ++ [e]) /\
           log s' = log s ++ [e] /\
           t' = prune_pass keep l0 t1 /\
           (forall c, c ∈ rest -> c ∈ addrs t') /\
           (forall w, w ∈ preorder t' ->
              exists w1, w1 ∈ preorder t1 /\ root w1 = root w /\ view w1 = view w)
     end) /\
  ((forall u, u ∈ bfs t -> Q (view u) <> None) ->
   Node_filter fuel (on_view Q) (root t) s =
   Node_filter fuel (on_view (total (as_total Q))) (root t) s) /\
  ((exists u, u ∈ bfs t /\ Q (view u) = None) ->
   exists t1 s1 s' keep l0 a l3 u_a s2,
     clone fuel [root t] None s = (Val [root t1], s1) /\
     Node_filter fuel (on_view Q) (root t) s = (Val (root t1), s') /\
     log s' = log s ++ [Thrown] /\
     nodes s `prefix_of` nodes s' /\ tasks s `prefix_of` tasks s' /\
     length (nodes s') = length (nodes s1) /\
     (forall c n, nodes s1 !! c = Some n ->
                  exists cs, nodes s' !! c = Some (set_children cs n)) /\
     repr s1 t1 /\ anon t1 = anon t /\
     rev (map root (bfs t1)) = l0 ++ a :: l3 /\
     (forall u, u ∈ preorder t1 -> root u ∈ l0 -> Q (view u) = Some (keep (root u))) /\
     u_a ∈ preorder t1 /\ root u_a = a /\ Q (view u_a) = None /\
     forEach (prune_step (on_view Q)) l0 s1 = (Val tt, s2) /\
     s' = mkStore (nodes s2) (tasks s2) (log s2 ++ [Thrown]) /\
     repr s' (prune_pass keep l0 t1) /\
     (forall c, c ∈ a :: l3 -> c ∈ addrs (prune_pass keep l0 t1)) /\
     (forall w, w ∈ preorder (prune_pass keep l0 t1) ->
        exists w1, w1 ∈ preorder t1 /\ root w1 = root w /\ view w1 = view w)).
Proof.
  intros Hr Hids Hsz. split_and!.
  - by apply Node_find_spec.
  - intros Hpred.
    destruct (Node_filter_trace fuel predicate s t Hpred Hr Hids Hsz)
      as (t1 & s1 & keep & l0 & rest & s' & t' & Hcl & Hwf1 & Ha & Hrg & EL & Hlink &
          Hrun & Hroot & Hr' & Hl' & Hsub & Hpn & Hpt & Hres).
    destruct Hwf1 as (Hr1 & _ & Hnd1 & _).
    exists t1, s1, keep, l0, rest, s', t'. split_and!; auto.
    + intros l1 a l2 E. destruct (Hlink l1 a l2 E) as (s_a & ? & (? & _) & ? & ?).
      exists s_a. by split_and!.
    + intros a Hin. apply Hsub, Hrg in Hin. lia.
    + destruct Hres as [(_ & Hlog & _)|[(_ & Hlog & _)|(a & l3 & e & s2 & _ & Hlog & _)]];
        eauto.
    + destruct Hres as [(-> & Hlog & Hun & _)|[(-> & Hlog & -> & _)|
                        (a & l3 & e & s2 & -> & Hlog & -> & Hat & Hrun0 & Hr2 & Hco & -> & Hex)]].
      * split; [by left|done].
      * split; [by right|done].
      * exists e, s2. split_and!; auto.
        -- intros c Hc. by eapply prune_pass_rest.
        -- apply prune_pass_views.
  - intros Hall. apply Node_filter_defined; auto.
    intros u Hu. apply as_total_agree. by apply Hall.
  - intros Hex. by apply Node_filter_stops.
Qed.

Lemma find_is_bfs_and_predicate_errors_end_the_traversal_witness :
  repr example_store example_tree /\ sibling_ids example_tree /\
  size example_tree <= 5 /\
  (Node_find 5 (on_view (throws_on "h"%string "n"%string)) (root example_tree)
     example_store =
    match first_match (on_view (throws_on "h"%string "n"%string)) example_store
            (map root (bfs example_tree)) with
    | Exn e => (Val None, mkStore (nodes example_store) (tasks example_store)
                                  (log example_store ++ [e]))
    | r => (r, example_store)
    end /\
  (returns_or_throws (on_view (throws_on "h"%string "n"%string)) ->
   exists t1 s1 keep l0 rest s' t',
     clone 5 [root example_tree] None example_store = (Val [root t1], s1) /\
     repr s1 t1 /\ anon t1 = anon example_tree /\
     rev (map root (bfs t1)) = l0 ++ rest /\
     (forall l1 a l2, l0 = l1 ++ a :: l2 ->
        exists s_a,
          forEach (prune_step (on_view (throws_on "h"%string "n"%string))) l1 s1 =
            (Val tt, s_a) /\
          repr s_a (prune_pass keep l1 t1) /\ children_only s1 s_a /\
          on_view (throws_on "h"%string "n"%string) s_a a = Val (keep a)) /\
     Node_filter 5 (on_view (throws_on "h"%string "n"%string)) (root example_tree)
       example_store = (Val (root t'), s') /\
     root t' = root t1 /\ repr s' t' /\
     (forall a, a ∈ addrs t' -> length (nodes example_store) <= a) /\
     nodes example_store `prefix_of` nodes s' /\
     tasks example_store `prefix_of` tasks s' /\
     (log s' = log example_store \/ exists e, log s' = log example_store ++ [e]) /\
     match rest with
     | [] =>
         (log s' = log example_store \/ log s' = log example_store ++ [TypeError]) /\
         unline t' = unline (prune_pass keep l0 t1)
     | a :: _ =>
         exists e s2,
           forEach (prune_step (on_view (throws_on "h"%string "n"%string))) l0 s1 =
             (Val tt, s2) /\
           on_view (throws_on "h"%string "n"%string) s2 a = Exn e /\
           repr s2 t' /\ children_only s1 s2 /\
           s' = mkStore (nodes s2) (tasks s2) (log s2 ++ [e]) /\
           log s' = log example_store ++ [e] /\
           t' = prune_pass keep l0 t1 /\
           (forall c, c ∈ rest -> c ∈ addrs t') /\
           (forall w, w ∈ preorder t' ->
              exists w1, w1 ∈ preorder t1 /\ root w1 = root w /\ view w1 = view w)
     end) /\
  ((forall u, u ∈ bfs example_tree -> throws_on "h"%string "n"%string (view u) <> None) ->
   Node_filter 5 (on_view (throws_on "h"%string "n"%string)) (root example_tree)
     example_store =
   Node_filter 5 (on_view (total (as_total (throws_on "h"%string "n"%string))))
     (root example_tree) example_store) /\
  ((exists u, u ∈ bfs example_tree /\ throws_on "h"%string "n"%string (view u) = None) ->
   exists t1 s1 s' keep l0 a l3 u_a s2,
     clone 5 [root example_tree] None example_store = (Val [root t1], s1) /\
     Node_filter 5 (on_view (throws_on "h"%string "n"%string)) (root example_tree)
       example_store = (Val (root t1), s') /\
     log s' = log example_store ++ [Thrown] /\
     nodes example_store `prefix_of` nodes s' /\
     tasks example_store `prefix_of` tasks s' /\
     length (nodes s') = length (nodes s1) /\
     (forall c n, nodes s1 !! c = Some n ->
                  exists cs, nodes s' !! c = Some (set_children cs n)) /\
     repr s1 t1 /\ anon t1 = anon example_tree /\
     rev (map root (bfs t1)) = l0 ++ a :: l3 /\
     (forall u, u ∈ preorder t1 -> root u ∈ l0 ->
        throws_on "h"%string "n"%string (view u) = Some (keep (root u))) /\
     u_a ∈ preorder t1 /\ root u_a = a /\
     throws_on "h"%string "n"%string (view u_a) = None /\
     forEach (prune_step (on_view (throws_on "h"%string "n"%string))) l0 s1 =
       (Val tt, s2) /\
     s' = mkStore (nodes s2) (tasks s2) (log s2 ++ [Thrown]) /\
     repr s' (prune_pass keep l0 t1) /\
     (forall c, c ∈ a :: l3 -> c ∈ addrs (prune_pass keep l0 t1)) /\
     (forall w, w ∈ preorder (prune_pass keep l0 t1) ->
        exists w1, w1 ∈ preorder t1 /\ root w1 = root w /\ view w1 = view w))).
Proof.
  split; [exact example_repr|]. split; [exact example_sibling_ids|].
  split; [vm_compute; lia|].
  apply (find_is_bfs_and_predicate_errors_end_the_traversal
           5 (on_view (throws_on "h"%string "n"%string))
           (throws_on "h"%string "n"%string) example_store example_tree).
  - exact example_repr.
  - exact example_sibling_ids.
  - vm_compute; lia.
Defined.

Lemma clone_helper_is_deep_witness :
  repr example_store example_tree /\ height example_tree <= 3 /\
  exists t1 s1,
    clone 3 [root example_tree] None example_store = (Val [root t1], s1) /\
    repr s1 t1 /\ anon t1 = anon example_tree /\
    linked s1 None t1 /\
    NoDup (addrs t1) /\
    (forall a, a ∈ addrs t1 ->
       length (nodes example_store) <= a < length (nodes s1)) /\
    (forall a n tk, a ∈ addrs t1 -> nodes s1 !! a = Some n ->
                    task_of n = Some tk -> length (tasks example_store) <= tk) /\
    extends example_store s1 /\
    (forall a n' b, a ∈ addrs t1 -> b < length (nodes example_store) ->
                    <[a:=n']> (nodes s1) !! b = nodes example_store !! b) /\
    (forall tk (task' : Task) b,
        length (tasks example_store) <= tk -> b < length (tasks example_store) ->
        <[tk:=task']> (tasks s1) !! b = tasks example_store !! b).
Proof.
  split; [exact example_repr|]. split; [vm_compute; lia|].
  apply (clone_helper_is_deep 3 example_store example_tree).
  - exact example_repr.
  - vm_compute; lia.
Defined.

(** *** The lines of a text *)

Lemma split_lines_cons s : exists l ls, split_lines s = l :: ls.
Proof.
  induction s as [|c s (l & ls & IH)]; simpl; [eauto|].
  destruct (Ascii.eqb c newline); [eauto|]. rewrite IH. eauto.
Qed.

Lemma split_lines_length s : (1 <= length (split_lines s))%nat.
Proof. destruct (split_lines_cons s) as (l & ls & ->). simpl. lia. Qed.

Lemma join_lines_cons l l' ls :
  join_lines (l :: l' :: ls) = (l ++ String newline (join_lines (l' :: ls)))%string.
Proof. reflexivity. Qed.

Lemma join_split s : join_lines (split_lines s) = s.
Proof.
  induction s as [|c s IH]; [done|]. simpl.
  destruct (Ascii.eqb_spec c newline) as [->|Hne].
  - destruct (split_lines_cons s) as (l & ls & E). rewrite E in *.
    rewrite join_lines_cons, IH. reflexivity.
  - destruct (split_lines_cons s) as (l & ls & E). rewrite E in *.
    destruct ls as [|l' ls].
    + simpl in *. by rewrite IH.
    + rewrite join_lines_cons in *. rewrite <- IH. reflexivity.
Qed.

Lemma split_lines_no_newline s : Forall (fun l => has_newline l = false) (split_lines s).
Proof.
  induction s as [|c s IH]; simpl; [by repeat constructor|].
  destruct (Ascii.eqb c newline) eqn:E; [by constructor|].
  destruct (split_lines s) as [|l ls]; [constructor; [|done]; simpl; by rewrite E|].
  inversion IH; subst. constructor; [|done]. simpl. by rewrite E.
Qed.

Lemma split_no_newline l : has_newline l = false -> split_lines l = [l].
Proof.
  induction l as [|c l IH]; [done|]. simpl. intros H.
  apply orb_false_elim in H as [E H]. rewrite E. by rewrite IH.
Qed.

Lemma split_app_newline l s :
  has_newline l = false ->
  split_lines (l ++ String newline s) = l :: split_lines s.
Proof.
  induction l as [|c l IH]; intros H; simpl.
  - reflexivity.
  - simpl in H. apply orb_false_elim in H as [E H]. rewrite E. by rewrite IH.
Qed.

Lemma split_join ls :
  ls <> [] -> Forall (fun l => has_newline l = false) ls ->
  split_lines (join_lines ls) = ls.
Proof.
  induction ls as [|l ls IH]; [done|]. intros _ H.
  inversion H as [|? ? Hl Hls]; subst.
  destruct ls as [|l' ls]; [by apply split_no_newline|].
  rewrite join_lines_cons, split_app_newline by done. f_equal. by apply IH.
Qed.

(** *** [append] *)

Lemma length_below t : length (flat_map preorder (kids_of t)) = size t - 1.
Proof.
  rewrite <- length_preorder, preorder_unfold. simpl. lia.
Qed.

Lemma Node_append_eq fuel node this :
  Node_append fuel node this =
  (cl <- clone fuel [this] None ;;
   match cl with
   | [cloned] =>
       flatten <- flat fuel this ;;
       modNode node (set_line (Z.of_nat (length flatten) + 1)) ;;;
       modNode node (set_parent (Some cloned)) ;;;
       cn <- getNode cloned ;;
       modNode cloned (set_children (node_children cn ++ [node])) ;;;
       ret cloned
   | _ => bad_ref
   end).
Proof. reflexivity. Qed.

(** What [append] does, step by step. *)
Lemma Node_append_spec fuel s t node nn :
  repr s t -> size t <= fuel ->
  nodes s !! node = Some nn ->
  exists t1 s1 n1,
    clone fuel [root t] None s = (Val [root t1], s1) /\
    extends s s1 /\ repr s1 t1 /\ linked s1 None t1 /\ anon t1 = anon t /\
    NoDup (addrs t1) /\
    (forall a, a ∈ addrs t1 -> length (nodes s) <= a < length (nodes s1)) /\
    nodes s1 !! root t1 = Some n1 /\
    Node_append fuel node (root t) s =
    (Val (root t1),
     mkStore (<[root t1:=set_children (node_children n1 ++ [node]) n1]>
                (<[node:=set_parent (Some (root t1)) (set_line (Z.of_nat (size t)) nn)]>
                   (nodes s1)))
             (tasks s1) (log s1)).
Proof.
  intros Hr Hsz Hnode.
  pose proof (height_le_size t) as Hhs.
  destruct (clone_one fuel s t Hr) as (t1 & s1 & Hcl & He & Hr1 & Hl1 & Ha & Hrg & Hnd & _);
    [lia|].
  destruct (repr_inv _ _ Hr1) as (n1 & Hn1 & _).
  exists t1, s1, n1. split_and!; auto.
  assert (Hrs1 : repr s1 t) by (by eapply repr_extends).
  destruct (flat_spec s1 fuel t Hrs1) as (l & Hflat & Hfst); [lia|].
  assert (Hlen : length l = size t - 1).
  { rewrite <- (length_map fst), Hfst, length_map. apply length_below. }
  assert (Hnode1 : nodes s1 !! node = Some nn) by (eapply extends_node; eauto).
  assert (Hroot_new : length (nodes s) <= root t1) by (apply Hrg, root_in_addrs).
  assert (Hnode_old : node < length (nodes s)) by (by eapply lookup_lt_Some).
  rewrite Node_append_eq. unfold bind at 1. rewrite Hcl.
  unfold bind at 1. rewrite Hflat.
  unfold bind at 1. rewrite (modNode_val _ _ _ _ Hnode1).
  match goal with |- context [mkStore ?ns _ _] => set (s2 := mkStore ns (tasks s1) (log s1)) end.
  assert (Hnode2 : nodes s2 !! node = Some (set_line (Z.of_nat (length l) + 1) nn)).
  { simpl. apply list_lookup_insert_eq. by eapply lookup_lt_Some. }
  unfold bind at 1. rewrite (modNode_val _ _ _ _ Hnode2).
  match goal with |- context [mkStore ?ns _ _] => set (s3 := mkStore ns (tasks s2) (log s2)) end.
  assert (Hroot3 : nodes s3 !! root t1 = Some n1).
  { simpl. rewrite !list_lookup_insert_ne by lia. done. }
  rewrite (bind_val _ _ _ _ _ (getNode_val _ _ _ Hroot3)).
  unfold bind at 1. rewrite (modNode_val _ _ _ _ Hroot3).
  unfold ret. f_equal. unfold s3, s2. simpl. f_equal.
  rewrite list_insert_insert_eq. do 3 f_equal.
  destruct nn. unfold set_parent, set_line. simpl. f_equal.
  pose proof (size_unfold (root t) (view t) (kids_of t)). destruct t. simpl in *. lia.
Qed.

Lemma preorder_anon : forall t, preorder (anon t) = map anon (preorder t).
Proof.
  induction t as [a v kids IH] using ntree_ind'. simpl. f_equal.
  induction IH as [|k kids Hk _ IHk]; [done|]. simpl.
  by rewrite map_app, Hk, IHk.
Qed.

Lemma lines_below_anon t : lines_below (anon t) = lines_below t.
Proof.
  unfold lines_below. rewrite kids_anon.
  induction (kids_of t) as [|k ks IH]; [done|]. simpl.
  rewrite !map_app, IH. f_equal.
  rewrite preorder_anon, map_map. apply map_ext. intros u. by rewrite view_anon.
Qed.

Lemma length_lines_below t : length (lines_below t) = size t - 1.
Proof. unfold lines_below. rewrite length_map. apply length_below. Qed.



(** The tree [append] returns for a node without children. *)
Lemma Node_append_tree fuel s t node nn v :
  repr s t -> size t <= fuel ->
  nodes s !! node = Some nn -> view_of s nn = Some v ->
  node_children nn = [] ->
  exists s' t',
    Node_append fuel node (root t) s = (Val (root t'), s') /\
    repr s' t' /\
    map anon (kids_of t') =
      map anon (kids_of t) ++ [NT 0 (with_line (Z.of_nat (size t)) v) []] /\
    lines_below t' = lines_below t ++ [Z.of_nat (size t)] /\
    size t' = S (size t) /\
    (forall a, a < length (nodes s) -> a <> node -> nodes s' !! a = nodes s !! a) /\
    tasks s `prefix_of` tasks s' /\
    length (nodes s) <= length (nodes s') /\
    last (map root (kids_of t')) = Some node /\
    (forall a, a ∈ addrs t' -> a = node \/ length (nodes s) <= a).
Proof.
  intros Hr Hsz Hnode Hv Hleaf.
  destruct (Node_append_spec fuel s t node nn Hr Hsz Hnode)
    as (t1 & s1 & n1 & Hcl & He & Hr1 & Hl1 & Ha & Hnd & Hrg & Hn1 & Hrun).
  assert (Hroot_new : length (nodes s) <= root t1 < length (nodes s1))
    by (apply Hrg, root_in_addrs).
  assert (Hnode_old : node < length (nodes s)) by (by eapply lookup_lt_Some).
  assert (Hlen1 : length (nodes s) <= length (nodes s1)) by (by apply extends_length).
  destruct (repr_inv _ _ Hr1) as (n1' & Hn1' & Hv1 & Hc1 & Hk1).
  assert (n1' = n1) by congruence. subst n1'.
  set (leaf := NT node (with_line (Z.of_nat (size t)) v) []).
  set (t' := NT (root t1) (view t1) (kids_of t1 ++ [leaf])).
  match type of Hrun with _ = (_, ?st) => set (s' := st) in * end.
  assert (Hv' : view_of s1 nn = Some v).
  { eapply view_of_mono; [apply He|exact Hv]. }
  assert (Hr' : repr s' t').
  { econstructor.
    - simpl. apply list_lookup_insert_eq. rewrite length_insert. lia.
    - rewrite view_of_set_children. exact Hv1.
    - simpl. by rewrite map_app, Hc1.
    - apply Forall_app. split.
      + rewrite Forall_forall in *. intros k Hk.
        eapply repr_agree; [by apply Hk1| |done].
        intros a Hin. simpl.
        assert (Hat : a ∈ addrs t1).
        { destruct t1 as [r1 v1 ks1]. rewrite addrs_unfold. right.
          apply elem_of_flat_map_addrs. eauto. }
        assert (a <> root t1).
        { intros ->. destruct t1 as [r1 v1 ks1]. rewrite addrs_unfold in Hnd.
          apply NoDup_cons in Hnd as [Hni _]. apply Hni.
          apply elem_of_flat_map_addrs. eauto. }
        apply Hrg in Hat. rewrite !list_lookup_insert_ne by lia. done.
      + constructor; [|constructor]. econstructor.
        * simpl. rewrite list_lookup_insert_ne by lia.
          apply list_lookup_insert_eq. lia.
        * rewrite view_of_set_parent. apply view_of_set_line. exact Hv'.
        * simpl. exact Hleaf.
        * constructor. }
  assert (Hl1' : lines_below t1 = lines_below t).
  { by rewrite <- lines_below_anon, Ha, lines_below_anon. }
  exists s', t'. split_and!.
  - exact Hrun.
  - exact Hr'.
  - simpl. rewrite map_app. simpl. f_equal.
    by rewrite <- !kids_anon, Ha.
  - unfold lines_below at 1. simpl kids_of. rewrite flat_map_app, map_app. simpl.
    fold (lines_below t1). by rewrite Hl1'.
  - unfold t'. rewrite size_unfold, fsize_app, fsize_cons. simpl.
    rewrite <- (size_anon t), <- Ha, size_anon.
    destruct t1 as [r1 v1 ks1]. rewrite size_unfold. simpl. unfold fsize. simpl. lia.
  - intros a Ha1 Ha2. unfold s'. simpl. rewrite !list_lookup_insert_ne by lia.
    destruct (lookup_lt_is_Some_2 _ _ Ha1) as [x Hx]. rewrite Hx.
    eapply extends_node; eauto.
  - apply He.
  - unfold s'. simpl. rewrite !length_insert. lia.
  - simpl. rewrite map_app. apply last_snoc.
  - intros a Hin. unfold t' in Hin. rewrite addrs_unfold in Hin.
    apply elem_of_cons in Hin as [->|Hin]; [right; lia|].
    apply elem_of_flat_map_addrs in Hin as (k & Hk & Hin).
    apply elem_of_app in Hk as [Hk|Hk].
    + right. apply Hrg. destruct t1 as [r1 v1 ks1]. rewrite addrs_unfold. right.
      apply elem_of_flat_map_addrs. eauto.
    + apply list_elem_of_singleton in Hk as ->. left.
      unfold leaf in Hin. rewrite addrs_unfold in Hin. simpl in Hin.
      by apply list_elem_of_singleton in Hin.
Qed.

(** X2: when the lines below the root of the receiver are 1, 2, 3, ... and the
    appended node has no children, the lines below the root of the tree
    [append] returns are 1, 2, 3, ... again: the new node is last and has the
    next line. *)
Theorem append_keeps_lines_contiguous fuel s t node nn v :
  repr s t -> size t <= fuel ->
  nodes s !! node = Some nn -> view_of s nn = Some v ->
  node_children nn = [] ->
  lines_below t = map Z.of_nat (seq 1 (length (lines_below t))) ->
  exists s' t',
    Node_append fuel node (root t) s = (Val (root t'), s') /\
    repr s' t' /\
    map anon (kids_of t') =
      map anon (kids_of t) ++ [NT 0 (with_line (Z.of_nat (size t)) v) []] /\
    lines_below t' = map Z.of_nat (seq 1 (length (lines_below t'))).
Proof.
  intros Hr Hsz Hnode Hv Hleaf Hlines.
  destruct (Node_append_tree fuel s t node nn v Hr Hsz Hnode Hv Hleaf)
    as (s' & t' & Hrun & Hr' & Hk & Hl & _).
  exists s', t'. split_and!; auto.
  rewrite Hl, length_app. simpl length.
  rewrite Nat.add_1_r, seq_S, map_app. simpl. f_equal; [exact Hlines|].
  do 2 f_equal.
  pose proof (length_lines_below t) as E. pose proof (height_pos t).
  pose proof (height_le_size t). lia.
Qed.

Lemma append_keeps_lines_contiguous_witness :
  repr example_store example_tree /\ size example_tree <= 5 /\
  nodes example_store !! 5 =
    Some (mkNode TASK 7 (PlainNode (DataTask 1)) None [] None "x"%string) /\
  view_of example_store
    (mkNode TASK 7 (PlainNode (DataTask 1)) None [] None "x"%string) =
    Some (mkView TASK 7 "x"%string
            (ContentTask (example_task 2 "call Bob"%string false)) None) /\
  lines_below example_tree =
    map Z.of_nat (seq 1 (length (lines_below example_tree))) /\
  exists s' t',
    Node_append 5 5 (root example_tree) example_store = (Val (root t'), s') /\
    repr s' t' /\
    map anon (kids_of t') =
      map anon (kids_of example_tree) ++
      [NT 0 (with_line (Z.of_nat (size example_tree))
               (mkView TASK 7 "x"%string
                  (ContentTask (example_task 2 "call Bob"%string false)) None)) []] /\
    lines_below t' = map Z.of_nat (seq 1 (length (lines_below t'))).
Proof.
  split; [exact example_repr|]. split; [vm_compute; lia|].
  split; [reflexivity|]. split; [reflexivity|]. split; [reflexivity|].
  apply (append_keeps_lines_contiguous 5 example_store example_tree 5
           (mkNode TASK 7 (PlainNode (DataTask 1)) None [] None "x"%string)).
  - exact example_repr.
  - vm_compute; lia.
  - reflexivity.
  - reflexivity.
  - reflexivity.
  - reflexivity.
Defined.

Lemma seq_lines n k :
  map Z.of_nat (seq 1 n) ++ map Z.of_nat (seq (S n) k) = map Z.of_nat (seq 1 (n + k)).
Proof. by rewrite <- map_app, <- seq_app. Qed.

(** The nodes to append are as they were after one of them was appended. *)
Lemma leaf_at_kept s s' n : forall ns vs,
  Forall2 (leaf_at s) ns vs -> n ∉ ns ->
  (forall a, a < length (nodes s) -> a <> n -> nodes s' !! a = nodes s !! a) ->
  tasks s `prefix_of` tasks s' ->
  Forall2 (leaf_at s') ns vs.
Proof.
  intros ns vs Hrest Hni Hold Htk.
  induction Hrest as [|a v' ns vs' (na & Ha & Hva & Hla) _ IHr]; constructor.
  - exists na. split_and!; auto.
    + rewrite Hold; [done|by eapply lookup_lt_Some|].
      intros ->. apply Hni. by left.
    + eapply view_of_mono; eauto.
  - apply IHr. intros Hin. apply Hni. by right.
Qed.

(** The tree after the loop, by induction on the nodes to append. *)
Lemma append_all_tree fuel : forall ns vs s t,
  repr s t -> size t + length ns <= fuel -> NoDup ns ->
  Forall2 (leaf_at s) ns vs ->
  exists s' t',
    append_all fuel ns (root t) s = (Val (root t'), s') /\
    repr s' t' /\
    map anon (kids_of t') = map anon (kids_of t) ++ appended (size t) vs /\
    lines_below t' = lines_below t ++ map Z.of_nat (seq (size t) (length ns)) /\
    length (nodes s) <= length (nodes s') /\
    (ns = [] -> t' = t) /\
    (ns <> [] -> last (map root (kids_of t')) = last ns) /\
    (ns <> [] -> forall a, a ∈ addrs t' -> last ns = Some a \/ length (nodes s) <= a).
Proof.
  induction ns as [|n ns IH]; intros vs s t Hr Hsz Hnd Hvs.
  { inversion Hvs; subst. exists s, t. simpl. rewrite !app_nil_r.
    split_and!; auto; by intros []. }
  inversion Hvs as [|? v ? vs' (nn & Hn & Hv & Hleaf) Hrest]; subst.
  apply NoDup_cons in Hnd as [Hni Hnd]. simpl in Hsz.
  destruct (Node_append_tree fuel s t n nn v Hr ltac:(lia) Hn Hv Hleaf)
    as (s1 & t1 & Hrun1 & Hr1 & Hk1 & Hl1 & Hsz1 & Hold & Htk & Hlen1 & Hlast1 & Hnew1).
  destruct (IH vs' s1 t1 Hr1)
    as (s' & t' & Hrun & Hr' & Hk' & Hl' & Hlen' & Hnil' & Hlast' & Hnew');
    [lia|done| |].
  { by eapply leaf_at_kept. }
  exists s', t'. split_and!; auto.
  - simpl. unfold bind. by rewrite Hrun1.
  - rewrite Hk', Hk1, Hsz1, <- app_assoc. done.
  - rewrite Hl', Hl1, Hsz1, <- app_assoc. done.
  - lia.
  - discriminate.
  - intros _. destruct ns as [|n' ns'].
    + rewrite (Hnil' eq_refl). exact Hlast1.
    + by rewrite Hlast'.
  - intros _ a Hin. destruct ns as [|n' ns'].
    + rewrite (Hnil' eq_refl) in Hin.
      destruct (Hnew1 a Hin) as [->|Hge]; [by left|by right].
    + destruct (Hnew' ltac:(done) a Hin) as [Hl|Hl]; [by left|right; lia].
Qed.

Lemma import_repr : repr import_store example_tree.
Proof.
  apply (repr_prefix example_store); [exact example_repr| |done].
  by apply prefix_app_r.
Qed.

Lemma import_leaves :
  Forall2 (leaf_at import_store) [5; 6]
    [mkView TASK 7 "x"%string
       (ContentTask (example_task 2 "call Bob"%string false)) None;
     mkView OTHER 9 "y"%string (ContentString "memo"%string) None].
Proof.
  constructor; [|constructor; [|constructor]];
    (eexists; split; [reflexivity|]; split; reflexivity).
Qed.

Lemma import_distinct : NoDup [5; 6].
Proof.
  apply NoDup_cons_2; [|apply NoDup_singleton].
  rewrite list_elem_of_singleton. lia.
Qed.

(** X3: appending childless nodes one after another, as [importGoogle]
    does, gives a tree whose root has the children it had, then the new
    nodes in the order they were appended, with the lines that follow the
    number of nodes the tree had, whatever the lines of the tree were; so
    the lines below the root are 1, 2, 3, ... after the loop when they were
    before it.  Each call clones the tree it is called on, the nodes
    appended before with it: of the nodes given, only the last one is itself
    in the tree in the end, as the last child of the root; every other node
    of the tree is an object made by the loop. *)
Theorem append_all_adds_the_nodes_in_order fuel ns vs s t :
  repr s t -> size t + length ns <= fuel -> NoDup ns ->
  Forall2 (leaf_at s) ns vs ->
  exists s' t',
    append_all fuel ns (root t) s = (Val (root t'), s') /\
    repr s' t' /\
    map anon (kids_of t') = map anon (kids_of t) ++ appended (size t) vs /\
    lines_below t' = lines_below t ++ map Z.of_nat (seq (size t) (length ns)) /\
    (lines_below t = map Z.of_nat (seq 1 (length (lines_below t))) ->
     lines_below t' = map Z.of_nat (seq 1 (length (lines_below t')))) /\
    (ns <> [] -> last (map root (kids_of t')) = last ns) /\
    (ns <> [] -> forall a, a ∈ addrs t' -> last ns = Some a \/ length (nodes s) <= a).
Proof.
  intros Hr Hsz Hnd Hvs.
  destruct (append_all_tree fuel ns vs s t Hr Hsz Hnd Hvs)
    as (s' & t' & Hrun & Hr' & Hk & Hl & _ & _ & Hlast & Hnew).
  exists s', t'. split_and!; auto.
  intros Hlines.
  rewrite Hl, length_app, length_map, length_seq, Hlines.
  rewrite length_map, length_seq.
  pose proof (length_lines_below t) as E. pose proof (height_pos t).
  pose proof (height_le_size t).
  replace (size t) with (S (length (lines_below t))) by lia.
  apply seq_lines.
Qed.

Lemma append_all_adds_the_nodes_in_order_witness :
  repr import_store example_tree /\ size example_tree + length [5; 6] <= 7 /\
  NoDup [5; 6] /\
  Forall2 (leaf_at import_store) [5; 6]
    [mkView TASK 7 "x"%string
       (ContentTask (example_task 2 "call Bob"%string false)) None;
     mkView OTHER 9 "y"%string (ContentString "memo"%string) None] /\
  exists s' t',
    append_all 7 [5; 6] (root example_tree) import_store = (Val (root t'), s') /\
    repr s' t' /\
    map anon (kids_of t') =
      map anon (kids_of example_tree) ++
      appended (size example_tree)
        [mkView TASK 7 "x"%string
           (ContentTask (example_task 2 "call Bob"%string false)) None;
         mkView OTHER 9 "y"%string (ContentString "memo"%string) None] /\
    lines_below t' =
      lines_below example_tree ++
      map Z.of_nat (seq (size example_tree) (length [5; 6])) /\
    (lines_below example_tree =
       map Z.of_nat (seq 1 (length (lines_below example_tree))) ->
     lines_below t' = map Z.of_nat (seq 1 (length (lines_below t')))) /\
    ([5; 6] <> [] -> last (map root (kids_of t')) = last [5; 6]) /\
    ([5; 6] <> [] -> forall a, a ∈ addrs t' ->
       last [5; 6] = Some a \/ length (nodes import_store) <= a).
Proof.
  split; [exact import_repr|]. split; [vm_compute; lia|].
  split; [exact import_distinct|].
  split; [exact import_leaves|].
  apply (append_all_adds_the_nodes_in_order 7 [5; 6]
           [mkView TASK 7 "x"%string
              (ContentTask (example_task 2 "call Bob"%string false)) None;
            mkView OTHER 9 "y"%string (ContentString "memo"%string) None]
           import_store example_tree).
  - exact import_repr.
  - vm_compute; lia.
  - exact import_distinct.
  - exact import_leaves.
Defined.

(** *** [nodeToString] *)

Lemma view_of_type s n v : view_of s n = Some v -> view_type v = node_type n.
Proof.
  unfold view_of. destruct (node_body n) as [[t|x]|x l].
  - destruct (tasks s !! t); [|discriminate]. by intros [= <-].
  - by intros [= <-].
  - by intros [= <-].
Qed.

Lemma view_of_fields s n v :
  view_of s n = Some v ->
  v = mkView (node_type n) (node_line n) (node_id n) (view_content v) (node_collapsed n).
Proof.
  unfold view_of. destruct (node_body n) as [[t|x]|x l].
  - destruct (tasks s !! t); [|discriminate]. by intros [= <-].
  - by intros [= <-].
  - by intros [= <-].
Qed.

Lemma with_depth_unfold d a v kids :
  with_depth d (NT a v kids) = (NT a v kids, d) :: flat_map (with_depth (S d)) kids.
Proof. reflexivity. Qed.

Lemma with_depth_preorder : forall t d, map fst (with_depth d t) = preorder t.
Proof.
  induction t as [a v kids IH] using ntree_ind'. intros d.
  rewrite with_depth_unfold, preorder_unfold. simpl. f_equal.
  induction IH as [|k kids Hk _ IHk]; [done|].
  rewrite !flat_map_cons, map_app, Hk, IHk. done.
Qed.

Lemma forest_with_depth_preorder (ts : list ntree) d :
  map fst (flat_map (with_depth d) ts) = flat_map preorder ts.
Proof.
  induction ts as [|k ts IH]; [done|].
  by rewrite !flat_map_cons, map_app, with_depth_preorder, IH.
Qed.

Lemma concat_with_depth (f : ntree * nat -> nat * nat) d (kids : list ntree) :
  concat (map (fun t => map f (with_depth d t)) kids) =
  map f (flat_map (with_depth d) kids).
Proof.
  induction kids as [|k kids IH]; [done|].
  rewrite flat_map_cons, map_app. simpl. by rewrite IH.
Qed.

(** [flat] lists the nodes below the root in depth-first pre-order, each with
    its depth below the root. *)
Lemma flat_mapM_depth s : forall fuel ts depth,
  Forall (repr s) ts ->
  Forall (fun t => height t <= fuel) ts ->
  mapM (flat_entry fuel depth) (map root ts) s =
  (Val (map (fun t => map (fun e => (root (fst e), snd e)) (with_depth depth t)) ts), s).
Proof.
  induction fuel as [|f IHf].
  { intros [|t ts] depth _ Hh; [done|].
    inversion Hh; subst. pose proof (height_pos t). lia. }
  induction ts as [|t ts IHts]; intros depth Hr Hh; [done|].
  inversion Hr as [|? ? Hrt Hrts]; subst.
  inversion Hh as [|? ? Hht Hhts]; subst.
  destruct t as [a v kids].
  inversion Hrt as [? ? ? n Hn Hv Hc Hk]; subst.
  pose proof (IHf kids (S depth) Hk (height_kids _ _ _ _ Hht)) as Hlk.
  pose proof (IHts depth Hrts Hhts) as Hls.
  simpl. unfold bind at 1. unfold bind at 1. rewrite (getNode_val _ _ _ Hn).
  unfold bind at 1. rewrite flat_nodes_eq, Hc. unfold bind at 1. rewrite Hlk.
  unfold ret. cbv beta iota zeta. unfold bind at 1. rewrite Hls.
  by rewrite concat_with_depth.
Qed.

Lemma flat_depth s fuel t :
  repr s t -> height t <= S fuel ->
  flat fuel (root t) s =
  (Val (map (fun e => (root (fst e), snd e)) (flat_map (with_depth 0) (kids_of t))), s).
Proof.
  intros Hr Hh. destruct t as [a v kids].
  inversion Hr as [? ? ? n Hn Hv Hc Hk]; subst.
  unfold flat. simpl. rewrite (bind_val _ _ _ _ _ (getNode_val _ _ _ Hn)).
  rewrite flat_nodes_eq, Hc. unfold bind.
  rewrite (flat_mapM_depth s fuel kids 0 Hk (height_kids _ _ _ _ Hh)).
  unfold ret. by rewrite concat_with_depth.
Qed.

Lemma Node_toString_view Task_toString s a n v :
  nodes s !! a = Some n -> view_of s n = Some v ->
  Node_toString Task_toString a s = (Val (View_toString Task_toString v), s).
Proof.
  intros Hn Hv. unfold Node_toString.
  rewrite (bind_val _ _ _ _ _ (getNode_val _ _ _ Hn)).
  unfold View_toString. rewrite (view_of_type _ _ _ Hv).
  unfold view_of in Hv. destruct (node_body n) as [[t|x]|x l].
  - destruct (tasks s !! t) as [tk|] eqn:Ht; [|discriminate].
    injection Hv as <-. simpl.
    destruct (node_type n); try reflexivity;
      unfold bind, getTask; by rewrite Ht.
  - injection Hv as <-. simpl. by destruct (node_type n).
  - injection Hv as <-. reflexivity.
Qed.

(** One line of [nodeToString], for a node that holds what its type says. *)
Lemma nodeToString_line_val Task_toString s u d :
  repr s u -> task_has_data (view u) = true ->
  exists s',
    nodeToString_line Task_toString (root u, d) s =
      (Val (outline_line Task_toString (u, d)), s') /\
    extends s s'.
Proof.
  intros Hr Hok. destruct (repr_inv _ _ Hr) as (n & Hn & Hv & _).
  unfold nodeToString_line. cbn [fst snd].
  rewrite (bind_val _ _ _ _ _ (getNode_val _ _ _ Hn)).
  pose proof (view_of_type _ _ _ Hv) as Hty.
  unfold task_has_data in Hok. rewrite Hty in Hok.
  assert (Hplain : node_type n <> TASK ->
    (str <- Node_toString Task_toString (root u) ;;
     ret (depthToIndent d ++ str)%string) s =
    (Val (outline_line Task_toString (u, d)), s)).
  { intros _. rewrite (bind_val _ _ _ _ _ (Node_toString_view _ _ _ _ _ Hn Hv)).
    reflexivity. }
  destruct (node_type n) eqn:Ety.
  2-4: exists s; split; [|apply extends_refl];
       unfold bind at 1; unfold ret at 1; by apply Hplain.
  clear Hplain.
  destruct (view_content (view u)) as [tk| |] eqn:Ec; try discriminate.
  assert (Hb : exists t, node_body n = PlainNode (DataTask t) /\ tasks s !! t = Some tk).
  { unfold view_of in Hv. destruct (node_body n) as [[t|x]|x l].
    - destruct (tasks s !! t) as [tk'|] eqn:Ht; [|discriminate].
      injection Hv as Hv. rewrite <- Hv in Ec. simpl in Ec. injection Ec as ->. eauto.
    - injection Hv as Hv. rewrite <- Hv in Ec. discriminate.
    - injection Hv as Hv. rewrite <- Hv in Ec. discriminate. }
  destruct Hb as (t & Hb & Ht). rewrite Hb.
  set (s1 := mkStore (nodes s) (tasks s ++ [tk]) (log s)).
  assert (He1 : extends s s1).
  { repeat split; simpl; auto. by apply prefix_app_r. }
  assert (Hc1 : Task_clone t s = (Val (length (tasks s)), s1)).
  { unfold Task_clone. by rewrite Ht. }
  assert (Hn1 : nodes s1 !! root u = Some n) by done.
  assert (Hv1 : view_of s1 n = Some (view u)).
  { eapply view_of_mono; [apply He1|exact Hv]. }
  destruct (Node_clone_spec s1 (root u) n (view u) Hn1 Hv1)
    as (c & tks & Hcl & Hvc & _).
  set (s2 := mkStore (nodes s1 ++ [c]) (tasks s1 ++ tks) (log s1)) in *.
  set (c' := set_body (PlainNode (DataTask (length (tasks s)))) c).
  set (s3 := mkStore (<[length (nodes s1):=c']> (nodes s2)) (tasks s2) (log s2)).
  assert (Hc2 : nodes s2 !! length (nodes s1) = Some c) by apply lookup_snoc.
  assert (Hc3 : nodes s3 !! length (nodes s1) = Some c').
  { simpl. apply list_lookup_insert_eq. rewrite length_app. simpl. lia. }
  assert (Htk3 : tasks s3 !! length (tasks s) = Some tk).
  { simpl. rewrite <- app_assoc. apply list_lookup_middle. done. }
  assert (Hv3 : view_of s3 c' = Some (view u)).
  { unfold view_of, c'. simpl. simpl in Htk3. rewrite Htk3.
    pose proof (view_of_fields _ _ _ Hvc) as E. rewrite Ec in E. by rewrite E. }
  exists s3. split.
  - unfold bind at 1. unfold bind at 1. rewrite Hc1.
    unfold bind at 1. rewrite Hcl.
    unfold bind at 1. fold s2. rewrite (modNode_val _ _ _ _ Hc2).
    unfold ret at 1. fold c'. fold s3.
    rewrite (bind_val _ _ _ _ _ (Node_toString_view _ _ _ _ _ Hc3 Hv3)).
    reflexivity.
  - repeat split; simpl; auto.
    + rewrite insert_snoc. by apply prefix_app_r.
    + rewrite <- app_assoc. by apply prefix_app_r.
Qed.

(** One line of [nodeToString], for a node of type TASK that holds a
    string. *)
Lemma nodeToString_line_exn Task_toString s u d :
  repr s u -> task_has_data (view u) = false ->
  nodeToString_line Task_toString (root u, d) s = (Exn TypeError, s).
Proof.
  intros Hr Hok. destruct (repr_inv _ _ Hr) as (n & Hn & Hv & _).
  unfold nodeToString_line. cbn [fst snd].
  rewrite (bind_val _ _ _ _ _ (getNode_val _ _ _ Hn)).
  pose proof (view_of_type _ _ _ Hv) as Hty.
  unfold task_has_data in Hok. rewrite Hty in Hok.
  destruct (node_type n); try discriminate.
  unfold view_of in Hv. destruct (node_body n) as [[t|x]|x l].
  - destruct (tasks s !! t); [|discriminate].
    injection Hv as Hv. rewrite <- Hv in Hok. discriminate.
  - reflexivity.
  - reflexivity.
Qed.

Lemma nodeToString_lines_val Task_toString : forall (L : list (ntree * nat)) s,
  Forall (fun e => repr s (fst e)) L ->
  Forall (fun e => task_has_data (view (fst e)) = true) L ->
  exists s',
    mapM (nodeToString_line Task_toString)
         (map (fun e => (root (fst e), snd e)) L) s =
      (Val (map (outline_line Task_toString) L), s') /\
    extends s s'.
Proof.
  induction L as [|[u d] L IH]; intros s Hr Hok.
  { exists s. split; [done|apply extends_refl]. }
  inversion Hr as [|? ? Hu HL]; subst. inversion Hok as [|? ? Hou HoL]; subst.
  simpl in Hu, Hou.
  destruct (nodeToString_line_val Task_toString s u d Hu Hou) as (s1 & Hrun1 & He1).
  destruct (IH s1) as (s' & Hrun & He); [|done|].
  { eapply Forall_impl; [exact HL|]. intros e. by apply repr_extends. }
  exists s'. split; [|by eapply extends_trans].
  cbn [map mapM fst snd]. unfold bind at 1. rewrite Hrun1.
  unfold bind at 1. rewrite Hrun. reflexivity.
Qed.

Lemma nodeToString_lines_exn Task_toString : forall (L : list (ntree * nat)) s,
  Forall (fun e => repr s (fst e)) L ->
  Exists (fun e => task_has_data (view (fst e)) = false) L ->
  exists s',
    mapM (nodeToString_line Task_toString)
         (map (fun e => (root (fst e), snd e)) L) s = (Exn TypeError, s') /\
    extends s s'.
Proof.
  induction L as [|[u d] L IH]; intros s Hr Hex; [by inversion Hex|].
  inversion Hr as [|? ? Hu HL]; subst. simpl in Hu.
  destruct (task_has_data (view u)) eqn:Hou.
  - destruct (nodeToString_line_val Task_toString s u d Hu Hou) as (s1 & Hrun1 & He1).
    destruct (IH s1) as (s' & Hrun & He).
    { eapply Forall_impl; [exact HL|]. intros e. by apply repr_extends. }
    { inversion Hex as [? ? Hh|? ? Ht]; subst; [|done]. simpl in Hh. congruence. }
    exists s'. split; [|by eapply extends_trans].
    cbn [map mapM fst snd]. unfold bind at 1. rewrite Hrun1.
    unfold bind at 1. rewrite Hrun. reflexivity.
  - exists s. split; [|apply extends_refl].
    cbn [map mapM fst snd]. unfold bind at 1.
    by rewrite (nodeToString_line_exn Task_toString s u d Hu Hou).
Qed.

Lemma repr_below s t :
  repr s t -> Forall (fun e => repr s (fst e)) (flat_map (with_depth 0) (kids_of t)).
Proof.
  intros Hr. apply Forall_forall. intros e He.
  eapply repr_sub; [exact Hr|].
  destruct t as [a v kids]. rewrite preorder_unfold. right. simpl kids_of in *.
  rewrite <- (forest_with_depth_preorder _ 0). by apply list_elem_of_fmap_2.
Qed.

Lemma mistyped_repr : repr mistyped_store mistyped_tree.
Proof.
  econstructor; [reflexivity|reflexivity|reflexivity|].
  constructor; [|constructor].
  econstructor; [reflexivity|reflexivity|reflexivity|constructor].
Qed.

Lemma tasks_have_data_below t :
  tasks_have_data t = true ->
  Forall (fun e => task_has_data (view (fst e)) = true)
         (flat_map (with_depth 0) (kids_of t)).
Proof.
  unfold tasks_have_data. rewrite forallb_forall. intros H.
  apply Forall_forall. intros e He. apply H. apply list_elem_of_In.
  rewrite <- (forest_with_depth_preorder _ 0). by apply list_elem_of_fmap_2.
Qed.

Lemma tasks_lack_data_below t :
  tasks_have_data t = false ->
  Exists (fun e => task_has_data (view (fst e)) = false)
         (flat_map (with_depth 0) (kids_of t)).
Proof.
  unfold tasks_have_data. rewrite <- (forest_with_depth_preorder _ 0).
  induction (flat_map (with_depth 0) (kids_of t)) as [|e L IH]; [discriminate|].
  simpl. destruct (task_has_data (view e.1)) eqn:E; simpl.
  - intros H. right. by apply IH.
  - intros _. by left.
Qed.

(** The run of [nodeToString] on a tree whose nodes hold what their types
    say. *)
Lemma nodeToString_run Task_toString fuel s t :
  repr s t -> size t <= fuel -> tasks_have_data t = true ->
  exists s',
    nodeToString Task_toString fuel (root t) s =
      (Val (join_lines (map (outline_line Task_toString)
                            (flat_map (with_depth 0) (kids_of t)))), s') /\
    extends s s'.
Proof.
  intros Hr Hsz Hok. pose proof (height_le_size t).
  destruct (nodeToString_lines_val Task_toString _ s (repr_below s t Hr)
              (tasks_have_data_below t Hok)) as (s' & Hrun & He).
  exists s'. split; [|done].
  unfold nodeToString. rewrite (bind_val _ _ _ _ _ (flat_depth s fuel t Hr ltac:(lia))).
  unfold bind. by rewrite Hrun.
Qed.

(** X4: [nodeToString] gives one line for each node below the root, in
    depth-first pre-order, joined by line feeds: two spaces for each level
    below the children of the root, then what [toString] gives for the
    node.  It writes no object the caller had: the tree is as it was, and
    nothing is logged. *)
Theorem nodeToString_renders_the_outline Task_toString fuel s t :
  repr s t -> size t <= fuel -> tasks_have_data t = true ->
  exists s',
    nodeToString Task_toString fuel (root t) s =
      (Val (join_lines (map (outline_line Task_toString)
                            (flat_map (with_depth 0) (kids_of t)))), s') /\
    map fst (flat_map (with_depth 0) (kids_of t)) = flat_map preorder (kids_of t) /\
    nodes s `prefix_of` nodes s' /\ tasks s `prefix_of` tasks s' /\
    log s' = log s /\ repr s' t.
Proof.
  intros Hr Hsz Hok.
  destruct (nodeToString_run Task_toString fuel s t Hr Hsz Hok) as (s' & Hrun & He).
  exists s'. split; [exact Hrun|]. split; [apply forest_with_depth_preorder|].
  split; [apply He|]. split; [apply He|]. split; [apply He|].
  by eapply repr_extends.
Qed.

Lemma nodeToString_renders_the_outline_witness :
  repr example_store example_tree /\ size example_tree <= 5 /\
  tasks_have_data example_tree = true /\
  exists s',
    nodeToString task_title 5 (root example_tree) example_store =
      (Val (join_lines (map (outline_line task_title)
                            (flat_map (with_depth 0) (kids_of example_tree)))), s') /\
    map fst (flat_map (with_depth 0) (kids_of example_tree)) =
      flat_map preorder (kids_of example_tree) /\
    nodes example_store `prefix_of` nodes s' /\
    tasks example_store `prefix_of` tasks s' /\
    log s' = log example_store /\ repr s' example_tree.
Proof.
  split; [exact example_repr|]. split; [vm_compute; lia|]. split; [reflexivity|].
  apply (nodeToString_renders_the_outline task_title 5 example_store example_tree).
  - exact example_repr.
  - vm_compute; lia.
  - reflexivity.
Defined.

(** X5: when the lines below the root are 1, 2, 3, ... and no node is
    written with a line feed, the node with the line [k] is on line [k] of
    the text [nodeToString] gives.  When the root has children the text has
    one line for each node below the root; when it has none the text is
    empty, which [split] reads as one empty line, for no node. *)
Theorem nodeToString_puts_each_node_on_its_line Task_toString fuel s t :
  repr s t -> size t <= fuel -> tasks_have_data t = true ->
  one_line_each Task_toString t = true ->
  lines_below t = map Z.of_nat (seq 1 (length (lines_below t))) ->
  exists text s',
    nodeToString Task_toString fuel (root t) s = (Val text, s') /\
    (kids_of t <> [] -> length (split_lines text) = size t - 1) /\
    (kids_of t = [] ->
     text = EmptyString /\ split_lines text = [EmptyString] /\ size t - 1 = 0) /\
    length (split_lines text) = Nat.max 1 (size t - 1) /\
    forall u d, (u, d) ∈ flat_map (with_depth 0) (kids_of t) ->
      js_get (split_lines text) (view_line (view u) - 1) =
      Some (outline_line Task_toString (u, d)).
Proof.
  intros Hr Hsz Hok Hnl Hlines.
  destruct (nodeToString_run Task_toString fuel s t Hr Hsz Hok) as (s' & Hrun & He).
  eexists _, s'. split; [exact Hrun|].
  set (L := flat_map (with_depth 0) (kids_of t)) in *.
  assert (HL : map fst L = flat_map preorder (kids_of t))
    by apply forest_with_depth_preorder.
  assert (Hlen : length L = size t - 1).
  { by rewrite <- (length_map fst), HL, length_below. }
  assert (Hsplit : L <> [] ->
            split_lines (join_lines (map (outline_line Task_toString) L)) =
            map (outline_line Task_toString) L).
  { intros Hne. apply split_join.
    - by destruct L.
    - apply Forall_forall. intros x Hx.
      apply list_elem_of_fmap in Hx as (e & -> & Hin).
      unfold one_line_each in Hnl. rewrite forallb_forall in Hnl.
      apply list_elem_of_In in Hin. apply Hnl in Hin. by apply negb_true_iff in Hin. }
  assert (Hkids : kids_of t <> [] -> L <> []).
  { intros Hk E. unfold L in E. destruct (kids_of t) as [|k ks]; [done|].
    rewrite flat_map_cons in E. destruct k. discriminate. }
  assert (Hfull : kids_of t <> [] ->
            length (split_lines (join_lines (map (outline_line Task_toString) L))) =
            size t - 1).
  { intros Hk. by rewrite Hsplit, length_map; [|apply Hkids]. }
  assert (Hnone : kids_of t = [] -> L = []).
  { intros E. unfold L. by rewrite E. }
  split_and!.
  - exact Hfull.
  - intros E. rewrite (Hnone E) in Hlen |- *. simpl in Hlen. simpl. split_and!; auto.
  - destruct (kids_of t) as [|k ks] eqn:E.
    + rewrite (Hnone eq_refl) in Hlen |- *. simpl in *. by rewrite <- Hlen.
    + rewrite Hfull by done.
      pose proof (Hkids ltac:(done)) as HLne.
      destruct L; [done|]. simpl in Hlen. lia.
  - intros u d Hin.
    rewrite Hsplit by (intros E; rewrite E in Hin; inversion Hin).
    apply list_elem_of_lookup in Hin as (k & Hk).
    assert (Hu : lines_below t !! k = Some (view_line (view u))).
    { unfold lines_below. rewrite <- HL, list_lookup_fmap, list_lookup_fmap, Hk. done. }
    assert (Hkl : k < length (lines_below t)) by (by eapply lookup_lt_Some).
    rewrite Hlines, list_lookup_fmap, lookup_seq_lt in Hu by done.
    injection Hu as Hu.
    unfold js_get. destruct (Z.ltb_spec (view_line (view u) - 1) 0); [lia|].
    replace (Z.to_nat (view_line (view u) - 1)) with k by lia.
    by rewrite list_lookup_fmap, Hk.
Qed.

Lemma nodeToString_puts_each_node_on_its_line_witness :
  repr example_store example_tree /\ size example_tree <= 5 /\
  tasks_have_data example_tree = true /\
  one_line_each task_title example_tree = true /\
  lines_below example_tree =
    map Z.of_nat (seq 1 (length (lines_below example_tree))) /\
  exists text s',
    nodeToString task_title 5 (root example_tree) example_store = (Val text, s') /\
    (kids_of example_tree <> [] ->
     length (split_lines text) = size example_tree - 1) /\
    (kids_of example_tree = [] ->
     text = EmptyString /\ split_lines text = [EmptyString] /\
     size example_tree - 1 = 0) /\
    length (split_lines text) = Nat.max 1 (size example_tree - 1) /\
    forall u d, (u, d) ∈ flat_map (with_depth 0) (kids_of example_tree) ->
      js_get (split_lines text) (view_line (view u) - 1) =
      Some (outline_line task_title (u, d)).
Proof.
  split; [exact example_repr|]. split; [vm_compute; lia|]. split; [reflexivity|].
  split; [reflexivity|]. split; [reflexivity|].
  apply (nodeToString_puts_each_node_on_its_line task_title 5 example_store example_tree).
  - exact example_repr.
  - vm_compute; lia.
  - reflexivity.
  - reflexivity.
  - reflexivity.
Defined.

(** X6: when a node of type TASK below the root holds a string and not a
    [Task], [nodeToString] throws a [TypeError]; the objects the caller had
    are as they were. *)
Theorem nodeToString_throws_on_a_task_without_Task Task_toString fuel s t :
  repr s t -> size t <= fuel -> tasks_have_data t = false ->
  exists s',
    nodeToString Task_toString fuel (root t) s = (Exn TypeError, s') /\
    nodes s `prefix_of` nodes s' /\ tasks s `prefix_of` tasks s' /\
    log s' = log s /\ repr s' t.
Proof.
  intros Hr Hsz Hok. pose proof (height_le_size t).
  destruct (nodeToString_lines_exn Task_toString _ s (repr_below s t Hr)
              (tasks_lack_data_below t Hok)) as (s' & Hrun & He).
  exists s'. split.
  - unfold nodeToString. rewrite (bind_val _ _ _ _ _ (flat_depth s fuel t Hr ltac:(lia))).
    unfold bind. by rewrite Hrun.
  - split; [apply He|]. split; [apply He|]. split; [apply He|].
    by eapply repr_extends.
Qed.

Lemma nodeToString_throws_on_a_task_without_Task_witness :
  repr mistyped_store mistyped_tree /\ size mistyped_tree <= 2 /\
  tasks_have_data mistyped_tree = false /\
  exists s',
    nodeToString task_title 2 (root mistyped_tree) mistyped_store =
      (Exn TypeError, s') /\
    nodes mistyped_store `prefix_of` nodes s' /\
    tasks mistyped_store `prefix_of` tasks s' /\
    log s' = log mistyped_store /\ repr s' mistyped_tree.
Proof.
  split; [exact mistyped_repr|]. split; [vm_compute; lia|]. split; [reflexivity|].
  apply (nodeToString_throws_on_a_task_without_Task task_title 2
           mistyped_store mistyped_tree).
  - exact mistyped_repr.
  - vm_compute; lia.
  - reflexivity.
Defined.

(** *** [updateRecords] *)

(** The records [updateRecords] returns for the text [data]. *)
Lemma updateRecords_run {TaskRecordType : Type} Task_toString (date : TaskRecordType)
    fuel (records : list (TaskRecord TaskRecordType)) key s t :
  repr s t -> size t <= fuel -> tasks_have_data t = true ->
  exists s',
    updateRecords Task_toString date fuel records key (root t) s =
      (Val (let data := join_lines (map (outline_line Task_toString)
                                        (flat_map (with_depth 0) (kids_of t))) in
            let newRecords :=
              map (fun r => if String.eqb (record_key r) key
                            then mkTaskRecord (record_key r) (record_type r) data
                            else r) records in
            if existsb (fun r => String.eqb (record_key r) key) records
            then newRecords
            else newRecords ++ [mkTaskRecord key date data]), s') /\
    extends s s'.
Proof.
  intros Hr Hsz Hok.
  destruct (nodeToString_run Task_toString fuel s t Hr Hsz Hok) as (s' & Hrun & He).
  exists s'. split; [|done].
  unfold updateRecords. rewrite (bind_val _ _ _ _ _ Hrun). unfold ret. cbv zeta.
  by destruct (existsb _ records).
Qed.

Lemma existsb_key_set {TaskRecordType : Type} (records : list (TaskRecord TaskRecordType))
    key data :
  existsb (fun r => String.eqb (record_key r) key)
    (map (fun r => if String.eqb (record_key r) key
                   then mkTaskRecord (record_key r) (record_type r) data
                   else r) records) =
  existsb (fun r => String.eqb (record_key r) key) records.
Proof.
  induction records as [|r records IH]; [done|]. simpl. rewrite IH.
  destruct (String.eqb (record_key r) key) eqn:E; simpl; by rewrite E.
Qed.

Lemma filter_key_set {TaskRecordType : Type} (records : list (TaskRecord TaskRecordType))
    key data :
  List.filter (fun r => negb (String.eqb (record_key r) key))
    (map (fun r => if String.eqb (record_key r) key
                   then mkTaskRecord (record_key r) (record_type r) data
                   else r) records) =
  List.filter (fun r => negb (String.eqb (record_key r) key)) records.
Proof.
  induction records as [|r records IH]; [done|]. cbn [map List.filter].
  rewrite IH. destruct (String.eqb (record_key r) key) eqn:E; simpl; by rewrite E.
Qed.

Lemma map_key_set_twice {TaskRecordType : Type} (records : list (TaskRecord TaskRecordType))
    key data :
  map (fun r => if String.eqb (record_key r) key
                then mkTaskRecord (record_key r) (record_type r) data
                else r)
    (map (fun r => if String.eqb (record_key r) key
                   then mkTaskRecord (record_key r) (record_type r) data
                   else r) records) =
  map (fun r => if String.eqb (record_key r) key
                then mkTaskRecord (record_key r) (record_type r) data
                else r) records.
Proof.
  rewrite map_map. apply map_ext. intros r.
  destruct (String.eqb (record_key r) key) eqn:E; simpl; by rewrite E.
Qed.

(** X7: [updateRecords] returns records among which the key is present, and
    every record with the key holds the text of the tree; the records with
    another key are as they were; the keys are the keys as they were, in the
    same order, with the key added at the end when it was not there. *)
Theorem updateRecords_sets_the_text_of_the_key {TaskRecordType : Type}
    Task_toString (date : TaskRecordType) fuel
    (records : list (TaskRecord TaskRecordType)) key s t :
  repr s t -> size t <= fuel -> tasks_have_data t = true ->
  exists newRecords data s',
    updateRecords Task_toString date fuel records key (root t) s =
      (Val newRecords, s') /\
    nodeToString Task_toString fuel (root t) s = (Val data, s') /\
    (exists r, r ∈ newRecords /\ record_key r = key) /\
    (forall r, r ∈ newRecords -> record_key r = key -> record_data r = data) /\
    List.filter (fun r => negb (String.eqb (record_key r) key)) newRecords =
      List.filter (fun r => negb (String.eqb (record_key r) key)) records /\
    map record_key newRecords =
      map record_key records ++
      (if existsb (fun r => String.eqb (record_key r) key) records then [] else [key]).
Proof.
  intros Hr Hsz Hok.
  destruct (updateRecords_run Task_toString date fuel records key s t Hr Hsz Hok)
    as (s' & Hrun & He).
  destruct (nodeToString_run Task_toString fuel s t Hr Hsz Hok) as (s'' & Hrun' & _).
  assert (s'' = s').
  { unfold updateRecords in Hrun. rewrite (bind_val _ _ _ _ _ Hrun') in Hrun.
    unfold ret in Hrun. by injection Hrun. }
  subst s''.
  eexists _, _, s'. split; [exact Hrun|]. split; [exact Hrun'|]. cbv zeta.
  set (data := join_lines _).
  set (upd := fun r : TaskRecord TaskRecordType =>
                if String.eqb (record_key r) key
                then mkTaskRecord (record_key r) (record_type r) data else r).
  assert (Hkeys : map record_key (map upd records) = map record_key records).
  { rewrite map_map. apply map_ext. intros r. unfold upd.
    by destruct (String.eqb (record_key r) key). }
  assert (Hdata : forall r, r ∈ map upd records -> record_key r = key ->
                            record_data r = data).
  { intros r Hin Hk. apply list_elem_of_fmap in Hin as (r0 & -> & _). unfold upd in *.
    destruct (String.eqb (record_key r0) key) eqn:E; [done|].
    apply String.eqb_neq in E. done. }
  assert (Hother : List.filter (fun r => negb (String.eqb (record_key r) key)) (map upd records) =
                   List.filter (fun r => negb (String.eqb (record_key r) key)) records).
  { apply filter_key_set. }
  destruct (existsb _ records) eqn:Ex.
  - split_and!; auto.
    + apply existsb_exists in Ex as (r & Hin & Hk). apply String.eqb_eq in Hk.
      exists (upd r). split.
      * apply list_elem_of_fmap_2. by apply list_elem_of_In.
      * unfold upd. by destruct (String.eqb (record_key r) key).
    + by rewrite Hkeys, app_nil_r.
  - split_and!.
    + eexists. split; [apply elem_of_app; right; by left|done].
    + intros r [Hin| ->%list_elem_of_singleton]%elem_of_app Hk; [by apply Hdata|done].
    + rewrite List.filter_app. simpl. rewrite String.eqb_refl. simpl.
      by rewrite app_nil_r.
    + by rewrite map_app, Hkeys.
Qed.

Lemma updateRecords_sets_the_text_of_the_key_witness :
  repr example_store example_tree /\ size example_tree <= 5 /\
  tasks_have_data example_tree = true /\
  exists newRecords data s',
    updateRecords task_title "Date"%string 5 example_records "2022-01-02"%string
      (root example_tree) example_store = (Val newRecords, s') /\
    nodeToString task_title 5 (root example_tree) example_store = (Val data, s') /\
    (exists r, r ∈ newRecords /\ record_key r = "2022-01-02"%string) /\
    (forall r, r ∈ newRecords -> record_key r = "2022-01-02"%string ->
               record_data r = data) /\
    List.filter (fun r => negb (String.eqb (record_key r) "2022-01-02"%string)) newRecords =
      List.filter (fun r => negb (String.eqb (record_key r) "2022-01-02"%string))
        example_records /\
    map record_key newRecords =
      map record_key example_records ++
      (if existsb (fun r => String.eqb (record_key r) "2022-01-02"%string) example_records
       then [] else ["2022-01-02"%string]).
Proof.
  split; [exact example_repr|]. split; [vm_compute; lia|]. split; [reflexivity|].
  apply (updateRecords_sets_the_text_of_the_key task_title "Date"%string 5
           example_records "2022-01-02"%string example_store example_tree).
  - exact example_repr.
  - vm_compute; lia.
  - reflexivity.
Defined.

(** X8: saving the same tree under the same key once more changes nothing:
    [updateRecords] on the records it returned returns them again. *)
Theorem updateRecords_again_changes_nothing {TaskRecordType : Type}
    Task_toString (date : TaskRecordType) fuel
    (records : list (TaskRecord TaskRecordType)) key s t :
  repr s t -> size t <= fuel -> tasks_have_data t = true ->
  exists newRecords s' s'',
    updateRecords Task_toString date fuel records key (root t) s =
      (Val newRecords, s') /\
    updateRecords Task_toString date fuel newRecords key (root t) s' =
      (Val newRecords, s'').
Proof.
  intros Hr Hsz Hok.
  destruct (updateRecords_run Task_toString date fuel records key s t Hr Hsz Hok)
    as (s' & Hrun & He).
  assert (Hr' : repr s' t) by (by eapply repr_extends).
  match type of Hrun with _ = (Val ?new, _) => set (newRecords := new) in * end.
  destruct (updateRecords_run Task_toString date fuel newRecords key s' t Hr' Hsz Hok)
    as (s'' & Hrun2 & _).
  exists newRecords, s', s''. split; [exact Hrun|]. rewrite Hrun2. do 2 f_equal.
  unfold newRecords. cbv zeta.
  destruct (existsb _ records) eqn:Ex.
  - by rewrite existsb_key_set, Ex, map_key_set_twice.
  - rewrite existsb_app, existsb_key_set, Ex. simpl. rewrite String.eqb_refl. simpl.
    rewrite map_app, map_key_set_twice. simpl. by rewrite String.eqb_refl.
Qed.

Lemma updateRecords_again_changes_nothing_witness :
  repr example_store example_tree /\ size example_tree <= 5 /\
  tasks_have_data example_tree = true /\
  exists newRecords s' s'',
    updateRecords task_title "Date"%string 5 example_records "2022-01-02"%string
      (root example_tree) example_store = (Val newRecords, s') /\
    updateRecords task_title "Date"%string 5 newRecords "2022-01-02"%string
      (root example_tree) s' = (Val newRecords, s'').
Proof.
  split; [exact example_repr|]. split; [vm_compute; lia|]. split; [reflexivity|].
  apply (updateRecords_again_changes_nothing task_title "Date"%string 5
           example_records "2022-01-02"%string example_store example_tree).
  - exact example_repr.
  - vm_compute; lia.
  - reflexivity.
Defined.

(** *** [find] by id *)

Lemma first_match_id_is s id : forall X,
  Forall (repr s) X ->
  first_match (id_is id) s (map root X) =
  Val (root <$> List.find (fun u => String.eqb (view_id (view u)) id) X).
Proof.
  induction X as [|u X IH]; intros Hr; [done|].
  inversion Hr as [|? ? Hu HX]; subst.
  destruct (repr_inv _ _ Hu) as (n & Hn & Hv & _).
  simpl. unfold id_is at 1. rewrite Hn, <- (view_of_id _ _ _ Hv).
  destruct (String.eqb _ id); [done|]. by apply IH.
Qed.

(** X9: [find] with the predicate [(n) => n.id === id] returns a node of the
    tree that has this id, the first one in breadth-first order, and null
    exactly when no node of the tree has it; nothing is logged. *)
Theorem find_by_id fuel id s t :
  repr s t -> size t <= fuel ->
  exists r,
    Node_find fuel (id_is id) (root t) s = (Val r, s) /\
    match r with
    | Some a =>
        exists l1 u l2,
          bfs t = l1 ++ u :: l2 /\ root u = a /\ view_id (view u) = id /\
          (forall w, w ∈ l1 -> view_id (view w) <> id)
    | None => forall u, u ∈ preorder t -> view_id (view u) <> id
    end.
Proof.
  intros Hr Hsz.
  rewrite (Node_find_spec fuel (id_is id) s t Hr Hsz).
  rewrite first_match_id_is.
  2:{ apply Forall_forall. intros u Hu. eapply repr_sub; [exact Hr|]. by apply bfs_preorder. }
  destruct (List.find _ (bfs t)) as [u|] eqn:E; simpl.
  - exists (Some (root u)). split; [done|].
    assert (G : forall X, List.find (fun u => String.eqb (view_id (view u)) id) X = Some u ->
              exists l1 l2, X = l1 ++ u :: l2 /\ view_id (view u) = id /\
                            forall w, w ∈ l1 -> view_id (view w) <> id).
    { clear. induction X as [|x X IH]; [discriminate|]. simpl.
      destruct (String.eqb_spec (view_id (view x)) id) as [Ex|Ex].
      - intros [= ->]. exists [], X. split_and!; auto. intros w Hw. inversion Hw.
      - intros H. destruct (IH H) as (l1 & l2 & -> & Hid & Hl1).
        exists (x :: l1), l2. split_and!; auto.
        intros w [->|Hw]%elem_of_cons; auto. }
    destruct (G _ E) as (l1 & l2 & Hb & Hid & Hl1). by exists l1, u, l2.
  - exists None. split; [done|]. intros u Hu Hid.
    assert (Hb : u ∈ bfs t) by (by rewrite (bfs_perm t)).
    apply list_elem_of_In in Hb.
    apply (find_none _ _ E) in Hb. rewrite Hid, String.eqb_refl in Hb. discriminate.
Qed.

Lemma find_by_id_witness :
  repr example_store example_tree /\ size example_tree <= 5 /\
  exists r,
    Node_find 5 (id_is "t2"%string) (root example_tree) example_store =
      (Val r, example_store) /\
    match r with
    | Some a =>
        exists l1 u l2,
          bfs example_tree = l1 ++ u :: l2 /\ root u = a /\
          view_id (view u) = "t2"%string /\
          (forall w, w ∈ l1 -> view_id (view w) <> "t2"%string)
    | None => forall u, u ∈ preorder example_tree -> view_id (view u) <> "t2"%string
    end.
Proof.
  split; [exact example_repr|]. split; [vm_compute; lia|].
  apply (find_by_id 5 "t2"%string example_store example_tree).
  - exact example_repr.
  - vm_compute; lia.
Defined.

(** *** [filter] twice *)

Lemma prune_idem P : forall t t', prune P t = Some t' -> prune P t' = Some t'.
Proof.
  induction t as [a v kids IH] using ntree_ind'. intros t' Hpr.
  apply prune_Some in Hpr as [-> Hor].
  assert (E : omap (prune P) (omap (prune P) kids) = omap (prune P) kids).
  { clear Hor. induction IH as [|k kids Hk _ IHk]; [done|].
    rewrite omap_cons. destruct (prune P k) as [k'|] eqn:Ek; [|exact IHk].
    rewrite omap_cons, (Hk k' eq_refl). by rewrite IHk. }
  rewrite prune_unfold, E.
  destruct Hor as [->|Hne]; [done|].
  destruct (omap (prune P) kids); [done|]. simpl. by rewrite andb_false_r.
Qed.

Lemma omap_prune_idem P (kids : list ntree) :
  omap (prune P) (omap (prune P) kids) = omap (prune P) kids.
Proof.
  induction kids as [|k kids IH]; [done|].
  rewrite omap_cons. destruct (prune P k) as [k'|] eqn:Ek; [|exact IH].
  rewrite omap_cons, (prune_idem P k k' Ek). by rewrite IH.
Qed.

Lemma prune_root_idem P t : prune_root P (prune_root P t) = prune_root P t.
Proof. destruct t as [a v kids]. simpl. by rewrite omap_prune_idem. Qed.

Lemma prune_unline P : ignores_line P ->
  forall t, prune P (unline t) = unline <$> prune P t.
Proof.
  intros HP. induction t as [a v kids IH] using ntree_ind'.
  assert (E : omap (prune P) (map unline kids) = map unline (omap (prune P) kids)).
  { induction IH as [|k kids Hk _ IHk]; [done|].
    rewrite map_cons, !omap_cons, Hk. destruct (prune P k); simpl; by rewrite IHk. }
  cbn [unline]. rewrite !prune_unfold, E, length_map.
  change (no_line v) with (with_line 0%Z v). rewrite HP.
  by destruct (negb (P v) && _).
Qed.

Lemma prune_root_unline P t :
  ignores_line P -> prune_root P (unline t) = unline (prune_root P t).
Proof.
  intros HP. destruct t as [a v kids]. simpl. f_equal.
  induction kids as [|k kids IH]; [done|].
  rewrite map_cons, !omap_cons, (prune_unline P HP).
  destruct (prune P k); simpl; by rewrite IH.
Qed.

Lemma size_unline : forall t, size (unline t) = size t.
Proof.
  induction t as [a v kids IH] using ntree_ind'. simpl. f_equal.
  induction IH as [|k kids Hk _ IHk]; [done|]. simpl. by rewrite Hk, IHk.
Qed.

Lemma size_pruned P t : size (prune_root P t) <= size t.
Proof.
  rewrite <- !length_preorder.
  pose proof (sublist_length _ _ (addrs_pruned_sublist P t)) as H.
  unfold addrs in H. by rewrite !length_map in H.
Qed.

Lemma sibling_ids_unline : forall t, sibling_ids (unline t) <-> sibling_ids t.
Proof.
  induction t as [a v kids IH] using ntree_ind'.
  assert (E : map (fun k => view_id (view k)) (map unline kids) =
              map (fun k => view_id (view k)) kids).
  { rewrite map_map. apply map_ext. by intros [? ? ?]. }
  split; intros [Hnd Hk]; simpl in *; constructor; simpl.
  - by rewrite <- E.
  - rewrite Forall_forall in *. intros k Hin. apply IH; [done|].
    apply Hk. by apply list_elem_of_fmap_2.
  - by rewrite E.
  - rewrite Forall_forall in *. intros k' Hin.
    apply list_elem_of_fmap in Hin as (k & -> & Hin). apply IH; auto.
Qed.

Lemma sibling_ids_pruned P : forall t t', sibling_ids t -> prune P t = Some t' -> sibling_ids t'.
Proof.
  induction t as [a v kids IH] using ntree_ind'. intros t' [Hnd Hk] Hpr.
  apply prune_Some in Hpr as [-> _]. simpl in *. constructor; simpl.
  - eapply sublist_NoDup; [exact Hnd|].
    clear. induction kids as [|k kids IHk]; [constructor|].
    rewrite omap_cons. destruct (prune P k) as [k'|] eqn:E.
    + apply prune_Some_eq in E as ->. simpl.
      destruct k. simpl. by constructor.
    + by constructor.
  - rewrite Forall_forall in *. intros k' Hin.
    apply list_elem_of_omap in Hin as (k & Hin & Hpr). eapply IH; eauto.
Qed.

Lemma sibling_ids_prune_root P t : sibling_ids t -> sibling_ids (prune_root P t).
Proof.
  intros [Hnd Hk]. destruct t as [a v kids]. simpl in *. constructor; simpl.
  - eapply sublist_NoDup; [exact Hnd|].
    clear. induction kids as [|k kids IHk]; [constructor|].
    rewrite omap_cons. destruct (prune P k) as [k'|] eqn:E.
    + apply prune_Some_eq in E as ->. simpl.
      destruct k. simpl. by constructor.
    + by constructor.
  - rewrite Forall_forall in *. intros k' Hin.
    apply list_elem_of_omap in Hin as (k & Hin & Hpr).
    eapply sibling_ids_pruned; eauto.
Qed.

(** X10: for a predicate that is a total boolean function of the content of
    a node (its type, id, data and collapsed flag; not its line, its parent
    or its children), filtering the result of [filter] again with the same
    predicate changes nothing: the second result has the nodes, the order
    and the lines of the first. *)
Theorem filter_twice fuel P s t :
  repr s t -> sibling_ids t -> size t <= fuel -> ignores_line P ->
  exists s1 t1 s2 t2,
    Node_filter fuel (on_view (total P)) (root t) s = (Val (root t1), s1) /\
    repr s1 t1 /\
    Node_filter fuel (on_view (total P)) (root t1) s1 = (Val (root t2), s2) /\
    repr s2 t2 /\
    anon (unline t2) = anon (unline t1) /\
    lines_below t2 = lines_below t1.
Proof.
  intros Hr Hids Hsz HP.
  destruct (Node_filter_spec fuel P s t Hr Hids Hsz)
    as (s1 & t1 & Hrun1 & _ & _ & _ & Hr1 & _ & _ & _ & Han1 & Hlines1).
  assert (Hsz1 : size t1 = size (prune_root P t)).
  { by rewrite <- (size_unline t1), <- size_anon, Han1, size_anon, size_unline. }
  assert (Hids1 : sibling_ids t1).
  { apply sibling_ids_unline, sibling_ids_anon. rewrite Han1.
    by apply anon_sibling_ids, sibling_ids_unline, sibling_ids_prune_root. }
  destruct (Node_filter_spec fuel P s1 t1 Hr1 Hids1)
    as (s2 & t2 & Hrun2 & _ & _ & _ & Hr2 & _ & _ & _ & Han2 & Hlines2).
  { pose proof (size_pruned P t). lia. }
  assert (Han : anon (unline t2) = anon (unline t1)).
  { rewrite Han2, <- prune_root_unline, <- prune_root_anon by done.
    rewrite Han1, prune_root_anon, prune_root_unline by done.
    by rewrite prune_root_idem. }
  exists s1, t1, s2, t2. split_and!; auto.
  rewrite Hlines1, Hlines2. do 2 f_equal.
  rewrite !length_lines_below.
  by rewrite <- (size_unline t2), <- size_anon, Han, size_anon, size_unline.
Qed.

Lemma is_complete_ignores_line : ignores_line is_complete.
Proof. intros z v. reflexivity. Qed.

Lemma filter_twice_witness :
  repr example_store example_tree /\ sibling_ids example_tree /\
  size example_tree <= 5 /\ ignores_line is_complete /\
  exists s1 t1 s2 t2,
    Node_filter 5 (on_view (total is_complete)) (root example_tree) example_store
      = (Val (root t1), s1) /\
    repr s1 t1 /\
    Node_filter 5 (on_view (total is_complete)) (root t1) s1 = (Val (root t2), s2) /\
    repr s2 t2 /\
    anon (unline t2) = anon (unline t1) /\
    lines_below t2 = lines_below t1.
Proof.
  split; [exact example_repr|]. split; [exact example_sibling_ids|].
  split; [vm_compute; lia|]. split; [exact is_complete_ignores_line|].
  apply (filter_twice 5 is_complete example_store example_tree).
  - exact example_repr.
  - exact example_sibling_ids.
  - vm_compute; lia.
  - exact is_complete_ignores_line.
Defined.

(** The predicate has to be one on the content of a node: with a predicate
    that reads the children of the parent, the second [filter] takes out
    nodes the first one kept.  On the example the first result has the
    heading, with the task t2, and the note; the second has the note
    only. *)
Lemma second_filter_reading_the_siblings :
  exists s1 r1 s2 r2,
    Node_filter 5 not_first_child 0 example_store = (Val 6, s1) /\
    nodes s1 !! 6 = Some r1 /\ node_children r1 = [7; 10] /\
    Node_filter 5 not_first_child 6 s1 = (Val 11, s2) /\
    nodes s2 !! 11 = Some r2 /\ node_children r2 = [14].
Proof.
  do 4 eexists. split; [vm_compute; reflexivity|].
  split; [reflexivity|]. split; [reflexivity|].
  split; [vm_compute; reflexivity|]. split; reflexivity.
Qed.

(** *** [replace] and the objects of the caller *)

(** The store [replace] returns: the clone as built, possibly with one error
    logged by [find], or the clone with [node] written and put in the place
    of the node found. *)
Lemma Node_replace_run fuel predicate s t node nn :
  repr s t -> sibling_ids t -> size t <= fuel ->
  nodes s !! node = Some nn ->
  exists t1 s1,
    clone fuel [root t] None s = (Val [root t1], s1) /\
    extends s s1 /\ repr s1 t1 /\ linked s1 None t1 /\
    (forall a, a ∈ addrs t1 -> length (nodes s) <= a < length (nodes s1)) /\
    NoDup (addrs t1) /\
    ((exists r, Node_replace fuel node predicate (root t) s = (r, s1)) \/
     (exists e, Node_replace fuel node predicate (root t) s =
                (Val (root t1), mkStore (nodes s1) (tasks s1) (log s1 ++ [e]))) \/
     (exists u w i tn pn,
        w ∈ preorder t1 /\ kids_of w !! i = Some u /\
        nodes s1 !! root u = Some tn /\
        node_children tn = map root (kids_of u) /\
        nodes s1 !! root w = Some pn /\
        node_children pn = map root (kids_of w) /\
        Node_replace fuel node predicate (root t) s =
        (Val (root t1),
         mkStore
           (<[root w:=set_children (<[i:=node]> (node_children pn)) pn]>
              (<[node:=replacement nn tn (root w)]> (nodes s1)))
           (tasks s1) (log s1)))).
Proof.
  intros Hr Hids Hsz Hnode.
  pose proof (height_le_size t) as Hhs.
  destruct (clone_one fuel s t Hr) as (t1 & s1 & Hcl & He & Hr1 & Hl1 & Ha & Hrg & Hnd & _);
    [lia|].
  assert (Hids1 : sibling_ids t1).
  { apply sibling_ids_anon. rewrite Ha. by apply anon_sibling_ids. }
  assert (Hsz1 : size t1 <= fuel).
  { rewrite <- size_anon, Ha, size_anon. done. }
  exists t1, s1. split_and!; auto.
  assert (Hev : exists r, Node_replace fuel node predicate (root t) s = r /\
                          r = Node_replace fuel node predicate (root t) s) by eauto.
  destruct Hev as (r & Hev & Er). rewrite Hev.
  rewrite Node_replace_eq in Er. unfold bind at 1 in Er. rewrite Hcl in Er.
  unfold bind at 1 in Er. rewrite (Node_find_spec fuel predicate s1 t1 Hr1 Hsz1) in Er.
  clear Hev.
  destruct (first_match predicate s1 (map root (bfs t1))) as [[target|]|e| |] eqn:Hscan;
    try (subst r; by eauto).
  apply first_match_Some, list_elem_of_fmap in Hscan as (u & -> & Hu).
  apply bfs_preorder in Hu.
  destruct (repr_inv _ _ (repr_sub _ _ _ Hr1 Hu)) as (tn & Htn & Hvtn & Hctn & _).
  rewrite (bind_val _ _ _ _ _ (getNode_val _ _ _ Htn)) in Er.
  destruct (preorder_parent _ _ Hu) as [->|(w & i & Hw & Hi)].
  { left. destruct (linked_inv _ _ _ Hl1) as (n' & Hn' & Hp' & _).
    assert (n' = tn) by congruence. subst n'. rewrite Hp' in Er. subst r. eauto. }
  right. right.
  destruct (linked_sub _ _ _ _ Hl1 Hw) as (q & Hlw).
  destruct (linked_inv _ _ _ Hlw) as (pn & Hpn & _ & Hlk).
  destruct (repr_inv _ _ (repr_sub _ _ _ Hr1 Hw)) as (pn' & Hpn' & Hvpn & Hcpn & Hrk).
  assert (pn' = pn) by congruence. subst pn'.
  assert (Hukid : u ∈ kids_of w) by (apply list_elem_of_lookup; eauto).
  rewrite Forall_forall in Hlk, Hrk.
  destruct (linked_inv _ _ _ (Hlk u Hukid)) as (tn' & Htn' & Hptn & _).
  assert (tn' = tn) by congruence. subst tn'.
  assert (Hnode1 : nodes s1 !! node = Some nn) by (eapply extends_node; eauto).
  assert (Hnode_old : node < length (nodes s)) by (by eapply lookup_lt_Some).
  assert (Hw_new : length (nodes s) <= root w).
  { apply Hrg. by apply addrs_preorder. }
  set (nn' := replacement nn tn (root w)).
  set (s2 := mkStore (<[node:=nn']> (nodes s1)) (tasks s1) (log s1)).
  assert (Hpn2 : nodes s2 !! root w = Some pn).
  { simpl. rewrite list_lookup_insert_ne by lia. done. }
  assert (Hnode2 : nodes s2 !! node = Some nn').
  { simpl. apply list_lookup_insert_eq. by eapply lookup_lt_Some. }
  set (cs := <[i:=node]> (node_children pn)).
  exists u, w, i, tn, pn. split_and!; auto.
  rewrite Er, Hptn.
  unfold bind at 1. rewrite (modNode_val _ _ _ _ Hnode1). fold nn' s2.
  rewrite (bind_val _ _ _ _ _ (getNode_val _ _ _ Hpn2)).
  unfold bind at 1.
  rewrite (mapM_pure _ (fun c => if String.eqb
              (match nodes s2 !! c with Some cn => node_id cn | None => EmptyString end)
              (node_id nn') then node else c)).
  2:{ intros c Hc. rewrite Hcpn in Hc.
      apply list_elem_of_fmap in Hc as (k & -> & Hk).
      destruct (repr_inv _ _ (Hrk k Hk)) as (kn & Hkn & _).
      assert (Hkn2 : nodes s2 !! root k = Some kn).
      { simpl. rewrite list_lookup_insert_ne; [done|].
        assert (length (nodes s) <= root k); [|lia].
        apply Hrg. apply addrs_preorder.
        eapply preorder_trans; [|exact Hw].
        destruct w. eapply elem_of_preorder_kid; [exact Hk|apply root_in_preorder]. }
      rewrite (bind_val _ _ _ _ _ (getNode_val _ _ _ Hkn2)).
      rewrite (bind_val _ _ _ _ _ (getNode_val _ _ _ Hnode2)).
      by rewrite Hkn2. }
  assert (Ecs : map (fun c => if String.eqb
              (match nodes s2 !! c with Some cn => node_id cn | None => EmptyString end)
              (node_id nn') then node else c) (node_children pn) = cs).
  { unfold cs. rewrite Hcpn.
    destruct (sibling_ids_sub _ _ Hids1 Hw) as [Hndw _].
    rewrite <- (replace_by_id (fun k => view_id (view k)) root node _ _ _ Hndw Hi).
    rewrite map_map. apply map_ext_in. intros k Hk. apply list_elem_of_In in Hk.
    destruct (repr_inv _ _ (Hrk k Hk)) as (kn & Hkn & Hvk & _).
    assert (Hkn2 : nodes s2 !! root k = Some kn).
    { simpl. rewrite list_lookup_insert_ne; [done|].
      assert (length (nodes s) <= root k); [|lia].
      apply Hrg. apply addrs_preorder.
      eapply preorder_trans; [|exact Hw].
      destruct w. eapply elem_of_preorder_kid; [exact Hk|apply root_in_preorder]. }
    rewrite Hkn2. simpl.
    by rewrite <- (view_of_id _ _ _ Hvk), <- (view_of_id _ _ _ Hvtn). }
  rewrite Ecs. rewrite (bind_val _ _ _ _ _ (modNode_val _ _ _ _ Hpn2)).
  reflexivity.
Qed.

(** X11: [replace] writes the replacement and objects of the clone only: every
    other object the caller had is as it was, and the receiver is still the
    tree it was unless the replacement is one of its nodes. *)
Theorem replace_keeps_the_receiver fuel predicate s t node nn :
  repr s t -> sibling_ids t -> size t <= fuel ->
  nodes s !! node = Some nn ->
  exists r s',
    Node_replace fuel node predicate (root t) s = (r, s') /\
    (forall a, a < length (nodes s) -> a <> node -> nodes s' !! a = nodes s !! a) /\
    tasks s `prefix_of` tasks s' /\
    (node ∉ addrs t -> repr s' t).
Proof.
  intros Hr Hids Hsz Hnode.
  destruct (Node_replace_run fuel predicate s t node nn Hr Hids Hsz Hnode)
    as (t1 & s1 & Hcl & He & Hr1 & Hl1 & Hrg & Hnd & Hcases).
  assert (Hold : forall a, a < length (nodes s) -> nodes s1 !! a = nodes s !! a).
  { intros a Ha. destruct (lookup_lt_is_Some_2 _ _ Ha) as [x Hx]. rewrite Hx.
    eapply extends_node; eauto. }
  assert (Hin : forall a, a ∈ addrs t -> a < length (nodes s)).
  { intros a Ha. apply list_elem_of_fmap in Ha as (u & -> & Hu).
    destruct (repr_nodes _ _ _ Hr Hu) as [x Hx]. by eapply lookup_lt_Some. }
  destruct Hcases as [(r & Hrun)|[(e & Hrun)|(u & w & i & tn & pn & Hw & Hi & Htn & Hctn & Hpn & Hcpn & Hrun)]];
    eexists _, _; (split; [exact Hrun|]); simpl; split_and!; auto; try apply He.
  - intros _. by eapply repr_extends.
  - intros _. apply repr_log. by eapply repr_extends.
  - intros a Ha1 Ha2.
    assert (length (nodes s) <= root w) by (apply Hrg; by apply addrs_preorder).
    rewrite !list_lookup_insert_ne by lia. by apply Hold.
  - intros Hni. eapply repr_agree; [exact Hr| |apply He].
    intros a Ha. simpl.
    assert (length (nodes s) <= root w) by (apply Hrg; by apply addrs_preorder).
    pose proof (Hin a Ha).
    rewrite !list_lookup_insert_ne; [by apply Hold| intros ->; done | lia].
Qed.

Lemma replace_keeps_the_receiver_witness :
  repr example_store example_tree /\ sibling_ids example_tree /\
  size example_tree <= 5 /\
  nodes example_store !! 5 =
    Some (mkNode TASK 7 (PlainNode (DataTask 1)) None [] None "x"%string) /\
  exists r s',
    Node_replace 5 5 (on_view (throws_on "zz"%string "t2"%string))
      (root example_tree) example_store = (r, s') /\
    (forall a, a < length (nodes example_store) -> a <> 5 ->
               nodes s' !! a = nodes example_store !! a) /\
    tasks example_store `prefix_of` tasks s' /\
    (5 ∉ addrs example_tree -> repr s' example_tree).
Proof.
  split; [exact example_repr|]. split; [exact example_sibling_ids|].
  split; [vm_compute; lia|]. split; [reflexivity|].
  apply (replace_keeps_the_receiver
           5 (on_view (throws_on "zz"%string "t2"%string)) example_store example_tree 5
           (mkNode TASK 7 (PlainNode (DataTask 1)) None [] None "x"%string)).
  - exact example_repr.
  - exact example_sibling_ids.
  - vm_compute; lia.
  - reflexivity.
Defined.

(** A predicate on the content of a node finds in a copy of the tree the
    node at the place where it finds one in the tree. *)
Lemma first_match_copy Q s s1 : forall L L1 a,
  map anon L1 = map anon L -> Forall (repr s) L -> Forall (repr s1) L1 ->
  first_match (on_view Q) s (map root L) = Val (Some a) ->
  exists i u u1,
    L !! i = Some u /\ L1 !! i = Some u1 /\ root u = a /\
    first_match (on_view Q) s1 (map root L1) = Val (Some (root u1)).
Proof.
  induction L as [|x L IH]; intros [|x1 L1] a E Hr Hr1 Hscan; try discriminate.
  injection E as Ex E.
  inversion Hr as [|? ? Hx HL]; subst. inversion Hr1 as [|? ? Hx1 HL1]; subst.
  destruct (repr_inv _ _ Hx) as (n & Hn & Hv & _).
  destruct (repr_inv _ _ Hx1) as (n1 & Hn1 & Hv1 & _).
  assert (Ev : view x1 = view x) by (by rewrite <- (view_anon x1), Ex, view_anon).
  simpl in Hscan |- *. unfold on_view at 1 in Hscan. unfold on_view at 1.
  rewrite Hn, Hv in Hscan. rewrite Hn1, Hv1, Ev.
  destruct (Q (view x)) as [[|]|]; try discriminate.
  - injection Hscan as <-. by exists 0, x, x1.
  - destruct (IH L1 a E HL HL1 Hscan) as (i & u & u1 & Hi & Hi1 & Hu & Hrun).
    by exists (S i), u, u1.
Qed.

(** What [replace] does when the search stops on a node below the root. *)
Lemma Node_replace_found fuel predicate s t node nn :
  repr s t -> sibling_ids t -> size t <= fuel ->
  nodes s !! node = Some nn ->
  exists t1 s1,
    clone fuel [root t] None s = (Val [root t1], s1) /\
    extends s s1 /\ repr s1 t1 /\ linked s1 None t1 /\ anon t1 = anon t /\
    (forall a, a ∈ addrs t1 -> length (nodes s) <= a < length (nodes s1)) /\
    NoDup (addrs t1) /\ sibling_ids t1 /\
    forall target,
      first_match predicate s1 (map root (bfs t1)) = Val (Some target) ->
      target <> root t1 ->
      exists u w i tn pn,
        root u = target /\
        w ∈ preorder t1 /\ kids_of w !! i = Some u /\
        nodes s1 !! root u = Some tn /\
        node_children tn = map root (kids_of u) /\
        nodes s1 !! root w = Some pn /\
        node_children pn = map root (kids_of w) /\
        Node_replace fuel node predicate (root t) s =
        (Val (root t1),
         mkStore
           (<[root w:=set_children (<[i:=node]> (node_children pn)) pn]>
              (<[node:=replacement nn tn (root w)]> (nodes s1)))
           (tasks s1) (log s1)).
Proof.
  intros Hr Hids Hsz Hnode.
  pose proof (height_le_size t) as Hhs.
  destruct (clone_one fuel s t Hr) as (t1 & s1 & Hcl & He & Hr1 & Hl1 & Ha & Hrg & Hnd & _);
    [lia|].
  assert (Hids1 : sibling_ids t1).
  { apply sibling_ids_anon. rewrite Ha. by apply anon_sibling_ids. }
  assert (Hsz1 : size t1 <= fuel).
  { rewrite <- size_anon, Ha, size_anon. done. }
  exists t1, s1. split_and!; auto.
  intros target Hscan Hnr.
  assert (Hev : exists r, Node_replace fuel node predicate (root t) s = r /\
                          r = Node_replace fuel node predicate (root t) s) by eauto.
  destruct Hev as (r & Hev & Er).
  rewrite Node_replace_eq in Er. unfold bind at 1 in Er. rewrite Hcl in Er.
  unfold bind at 1 in Er. rewrite (Node_find_spec fuel predicate s1 t1 Hr1 Hsz1) in Er.
  rewrite Hscan in Er.
  apply first_match_Some, list_elem_of_fmap in Hscan as (u & -> & Hu).
  apply bfs_preorder in Hu.
  destruct (repr_inv _ _ (repr_sub _ _ _ Hr1 Hu)) as (tn & Htn & Hvtn & Hctn & _).
  rewrite (bind_val _ _ _ _ _ (getNode_val _ _ _ Htn)) in Er.
  destruct (preorder_parent _ _ Hu) as [->|(w & i & Hw & Hi)]; [done|].
  destruct (linked_sub _ _ _ _ Hl1 Hw) as (q & Hlw).
  destruct (linked_inv _ _ _ Hlw) as (pn & Hpn & _ & Hlk).
  destruct (repr_inv _ _ (repr_sub _ _ _ Hr1 Hw)) as (pn' & Hpn' & Hvpn & Hcpn & Hrk).
  assert (pn' = pn) by congruence. subst pn'.
  assert (Hukid : u ∈ kids_of w) by (apply list_elem_of_lookup; eauto).
  rewrite Forall_forall in Hlk, Hrk.
  destruct (linked_inv _ _ _ (Hlk u Hukid)) as (tn' & Htn' & Hptn & _).
  assert (tn' = tn) by congruence. subst tn'.
  assert (Hnode1 : nodes s1 !! node = Some nn) by (eapply extends_node; eauto).
  assert (Hnode_old : node < length (nodes s)) by (by eapply lookup_lt_Some).
  assert (Hw_new : length (nodes s) <= root w).
  { apply Hrg. by apply addrs_preorder. }
  set (nn' := replacement nn tn (root w)).
  set (s2 := mkStore (<[node:=nn']> (nodes s1)) (tasks s1) (log s1)).
  assert (Hpn2 : nodes s2 !! root w = Some pn).
  { simpl. rewrite list_lookup_insert_ne by lia. done. }
  assert (Hnode2 : nodes s2 !! node = Some nn').
  { simpl. apply list_lookup_insert_eq. by eapply lookup_lt_Some. }
  set (cs := <[i:=node]> (node_children pn)).
  exists u, w, i, tn, pn. split_and!; auto.
  rewrite Hev, Er, Hptn.
  unfold bind at 1. rewrite (modNode_val _ _ _ _ Hnode1). fold nn' s2.
  rewrite (bind_val _ _ _ _ _ (getNode_val _ _ _ Hpn2)).
  unfold bind at 1.
  rewrite (mapM_pure _ (fun c => if String.eqb
              (match nodes s2 !! c with Some cn => node_id cn | None => EmptyString end)
              (node_id nn') then node else c)).
  2:{ intros c Hc. rewrite Hcpn in Hc.
      apply list_elem_of_fmap in Hc as (k & -> & Hk).
      destruct (repr_inv _ _ (Hrk k Hk)) as (kn & Hkn & _).
      assert (Hkn2 : nodes s2 !! root k = Some kn).
      { simpl. rewrite list_lookup_insert_ne; [done|].
        assert (length (nodes s) <= root k); [|lia].
        apply Hrg. apply addrs_preorder.
        eapply preorder_trans; [|exact Hw].
        destruct w. eapply elem_of_preorder_kid; [exact Hk|apply root_in_preorder]. }
      rewrite (bind_val _ _ _ _ _ (getNode_val _ _ _ Hkn2)).
      rewrite (bind_val _ _ _ _ _ (getNode_val _ _ _ Hnode2)).
      by rewrite Hkn2. }
  assert (Ecs : map (fun c => if String.eqb
              (match nodes s2 !! c with Some cn => node_id cn | None => EmptyString end)
              (node_id nn') then node else c) (node_children pn) = cs).
  { unfold cs. rewrite Hcpn.
    destruct (sibling_ids_sub _ _ Hids1 Hw) as [Hndw _].
    rewrite <- (replace_by_id (fun k => view_id (view k)) root node _ _ _ Hndw Hi).
    rewrite map_map. apply map_ext_in. intros k Hk. apply list_elem_of_In in Hk.
    destruct (repr_inv _ _ (Hrk k Hk)) as (kn & Hkn & Hvk & _).
    assert (Hkn2 : nodes s2 !! root k = Some kn).
    { simpl. rewrite list_lookup_insert_ne; [done|].
      assert (length (nodes s) <= root k); [|lia].
      apply Hrg. apply addrs_preorder.
      eapply preorder_trans; [|exact Hw].
      destruct w. eapply elem_of_preorder_kid; [exact Hk|apply root_in_preorder]. }
    rewrite Hkn2. simpl.
    by rewrite <- (view_of_id _ _ _ Hvk), <- (view_of_id _ _ _ Hvtn). }
  rewrite Ecs. rewrite (bind_val _ _ _ _ _ (modNode_val _ _ _ _ Hpn2)).
  reflexivity.
Qed.

(** X12: when the predicate, one on the content of a node, first holds on a
    node below the root, [replace] puts the replacement in the place of the
    copy of that node in the clone: the replacement gets the id, the line
    and the children of the replaced node, and the parent holds the
    replacement and no longer the replaced node.  The parent reference of
    the children is not updated: each of them still has the replaced node as
    its parent, an object of the clone that is as [clone] built it and is
    not the replacement. *)
Theorem replace_does_not_reparent_children fuel Q s t node nn a :
  repr s t -> sibling_ids t -> size t <= fuel ->
  nodes s !! node = Some nn ->
  first_match (on_view Q) s (map root (bfs t)) = Val (Some a) ->
  a <> root t ->
  exists t1 s1 s' u0 u w tn nn' pn',
    clone fuel [root t] None s = (Val [root t1], s1) /\
    Node_replace fuel node (on_view Q) (root t) s = (Val (root t1), s') /\
    u0 ∈ preorder t /\ root u0 = a /\
    u ∈ preorder t1 /\ anon u = anon u0 /\
    w ∈ preorder t1 /\ u ∈ kids_of w /\
    nodes s1 !! root u = Some tn /\
    length (nodes s) <= root u /\ root u <> node /\
    nodes s' !! node = Some nn' /\
    nn' = replacement nn tn (root w) /\
    node_id nn' = node_id tn /\ node_line nn' = node_line tn /\
    node_parent nn' = Some (root w) /\
    node_children nn' = map root (kids_of u) /\
    length (node_children nn') = length (kids_of u0) /\
    nodes s' !! root w = Some pn' /\
    node ∈ node_children pn' /\ (root u ∉ node_children pn') /\
    nodes s' !! root u = Some tn /\
    (forall k, k ∈ kids_of u ->
       exists kn, nodes s' !! root k = Some kn /\ node_parent kn = Some (root u)).
Proof.
  intros Hr Hids Hsz Hnode Hscan Hne.
  destruct (Node_replace_found fuel (on_view Q) s t node nn Hr Hids Hsz Hnode)
    as (t1 & s1 & Hcl & He & Hr1 & Hl1 & Ha & Hrg & Hnd & Hids1 & Hfound).
  assert (Hbfs : map anon (bfs t1) = map anon (bfs t)).
  { by rewrite <- !bfs_anon, Ha. }
  assert (HrL : Forall (repr s) (bfs t)).
  { apply Forall_forall. intros x Hx. eapply repr_sub; [exact Hr|by apply bfs_preorder]. }
  assert (HrL1 : Forall (repr s1) (bfs t1)).
  { apply Forall_forall. intros x Hx. eapply repr_sub; [exact Hr1|by apply bfs_preorder]. }
  destruct (first_match_copy Q s s1 (bfs t) (bfs t1) a Hbfs HrL HrL1 Hscan)
    as (j & u0 & u1 & Hj & Hj1 & Hroot0 & Hscan1).
  assert (Hu0 : u0 ∈ preorder t).
  { apply bfs_preorder. apply list_elem_of_lookup. eauto. }
  assert (Hu1 : u1 ∈ preorder t1).
  { apply bfs_preorder. apply list_elem_of_lookup. eauto. }
  assert (Han : anon u1 = anon u0).
  { assert (E1 : map anon (bfs t1) !! j = Some (anon u1))
      by (by rewrite list_lookup_fmap, Hj1).
    assert (E0 : map anon (bfs t) !! j = Some (anon u0))
      by (by rewrite list_lookup_fmap, Hj).
    rewrite Hbfs in E1. congruence. }
  assert (Hne1 : root u1 <> root t1).
  { intros E. assert (u1 = t1).
    { apply (preorder_root_inj t1); auto. apply root_in_preorder. }
    subst u1. destruct (bfs_unfold t1) as (h1 & Eb1 & _).
    destruct (bfs_unfold t) as (h0 & Eb0 & _).
    destruct j as [|j].
    - rewrite Eb0 in Hj. simpl in Hj. injection Hj as <-. by apply Hne.
    - assert (Hdup : NoDup (map root (bfs t1))).
      { rewrite (bfs_perm t1). exact Hnd. }
      assert (S j = 0); [|discriminate].
      eapply NoDup_lookup; [exact Hdup| |].
      + by rewrite list_lookup_fmap, Hj1.
      + by rewrite Eb1. }
  destruct (Hfound (root u1) Hscan1 Hne1)
    as (u & w & i & tn & pn & Hroot & Hw & Hi & Htn & Hctn & Hpn & Hcpn & Hrun).
  assert (Hukid : u ∈ kids_of w) by (apply list_elem_of_lookup; eauto).
  assert (Hu : u ∈ preorder t1).
  { eapply preorder_trans; [|exact Hw]. rewrite preorder_unfold. right.
    by apply elem_of_forest_preorder. }
  assert (u = u1) by (by apply (preorder_root_inj t1)). subst u1.
  assert (Hnode_old : node < length (nodes s)) by (by eapply lookup_lt_Some).
  assert (Hw_new : length (nodes s) <= root w < length (nodes s1))
    by (apply Hrg; by apply addrs_preorder).
  assert (Hu_new : length (nodes s) <= root u) by (apply Hrg; by apply addrs_preorder).
  assert (Hneq_uw : root u <> root w).
  { intros E. assert (u = w) by (by apply (preorder_root_inj t1)). subst u.
    pose proof (size_kid _ _ Hukid). lia. }
  assert (Hlen1 : length (nodes s) <= length (nodes s1)) by (by apply extends_length).
  assert (Hi_lt : i < length (map root (kids_of w))).
  { rewrite length_map. by eapply lookup_lt_Some. }
  eexists t1, s1, _, u0, u, w, tn, (replacement nn tn (root w)), _.
  split; [exact Hcl|]. split; [exact Hrun|]. simpl. split_and!; auto.
  - lia.
  - rewrite list_lookup_insert_ne by lia. apply list_lookup_insert_eq. lia.
  - rewrite Hctn, length_map.
    rewrite <- (length_map anon (kids_of u)), <- kids_anon, Han, kids_anon.
    apply length_map.
  - apply list_lookup_insert_eq. rewrite length_insert. lia.
  - simpl. rewrite Hcpn. apply list_elem_of_lookup. exists i.
    by apply list_lookup_insert_eq.
  - simpl. rewrite Hcpn. intros Hin.
    apply list_elem_of_lookup in Hin as (j' & Hj').
    destruct (decide (j' = i)) as [->|Hji].
    + rewrite list_lookup_insert_eq in Hj' by done. injection Hj' as E. lia.
    + rewrite list_lookup_insert_ne in Hj' by done.
      rewrite list_lookup_fmap in Hj'.
      destruct (kids_of w !! j') as [kj|] eqn:Hkj; [|discriminate].
      injection Hj' as Erj.
      assert (Hkj_in : kj ∈ preorder t1).
      { eapply preorder_trans; [|exact Hw]. rewrite preorder_unfold. right.
        apply elem_of_forest_preorder. apply list_elem_of_lookup. eauto. }
      assert (kj = u) by (by apply (preorder_root_inj t1)). subst kj.
      destruct (sibling_ids_sub _ _ Hids1 Hw) as [Hndw _].
      apply Hji. eapply NoDup_lookup; [exact Hndw| |].
      * by rewrite list_lookup_fmap, Hkj.
      * by rewrite list_lookup_fmap, Hi.
  - rewrite !list_lookup_insert_ne by lia. exact Htn.
  - intros k Hk.
    destruct (linked_sub _ _ _ _ Hl1 Hu) as (q & Hlu).
    destruct (linked_inv _ _ _ Hlu) as (tn' & Htn' & _ & Hlk).
    rewrite Forall_forall in Hlk.
    destruct (linked_inv _ _ _ (Hlk k Hk)) as (kn & Hkn & Hpk & _).
    assert (Hk_pre : k ∈ preorder t1).
    { eapply preorder_trans; [|exact Hu]. rewrite preorder_unfold. right.
      by apply elem_of_forest_preorder. }
    assert (Hk_new : length (nodes s) <= root k) by (apply Hrg; by apply addrs_preorder).
    assert (Hneq_kw : root k <> root w).
    { intros E. assert (k = w) by (by apply (preorder_root_inj t1)). subst k.
      pose proof (size_kid _ _ Hk). pose proof (size_kid _ _ Hukid). lia. }
    exists kn. split; [|done].
    rewrite !list_lookup_insert_ne by lia. done.
Qed.

Lemma replace_does_not_reparent_children_witness :
  repr example_store example_tree /\ sibling_ids example_tree /\
  size example_tree <= 5 /\
  nodes example_store !! 5 =
    Some (mkNode TASK 7 (PlainNode (DataTask 1)) None [] None "x"%string) /\
  first_match (on_view (throws_on "zz"%string "h"%string)) example_store
    (map root (bfs example_tree)) = Val (Some 1) /\
  1 <> root example_tree /\
  exists t1 s1 s' u0 u w tn nn' pn',
    clone 5 [root example_tree] None example_store = (Val [root t1], s1) /\
    Node_replace 5 5 (on_view (throws_on "zz"%string "h"%string))
      (root example_tree) example_store = (Val (root t1), s') /\
    u0 ∈ preorder example_tree /\ root u0 = 1 /\
    u ∈ preorder t1 /\ anon u = anon u0 /\
    w ∈ preorder t1 /\ u ∈ kids_of w /\
    nodes s1 !! root u = Some tn /\
    length (nodes example_store) <= root u /\ root u <> 5 /\
    nodes s' !! 5 = Some nn' /\
    nn' = replacement
            (mkNode TASK 7 (PlainNode (DataTask 1)) None [] None "x"%string)
            tn (root w) /\
    node_id nn' = node_id tn /\ node_line nn' = node_line tn /\
    node_parent nn' = Some (root w) /\
    node_children nn' = map root (kids_of u) /\
    length (node_children nn') = length (kids_of u0) /\
    nodes s' !! root w = Some pn' /\
    5 ∈ node_children pn' /\ (root u ∉ node_children pn') /\
    nodes s' !! root u = Some tn /\
    (forall k, k ∈ kids_of u ->
       exists kn, nodes s' !! root k = Some kn /\ node_parent kn = Some (root u)).
Proof.
  split; [exact example_repr|]. split; [exact example_sibling_ids|].
  split; [vm_compute; lia|]. split; [reflexivity|].
  split; [reflexivity|]. split; [simpl; lia|].
  apply (replace_does_not_reparent_children
           5 (throws_on "zz"%string "h"%string) example_store example_tree 5
           (mkNode TASK 7 (PlainNode (DataTask 1)) None [] None "x"%string) 1).
  - exact example_repr.
  - exact example_sibling_ids.
  - vm_compute; lia.
  - reflexivity.
  - reflexivity.
  - simpl; lia.
Defined.

Local Open Scope Z_scope.

(** ** TodoItem *)

(** When [actualTimes] holds a [Time], [trackingEnd] adds the elapsed time to
    it, stops the item and clears the start time. *)
Lemma trackingEnd_accumulates now this actual :
  actualTimes this = Some actual ->
  TodoItem_trackingEnd now this =
  (Val tt,
   mkTodoItem (todo_id this) (title this) STOP (estimatedTimes this)
     (Some (Time_add actual (Time_parseMs (now - trackingStartTime this)))) 0).
Proof. intros H. unfold TodoItem_trackingEnd. now rewrite H. Qed.

(** C4, at the failing input: an item built by the constructor and started at
    1000 ms is RUNNING, and [trackingEnd] at 121000 ms throws a [TypeError]
    and leaves the item as it was: still RUNNING, start time still set,
    nothing added to [actualTimes]. *)
Theorem trackingEnd_on_constructed_item_throws :
  let item := TodoItem_trackingStart 1000
                (fst (TodoItem_new "write report" (new_Time 0 30 0 0) 0)) in
  todoState item = RUNNING /\
  TodoItem_trackingEnd 121000 item = (Exn TypeError, item) /\
  todoState (snd (TodoItem_trackingEnd 121000 item)) = RUNNING /\
  trackingStartTime (snd (TodoItem_trackingEnd 121000 item)) = 1000.
Proof. cbv zeta. repeat split. Qed.

(** C8, counterexample: completing a RUNNING item changes its tracking
    state: it is no longer RUNNING. *)
Lemma complete_changes_tracking_state :
  let item := mkTodoItem 1 "write report" RUNNING Time_zero None 1000 in
  todoState item = RUNNING /\
  todoState (TodoItem_complete item) <> todoState item.
Proof. cbv zeta. split; [reflexivity | discriminate]. Qed.

(** C8, amended: [complete] is defined on every item, whatever its state;
    it writes [todoState], which becomes COMPLETE, and nothing else: id,
    title, both times and [trackingStartTime] are what they were. *)
Theorem complete_writes_only_todoState :
  forall i ttl st est act start,
    TodoItem_complete (mkTodoItem i ttl st est act start) =
    mkTodoItem i ttl COMPLETE est act start.
Proof. reflexivity. Qed.

(** C9: an item from the constructor, and so every item [parse] returns, has
    no [actualTimes]; [trackingEnd] on it, at once or after [trackingStart],
    throws a [TypeError] and accumulates nothing. *)
Theorem constructed_item_has_no_actualTimes :
  forall ttl time taskId now start,
    let item := fst (TodoItem_new ttl time taskId) in
    actualTimes item = None /\
    (forall todoRegexp_exec timeRegexp_exec Time_parseStr todoStr,
        actualTimes (fst (TodoItem_parse todoRegexp_exec timeRegexp_exec
                            Time_parseStr todoStr taskId)) = None) /\
    TodoItem_trackingEnd now item = (Exn TypeError, item) /\
    TodoItem_trackingEnd now (TodoItem_trackingStart start item) =
      (Exn TypeError, TodoItem_trackingStart start item).
Proof.
  intros ttl time taskId now start. cbv zeta. repeat split.
  intros rx1 rx2 ps todoStr. unfold TodoItem_parse.
  destruct (rx1 todoStr); reflexivity.
Qed.

(** C10: [trackingStart] is defined on every item, whatever its state; it
    sets [trackingStartTime] to the clock reading and the state to RUNNING and
    writes nothing else.  The result does not depend on the state or on the
    start time the item had: a running session's start point is overwritten
    and [actualTimes] has gained nothing from it. *)
Theorem trackingStart_unguarded :
  forall now i ttl st est act start,
    TodoItem_trackingStart now (mkTodoItem i ttl st est act start) =
      mkTodoItem i ttl RUNNING est act now /\
    (forall st' start',
        TodoItem_trackingStart now (mkTodoItem i ttl st' est act start') =
        TodoItem_trackingStart now (mkTodoItem i ttl st est act start)).
Proof. intros. split; reflexivity. Qed.

(** ** The tracking records read back from storage *)

Lemma Time_add_zero_2min now :
  Time_add (new_Time 0 0 0 0) (Time_parseMs (now - (now - 120000))) =
  new_Time 0 2 0 0.
Proof. replace (now - (now - 120000)) with 120000 by lia. reflexivity. Qed.

(** C5: each stored record comes back with its elapsed time rebuilt as a
    [Time]; when [isTracking] is set, the time since [trackingStartTime],
    parsed from milliseconds, is added to it, and otherwise nothing is.  A
    record that started tracking 120000 ms ago with a zero elapsed time comes
    back with exactly two minutes. *)
Theorem resume_adds_elapsed_gap :
  forall clock trackings i,
    length (savedTrackingStateList clock (Some trackings)) = length trackings /\
    savedTrackingStateList clock (Some trackings) !! i =
      rehydrate (clock i) <$> trackings !! i /\
    (forall now l start obj,
        rehydrate now (mkStoredTracking l true start obj) =
        mkTrackingState l true start
          (Time_add (new_Time (obj_seconds obj) (obj_minutes obj)
                              (obj_hours obj) (obj_days obj))
                    (Time_parseMs (now - start)))) /\
    (forall now l start obj,
        rehydrate now (mkStoredTracking l false start obj) =
        mkTrackingState l false start
          (new_Time (obj_seconds obj) (obj_minutes obj)
                    (obj_hours obj) (obj_days obj))) /\
    (forall now l,
        elapsedTime (rehydrate now (mkStoredTracking l true (now - 120000)
                                      (mkTimeObject 0 0 0 0))) =
        new_Time 0 2 0 0).
Proof.
  intros clock trackings i. unfold savedTrackingStateList.
  split; [apply length_imap |].
  split; [rewrite list_lookup_imap; reflexivity |].
  split; [reflexivity |]. split; [reflexivity |].
  intros now l. unfold rehydrate. simpl. apply Time_add_zero_2min.
Qed.

(** ** The text of the task list, line by line *)

(** X13: a line written with [setTextByLine] is the line [getTextByLine] reads
    back, and the other lines and the number of lines are as before, for a
    line number from 1 to the number of lines and a text without a line
    feed. *)
Theorem setTextByLine_then_getTextByLine textValue line text :
  1 <= line <= Z.of_nat (length (split_lines textValue)) ->
  has_newline text = false ->
  exists newText,
    setTextByLine textValue line text = (Some newText, []) /\
    getTextByLine newText line = (Some text, []) /\
    length (split_lines newText) = length (split_lines textValue) /\
    (forall l, l <> line -> getTextByLine newText l = getTextByLine textValue l).
Proof.
  intros Hline Htext.
  set (lines := split_lines textValue) in *.
  set (i := Z.to_nat (line - 1)).
  assert (Hi : (i < length lines)%nat) by lia.
  assert (Hset : js_set lines (line - 1) text = <[i:=text]> lines).
  { unfold js_set. destruct (Z.ltb_spec (line - 1) 0); [lia|done]. }
  assert (Hsplit : split_lines (join_lines (<[i:=text]> lines)) = <[i:=text]> lines).
  { apply split_join.
    - intros E. apply (f_equal length) in E. rewrite length_insert in E. simpl in E. lia.
    - apply Forall_insert; [apply split_lines_no_newline|done]. }
  exists (join_lines (<[i:=text]> lines)).
  unfold setTextByLine, getTextByLine. fold lines. rewrite Hset, Hsplit, length_insert.
  destruct (Z.gtb_spec (Z.of_nat (length lines)) (line - 1)); [|lia].
  split_and!; auto.
  - f_equal. unfold js_get. destruct (Z.ltb_spec (line - 1) 0); [lia|].
    by apply list_lookup_insert_eq.
  - intros l Hl. destruct (Z.of_nat (length lines) >? l - 1); [|done].
    f_equal. unfold js_get. destruct (Z.ltb_spec (l - 1) 0); [done|].
    apply list_lookup_insert_ne. unfold i. lia.
Qed.

Lemma setTextByLine_then_getTextByLine_witness :
  1 <= 2 <= Z.of_nat (length (split_lines example_text)) /\
  has_newline "- [x] b"%string = false /\
  exists newText,
    setTextByLine example_text 2 "- [x] b"%string = (Some newText, []) /\
    getTextByLine newText 2 = (Some "- [x] b"%string, []) /\
    length (split_lines newText) = length (split_lines example_text) /\
    (forall l, l <> 2 -> getTextByLine newText l = getTextByLine example_text l).
Proof.
  split; [vm_compute; split; discriminate|]. split; [reflexivity|].
  apply (setTextByLine_then_getTextByLine _ 2).
  - vm_compute; split; discriminate.
  - reflexivity.
Defined.

(** X14: beyond the last line, [getTextByLine] returns the empty string and
    [setTextByLine] writes nothing; both log the error. *)
Theorem textByLine_beyond_last_line textValue line text :
  Z.of_nat (length (split_lines textValue)) < line ->
  getTextByLine textValue line = (Some EmptyString, [line_does_not_exist]) /\
  setTextByLine textValue line text = (None, [line_does_not_exist]).
Proof.
  intros H. unfold getTextByLine, setTextByLine.
  destruct (Z.gtb_spec (Z.of_nat (length (split_lines textValue))) (line - 1)); [lia|done].
Qed.

Lemma textByLine_beyond_last_line_witness :
  Z.of_nat (length (split_lines "a"%string)) < 2 /\
  getTextByLine "a"%string 2 = (Some EmptyString, [line_does_not_exist]) /\
  setTextByLine "a"%string 2 "b"%string = (None, [line_does_not_exist]).
Proof.
  split; [reflexivity|]. apply (textByLine_beyond_last_line "a"%string 2 "b"%string).
  reflexivity.
Defined.

(** X15: for a line number below 1 the guard holds, since the index is
    negative: [getTextByLine] returns [undefined] without logging, and
    [setTextByLine] hands the unchanged text to [setText]. *)
Theorem textByLine_before_first_line textValue line text :
  line <= 0 ->
  getTextByLine textValue line = (None, []) /\
  setTextByLine textValue line text = (Some textValue, []).
Proof.
  intros H. unfold getTextByLine, setTextByLine, js_get, js_set.
  destruct (Z.gtb_spec (Z.of_nat (length (split_lines textValue))) (line - 1)); [|lia].
  destruct (Z.ltb_spec (line - 1) 0); [|lia]. by rewrite join_split.
Qed.

Lemma textByLine_before_first_line_witness :
  0 <= 0 /\
  getTextByLine "a"%string 0 = (None, []) /\
  setTextByLine "a"%string 0 "b"%string = (Some "a"%string, []).
Proof.
  split; [lia|]. apply (textByLine_before_first_line "a"%string 0 "b"%string). lia.
Defined.

(** *** The checkbox of a task *)

Lemma starts_with_drop p : forall s,
  starts_with p s = true -> (p ++ drop_chars (String.length p) s)%string = s.
Proof.
  induction p as [|a p IH]; intros s H; [done|].
  destruct s as [|b s]; [discriminate|]. simpl in *.
  apply andb_prop in H as [E H]. apply Ascii.eqb_eq in E as ->. by rewrite IH.
Qed.

Lemma drop_chars_append p : forall s,
  drop_chars (String.length p) (p ++ s) = s.
Proof. induction p as [|a p IH]; intros s; [done|]. simpl. apply IH. Qed.

Lemma starts_with_append p s : starts_with p (p ++ s) = true.
Proof.
  induction p as [|a p IH]; [done|]. simpl. by rewrite Ascii.eqb_refl, IH.
Qed.

Lemma has_newline_append a b :
  has_newline (a ++ b) = has_newline a || has_newline b.
Proof. induction a as [|c a IH]; [done|]. simpl. by rewrite IH, orb_assoc. Qed.

Lemma has_newline_drop n : forall s,
  has_newline s = false -> has_newline (drop_chars n s) = false.
Proof.
  induction n as [|n IH]; intros s H; [done|].
  destruct s as [|c s]; [done|]. simpl in *.
  apply orb_false_elim in H as [_ H]. by apply IH.
Qed.

Lemma has_newline_replace_first p r : forall s,
  has_newline r = false -> has_newline s = false ->
  has_newline (replace_first p r s) = false.
Proof.
  intros s Hr. induction s as [|c s IH]; intros Hs.
  - simpl. destruct (starts_with p EmptyString); [|done].
    rewrite has_newline_append, Hr. by destruct (String.length p).
  - cbn [replace_first]. destruct (starts_with p (String c s)).
    + rewrite has_newline_append, Hr. by apply has_newline_drop.
    + simpl in *. apply orb_false_elim in Hs as [-> Hs]. by apply IH.
Qed.

(** Putting the mark [b] into the first box with the mark [a] creates no box
    with [b] further to the left. *)
Lemma replace_first_no_earlier_box a b c : forall s,
  b <> "["%char ->
  starts_with (box b) (String c s) = false ->
  starts_with (box a) (String c s) = false ->
  starts_with (box b) (String c (replace_first (box a) (box b) s)) = false.
Proof.
  intros s Hb H1 H2. unfold box in *. cbn [starts_with] in *.
  destruct (Ascii.eqb "[" c) eqn:Ec; [|done]. cbn [andb] in *.
  destruct s as [|d s]; [done|].
  cbn [replace_first]. cbn [starts_with].
  destruct (Ascii.eqb "[" d) eqn:Ed.
  - apply Ascii.eqb_eq in Ed as <-. cbn [andb].
    assert (Ebb : Ascii.eqb b "[" = false) by (by apply Ascii.eqb_neq).
    destruct s as [|e s].
    { cbn [starts_with andb]. cbn [starts_with]. by rewrite Ebb. }
    cbn [starts_with]. destruct (Ascii.eqb a e && _); cbn; by rewrite Ebb.
  - cbn [andb]. cbn [starts_with].
    destruct (Ascii.eqb b d) eqn:Ebd; [|done]. cbn [andb] in *.
    destruct s as [|e s]; [done|].
    cbn [replace_first starts_with] in *.
    destruct (Ascii.eqb "[" e) eqn:Ee.
    + apply Ascii.eqb_eq in Ee as <-. simpl in H1.
      destruct s as [|f s]; cbn; [done|].
      destruct (Ascii.eqb a f && _); cbn; done.
    + cbn [andb]. cbn [starts_with]. by rewrite andb_true_r in *.
Qed.

Lemma replace_first_unfold p r s :
  replace_first p r s =
  if starts_with p s then (r ++ drop_chars (String.length p) s)%string
  else match s with
       | EmptyString => EmptyString
       | String c s' => String c (replace_first p r s')
       end.
Proof. by destruct s. Qed.

Lemma replace_first_back a b : forall s,
  b <> "["%char ->
  occurs (box b) s = false ->
  replace_first (box b) (box a) (replace_first (box a) (box b) s) = s.
Proof.
  intros s Hb. induction s as [|c s IH]; intros Hocc.
  - reflexivity.
  - cbn [occurs] in Hocc. apply orb_false_elim in Hocc as [Hsw Hocc].
    cbn [replace_first].
    destruct (starts_with (box a) (String c s)) eqn:Ea.
    + rewrite replace_first_unfold, starts_with_append, drop_chars_append.
      by apply starts_with_drop.
    + cbn [replace_first].
      rewrite (replace_first_no_earlier_box a b c s Hb Hsw Ea).
      f_equal. by apply IH.
Qed.

Lemma js_get_Some {A} (array : list A) i x :
  js_get array i = Some x <-> 0 <= i /\ array !! Z.to_nat i = Some x.
Proof.
  unfold js_get. destruct (Z.ltb_spec i 0); split.
  - discriminate.
  - intros [? _]. lia.
  - intros ?. split; [lia|done].
  - by intros [_ ?].
Qed.

Lemma js_get_in_range {A} (array : list A) i :
  0 <= i < Z.of_nat (length array) -> is_Some (js_get array i).
Proof.
  intros H. unfold js_get. destruct (Z.ltb_spec i 0); [lia|].
  apply lookup_lt_is_Some. lia.
Qed.

(** X16: a checkbox whose line number is not a line of the text makes
    [toggleItemCompletion] throw a [TypeError]; no text is saved. *)
Theorem toggle_outside_the_text_throws todoListText dataset_line checked :
  dataset_line < 1 \/ Z.of_nat (length (split_lines todoListText)) < dataset_line ->
  Popup_toggleItemCompletion todoListText dataset_line checked = Exn TypeError.
Proof.
  intros H. unfold Popup_toggleItemCompletion, js_get.
  destruct (Z.ltb_spec (dataset_line - 1) 0); [done|].
  rewrite (proj2 (lookup_ge_None _ _)); [done|]. lia.
Qed.

Lemma toggle_outside_the_text_throws_witness :
  (4 < 1 \/ Z.of_nat (length (split_lines example_text)) < 4) /\
  Popup_toggleItemCompletion example_text 4 true = Exn TypeError.
Proof.
  split; [right; reflexivity|].
  apply (toggle_outside_the_text_throws example_text 4 true). right. reflexivity.
Defined.

(** What [toggleItemCompletion] saves for a line of the text. *)
Lemma toggleItemCompletion_run todoListText dataset_line checked old :
  1 <= dataset_line ->
  split_lines todoListText !! Z.to_nat (dataset_line - 1) = Some old ->
  Popup_toggleItemCompletion todoListText dataset_line checked =
  Val (join_lines
         (<[Z.to_nat (dataset_line - 1) :=
              if checked then replace_first (box " ") (box "x") old
              else replace_first (box "x") (box " ") old]>
            (split_lines todoListText))).
Proof.
  intros Hpos Hold. unfold Popup_toggleItemCompletion.
  assert (Hget : js_get (split_lines todoListText) (dataset_line - 1) = Some old).
  { apply js_get_Some. split; [lia|exact Hold]. }
  rewrite Hget.
  unfold js_set. destruct (Z.ltb_spec (dataset_line - 1) 0); [lia|].
  by destruct checked.
Qed.

(** Writing a line without a line feed into a text changes that line only. *)
Lemma split_join_insert text i x :
  has_newline x = false ->
  split_lines (join_lines (<[i:=x]> (split_lines text))) = <[i:=x]> (split_lines text).
Proof.
  intros Hx. apply split_join.
  - intros E. apply (f_equal length) in E. rewrite length_insert in E.
    pose proof (split_lines_length text). simpl in E. lia.
  - apply Forall_insert; [apply split_lines_no_newline|done].
Qed.

(** X17: for a line of the text, [toggleItemCompletion] saves a text with the
    same number of lines in which only that line may differ: in it the first
    ["[ ]"] has become ["[x]"] when the box was checked, and the first
    ["[x]"] has become ["[ ]"] when it was unchecked. *)
Theorem toggle_rewrites_one_line todoListText dataset_line checked :
  1 <= dataset_line <= Z.of_nat (length (split_lines todoListText)) ->
  exists old newText,
    split_lines todoListText !! Z.to_nat (dataset_line - 1) = Some old /\
    Popup_toggleItemCompletion todoListText dataset_line checked = Val newText /\
    split_lines newText =
      <[Z.to_nat (dataset_line - 1) :=
          if checked then replace_first (box " ") (box "x") old
          else replace_first (box "x") (box " ") old]> (split_lines todoListText).
Proof.
  intros H.
  destruct (lookup_lt_is_Some_2 (split_lines todoListText) (Z.to_nat (dataset_line - 1)))
    as [old Hold]; [lia|].
  assert (Hnl : has_newline old = false).
  { pose proof (split_lines_no_newline todoListText) as F.
    rewrite Forall_forall in F. apply F. apply list_elem_of_lookup. eauto. }
  eexists old, _. split; [exact Hold|].
  split; [apply toggleItemCompletion_run; [lia|exact Hold]|].
  apply split_join_insert. destruct checked; by apply has_newline_replace_first.
Qed.

Lemma toggle_rewrites_one_line_witness :
  1 <= 2 <= Z.of_nat (length (split_lines example_text)) /\
  exists old newText,
    split_lines example_text !! Z.to_nat (2 - 1) = Some old /\
    Popup_toggleItemCompletion example_text 2 true = Val newText /\
    split_lines newText =
      <[Z.to_nat (2 - 1) :=
          if true then replace_first (box " ") (box "x") old
          else replace_first (box "x") (box " ") old]> (split_lines example_text).
Proof.
  split; [vm_compute; split; discriminate|].
  apply (toggle_rewrites_one_line example_text 2 true).
  vm_compute; split; discriminate.
Defined.

(** X18: checking a box and unchecking it again gives back the text, when the
    line has no ["[x]"] before the click; unchecking and checking again gives
    it back when the line has no ["[ ]"]. *)
Theorem toggle_twice_restores_the_text todoListText dataset_line (checked : bool) old :
  split_lines todoListText !! Z.to_nat (dataset_line - 1) = Some old ->
  1 <= dataset_line ->
  occurs (box (if checked then "x"%char else " "%char)) old = false ->
  exists newText,
    Popup_toggleItemCompletion todoListText dataset_line checked = Val newText /\
    Popup_toggleItemCompletion newText dataset_line (negb checked) = Val todoListText.
Proof.
  intros Hold Hpos Hocc.
  set (i := Z.to_nat (dataset_line - 1)) in *.
  set (new := if checked then replace_first (box " ") (box "x") old
              else replace_first (box "x") (box " ") old).
  assert (Hi : (i < length (split_lines todoListText))%nat) by (by eapply lookup_lt_Some).
  assert (Hnl : has_newline old = false).
  { pose proof (split_lines_no_newline todoListText) as F.
    rewrite Forall_forall in F. apply F. apply list_elem_of_lookup. eauto. }
  assert (Hnew : has_newline new = false).
  { unfold new. destruct checked; by apply has_newline_replace_first. }
  eexists. split; [by apply toggleItemCompletion_run|]. fold i. fold new.
  rewrite (toggleItemCompletion_run _ dataset_line (negb checked) new Hpos).
  2:{ rewrite split_join_insert by done. fold i. by apply list_lookup_insert_eq. }
  fold i. rewrite split_join_insert, list_insert_insert_eq by done. f_equal.
  assert (Hback : (if negb checked then replace_first (box " ") (box "x") new
                   else replace_first (box "x") (box " ") new) = old).
  { unfold new. destruct checked; cbn [negb]; by apply replace_first_back. }
  rewrite Hback, list_insert_id by done. apply join_split.
Qed.

Lemma toggle_twice_restores_the_text_witness :
  split_lines example_text !! Z.to_nat (2 - 1) = Some "- [ ] b"%string /\
  1 <= 2 /\
  occurs (box (if true then "x"%char else " "%char)) "- [ ] b"%string = false /\
  exists newText,
    Popup_toggleItemCompletion example_text 2 true = Val newText /\
    Popup_toggleItemCompletion newText 2 (negb true) = Val example_text.
Proof.
  split; [reflexivity|]. split; [lia|]. split; [reflexivity|].
  apply (toggle_twice_restores_the_text example_text 2 true "- [ ] b"%string).
  - reflexivity.
  - lia.
  - reflexivity.
Defined.

(** ** The list of tracked lines *)

Lemma find_filter_other (trackings : list TrackingState) ln l' :
  l' <> ln ->
  List.find (fun n => line n =? l')
            (List.filter (fun n => negb (line n =? ln)) trackings) =
  List.find (fun n => line n =? l') trackings.
Proof.
  intros Hne. induction trackings as [|x xs IH]; [done|]. simpl.
  destruct (Z.eqb_spec (line x) ln) as [E|E]; simpl.
  - destruct (Z.eqb_spec (line x) l'); [lia|done].
  - destruct (Z.eqb_spec (line x) l'); [done|exact IH].
Qed.

Lemma find_filter_same (trackings : list TrackingState) ln :
  List.find (fun n => line n =? ln)
            (List.filter (fun n => negb (line n =? ln)) trackings) = None.
Proof.
  induction trackings as [|x xs IH]; [done|]. simpl.
  destruct (Z.eqb_spec (line x) ln) as [E|E]; simpl; [done|].
  destruct (Z.eqb_spec (line x) ln); [done|exact IH].
Qed.


Lemma filter_other_line (trackings : list TrackingState) ln (p : TrackingState -> bool) :
  (forall r, p r = true -> line r <> ln) ->
  List.filter p (List.filter (fun n => negb (line n =? ln)) trackings) =
  List.filter p trackings.
Proof.
  intros Hp. induction trackings as [|x xs IH]; [done|]. simpl.
  destruct (Z.eqb_spec (line x) ln) as [E|E]; simpl.
  - destruct (p x) eqn:Hx; [by apply Hp in Hx|exact IH].
  - destruct (p x); [by rewrite IH|exact IH].
Qed.

Lemma sublist_without_line (trackings : list TrackingState) ln : forall l,
  l `sublist_of` trackings -> (forall r, r ∈ l -> line r <> ln) ->
  l `sublist_of` List.filter (fun n => negb (line n =? ln)) trackings.
Proof.
  intros l Hsub. induction Hsub as [|x l1 l2 Hsub IH|x l1 l2 Hsub IH]; intros Hl.
  - constructor.
  - simpl. destruct (Z.eqb_spec (line x) ln) as [E|E]; simpl.
    + exfalso. apply (Hl x); [by left|done].
    + constructor. apply IH. intros r Hr. apply Hl. by right.
  - simpl. destruct (negb (line x =? ln)); [constructor|]; by apply IH.
Qed.

(** X19: when a task reports that it stopped tracking, the list handed to
    [setTrackings] is the list as it was without the records of the line of
    the task: it has the records of the other lines, all of them and in the
    order they had, and no record of that line.  So the line is then not
    tracked, and the lookup for every other line gives what it gave before.
    When the task reports that it started, [setTrackings] is not called. *)
Theorem stopped_line_leaves_the_registry trackings ln :
  exists newTrackings,
    onTrackingStateChange trackings ln false = Some newTrackings /\
    TaskItem_tracking newTrackings ln = None /\
    TaskItem_isTracking (TaskItem_tracking newTrackings ln) = false /\
    (forall l', l' <> ln ->
       TaskItem_tracking newTrackings l' = TaskItem_tracking trackings l') /\
    newTrackings `sublist_of` trackings /\
    (forall r, r ∈ newTrackings <-> r ∈ trackings /\ line r <> ln) /\
    (forall l, l `sublist_of` trackings -> (forall r, r ∈ l -> line r <> ln) ->
               l `sublist_of` newTrackings) /\
    (forall l', l' <> ln ->
       List.filter (fun n => line n =? l') newTrackings =
       List.filter (fun n => line n =? l') trackings) /\
    length trackings =
      (length newTrackings +
       length (List.filter (fun n => (line n =? ln)%Z) trackings))%nat /\
    onTrackingStateChange trackings ln true = None.
Proof.
  exists (List.filter (fun n => negb (line n =? ln)) trackings).
  split; [reflexivity|]. unfold TaskItem_tracking.
  rewrite find_filter_same. split_and!; auto.
  - intros l' Hne. by apply find_filter_other.
  - clear. induction trackings as [|x xs IH]; [constructor|]. simpl.
    destruct (negb _); by constructor.
  - intros r. rewrite list_elem_of_In, filter_In, <- list_elem_of_In.
    rewrite negb_true_iff, Z.eqb_neq. done.
  - apply sublist_without_line.
  - intros l' Hne. apply filter_other_line.
    intros r Hr. apply Z.eqb_eq in Hr. lia.
  - clear. induction trackings as [|x xs IH]; [done|]. simpl.
    destruct (line x =? ln); simpl; lia.
Qed.


(** X21: after the records are read back from storage, the record found for
    a line is the first stored record of that line, read back; so the line
    is shown as tracking exactly when that record says so, and a line
    without a stored record is not tracking. *)
Theorem reload_keeps_the_tracked_lines clock trackings ln :
  (exists i r,
      trackings !! i = Some r /\ stored_line r = ln /\
      (forall j r', (j < i)%nat -> trackings !! j = Some r' -> stored_line r' <> ln) /\
      TaskItem_tracking (savedTrackingStateList clock (Some trackings)) ln =
        Some (rehydrate (clock i) r) /\
      TaskItem_isTracking
        (TaskItem_tracking (savedTrackingStateList clock (Some trackings)) ln) =
        stored_isTracking r) \/
  ((forall r, r ∈ trackings -> stored_line r <> ln) /\
   TaskItem_tracking (savedTrackingStateList clock (Some trackings)) ln = None /\
   TaskItem_isTracking
     (TaskItem_tracking (savedTrackingStateList clock (Some trackings)) ln) = false).
Proof.
  unfold savedTrackingStateList, TaskItem_tracking.
  revert clock. induction trackings as [|x xs IH]; intros clock.
  { right. split_and!; auto. intros r Hr. inversion Hr. }
  cbn [imap List.find].
  destruct (Z.eqb_spec (line (rehydrate (clock 0%nat) x)) ln) as [E|E].
  - left. exists 0%nat, x. split_and!; auto. intros j r' Hj. lia.
  - destruct (IH (fun i => clock (S i))) as [(i & r & Hi & Hl & Hfirst & Hfind & Htr)|(Hno & Hfind & Htr)].
    + left. exists (S i), r. split_and!; auto.
      intros [|j] r' Hj Hr'; simpl in Hr'.
      * injection Hr' as <-. exact E.
      * eapply Hfirst; [|exact Hr']. lia.
    + right. split_and!; auto.
      intros r [->|Hr]%elem_of_cons; [exact E|by apply Hno].
Qed.
